(** * vtkPKdTree: the parallel k-d tree build, its selection and partition
      routines, the global index directory and the region assignment tables.

    The development follows Filters/Parallel/vtkPKdTree.cxx.  The point
    array of all processes is viewed as one global array [X] (the
    concatenation, in rank order, of every process's current buffer); a
    process owns the window [StartVal[me], EndVal[me]] of it.

    Coordinates are single-precision values that the code only compares;
    every finite float is an integer multiple of 2^-149, so the order of
    finite floats embeds in [Z] and a coordinate is a [Z] here.  C ints are
    modelled by [Z]: signed overflow is undefined in C++, so the model
    covers the executions that stay inside the int range.  The sample of
    [_select] is the one place where the code computes with float and
    double values ([log], [exp], [sqrt]); there the values are read as the
    real numbers that they stand for and the operations as exact. *)

From Stdlib Require Import ZArith Lia Bool List.
From Stdlib Require Import Reals Lra.
From Stdlib Require String.
From stdpp Require Import base option list sorting.
Import String.StringSyntax.
Delimit Scope string_scope with string.

Open Scope Z_scope.

(** ** Points and the point buffer *)

Record point := Point { px : Z; py : Z; pz : Z }.

#[global] Instance point_inhabited : Inhabited point := populate (Point 0 0 0).

#[global] Instance point_eq_dec : EqDecision point.
Proof. solve_decision. Defined.

Definition XDIM : Z := 0.
Definition YDIM : Z := 1.
Definition ZDIM : Z := 2.

(** [pt[dim]] for a pointer [pt] to the first float of a triple. *)
Definition coord (dim : Z) (p : point) : Z :=
  if dim =? XDIM then px p else if dim =? YDIM then py p else pz p.

(** Total read used in statements (the code's reads are [load] below). *)
Definition pt (X : list point) (i : Z) : point := X !!! Z.to_nat i.

Definition cv (dim : Z) (X : list point) (i : Z) : Z := coord dim (pt X i).

Section LocalBuffer.

(** The window of the global array held by the executing process:
    [myStart = StartVal[MyId]], [myEnd = EndVal[MyId]]. *)
Variables myStart myEnd : Z.

(** [GetLocalVal]: a pointer to the triple at global index [pos], or
    [nullptr] ([None]).  A pointer is represented by the global index of
    the triple it points to, so [p += 3] is [p + 1]. *)
Definition GetLocalVal (pos : Z) : option Z :=
  if (pos <? myStart) || (pos >? myEnd) then None else Some pos.

(** Dereference of a pointer into the current buffer; a read outside the
    buffer is an error. *)
Definition load (X : list point) (p : Z) : option point :=
  if (p <? myStart) || (p >? myEnd) then None else X !! Z.to_nat p.

Definition ExchangeLocalVals (X : list point) (pos1 pos2 : Z) : list point :=
  match GetLocalVal pos1, GetLocalVal pos2 with
  | Some p1, Some p2 =>
      match X !! Z.to_nat p1, X !! Z.to_nat p2 with
      | Some a, Some b => <[Z.to_nat p2 := a]> (<[Z.to_nat p1 := b]> X)
      | _, _ => X
      end
  | _, _ => X (* "ExchangeLocalVal - bad index" *)
  end.

(** *** PartitionAboutMyValue *)

(** [while (--J > I) { Jpt -= 3; if ( *Jpt < T) break;
      if (!manyTValues && (J > L) && ( *Jpt == T)) manyTValues = 1; }] *)
Fixpoint my_scan_down (fuel : nat) (X : list point) (dim L I T : Z)
    (J Jpt : Z) (many : bool) : option (Z * Z * bool) :=
  match fuel with
  | O => None
  | S fuel =>
      let J := J - 1 in
      if J >? I then
        let Jpt := Jpt - 1 in
        p ← load X Jpt;
        if coord dim p <? T then Some (J, Jpt, many)
        else
          let many :=
            if negb many && (J >? L) && (coord dim p =? T) then true else many in
          my_scan_down fuel X dim L I T J Jpt many
      else Some (J, Jpt, many)
  end.

(** [while (++I < J) { Ipt += 3; if ( *Ipt >= T)
      { if (!manyTValues && ( *Ipt == T)) manyTValues = 1; break; } }] *)
Fixpoint my_scan_up (fuel : nat) (X : list point) (dim J T : Z)
    (I Ipt : Z) (many : bool) : option (Z * Z * bool) :=
  match fuel with
  | O => None
  | S fuel =>
      let I := I + 1 in
      if I <? J then
        let Ipt := Ipt + 1 in
        p ← load X Ipt;
        if coord dim p >=? T then
          Some (I, Ipt, if negb many && (coord dim p =? T) then true else many)
        else my_scan_up fuel X dim J T I Ipt many
      else Some (I, Ipt, many)
  end.

(** The first [while (I < J)] loop of PartitionAboutMyValue. *)
Fixpoint my_loop (fuel : nat) (X : list point) (dim L T : Z)
    (I J Ipt Jpt : Z) (many : bool) : option (list point * Z * Z * bool) :=
  match fuel with
  | O => None
  | S fuel =>
      if I <? J then
        let X := ExchangeLocalVals X I J in
        '(J, Jpt, many) ← my_scan_down (S fuel) X dim L I T J Jpt many;
        if I =? J then Some (X, I, J, many)
        else
          '(I, Ipt, many) ← my_scan_up (S fuel) X dim J T I Ipt many;
          my_loop fuel X dim L T I J Ipt Jpt many
      else Some (X, I, J, many)
  end.

(** [while (++I < J) { Ipt += 3; if ( *Ipt != T) break; }] *)
Fixpoint eq_scan_up (fuel : nat) (X : list point) (dim J T : Z)
    (I Ipt : Z) : option (Z * Z) :=
  match fuel with
  | O => None
  | S fuel =>
      let I := I + 1 in
      if I <? J then
        let Ipt := Ipt + 1 in
        p ← load X Ipt;
        if negb (coord dim p =? T) then Some (I, Ipt)
        else eq_scan_up fuel X dim J T I Ipt
      else Some (I, Ipt)
  end.

(** [while (--J > I) { Jpt -= 3; if ( *Jpt == T) break; }] *)
Fixpoint eq_scan_down (fuel : nat) (X : list point) (dim I T : Z)
    (J Jpt : Z) : option (Z * Z) :=
  match fuel with
  | O => None
  | S fuel =>
      let J := J - 1 in
      if J >? I then
        let Jpt := Jpt - 1 in
        p ← load X Jpt;
        if coord dim p =? T then Some (J, Jpt)
        else eq_scan_down fuel X dim I T J Jpt
      else Some (J, Jpt)
  end.

(** The loop that gathers the values equal to [T] ("Arrange array so all
    values equal to T are together"); the same text closes both
    partition routines. *)
Fixpoint gather_loop (fuel : nat) (X : list point) (dim T : Z)
    (I J Ipt Jpt : Z) : option (list point * Z * Z) :=
  match fuel with
  | O => None
  | S fuel =>
      if I <? J then
        '(I, Ipt) ← eq_scan_up (S fuel) X dim J T I Ipt;
        if I =? J then Some (X, I, J)
        else
          '(J, Jpt) ← eq_scan_down (S fuel) X dim I T J Jpt;
          let X := if I <? J then ExchangeLocalVals X I J else X in
          gather_loop fuel X dim T I J Ipt Jpt
      else Some (X, I, J)
  end.

(** Loop fuel: no loop of the partition routines runs more than
    [R - L + 2] times. *)
Definition span (L R : Z) : nat := Z.to_nat (R - L + 2).

(** Returns the rearranged array and [(vals[0], vals[1])]. *)
Definition PartitionAboutMyValue (X : list point) (L R K dim : Z)
    : option (list point * (Z * Z)) :=
  p ← GetLocalVal K;
  Tp ← load X p;
  let T := coord dim Tp in
  let X := ExchangeLocalVals X L K in
  p ← GetLocalVal R;
  Rp ← load X p;
  let '(X, many) :=
    if coord dim Rp >=? T then
      if coord dim Rp =? T then (X, true)
      else (ExchangeLocalVals X R L, false)
    else (X, false) in
  let I := L in
  let J := R in
  Ipt ← GetLocalVal I;
  Jpt ← GetLocalVal J;
  '(X, I, J, many) ← my_loop (span L R) X dim L T I J Ipt Jpt many;
  p ← GetLocalVal L;
  Lp ← load X p;
  let '(X, J) :=
    if coord dim Lp =? T then (ExchangeLocalVals X L J, J)
    else (ExchangeLocalVals X (J + 1) R, J + 1) in
  if (many : bool) then
    let I := J in
    Ipt ← GetLocalVal I;
    let J1 := R + 1 in
    Jpt ← GetLocalVal R;
    let Jpt := Jpt + 1 in
    '(X, I, _) ← gather_loop (span L R) X dim T I J1 Ipt Jpt;
    Some (X, (J, I))
  else Some (X, (J, J + 1)).

(** *** PartitionAboutOtherValue *)

(** First scan when both end values are [>= T]:
    [while (--J > I) { Jpt -= 3; if ( *Jpt < T) break;
       if ( *Jpt == T) numTValues++; else numGreater++; }] *)
Fixpoint other_first_down (fuel : nat) (X : list point) (dim I T : Z)
    (J Jpt numT numG : Z) : option (Z * Z * Z * Z) :=
  match fuel with
  | O => None
  | S fuel =>
      let J := J - 1 in
      if J >? I then
        let Jpt := Jpt - 1 in
        p ← load X Jpt;
        if coord dim p <? T then Some (J, Jpt, numT, numG)
        else if coord dim p =? T
             then other_first_down fuel X dim I T J Jpt (numT + 1) numG
             else other_first_down fuel X dim I T J Jpt numT (numG + 1)
      else Some (J, Jpt, numT, numG)
  end.

(** First scan when both end values are [< T]:
    [while (++I < J) { Ipt += 3; if ( *Ipt >= T)
       { if ( *Ipt == T) numTValues++; break; } numLess++; }] *)
Fixpoint other_first_up (fuel : nat) (X : list point) (dim J T : Z)
    (I Ipt numT numL : Z) : option (Z * Z * Z * Z) :=
  match fuel with
  | O => None
  | S fuel =>
      let I := I + 1 in
      if I <? J then
        let Ipt := Ipt + 1 in
        p ← load X Ipt;
        if coord dim p >=? T then
          Some (I, Ipt, if coord dim p =? T then numT + 1 else numT, numL)
        else other_first_up fuel X dim J T I Ipt numT (numL + 1)
      else Some (I, Ipt, numT, numL)
  end.

(** [while (++I < J) { Ipt += 3; if ( *Ipt >= T)
       { if ( *Ipt == T) numTValues++; break; } }] *)
Fixpoint other_scan_up (fuel : nat) (X : list point) (dim J T : Z)
    (I Ipt numT : Z) : option (Z * Z * Z) :=
  match fuel with
  | O => None
  | S fuel =>
      let I := I + 1 in
      if I <? J then
        let Ipt := Ipt + 1 in
        p ← load X Ipt;
        if coord dim p >=? T then
          Some (I, Ipt, if coord dim p =? T then numT + 1 else numT)
        else other_scan_up fuel X dim J T I Ipt numT
      else Some (I, Ipt, numT)
  end.

(** [while (--J > I) { Jpt -= 3; if ( *Jpt < T) break;
       if ( *Jpt == T) numTValues++; }] *)
Fixpoint other_scan_down (fuel : nat) (X : list point) (dim I T : Z)
    (J Jpt numT : Z) : option (Z * Z * Z) :=
  match fuel with
  | O => None
  | S fuel =>
      let J := J - 1 in
      if J >? I then
        let Jpt := Jpt - 1 in
        p ← load X Jpt;
        if coord dim p <? T then Some (J, Jpt, numT)
        else other_scan_down fuel X dim I T J Jpt
               (if coord dim p =? T then numT + 1 else numT)
      else Some (J, Jpt, numT)
  end.

(** The exchange loop of PartitionAboutOtherValue. *)
Fixpoint other_loop (fuel : nat) (X : list point) (dim T : Z)
    (I J Ipt Jpt numT : Z) : option (list point * Z * Z * Z) :=
  match fuel with
  | O => None
  | S fuel =>
      if I <? J then
        let X := ExchangeLocalVals X I J in
        '(I, Ipt, numT) ← other_scan_up (S fuel) X dim J T I Ipt numT;
        if I =? J then Some (X, I, J, numT)
        else
          '(J, Jpt, numT) ← other_scan_down (S fuel) X dim I T J Jpt numT;
          other_loop fuel X dim T I J Ipt Jpt numT
      else Some (X, I, J, numT)
  end.

Definition PartitionAboutOtherValue (X : list point) (L R T dim : Z)
    : option (list point * (Z * Z)) :=
  let totalVals := R - L + 1 in
  if totalVals =? 0 then Some (X, (L, L)) (* Special case: no values. *)
  else
    Ipt ← GetLocalVal L;
    Lp ← load X Ipt;
    let Lval := coord dim Lp in
    let '(numT, numG, numL) :=
      if Lval =? T then (1, 0, 0)
      else if Lval >? T then (0, 1, 0) else (0, 0, 1) in
    Jpt ← GetLocalVal R;
    Rp ← load X Jpt;
    let Rval := coord dim Rp in
    let '(numT, numG, numL) :=
      if Rval =? T then (numT + 1, numG, numL)
      else if Rval >? T then (numT, numG + 1, numL)
      else (numT, numG, numL + 1) in
    let I := L in
    let J := R in
    '(X, I, J, Ipt, Jpt, numT, numG, numL) ←
      (if (Lval >=? T) && (Rval >=? T) then
         '(J, Jpt, numT, numG) ←
           other_first_down (span L R) X dim I T J Jpt numT numG;
         Some (X, I, J, Ipt, Jpt, numT, numG, numL)
       else if (Lval <? T) && (Rval <? T) then
         Ipt ← GetLocalVal I;
         '(I, Ipt, numT, numL) ←
           other_first_up (span L R) X dim J T I Ipt numT numL;
         Some (X, I, J, Ipt, Jpt, numT, numG, numL)
       else if (Lval <? T) && (Rval >=? T) then
         Some (ExchangeLocalVals X I J, I, J, Ipt, Jpt, numT, numG, numL)
       else (* first loop will fix this *)
         Some (X, I, J, Ipt, Jpt, numT, numG, numL));
    if numL =? totalVals then Some (X, (R + 1, R + 1))
    else if numT =? totalVals then Some (X, (L, R + 1))
    else if numG =? totalVals then Some (X, (L, L))
    else
      '(X, I, J, numT) ← other_loop (span L R) X dim T I J Ipt Jpt numT;
      if numT =? 0 then Some (X, (I, I))
      else
        let vals0 := I in
        Ipt ← GetLocalVal I;
        let I := I - 1 in
        let Ipt := Ipt - 1 in
        let J := R + 1 in
        Jpt ← GetLocalVal R;
        let Jpt := Jpt + 1 in
        r ← gather_loop (span L R) X dim T I J Ipt Jpt;
        Some (r.1.1, (vals0, r.1.2)).

End LocalBuffer.

(** ** The global index directory *)

(** C++ [int] division and shift on the values that occur here. *)
Definition cdiv (a b : Z) : Z := Z.quot a b.

(** [v[i]] on a [std::vector<int>]; an index outside the vector is an
    error. *)
Definition vec_get (v : list Z) (i : Z) : option Z :=
  if i <? 0 then None else v !! Z.to_nat i.

Record Directory := {
  NumProcesses : Z;
  NumCells : list Z;
  StartVal : list Z;
  EndVal : list Z;
  TotalNumCells : Z
}.

(** One turn of the loop of BuildGlobalIndexLists, [i >= 1]. *)
Definition index_step (counts : list Z) (st : list Z * list Z * Z) (i : nat)
    : list Z * list Z * Z :=
  let '(startVal, endVal, total) := st in
  let startVal := <[i := endVal !!! (i - 1)%nat + 1]> startVal in
  let endVal := <[i := endVal !!! (i - 1)%nat + counts !!! i]> endVal in
  (startVal, endVal, total + counts !!! i).

(** [counts] is what the gather and broadcast leave in [NumCells]: the
    [numMyCells] of every process, in rank order. *)
Definition BuildGlobalIndexLists (counts : list Z) : Directory :=
  let P := length counts in
  (* AllocateAndZeroGlobalIndexLists *)
  let startVal := replicate P 0 in
  let endVal := replicate P 0 in
  let startVal := <[0%nat := 0]> startVal in
  let endVal := <[0%nat := counts !!! 0%nat - 1]> endVal in
  let total := counts !!! 0%nat in
  let '(startVal, endVal, total) :=
    foldl (index_step counts) (startVal, endVal, total) (seq 1 (P - 1)) in
  {| NumProcesses := Z.of_nat P; NumCells := counts;
     StartVal := startVal; EndVal := endVal; TotalNumCells := total |}.

Section Directory.

Variable dir : Directory.

Fixpoint _whoHas (fuel : nat) (L R pos : Z) : option Z :=
  match fuel with
  | O => None
  | S fuel =>
      if L =? R then Some L
      else
        let M := Z.shiftr (L + R) 1 in
        sM ← vec_get (StartVal dir) M;
        if pos <? sM then _whoHas fuel L (M - 1) pos
        else
          sM1 ← vec_get (StartVal dir) (M + 1);
          if pos <? sM1 then Some M
          else _whoHas fuel (M + 1) R pos
  end.

(** The recursion of [_whoHas] halves a range of at most [NumProcesses]
    ranks. *)
Definition WhoHas (pos : Z) : option Z :=
  if (pos <? 0) || (pos >=? TotalNumCells dir) then Some (-1)
  else _whoHas (Z.to_nat (NumProcesses dir)) 0 (NumProcesses dir - 1) pos.

(** The window of process [p]. *)
Definition window (p : Z) : option (Z * Z) :=
  s ← vec_get (StartVal dir) p;
  e ← vec_get (EndVal dir) p;
  Some (s, e).

End Directory.

(** ** Selection *)

Section Selection.

Variable dir : Directory.

(** The functions of this section take the branch of PartitionSubArray for
    several processes as [PartitionDistributed] (every process partitions
    its part, the parts are exchanged through the double buffer); the code
    of the branch is [PartitionRedistribute] below, and [redistribution]
    is the branch as these functions take it. *)
Variable PartitionDistributed :
  list point → Z → Z → Z → Z → Z → Z → option (list point * (Z * Z)).

(** They take the sample bounds of Floyd and Rivest as functions of [N]
    and [I]:
    [fr_left N I  = static_cast<int>(I * ((float)S / N))],
    [fr_right N I = static_cast<int>((N - I) * ((float)S / N))],
    [fr_SD N I    = SD];
    the code of the bounds is [sample_left], [sample_right] and
    [sample_SD] below. *)
Variables fr_left fr_right fr_SD : Z → Z → Z.

(** The array and [(idx[0], idx[1])], as every process of the enclosing
    sub-group receives them. *)
Definition PartitionSubArray (X : list point) (L R K dim p1 p2 : Z)
    : option (list point * (Z * Z)) :=
  if p1 =? p2 then
    '(s, e) ← window dir p1;
    PartitionAboutMyValue s e X L R K dim
  else PartitionDistributed X L R K dim p1 p2.

(** The new [(L, R)] at the end of one turn of the loop of [_select]. *)
Definition select_update (L R K I J : Z) : Z * Z :=
  if K >=? J then (J, R)
  else if K >=? I then (R, R) (* partitioning is done *)
  else (L, I - 1).

Fixpoint _select (fuel : nat) (X : list point) (L R K dim : Z)
    : option (list point) :=
  match fuel with
  | O => None
  | S fuel =>
      if R >? L then
        X ← (if R - L >? 600 then
               let N := R - L + 1 in
               let I := K - L + 1 in
               let LL := Z.max L (K - fr_left N I + fr_SD N I) in
               let RR := Z.min R (K + fr_right N I + fr_SD N I) in
               _select fuel X LL RR K dim
             else Some X);
        p1 ← WhoHas dir L;
        p2 ← WhoHas dir R;
        '(X, idx) ← PartitionSubArray X L R K dim p1 p2;
        let '(L, R) := select_update L R K idx.1 idx.2 in
        _select fuel X L R K dim
      else Some X
  end.

(** The value at global index [pos], read by its owner [p] and
    broadcast. *)
Definition owner_val (X : list point) (dim p pos : Z) : option Z :=
  '(s, e) ← window dir p;
  ptr ← GetLocalVal s e pos;
  v ← load s e X ptr;
  Some (coord dim v).

(** [for (idx = start - 1; idx >= finish; idx--)
      { pt -= 3; if ( *pt < Kval) break; firstKval--; }] *)
Fixpoint roll_back (fuel : nat) (s e : Z) (X : list point) (dim Kval finish : Z)
    (idx ptr firstKval : Z) : option Z :=
  match fuel with
  | O => None
  | S fuel =>
      if idx >=? finish then
        let ptr := ptr - 1 in
        v ← load s e X ptr;
        if coord dim v <? Kval then Some firstKval
        else roll_back fuel s e X dim Kval finish (idx - 1) ptr (firstKval - 1)
      else Some firstKval
  end.

(** [firstKval] as process [me] computes it. *)
Definition firstKval_of (X : list point) (dim K Kval hasKleft me : Z)
    : option Z :=
  let firstKval := TotalNumCells dir in
  nc ← vec_get (NumCells dir) me;
  if (me <=? hasKleft) && (nc >? 0) then
    '(s, e) ← window dir me;
    let start := e in
    let start := if start >? K - 1 then K - 1 else start in
    ptr ← GetLocalVal s e start;
    v ← load s e X ptr;
    if coord dim v =? Kval then
      let firstKval := start in
      let finish := s in
      roll_back (Z.to_nat (start - finish + 1)) s e X dim Kval finish
        (start - 1) ptr firstKval
    else Some firstKval
  else Some firstKval.

(** The ranks [p1 .. p2] of a sub-group. *)
Definition ranks (p1 p2 : Z) : list Z :=
  map (λ i, p1 + Z.of_nat i) (seq 0 (Z.to_nat (p2 - p1 + 1))).

Definition ReduceMin (vals : list Z) : option Z :=
  match vals with
  | [] => None
  | v :: vals => Some (foldl Z.min v vals)
  end.

(** [Select] on the sub-group [p1 .. p2] set up by DivideRegion; the loop
    of [_select] gets the fuel [R - L + 2]. *)
Definition Select (X : list point) (p1 p2 dim L R : Z)
    : option (list point * Z) :=
  let K := cdiv (R + L) 2 + 1 in
  X ← _select (Z.to_nat (R - L + 2)) X L R K dim;
  if K =? L then Some (X, K)
  else
    hasK ← WhoHas dir K;
    hasKleft ← WhoHas dir (K - 1);
    Kval ← owner_val X dim hasK K;
    Kleftval ← owner_val X dim hasKleft (K - 1);
    if negb (Kleftval =? Kval) then Some (X, K)
    else
      vals ← mapM (firstKval_of X dim K Kval hasKleft) (ranks p1 p2);
      newK ← ReduceMin vals;
      Some (X, newK).

End Selection.

(** ** Region nodes and the tree *)

(** A double is a [Z]: the finite doubles are the integer multiples of
    2^-1074, so they embed in [Z] with their order and their equality
    ([x - y != 0.0] is [x <> y]); a float is a double.  [(double)i] of an
    [int] and [(int)d] are exact on this embedding. *)
Definition double_unit : Z := 2 ^ 1074.
Definition double_of_int (i : Z) : Z := i * double_unit.
Definition int_of_double (d : Z) : Z := Z.quot d double_unit.

Record vec3 := Vec3 { c0 : Z; c1 : Z; c2 : Z }.

(** [v[d]] and [v[d] = x] for [d] in [0 .. 2]. *)
Definition vget (v : vec3) (d : Z) : Z :=
  if d =? 0 then c0 v else if d =? 1 then c1 v else c2 v.

Definition vset (v : vec3) (d x : Z) : vec3 :=
  if d =? 0 then Vec3 x (c1 v) (c2 v)
  else if d =? 1 then Vec3 (c0 v) x (c2 v)
  else Vec3 (c0 v) (c1 v) x.

(** Modelled from the spec: vtkKdNode, the class of the region nodes, is
    not among the source files; a node holds a dimension, the region bounds
    [Min]/[Max], the data bounds [MinVal]/[MaxVal] and [NumberOfPoints];
    a node that has not been divided has [Dim = 3]. *)
Record KdNode := {
  Dim : Z;
  NumberOfPoints : Z;
  Min : vec3;
  Max : vec3;
  MinVal : vec3;
  MaxVal : vec3
}.

Definition new_node : KdNode :=
  {| Dim := 3; NumberOfPoints := 0;
     Min := Vec3 0 0 0; Max := Vec3 0 0 0;
     MinVal := Vec3 0 0 0; MaxVal := Vec3 0 0 0 |}.

Definition SetDim (d : Z) (kd : KdNode) : KdNode :=
  {| Dim := d; NumberOfPoints := NumberOfPoints kd;
     Min := Min kd; Max := Max kd; MinVal := MinVal kd; MaxVal := MaxVal kd |}.

Definition SetNumberOfPoints (n : Z) (kd : KdNode) : KdNode :=
  {| Dim := Dim kd; NumberOfPoints := n;
     Min := Min kd; Max := Max kd; MinVal := MinVal kd; MaxVal := MaxVal kd |}.

(** [SetBounds(x0, x1, y0, y1, z0, z1)]. *)
Definition SetBounds (x0 x1 y0 y1 z0 z1 : Z) (kd : KdNode) : KdNode :=
  {| Dim := Dim kd; NumberOfPoints := NumberOfPoints kd;
     Min := Vec3 x0 y0 z0; Max := Vec3 x1 y1 z1;
     MinVal := MinVal kd; MaxVal := MaxVal kd |}.

Definition SetDataBounds (x0 x1 y0 y1 z0 z1 : Z) (kd : KdNode) : KdNode :=
  {| Dim := Dim kd; NumberOfPoints := NumberOfPoints kd;
     Min := Min kd; Max := Max kd;
     MinVal := Vec3 x0 y0 z0; MaxVal := Vec3 x1 y1 z1 |}.

Definition SetMinBounds (v : vec3) (kd : KdNode) : KdNode :=
  SetBounds (c0 v) (c0 (Max kd)) (c1 v) (c1 (Max kd)) (c2 v) (c2 (Max kd)) kd.

Definition SetMaxBounds (v : vec3) (kd : KdNode) : KdNode :=
  SetBounds (c0 (Min kd)) (c0 v) (c1 (Min kd)) (c1 v) (c2 (Min kd)) (c2 v) kd.

(** A node with its children ([GetLeft() == nullptr] on a [Leaf]). *)
Inductive KdTree :=
  | Leaf (kd : KdNode)
  | Split (kd : KdNode) (left right : KdTree).

#[global] Instance KdTree_inhabited : Inhabited KdTree := populate (Leaf new_node).

Definition root_node (t : KdTree) : KdNode :=
  match t with Leaf kd => kd | Split kd _ _ => kd end.

(** A [vtkKdNode*] into the tree is the path from the top: [false] is
    GetLeft, [true] is GetRight. *)
Definition node_ptr := list bool.

Fixpoint subtree (t : KdTree) (p : node_ptr) {struct p} : option KdTree :=
  match p with
  | [] => Some t
  | b :: p =>
      match t with
      | Leaf _ => None
      | Split _ l r => subtree (if b then r else l) p
      end
  end.

(** Replace the subtree at [p]. *)
Fixpoint set_subtree (t : KdTree) (p : node_ptr) (u : KdTree) {struct p}
    : KdTree :=
  match p with
  | [] => u
  | b :: p =>
      match t with
      | Leaf kd => Leaf kd
      | Split kd l r =>
          if b then Split kd l (set_subtree r p u)
          else Split kd (set_subtree l p u) r
      end
  end.

(** ** The breadth-first build *)

Section Build.

Variable dir : Directory.
Variable PartitionDistributed :
  list point → Z → Z → Z → Z → Z → Z → option (list point * (Z * Z)).
Variables fr_left fr_right fr_SD : Z → Z → Z.

(** The rank of the executing process. *)
Variable MyId : Z.

(** vtkKdTree::DivideTest and vtkKdTree::SelectCutDirection belong to the
    base class, which is not among the source files; they are taken as
    given, like the bit mask [ValidDirections]. *)
Variable DivideTest : Z → Z → bool.
Variable SelectCutDirection : KdNode → Z.
Variable ValidDirections : Z.

(** The double [(a + b) * 0.5] and the cast [(float)d]. *)
Variable midpoint : Z → Z → Z.
Variable to_float : Z → Z.

#[local] Abbreviation Select' :=
  (Select dir PartitionDistributed fr_left fr_right fr_SD).

(** The inner loop of GetLocalMinMax over the points after the first. *)
Definition minmax_step (mm : vec3 * vec3) (val : point) : vec3 * vec3 :=
  foldl (λ '(mn, mx) d,
           if coord d val <? vget mn d then (vset mn d (coord d val), mx)
           else if coord d val >? vget mx d then (mn, vset mx d (coord d val))
           else (mn, mx))
        mm [0; 1; 2].

(** [GetLocalMinMax(L, R, me, min, max)], with the bounds of [Top]. *)
Definition GetLocalMinMax (X : list point) (top : KdNode) (L R me : Z)
    : option (vec3 * vec3) :=
  '(s, e) ← window dir me;
  let from := if L >? s then L else s in
  let to := if R <? e then R else e in
  if from <=? to then
    p ← GetLocalVal s e from;
    val ← load s e X p;
    let mm := (Vec3 (px val) (py val) (pz val), Vec3 (px val) (py val) (pz val)) in
    vals ← mapM (λ i, load s e X (from + 1 + Z.of_nat i))
                (seq 0 (Z.to_nat (to - from)));
    Some (foldl minmax_step mm vals)
  else
    let regionMin := Min top in
    let regionMax := Max top in
    Some (Vec3 (to_float (c0 regionMax)) (to_float (c1 regionMax))
               (to_float (c2 regionMax)),
          Vec3 (to_float (c0 regionMin)) (to_float (c1 regionMin))
               (to_float (c2 regionMin))).

Definition vmin (a b : vec3) : vec3 :=
  Vec3 (Z.min (c0 a) (c0 b)) (Z.min (c1 a) (c1 b)) (Z.min (c2 a) (c2 b)).
Definition vmax (a b : vec3) : vec3 :=
  Vec3 (Z.max (c0 a) (c0 b)) (Z.max (c1 a) (c1 b)) (Z.max (c2 a) (c2 b)).

(** ReduceMin and ReduceMax of the local extremes over the sub-group. *)
Definition reduce_minmax (mms : list (vec3 * vec3)) : option (vec3 * vec3) :=
  match mms with
  | [] => None
  | mm :: mms =>
      Some (foldl (λ acc m, (vmin acc.1 m.1, vmax acc.2 m.2)) mm mms)
  end.

(** [GetDataBounds(L, K, R, globalBounds)]: the min and max of the left
    part [L .. K-1] and of the right part [K .. R]. *)
Definition GetDataBounds (X : list point) (top : KdNode) (p1 p2 L K R : Z)
    : option ((vec3 * vec3) * (vec3 * vec3)) :=
  lefts ← mapM (GetLocalMinMax X top L (K - 1)) (ranks p1 p2);
  rights ← mapM (GetLocalMinMax X top K R) (ranks p1 p2);
  left ← reduce_minmax lefts;
  right ← reduce_minmax rights;
  Some (left, right).

(** The [do ... while] that advances [newdim] to the next permitted
    direction other than [maxdim]: [Some None] when it passes [ZDIM]
    ([None] is the end of the fuel). *)
Fixpoint next_dim (fuel : nat) (maxdim newdim : Z) : option (option Z) :=
  match fuel with
  | O => None
  | S fuel =>
      let newdim := newdim + 1 in
      if newdim >? ZDIM then Some None
      else if (newdim =? maxdim)
              || (Z.land ValidDirections (Z.shiftl 1 newdim) =? 0)
           then next_dim fuel maxdim newdim
           else Some (Some newdim)
  end.

(** The loop [while (midpt < L + 1)] of DivideRegion: the array, the
    dimension used and the midpoint.  [newdim] starts at [XDIM - 1], so
    four turns of either loop reach [ZDIM + 1]. *)
Fixpoint other_dims (fuel : nat) (X : list point) (p1 p2 L R maxdim : Z)
    (newdim midpt : Z) : option (list point * Z * Z) :=
  match fuel with
  | O => None
  | S fuel =>
      if midpt <? L + 1 then
        next ← next_dim 4 maxdim newdim;
        match next with
        | None =>
            (* Exhausted all possible divisions: split in the middle. *)
            Some (X, maxdim, cdiv (L + R) 2 + 1)
        | Some newdim =>
            '(X, midpt) ← Select' X p1 p2 newdim L R;
            other_dims fuel X p1 p2 L R maxdim newdim midpt
        end
      else Some (X, newdim, midpt)
  end.

(** Selection of the midpoint in DivideRegion. *)
Definition find_midpt (X : list point) (p1 p2 L R maxdim : Z)
    : option (list point * Z * Z) :=
  '(X, midpt) ← Select' X p1 p2 maxdim L R;
  if midpt <? L + 1 then
    (* Couldn't divide.  Try a different direction. *)
    let newdim := XDIM - 1 in
    other_dims 4 X p1 p2 L R maxdim newdim midpt
  else Some (X, maxdim, midpt).

(** The bounds of the two children: the parent's, cut at [coord] along
    [maxdim]. *)
Definition left_bounds (kd : KdNode) (maxdim coord : Z) : KdNode → KdNode :=
  SetBounds (c0 (Min kd)) (if maxdim =? XDIM then coord else c0 (Max kd))
            (c1 (Min kd)) (if maxdim =? YDIM then coord else c1 (Max kd))
            (c2 (Min kd)) (if maxdim =? ZDIM then coord else c2 (Max kd)).

Definition right_bounds (kd : KdNode) (maxdim coord : Z) : KdNode → KdNode :=
  SetBounds (if maxdim =? XDIM then coord else c0 (Min kd)) (c0 (Max kd))
            (if maxdim =? YDIM then coord else c1 (Min kd)) (c1 (Max kd))
            (if maxdim =? ZDIM then coord else c2 (Min kd)) (c2 (Max kd)).

(** [DivideRegion(kd, L, level, tag)] on the array [X] and the tree [t];
    the return value is the midpoint, or [-1]. *)
Definition DivideRegion (X : list point) (t : KdTree) (kd_ptr : node_ptr)
    (L level tag : Z) : option (list point * KdTree * Z) :=
  kd_tree ← subtree t kd_ptr;
  let kd := root_node kd_tree in
  if negb (DivideTest (NumberOfPoints kd) level) then Some (X, t, -1)
  else
    let numpoints := NumberOfPoints kd in
    let R := L + numpoints - 1 in
    if numpoints <? 2 then
      (* Special case: not enough points to go around. *)
      p ← WhoHas dir L;
      if negb (MyId =? p) then Some (X, t, -1)
      else
        let maxdim := SelectCutDirection kd in
        let kd := SetDim maxdim kd in
        '(s, e) ← window dir MyId;
        vp ← GetLocalVal s e L;
        val ← load s e X vp;
        let coord :=
          if numpoints >? 0 then coord maxdim val
          else midpoint (vget (Min kd) maxdim) (vget (Max kd) maxdim) in
        let left :=
          SetDataBounds (px val) (px val) (py val) (py val) (pz val) (pz val)
            (SetNumberOfPoints numpoints
               (left_bounds kd maxdim coord new_node)) in
        let right :=
          SetDataBounds (px val) (px val) (py val) (py val) (pz val) (pz val)
            (SetNumberOfPoints 0
               (right_bounds kd maxdim coord new_node)) in
        Some (X, set_subtree t kd_ptr (Split kd (Leaf left) (Leaf right)), L)
    else
      p1 ← WhoHas dir L;
      p2 ← WhoHas dir R;
      if (MyId <? p1) || (MyId >? p2) then Some (X, t, -1)
      else
        let maxdim := SelectCutDirection kd in
        '(X, maxdim, midpt) ← find_midpt X p1 p2 L R maxdim;
        let kd := SetDim maxdim kd in
        '(lb, rb) ← GetDataBounds X (root_node t) p1 p2 L midpt R;
        let coord := midpoint (vget lb.2 maxdim) (vget rb.1 maxdim) in
        let left :=
          SetDataBounds (c0 lb.1) (c0 lb.2) (c1 lb.1) (c1 lb.2) (c2 lb.1) (c2 lb.2)
            (SetNumberOfPoints (midpt - L)
               (left_bounds kd maxdim coord new_node)) in
        let right :=
          SetDataBounds (c0 rb.1) (c0 rb.2) (c1 rb.1) (c1 rb.2) (c2 rb.1) (c2 rb.2)
            (SetNumberOfPoints (R - midpt + 1)
               (right_bounds kd maxdim coord new_node)) in
        Some (X, set_subtree t kd_ptr (Split kd (Leaf left) (Leaf right)), midpt).

(** The queue of BreadthFirstDivide holds [(kd, L, level, tag)]. *)
Definition NodeInfo : Type := node_ptr * Z * Z * Z.

(** The [while (!Queue.empty())] loop. *)
Fixpoint divide_queue (fuel : nat) (X : list point) (t : KdTree)
    (Queue : list NodeInfo) : option (list point * KdTree) :=
  match fuel with
  | O => None
  | S fuel =>
      match Queue with
      | [] => Some (X, t)
      | (kd, L, level, tag) :: Queue =>
          '(X, t, midpt) ← DivideRegion X t kd L level tag;
          let Queue :=
            if midpt >=? 0 then
              Queue ++ [(kd ++ [false], L, level + 1, Z.shiftl tag 1);
                        (kd ++ [true], midpt, level + 1,
                         Z.lor (Z.shiftl tag 1) 1)]
            else Queue in
          divide_queue fuel X t Queue
      end
  end.

(** [BreadthFirstDivide(volBounds)]: the final array and the local tree.
    The number of turns of the queue loop is bounded by DivideTest, which
    is not in the source files, so the loop takes a fuel. *)
Definition BreadthFirstDivide (fuel : nat) (X : list point)
    (volBounds : vec3 * vec3) : option (list point * KdTree) :=
  let mn := volBounds.1 in
  let mx := volBounds.2 in
  let kd :=
    SetDataBounds (c0 mn) (c0 mx) (c1 mn) (c1 mx) (c2 mn) (c2 mx)
      (SetNumberOfPoints (TotalNumCells dir)
         (SetBounds (c0 mn) (c0 mx) (c1 mn) (c1 mx) (c2 mn) (c2 mx) new_node)) in
  let Top := Leaf kd in
  '(X, t, midpt) ← DivideRegion X Top [] 0 0 1;
  let Queue :=
    if midpt >=? 0 then [([false], 0, 1, 2); ([true], midpt, 1, 3)]
    else [] in
  divide_queue fuel X t Queue.

End Build.

(** ** Boundary reconciliation *)

(** The body of the loop of CheckFixRegionBoundaries for one [dim]. *)
Definition fix_dim (nextDim : Z) (tree : KdNode) (lr : KdNode * KdNode) (dim : Z)
    : KdNode * KdNode :=
  let left := lr.1 in
  let right := lr.2 in
  let mn := Min tree in
  let mx := Max tree in
  let left :=
    if negb (vget (Min left) dim - vget mn dim =? 0)
    then SetMinBounds (vset (Min left) dim (vget mn dim)) left else left in
  let right :=
    if negb (vget (Max right) dim - vget mx dim =? 0)
    then SetMaxBounds (vset (Max right) dim (vget mx dim)) right else right in
  if negb (dim =? nextDim) then
    (* the dimension I did *not* divide along *)
    let left :=
      if negb (vget (Max left) dim - vget mx dim =? 0)
      then SetMaxBounds (vset (Max left) dim (vget mx dim)) left else left in
    let right :=
      if negb (vget (Min right) dim - vget mn dim =? 0)
      then SetMinBounds (vset (Min right) dim (vget mn dim)) right else right in
    (left, right)
  else
    let left :=
      if negb (vget (Max left) dim - vget (Min right) dim =? 0)
      then SetMaxBounds (vset (Max left) dim (vget (Min right) dim)) left
      else left in
    (left, right).

Definition set_root (kd : KdNode) (t : KdTree) : KdTree :=
  match t with Leaf _ => Leaf kd | Split _ l r => Split kd l r end.

(** [CheckFixRegionBoundaries] on the tree [tree] whose top node holds
    [kd] (the children's bounds are rewritten before the walk goes down, so
    the node contents travel with the recursion). *)
Fixpoint CheckFix_from (kd : KdNode) (tree : KdTree) : KdTree :=
  match tree with
  | Leaf _ => Leaf kd
  | Split _ l r =>
      let nextDim := Dim kd in
      let lr := foldl (fix_dim nextDim kd) (root_node l, root_node r) [0; 1; 2] in
      Split kd (CheckFix_from lr.1 l) (CheckFix_from lr.2 r)
  end.

Definition CheckFixRegionBoundaries (tree : KdTree) : KdTree :=
  CheckFix_from (root_node tree) tree.

(** ** Packing a node for the reduction and the broadcast *)

(** [PackData(kd, data)]: the 27 doubles; [None] when [kd] has no
    children. *)
Definition PackData (kd : KdTree) : option (list Z) :=
  match kd with
  | Leaf _ => None
  | Split n lt rt =>
      let l := root_node lt in
      let r := root_node rt in
      Some ([double_of_int (Dim n);
             double_of_int (NumberOfPoints l);
             double_of_int (NumberOfPoints r)]
            ++ flat_map (λ i, [vget (Min l) i; vget (Max l) i;
                               vget (MinVal l) i; vget (MaxVal l) i;
                               vget (Min r) i; vget (Max r) i;
                               vget (MinVal r) i; vget (MaxVal r) i])
                        [0; 1; 2])
  end.

(** [UnpackData(kd, data)] for [double data[27]]. *)
Definition UnpackData (kd : KdTree) (data : list Z) : option KdTree :=
  match kd with
  | Leaf _ => None
  | Split n lt rt =>
      if negb (length data =? 27)%nat then None
      else
        let d (v : nat) : Z := data !!! v in
        let n := SetDim (int_of_double (d 0%nat)) n in
        let l := SetNumberOfPoints (int_of_double (d 1%nat)) (root_node lt) in
        let r := SetNumberOfPoints (int_of_double (d 2%nat)) (root_node rt) in
        (* [v = 3]; turn [i] of the loop reads [data[3 + 8 i + k]], [k < 8] *)
        let col (k : nat) : vec3 :=
          Vec3 (d (3 + k)%nat) (d (11 + k)%nat) (d (19 + k)%nat) in
        let lmin := col 0%nat in
        let lmax := col 1%nat in
        let lminData := col 2%nat in
        let lmaxData := col 3%nat in
        let rmin := col 4%nat in
        let rmax := col 5%nat in
        let rminData := col 6%nat in
        let rmaxData := col 7%nat in
        let l :=
          SetDataBounds (c0 lminData) (c0 lmaxData) (c1 lminData) (c1 lmaxData)
                        (c2 lminData) (c2 lmaxData)
            (SetBounds (c0 lmin) (c0 lmax) (c1 lmin) (c1 lmax) (c2 lmin) (c2 lmax) l) in
        let r :=
          SetDataBounds (c0 rminData) (c0 rmaxData) (c1 rminData) (c1 rmaxData)
                        (c2 rminData) (c2 rmaxData)
            (SetBounds (c0 rmin) (c0 rmax) (c1 rmin) (c1 rmax) (c2 rmin) (c2 rmax) r) in
        Some (Split n (set_root l lt) (set_root r rt))
  end.

(** ** Region assignment and queries *)

(** The values of [RegionAssignment]. *)
Inductive RegionAssignmentMode :=
  | NoRegionAssignment
  | ContiguousAssignment
  | UserDefinedAssignment
  | RoundRobinAssignment.

(** The members of vtkPKdTree that the assignment and the queries use.
    [NumberOfRegions] is what GetNumberOfRegions() of the base class
    returns; [NumProcs] is the member NumProcesses (the directory above
    has a field of that name). *)
Record PKdTree := {
  Top : option KdTree;
  NumberOfRegions : Z;
  NumProcs : Z;
  RegionAssignment : RegionAssignmentMode;
  RegionAssignmentMap : list Z;
  NumRegionsAssigned : list Z;
  ProcessAssignmentMap : list (list Z);
  DataLocationMap : list Z
}.

Definition set_RegionAssignment (m : RegionAssignmentMode) (t : PKdTree) : PKdTree :=
  {| Top := Top t; NumberOfRegions := NumberOfRegions t; NumProcs := NumProcs t;
     RegionAssignment := m;
     RegionAssignmentMap := RegionAssignmentMap t;
     NumRegionsAssigned := NumRegionsAssigned t;
     ProcessAssignmentMap := ProcessAssignmentMap t;
     DataLocationMap := DataLocationMap t |}.

Definition set_assignment_lists (map assigned : list Z) (lists : list (list Z))
    (t : PKdTree) : PKdTree :=
  {| Top := Top t; NumberOfRegions := NumberOfRegions t; NumProcs := NumProcs t;
     RegionAssignment := RegionAssignment t;
     RegionAssignmentMap := map;
     NumRegionsAssigned := assigned;
     ProcessAssignmentMap := lists;
     DataLocationMap := DataLocationMap t |}.

(** [v.resize(n, 0)] after [std::fill(v.begin(), v.end(), 0)]. *)
Definition zeros (n : Z) : list Z := replicate (Z.to_nat n) 0.

Definition AllocateAndZeroRegionAssignmentLists (t : PKdTree) : PKdTree :=
  set_assignment_lists (zeros (NumberOfRegions t)) (zeros (NumProcs t))
    (replicate (Z.to_nat (NumProcs t)) []) t.

(** [l.resize(n)] on a [std::vector<int>]. *)
Definition resize (n : Z) (l : list Z) : list Z :=
  take (Z.to_nat n) l ++ replicate (Z.to_nat n - length l) 0.

(** One turn of the second loop of BuildRegionListsForProcesses. *)
Definition region_list_step (map : list Z)
    (st : list (list Z) * list Z) (r : nat) : list (list Z) * list Z :=
  let '(lists, count) := st in
  let proc := Z.to_nat (map !!! r) in
  let next := count !!! proc in
  (<[proc := <[Z.to_nat next := Z.of_nat r]> (lists !!! proc)]> lists,
   <[proc := next + 1]> count).

Definition BuildRegionListsForProcesses (t : PKdTree) : PKdTree :=
  let count := zeros (NumProcs t) in
  let lists :=
    imap (λ p l, resize (NumRegionsAssigned t !!! p) l) (ProcessAssignmentMap t) in
  let regionAssignmentMapLength := length (RegionAssignmentMap t) in
  let '(lists, _) :=
    foldl (region_list_step (RegionAssignmentMap t)) (lists, count)
          (seq 0 regionAssignmentMapLength) in
  set_assignment_lists (RegionAssignmentMap t) (NumRegionsAssigned t) lists t.

(** One turn of the loop of AssignRegionsRoundRobin. *)
Definition round_robin_step (nProcesses : Z)
    (st : list Z * list Z * Z) (i : nat) : list Z * list Z * Z :=
  let '(map, assigned, procID) := st in
  (<[i := procID]> map,
   <[Z.to_nat procID := assigned !!! Z.to_nat procID + 1]> assigned,
   if procID =? nProcesses - 1 then 0 else procID + 1).

(** The tree object afterwards; the return value is always [0]. *)
Definition AssignRegionsRoundRobin (t : PKdTree) : PKdTree :=
  let t := set_RegionAssignment RoundRobinAssignment t in
  match Top t with
  | None => t
  | Some _ =>
      let nProcesses := NumProcs t in
      let nRegions := NumberOfRegions t in
      let t := AllocateAndZeroRegionAssignmentLists t in
      let '(map, assigned, _) :=
        foldl (round_robin_step nProcesses)
              (RegionAssignmentMap t, NumRegionsAssigned t, 0)
              (seq 0 (Z.to_nat nRegions)) in
      BuildRegionListsForProcesses
        (set_assignment_lists map assigned (ProcessAssignmentMap t) t)
  end.

Section Queries.

(** vtkKdTree::GetRegionsAtLevel and vtkKdTree::GetLeafNodeIds belong to
    the base class, which is not among the source files: the nodes of a
    level from left to right, and the region ids of the leaves below a
    node. *)
Variable GetRegionsAtLevel : KdTree → Z → list KdTree.
Variable GetLeafNodeIds : KdTree → list Z.

Definition AddProcessRegions (procId : Z) (kd : KdTree) (t : PKdTree) : PKdTree :=
  foldl (λ t id,
           set_assignment_lists
             (<[Z.to_nat id := procId]> (RegionAssignmentMap t))
             (<[Z.to_nat procId := NumRegionsAssigned t !!! Z.to_nat procId + 1]>
                (NumRegionsAssigned t))
             (ProcessAssignmentMap t) t)
        t (GetLeafNodeIds kd).

(** [for (floorLogP = 0; (nProcesses >> floorLogP) > 0; floorLogP++);
     floorLogP--;] *)
Fixpoint floor_log (fuel : nat) (nProcesses floorLogP : Z) : Z :=
  match fuel with
  | O => floorLogP
  | S fuel =>
      if Z.shiftr nProcesses floorLogP >? 0
      then floor_log fuel nProcesses (floorLogP + 1)
      else floorLogP
  end.

Definition left_child (kd : KdTree) : KdTree :=
  match kd with Leaf _ => kd | Split _ l _ => l end.
Definition right_child (kd : KdTree) : KdTree :=
  match kd with Leaf _ => kd | Split _ _ r => r end.

(** One turn of the loop over the nodes when [nProcesses] is not a power
    of two. *)
Definition contiguous_step (st : PKdTree * Z * Z * Z) (node : KdTree)
    : PKdTree * Z * Z * Z :=
  let '(t, nodesLeft, procsLeft, procId) := st in
  if nodesLeft >? procsLeft then
    (AddProcessRegions procId node t, nodesLeft - 2, procsLeft - 1, procId + 1)
  else
    (AddProcessRegions (procId + 1) (right_child node)
       (AddProcessRegions procId (left_child node) t),
     nodesLeft - 2, procsLeft - 2, procId + 2).

Definition AssignRegionsContiguous (t : PKdTree) : PKdTree :=
  let t := set_RegionAssignment ContiguousAssignment t in
  match Top t with
  | None => t
  | Some top =>
      let nProcesses := NumProcs t in
      let nRegions := NumberOfRegions t in
      if nRegions <=? nProcesses then
        set_RegionAssignment ContiguousAssignment (AssignRegionsRoundRobin t)
      else
        let t := AllocateAndZeroRegionAssignmentLists t in
        let floorLogP := floor_log 64 nProcesses 0 - 1 in
        let P := Z.shiftl 1 floorLogP in
        let ceilLogP := if nProcesses =? P then floorLogP else floorLogP + 1 in
        let nodes := GetRegionsAtLevel top floorLogP in
        let t :=
          if floorLogP =? ceilLogP then
            foldl (λ t p, AddProcessRegions (Z.of_nat p)
                            (nodes !!! p) t)
                  t (seq 0 (Z.to_nat nProcesses))
          else
            (foldl contiguous_step
                   (t, Z.shiftl 1 ceilLogP, nProcesses, 0)
                   (take (Z.to_nat P) nodes)).1.1.1 in
        BuildRegionListsForProcesses t
  end.

Definition UpdateRegionAssignment (t : PKdTree) : PKdTree :=
  match RegionAssignment t with
  | ContiguousAssignment => AssignRegionsContiguous t
  | RoundRobinAssignment => AssignRegionsRoundRobin t
  | _ => t
  end.

Definition GetProcessAssignedToRegion (t : PKdTree) (regionId : Z) : Z :=
  if bool_decide (RegionAssignmentMap t = []) || (regionId <? 0)
     || (regionId >=? NumberOfRegions t)
  then -1
  else RegionAssignmentMap t !!! Z.to_nat regionId.

Definition HasData (t : PKdTree) (processId regionId : Z) : Z :=
  if bool_decide (DataLocationMap t = []) || (processId <? 0)
     || (processId >=? NumProcs t) || (regionId <? 0)
     || (regionId >=? NumberOfRegions t)
  then 0 (* "HasData - invalid request" *)
  else
    let where_ := NumberOfRegions t * processId + regionId in
    DataLocationMap t !!! Z.to_nat where_.

(** The tree object afterwards, the return value and the contents of
    [list]. *)
Definition GetRegionAssignmentList (t : PKdTree) (procId : Z) (list : list Z)
    : PKdTree * Z * Datatypes.list Z :=
  if (procId <? 0) || (procId >=? NumProcs t) then (t, 0, list)
  else
    let t :=
      if bool_decide (RegionAssignmentMap t = [])
      then UpdateRegionAssignment t else t in
    if bool_decide (RegionAssignmentMap t = []) then (t, 0, list)
    else
      let nregions := NumRegionsAssigned t !!! Z.to_nat procId in
      let regionIds := ProcessAssignmentMap t !!! Z.to_nat procId in
      (t, nregions, take (Z.to_nat nregions) regionIds).

End Queries.

(** ** User-defined region assignment *)

Definition FreeRegionAssignmentLists (t : PKdTree) : PKdTree :=
  set_assignment_lists [] [] [] t.

(** The loop of AssignRegions from turn [i] on, over the entries of [map]
    that are left: [None] at an entry that is no process id. *)
Fixpoint assign_loop (nProcesses : Z) (map : list Z) (i : nat)
    (regionMap assigned : list Z) : option (list Z * list Z) :=
  match map with
  | [] => Some (regionMap, assigned)
  | m :: map =>
      if (m <? 0) || (m >=? nProcesses) then None
      else
        assign_loop nProcesses map (S i)
          (<[i := m]> regionMap)
          (<[Z.to_nat m := assigned !!! Z.to_nat m + 1]> assigned)
  end.

(** [AssignRegions(map, len)] for an array [map] of [len] entries: the
    tree object afterwards and the return value. *)
Definition AssignRegions (t : PKdTree) (map : list Z) : PKdTree * Z :=
  let len := Z.of_nat (length map) in
  let t := AllocateAndZeroRegionAssignmentLists t in
  let t :=
    set_assignment_lists
      (resize len (replicate (length (RegionAssignmentMap t)) 0))
      (NumRegionsAssigned t) (ProcessAssignmentMap t) t in
  let t := set_RegionAssignment UserDefinedAssignment t in
  match assign_loop (NumProcs t) map 0 (RegionAssignmentMap t)
          (NumRegionsAssigned t) with
  | None =>
      (* "AssignRegions - invalid process id" *)
      (FreeRegionAssignmentLists t, 1)
  | Some (regionMap, assigned) =>
      (BuildRegionListsForProcesses
         (set_assignment_lists regionMap assigned (ProcessAssignmentMap t) t),
       0)
  end.

(** ** Tables of the data of the processes *)

(** The members of vtkPKdTree that CreateProcessCellCountData fills, beside
    [DataLocationMap]. *)
Record ProcessData := {
  NumProcessesInRegion : list Z;
  ProcessList : list (list Z);
  NumRegionsInProcess : list Z;
  ParallelRegionList : list (list Z);
  CellCountList : list (list Z)
}.

Definition set_DataLocationMap (map : list Z) (t : PKdTree) : PKdTree :=
  {| Top := Top t; NumberOfRegions := NumberOfRegions t; NumProcs := NumProcs t;
     RegionAssignment := RegionAssignment t;
     RegionAssignmentMap := RegionAssignmentMap t;
     NumRegionsAssigned := NumRegionsAssigned t;
     ProcessAssignmentMap := ProcessAssignmentMap t;
     DataLocationMap := map |}.

(** [v[i] = x] on a vector or an array; an index outside it is an
    error. *)
Definition vec_set (v : list Z) (i x : Z) : option (list Z) :=
  if (i <? 0) || (i >=? Z.of_nat (length v)) then None
  else Some (<[Z.to_nat i := x]> v).

(** [while ((i < len) && (list[i] != -1)) i++;] *)
Fixpoint add_entry_scan (fuel : nat) (list : list Z) (len i : Z) : option Z :=
  match fuel with
  | O => None
  | S fuel =>
      if i <? len then
        v ← vec_get list i;
        if negb (v =? -1) then add_entry_scan fuel list len (i + 1)
        else Some i
      else Some i
  end.

(** [AddEntry(list, len, id)]: the array afterwards. *)
Definition AddEntry (list : list Z) (len id : Z) : option (Datatypes.list Z) :=
  i ← add_entry_scan (Z.to_nat len + 1) list len 0;
  if i =? len then Some list (* error *)
  else
    list ← vec_set list i id;
    let i := i + 1 in
    if i <? len then vec_set list i (-1) else Some list.

(** The loops of CollectLocalRegionProcessData over the region ids of the
    cells; [None] is the return value [false]. *)
Fixpoint collect_loop (numRegions : Z) (IDs cellCounts : list Z)
    : option (list Z) :=
  match IDs with
  | [] => Some cellCounts
  | regionId :: IDs =>
      if (regionId <? 0) || (regionId >=? numRegions) then
        None (* "CollectLocalRegionProcessData - corrupt data" *)
      else
        collect_loop numRegions IDs
          (<[Z.to_nat regionId := cellCounts !!! Z.to_nat regionId + 1]> cellCounts)
  end.

(** [IDs] is what AllGetRegionContainingCell() of the base class returns:
    the region of every cell, data set after data set. *)
Definition CollectLocalRegionProcessData (t : PKdTree) (IDs : list Z)
    : option (list Z) :=
  let numRegions := NumberOfRegions t in
  collect_loop numRegions IDs (zeros numRegions).

(** [AllCheckForFailure(rc, ...)], from the [rc] of every process: the
    vote is their sum. *)
Definition AllCheckForFailure (rcs : list Z) : Z :=
  let vote := foldr Z.add 0 rcs in
  if negb (vote =? 0) then 1 else 0.

Definition empty_tables : ProcessData :=
  {| NumProcessesInRegion := []; ProcessList := [];
     NumRegionsInProcess := []; ParallelRegionList := [];
     CellCountList := [] |}.

Definition FreeProcessDataLists (t : PKdTree) : PKdTree * ProcessData :=
  (set_DataLocationMap [] t, empty_tables).

Definition AllocateAndZeroProcessDataLists (t : PKdTree) : PKdTree * ProcessData :=
  let nRegions := NumberOfRegions t in
  let nProcesses := NumProcs t in
  (set_DataLocationMap (zeros (nRegions * nProcesses)) t,
   {| NumProcessesInRegion := zeros nRegions;
      ProcessList := replicate (Z.to_nat nRegions) [];
      NumRegionsInProcess := zeros nProcesses;
      ParallelRegionList := replicate (Z.to_nat nProcesses) [];
      CellCountList := replicate (Z.to_nat nRegions) [] |}).

(** A loop whose body can fail. *)
Fixpoint fold_opt {A S : Type} (f : S → A → option S) (s : S) (l : list A)
    : option S :=
  match l with
  | [] => Some s
  | x :: l => s ← f s x; fold_opt f s l
  end.

(** The turns [(proc, reg)] of a loop over the processes with a loop over
    the regions inside. *)
Definition proc_reg_turns (nProcesses nRegions : Z) : list (nat * nat) :=
  proc ← seq 0 (Z.to_nat nProcesses);
  (λ reg, (proc, reg)) <$> seq 0 (Z.to_nat nRegions).

(** [myData[reg] = 1] where [cellCounts[reg] > 0], in a block of zeros. *)
Definition data_flags (cellCounts : list Z) : list Z :=
  (λ c, if c >? 0 then 1 else 0) <$> cellCounts.

(** The first loop over [procData]: it counts the processes of every
    region and the regions of every process. *)
Definition count_turn (nRegions : Z) (map : list Z)
    (st : list Z * list Z) (turn : nat * nat) : option (list Z * list Z) :=
  let '(inRegion, inProcess) := st in
  let '(proc, reg) := turn in
  procData ← vec_get map (Z.of_nat proc * nRegions + Z.of_nat reg);
  if negb (procData =? 0) then
    Some (<[reg := inRegion !!! reg + 1]> inRegion,
          <[proc := inProcess !!! proc + 1]> inProcess)
  else Some st.

(** [l.resize(n); l[0] = -1;] for [n > 0], on the cleared vectors. *)
Definition start_lists (counts : list Z) (lists : list (list Z))
    : list (list Z) :=
  imap (λ i l, let n := counts !!! i in
               if n >? 0 then <[0%nat := -1]> (resize n l) else l) lists.

(** [this->AddEntry(lists[k].data(), len, id)]. *)
Definition add_entry_at (lists : list (list Z)) (k : nat) (len id : Z)
    : option (list (list Z)) :=
  l ← lists !! k;
  l ← AddEntry l len id;
  Some (<[k := l]> lists).

(** The second loop over [procData]: it enters the processes of every
    region and the regions of every process. *)
Definition enter_turn (nRegions : Z) (map inRegion inProcess : list Z)
    (st : list (list Z) * list (list Z)) (turn : nat * nat)
    : option (list (list Z) * list (list Z)) :=
  let '(processList, regionList) := st in
  let '(proc, reg) := turn in
  procData ← vec_get map (Z.of_nat proc * nRegions + Z.of_nat reg);
  if negb (procData =? 0) then
    processList ← add_entry_at processList reg (inRegion !!! reg) (Z.of_nat proc);
    regionList ← add_entry_at regionList proc (inProcess !!! proc) (Z.of_nat reg);
    Some (processList, regionList)
  else Some st.

(** The loop over [procCount]: the cell counts per process per region. *)
Definition cell_count_turn (nRegions : Z) (tempbuf inRegion : list Z)
    (cellCountList : list (list Z)) (turn : nat * nat)
    : option (list (list Z)) :=
  let '(proc, reg) := turn in
  procCount ← vec_get tempbuf (Z.of_nat proc * nRegions + Z.of_nat reg);
  if procCount >? 0 then
    add_entry_at cellCountList reg (inRegion !!! reg) procCount
  else Some cellCountList.

(** The part of CreateProcessCellCountData() after the two votes, from
    the data location map [map] and the cell counts of all ranks, on the
    tables [pd] that AllocateAndZeroProcessDataLists() left. *)
Definition fill_tables (nRegions nProcesses : Z) (map : list Z)
    (cellCounts : list (list Z)) (pd : ProcessData) : option ProcessData :=
  let turns := proc_reg_turns nProcesses nRegions in
  '(inRegion, inProcess) ←
    fold_opt (count_turn nRegions map)
      (NumProcessesInRegion pd, NumRegionsInProcess pd) turns;
  let processList := start_lists inRegion (ProcessList pd) in
  let cellCountList := start_lists inRegion (CellCountList pd) in
  let regionList := start_lists inProcess (ParallelRegionList pd) in
  '(processList, regionList) ←
    fold_opt (enter_turn nRegions map inRegion inProcess)
      (processList, regionList) turns;
  let tempbuf := concat cellCounts in
  cellCountList ←
    fold_opt (cell_count_turn nRegions tempbuf inRegion) cellCountList turns;
  Some {| NumProcessesInRegion := inRegion; ProcessList := processList;
          NumRegionsInProcess := inProcess;
          ParallelRegionList := regionList;
          CellCountList := cellCountList |}.

(** [CreateProcessCellCountData()] as every process runs it.  [tops] says
    for every rank whether it has a tree, and [IDs] gives for every rank
    the regions of its cells: the Gather and Broadcast pairs hand every
    process the blocks of all ranks in rank order.  The result is the tree
    object, the tables and the return value; [None] is a read or a write
    outside a table. *)
Definition CreateProcessCellCountData (t : PKdTree) (tops : list bool)
    (IDs : list (list Z)) : option (PKdTree * ProcessData * Z) :=
  let nRegions := NumberOfRegions t in
  let nProcesses := NumProcs t in
  let '(t, pd) := AllocateAndZeroProcessDataLists t in
  if negb (AllCheckForFailure ((λ top : bool, if top then 0 else 1) <$> tops)
           =? 0)
  then Some (FreeProcessDataLists t, 1)
  else
    let collected := CollectLocalRegionProcessData t <$> IDs in
    if negb (AllCheckForFailure
         ((λ c : option (list Z), match c with Some _ => 0 | None => 1 end)
            <$> collected) =? 0)
    then Some (FreeProcessDataLists t, 1)
    else
      let cellCounts := default [] <$> collected in
      let map := concat (data_flags <$> cellCounts) in
      pd ← fill_tables nRegions nProcesses map cellCounts pd;
      Some (set_DataLocationMap map t, pd, 0).

(** *** Queries on the tables *)

Definition GetTotalProcessesInRegion (t : PKdTree) (pd : ProcessData)
    (regionId : Z) : option Z :=
  if bool_decide (NumProcessesInRegion pd = []) || (regionId <? 0)
     || (regionId >=? NumberOfRegions t)
  then Some 0 (* "GetTotalProcessesInRegion - invalid request" *)
  else vec_get (NumProcessesInRegion pd) regionId.

(** [n] reads [row[0 .. n-1]] of row [k] of a table of lists. *)
Definition read_row (table : list (list Z)) (k n : Z) : option (list Z) :=
  row ← (if k <? 0 then None else table !! Z.to_nat k);
  if (n <=? 0) then Some []
  else if n >? Z.of_nat (length row) then None
  else Some (take (Z.to_nat n) row).

(** The return value and the contents of [processes], to which the ids are
    appended. *)
Definition GetProcessListForRegion (t : PKdTree) (pd : ProcessData)
    (regionId : Z) (processes : list Z) : option (Z * list Z) :=
  if bool_decide (ProcessList pd = []) || (regionId <? 0)
     || (regionId >=? NumberOfRegions t)
  then Some (0, processes) (* "GetProcessListForRegion - invalid request" *)
  else
    nProcesses ← vec_get (NumProcessesInRegion pd) regionId;
    ids ← read_row (ProcessList pd) regionId nProcesses;
    Some (nProcesses, processes ++ ids).

(** The return value and the first entries of [count], an array of [len]
    entries. *)
Definition GetProcessesCellCountForRegion (t : PKdTree) (pd : ProcessData)
    (regionId : Z) (len : Z) : option (Z * list Z) :=
  if bool_decide (CellCountList pd = []) || (regionId <? 0)
     || (regionId >=? NumberOfRegions t)
  then Some (0, []) (* "GetProcessesCellCountForRegion - invalid request" *)
  else
    nProcesses ← vec_get (NumProcessesInRegion pd) regionId;
    let nProcesses := if len <? nProcesses then len else nProcesses in
    counts ← read_row (CellCountList pd) regionId nProcesses;
    Some (nProcesses, counts).

(** [for (i = 0; i < nProcesses; i++)
      if (row[i] == processId) { which = i; break; }] *)
Fixpoint find_in_row (fuel : nat) (row : list Z) (n id i : Z) : option Z :=
  match fuel with
  | O => None
  | S fuel =>
      if i <? n then
        v ← vec_get row i;
        if v =? id then Some i else find_in_row fuel row n id (i + 1)
      else Some (-1)
  end.

Definition GetProcessCellCountForRegion (t : PKdTree) (pd : ProcessData)
    (processId regionId : Z) : option Z :=
  if bool_decide (CellCountList pd = []) || (regionId <? 0)
     || (regionId >=? NumberOfRegions t) || (processId <? 0)
     || (processId >=? NumProcs t)
  then Some 0 (* "GetProcessCellCountForRegion - invalid request" *)
  else
    nProcesses ← vec_get (NumProcessesInRegion pd) regionId;
    row ← ProcessList pd !! Z.to_nat regionId;
    which ← find_in_row (Z.to_nat nProcesses + 1) row nProcesses processId 0;
    if which =? -1 then Some 0
    else
      counts ← CellCountList pd !! Z.to_nat regionId;
      vec_get counts which.

Definition GetTotalRegionsForProcess (t : PKdTree) (pd : ProcessData)
    (processId : Z) : option Z :=
  if bool_decide (NumRegionsInProcess pd = []) || (processId <? 0)
     || (processId >=? NumProcs t)
  then Some 0 (* "GetTotalRegionsForProcess - invalid request" *)
  else vec_get (NumRegionsInProcess pd) processId.

Definition GetRegionListForProcess (t : PKdTree) (pd : ProcessData)
    (processId : Z) (regions : list Z) : option (Z * list Z) :=
  if bool_decide (ParallelRegionList pd = []) || (processId <? 0)
     || (processId >=? NumProcs t)
  then Some (0, regions) (* "GetRegionListForProcess - invalid request" *)
  else
    nRegions ← vec_get (NumRegionsInProcess pd) processId;
    ids ← read_row (ParallelRegionList pd) processId nRegions;
    Some (nRegions, regions ++ ids).

(** [for (iam = 0; iam < NumProcessesInRegion[regionId]; iam++)
      if (ProcessList[regionId][iam] == processId) break;] *)
Fixpoint find_iam (fuel : nat) (row : list Z) (n id iam : Z) : option Z :=
  match fuel with
  | O => None
  | S fuel =>
      if iam <? n then
        v ← vec_get row iam;
        if v =? id then Some iam else find_iam fuel row n id (iam + 1)
      else Some iam
  end.

(** The return value and the first entries of [count], an array of [len]
    entries. *)
Definition GetRegionsCellCountForProcess (t : PKdTree) (pd : ProcessData)
    (processId : Z) (len : Z) : option (Z * list Z) :=
  if bool_decide (CellCountList pd = []) || (processId <? 0)
     || (processId >=? NumProcs t)
  then Some (0, []) (* "GetRegionsCellCountForProcess - invalid request" *)
  else
    nRegions ← vec_get (NumRegionsInProcess pd) processId;
    let nRegions := if len <? nRegions then len else nRegions in
    regionList ← ParallelRegionList pd !! Z.to_nat processId;
    counts ←
      mapM (λ i : nat,
              regionId ← vec_get regionList (Z.of_nat i);
              n ← vec_get (NumProcessesInRegion pd) regionId;
              row ← (if regionId <? 0 then None
                     else ProcessList pd !! Z.to_nat regionId);
              iam ← find_iam (Z.to_nat n + 1) row n processId 0;
              cells ← CellCountList pd !! Z.to_nat regionId;
              vec_get cells iam)
           (seq 0 (Z.to_nat nRegions));
    Some (nRegions, counts).

(** ** Completing the tree *)

(** [ComputeDepth(kd)]; a node of [KdTree] has both children or none. *)
Fixpoint ComputeDepth (kd : KdTree) : Z :=
  match kd with
  | Leaf _ => 0
  | Split _ lt rt =>
      let leftDepth := ComputeDepth lt in
      let rightDepth := ComputeDepth rt in
      if leftDepth >? rightDepth then leftDepth + 1 else rightDepth + 1
  end.

(** The node that FillOutTree adds: a new node with the bounds, the data
    bounds and the number of points set to [-1]. *)
Definition filler_node : KdNode :=
  SetNumberOfPoints (-1)
    (SetDataBounds (-1) (-1) (-1) (-1) (-1) (-1)
       (SetBounds (-1) (-1) (-1) (-1) (-1) (-1) new_node)).

(** [FillOutTree(kd, level)]: the tree afterwards; the return value is [0],
    as [vtkKdNode::New()] gives a node.  [None] is a recursion that has not
    come to [level == 0] when the fuel is used up. *)
Fixpoint FillOutTree (fuel : nat) (kd : KdTree) (level : Z) : option KdTree :=
  match fuel with
  | O => None
  | S fuel =>
      if level =? 0 then Some kd
      else
        let kd :=
          match kd with
          | Leaf n => Split n (Leaf filler_node) (Leaf filler_node)
          | Split _ _ _ => kd
          end in
        match kd with
        | Leaf _ => None
        | Split n lt rt =>
            lt ← FillOutTree fuel lt (level - 1);
            rt ← FillOutTree fuel rt (level - 1);
            Some (Split n lt rt)
        end
  end.

(** [BroadcastData(kd)] on the process [MyId], where [kd0] is the node of
    process 0 that is broadcast at this call.  [None]: the processes do not
    take the same calls, as one of the two nodes has children and the other
    has none. *)
Fixpoint BroadcastData (MyId : Z) (kd0 kd : KdTree) : option KdTree :=
  match kd0, kd with
  | Leaf _, Leaf _ => Some kd
  | Split _ lt0 rt0, Split _ _ _ =>
      data ← PackData kd0;
      kd ← (if MyId >? 0 then UnpackData kd data else Some kd);
      match kd with
      | Leaf _ => None
      | Split n lt rt =>
          lt ← BroadcastData MyId lt0 lt;
          rt ← BroadcastData MyId rt0 rt;
          Some (Split n lt rt)
      end
  | _, _ => None
  end.

(** ** BinarySearch *)

(** [for (int i = 0; i < len; i++) if (list[i] == which) { mid = i; break; }] *)
Fixpoint linear_search (fuel : nat) (list : list Z) (len which i : Z)
    : option Z :=
  match fuel with
  | O => None
  | S fuel =>
      if i <? len then
        v ← vec_get list i;
        if v =? which then Some i
        else linear_search fuel list len which (i + 1)
      else Some (-1)
  end.

(** [while (list[mid] != which) ...] *)
Fixpoint bisect (fuel : nat) (list : list Z) (which mid lft rgt : Z)
    : option Z :=
  match fuel with
  | O => None
  | S fuel =>
      v ← vec_get list mid;
      if negb (v =? which) then
        let lft := if v <? which then mid + 1 else lft in
        let rgt := if v <? which then rgt else mid - 1 in
        if rgt >? lft + 1 then
          bisect fuel list which (Z.shiftr (lft + rgt) 1) lft rgt
        else
          l ← vec_get list lft;
          if l =? which then Some lft
          else
            r ← vec_get list rgt;
            if r =? which then Some rgt else Some (-1)
      else Some mid
  end.

(** [BinarySearch(list, len, which)]; [None] is a read outside the
    array. *)
Definition BinarySearch (list : list Z) (len which : Z) : option Z :=
  if len <=? 3 then linear_search (Z.to_nat len + 1) list len which 0
  else
    bisect (Z.to_nat len) list which (Z.shiftr len 1) 0 (len - 1).

(** ** The ranges of the field arrays *)

(** The tables of the global minima and maxima of the field arrays, of the
    cells or of the points. *)
Record ArrayRanges := {
  NumArrays : Z;
  DataMin : list Z;
  DataMax : list Z;
  DataName : list String.string
}.

(** [!strncmp(n, name, strlen(n))]: [name] begins with [n]. *)
Definition strncmp_eq (n name : String.string) : bool := String.prefix n name.

(** [FindNextLocalArrayIndex(n, names, len, start)] *)
Fixpoint find_next_loop (fuel : nat) (n : String.string) (names : list String.string) (len i : Z)
    : option Z :=
  match fuel with
  | O => None
  | S fuel =>
      if i <? len then
        name ← (if i <? 0 then None else names !! Z.to_nat i);
        if strncmp_eq n name then Some i
        else find_next_loop fuel n names len (i + 1)
      else Some (-1)
  end.

Definition FindNextLocalArrayIndex (n : String.string) (names : list String.string)
    (len start : Z) : option Z :=
  find_next_loop (Z.to_nat (len - start) + 1) n names len start.

(** [GetCellArrayGlobalRange(arrayIndex, range)] with [double range[2]],
    and the same for the point arrays: the return value and [range]
    afterwards. *)
Definition GetArrayGlobalRange (a : ArrayRanges) (arrayIndex : Z) (range : Z * Z)
    : option (Z * (Z * Z)) :=
  if (arrayIndex <? 0) || (arrayIndex >=? NumArrays a)
     || bool_decide (DataMin a = [])
  then Some (1, range)
  else
    mn ← vec_get (DataMin a) arrayIndex;
    mx ← vec_get (DataMax a) arrayIndex;
    Some (0, (mn, mx)).

(** The loop of [GetCellArrayGlobalRange(n, range)] from [start] on, with
    the variables [first], [tmp] and [range]. *)
Fixpoint named_range_loop (fuel : nat) (a : ArrayRanges) (n : String.string)
    (first : bool) (tmp range : Z * Z) (start : Z) : option (bool * (Z * Z)) :=
  match fuel with
  | O => None
  | S fuel =>
      index ← FindNextLocalArrayIndex n (DataName a) (NumArrays a) start;
      if index >=? 0 then
        '(first, tmp, range) ←
          (if first then
             got ← GetArrayGlobalRange a index range;
             Some (false, tmp, got.2)
           else
             got ← GetArrayGlobalRange a index tmp;
             let tmp : Z * Z := got.2 in
             Some (first, tmp,
                   (if tmp.1 <? range.1 then tmp.1 else range.1,
                    if tmp.2 >? range.2 then tmp.2 else range.2)));
        named_range_loop fuel a n first tmp range (index + 1)
      else Some (first, range)
  end.

(** [GetCellArrayGlobalRange(n, range)] with [double range[2]], and the
    same for the point arrays. *)
Definition GetArrayGlobalRangeByName (a : ArrayRanges) (n : String.string)
    (range : Z * Z) : option (Z * (Z * Z)) :=
  done ← named_range_loop (Z.to_nat (NumArrays a) + 1) a n true (0, 0) range 0;
  let fail := if done.1 : bool then 1 else 0 in
  Some (fail, done.2).

(** ** The redistribution branch of PartitionSubArray *)

(** The branch that PartitionSubArray takes when the processes [p1 .. p2]
    that hold [[L, R]] are several.  [X] is the global array of the current
    buffers and [Y] the global array of the next buffers, in which process
    [p] has the window of [dir] in both. *)

Section Redistribution.

Variable dir : Directory.

(** The part [myL .. myR] of [[L, R]] on a process with the window
    [[s, e]]. *)
Definition my_part (L R s e : Z) : Z * Z :=
  let myL := s in
  let myR := e in
  let myL := if myL <? L then L else myL in
  let myR := if myR >? R then R else myR in
  (myL, myR).

(** The process [me] partitions its part: about the value at [K] when it
    has [K], about [T] otherwise.  The state is the array and, for every
    process so far, [(myL, myR, I, J)], which the Gather and Broadcast
    pairs put in [left], [right], [Ival] and [Jval]. *)
Definition partition_part (hasK K T L R dim : Z)
    (st : list point * list (Z * Z * Z * Z)) (me : Z)
    : option (list point * list (Z * Z * Z * Z)) :=
  let '(X, parts) := st in
  '(s, e) ← window dir me;
  let '(myL, myR) := my_part L R s e in
  '(X, idx) ←
    (if hasK =? me then PartitionAboutMyValue s e X myL myR K dim
     else PartitionAboutOtherValue s e X myL myR T dim);
  Some (X, parts ++ [(myL, myR, idx.1, idx.2)]).

(** [memcpy(toPt, fromPt, count * 3 * sizeof(float))] from the current
    buffers to the next buffers. *)
Definition memcpy (X Y : list point) (fromPt toPt count : Z) : list point :=
  take (Z.to_nat toPt) Y
  ++ take (Z.to_nat count) (drop (Z.to_nat fromPt) X)
  ++ drop (Z.to_nat (toPt + count)) Y.

(** [DoTransfer(from, to, fromIndex, toIndex, count)] as the two processes
    run it: [count] points go from the current buffer of [from] to the next
    buffer of [to], by Send and Receive or by the memcpy of one process.
    [None] is a negative count, or, with points to move, a pointer that is
    [nullptr] or a copy that leaves a buffer. *)
Definition DoTransfer (X Y : list point) (from to fromIndex toIndex count : Z)
    : option (list point) :=
  if count <? 0 then None
  else if count =? 0 then Some Y
  else
    '(fs, fe) ← window dir from;
    '(ts, te) ← window dir to;
    fromPt ← GetLocalVal fs fe fromIndex;
    toPt ← GetLocalVal ts te toIndex; (* GetLocalValNext *)
    if (fromPt + count - 1 >? fe) || (toPt + count - 1 >? te) then None
    else Some (memcpy X Y fromPt toPt count).

(** The first [10 * nprocs] entries of [SelectBuffer] hold ten arrays of
    [nprocs] entries one after the other: [left], [right], [Ival], [Jval],
    [leftArray], [leftUsed], [centerArray], [centerUsed], [rightArray],
    [rightUsed].  [rd buf k n i] reads entry [i] of array [k]; with [i]
    past the end of the array it reads the arrays that follow. *)
Definition rd (buf : list Z) (k nprocs i : Z) : option Z :=
  vec_get buf (k * nprocs + i).

(** The three loops over the senders differ in the arrays that they use:
    [phase] is 0 for the values below [T], 1 for the values equal to [T]
    and 2 for the values above [T]; array [4 + 2 * phase] holds the numbers
    of values and array [5 + 2 * phase] how many of them are used. *)
Definition from_index (buf : list Z) (nprocs phase sndr : Z) : option Z :=
  l ← rd buf 0 nprocs sndr;
  la ← (if phase >=? 1 then rd buf 4 nprocs sndr else Some 0);
  ca ← (if phase >=? 2 then rd buf 6 nprocs sndr else Some 0);
  u ← rd buf (5 + 2 * phase) nprocs sndr;
  Some (l + la + ca + u).

(** [for (sndr = next...Proc; sndr < nprocs; sndr++)] for the receiver
    [recvr]; the state is [SelectBuffer], the next buffers, [have], [need]
    and [leftRemaining] or [centerRemaining].  The result has [sndr] at the
    end of the loop. *)
Fixpoint send_loop (fuel : nat) (X : list point) (p1 nprocs phase recvr : Z)
    (sndr : Z) (st : list Z * list point * Z * Z * Z)
    : option (Z * (list Z * list point * Z * Z * Z)) :=
  match fuel with
  | O => None
  | S fuel =>
      let '(buf, Y, have, need, remaining) := st in
      if sndr <? nprocs then
        a ← rd buf (4 + 2 * phase) nprocs sndr;
        u ← rd buf (5 + 2 * phase) nprocs sndr;
        let take := a - u in
        if take =? 0 then
          send_loop fuel X p1 nprocs phase recvr (sndr + 1) st (* continue *)
        else
          let take := if take >? need then need else take in
          fromIndex ← from_index buf nprocs phase sndr;
          l ← rd buf 0 nprocs recvr;
          Y ← DoTransfer X Y (sndr + p1) (recvr + p1) fromIndex (l + have) take;
          let have := have + take in
          let need := need - take in
          let remaining := remaining - take in
          buf ← vec_set buf ((5 + 2 * phase) * nprocs + sndr) (u + take);
          if need =? 0 then Some (sndr, (buf, Y, have, need, remaining)) (* break *)
          else
            send_loop fuel X p1 nprocs phase recvr (sndr + 1)
              (buf, Y, have, need, remaining)
      else Some (sndr, st)
  end.

(** [if (leftUsed[sndr] == leftArray[sndr]) nextLeftProc = sndr + 1;
     else nextLeftProc = sndr;] *)
Definition next_proc (buf : list Z) (nprocs phase sndr : Z) : option Z :=
  u ← rd buf (5 + 2 * phase) nprocs sndr;
  a ← rd buf (4 + 2 * phase) nprocs sndr;
  Some (if u =? a then sndr + 1 else sndr).

(** A loop over the senders with the update of [next...Proc]. *)
Definition send_phase (X : list point) (p1 nprocs phase recvr : Z)
    (nextProc : Z) (st : list Z * list point * Z * Z * Z)
    : option (Z * (list Z * list point * Z * Z * Z)) :=
  '(sndr, st) ←
    send_loop (Z.to_nat nprocs + 1) X p1 nprocs phase recvr nextProc st;
  nextProc ← next_proc st.1.1.1.1 nprocs phase sndr;
  Some (nextProc, st).

(** The variables that live through the loop over the receivers. *)
Record Schedule := {
  SelectBuffer : list Z;
  NextPtArray : list point;
  leftRemaining : Z;
  centerRemaining : Z;
  nextLeftProc : Z;
  nextCenterProc : Z;
  nextRightProc : Z
}.

(** One turn of [for (recvr = 0; recvr < nprocs; recvr++)]. *)
Definition receive (X : list point) (p1 nprocs : Z) (s : Schedule) (recvr : Z)
    : option Schedule :=
  la ← rd (SelectBuffer s) 4 nprocs recvr;
  ca ← rd (SelectBuffer s) 6 nprocs recvr;
  ra ← rd (SelectBuffer s) 8 nprocs recvr;
  let need := la + ca + ra in
  let have := 0 in
  '(nextLeft, (buf, Y, have, need, leftRem)) ←
    (if leftRemaining s >=? 0 then
       send_phase X p1 nprocs 0 recvr (nextLeftProc s)
         (SelectBuffer s, NextPtArray s, have, need, leftRemaining s)
     else
       Some (nextLeftProc s,
             (SelectBuffer s, NextPtArray s, have, need, leftRemaining s)));
  if need =? 0 then
    Some {| SelectBuffer := buf; NextPtArray := Y;
            leftRemaining := leftRem; centerRemaining := centerRemaining s;
            nextLeftProc := nextLeft; nextCenterProc := nextCenterProc s;
            nextRightProc := nextRightProc s |}
  else
    '(nextCenter, (buf, Y, have, need, centerRem)) ←
      (if centerRemaining s >=? 0 then
         send_phase X p1 nprocs 1 recvr (nextCenterProc s)
           (buf, Y, have, need, centerRemaining s)
       else
         Some (nextCenterProc s, (buf, Y, have, need, centerRemaining s)));
    if need =? 0 then
      Some {| SelectBuffer := buf; NextPtArray := Y;
              leftRemaining := leftRem; centerRemaining := centerRem;
              nextLeftProc := nextLeft; nextCenterProc := nextCenter;
              nextRightProc := nextRightProc s |}
    else
      '(nextRight, (buf, Y, have, need, _)) ←
        send_phase X p1 nprocs 2 recvr (nextRightProc s) (buf, Y, have, need, 0);
      Some {| SelectBuffer := buf; NextPtArray := Y;
              leftRemaining := leftRem; centerRemaining := centerRem;
              nextLeftProc := nextLeft; nextCenterProc := nextCenter;
              nextRightProc := nextRight |}.

(** [if ((myL > StartVal[me]) || (myR < EndVal[me])) memcpy(NextPtArray,
    CurrentPtArray, PtArraySize * sizeof(float));] on the process [me];
    AllocateDoubleBuffer has set [PtArraySize] to [NumCells[me] * 3]. *)
Definition keep_outside (X : list point) (L R : Z) (Y : list point) (me : Z)
    : option (list point) :=
  '(s, e) ← window dir me;
  let '(myL, myR) := my_part L R s e in
  if (myL >? s) || (myR <? e) then
    numCells ← vec_get (NumCells dir) me;
    Some (memcpy X Y s s numCells)
  else Some Y.

(** [SwitchDoubleBuffer()] on the process [me]: its two buffers trade
    places, so its window of the one global array becomes its window of
    the other. *)
Definition SwitchDoubleBuffer (st : list point * list point) (me : Z)
    : option (list point * list point) :=
  let '(X, Y) := st in
  '(s, e) ← window dir me;
  Some (memcpy Y X s s (e - s + 1), memcpy X Y s s (e - s + 1)).

Definition sum_list_Z (l : list Z) : Z := foldr Z.add 0 l.

(** PartitionSubArray(L, R, K, dim, p1, p2) past [if (p1 == p2)], as the
    processes [p1 .. p2] run it: the current buffers, the next buffers and
    [(SelectBuffer[0], SelectBuffer[1])] at the end. *)
Definition PartitionRedistribute (X Y : list point) (L R K dim p1 p2 : Z)
    : option (list point * list point * (Z * Z)) :=
  hasK ← WhoHas dir K;
  '(ks, ke) ← window dir hasK;
  vp ← GetLocalVal ks ke K;
  val ← load ks ke X vp;
  let T := coord dim val in
  '(X, parts) ←
    fold_opt (partition_part hasK K T L R dim) (X, []) (ranks p1 p2);
  let nprocs := p2 - p1 + 1 in
  let left := (λ p : Z * Z * Z * Z, p.1.1.1) <$> parts in
  let right := (λ p : Z * Z * Z * Z, p.1.1.2) <$> parts in
  let Ival := (λ p : Z * Z * Z * Z, p.1.2) <$> parts in
  let Jval := (λ p : Z * Z * Z * Z, p.2) <$> parts in
  (* the first loop over [p] *)
  let leftArray := (λ p : Z * Z * Z * Z, p.1.2 - p.1.1.1) <$> parts in
  let centerArray := (λ p : Z * Z * Z * Z, p.2 - p.1.2) <$> parts in
  let rightArray := (λ p : Z * Z * Z * Z, p.1.1.2 - p.2 + 1) <$> parts in
  let leftRemaining := sum_list_Z leftArray in
  let centerRemaining := sum_list_Z centerArray in
  let buf :=
    left ++ right ++ Ival ++ Jval
    ++ leftArray ++ zeros nprocs ++ centerArray ++ zeros nprocs
    ++ rightArray ++ zeros nprocs in
  left0 ← rd buf 0 nprocs 0;
  let FirstCenter := left0 + leftRemaining in
  let FirstRight := FirstCenter + centerRemaining in
  Y ← fold_opt (keep_outside X L R) Y (ranks p1 p2);
  s ← fold_opt (receive X p1 nprocs)
        {| SelectBuffer := buf; NextPtArray := Y;
           leftRemaining := leftRemaining; centerRemaining := centerRemaining;
           nextLeftProc := 0; nextCenterProc := 0; nextRightProc := 0 |}
        (seqZ 0 nprocs);
  '(X, Y) ← fold_opt SwitchDoubleBuffer (X, NextPtArray s) (ranks p1 p2);
  Some (X, Y, (FirstCenter, FirstRight)).

End Redistribution.

(** ** PartitionSubArray and _select as the code has them *)

(** The branch of PartitionSubArray for several processes, as
    [PartitionSubArray] takes it: the current buffers and the two indices
    that the branch returns; [Y] is what the next buffers hold at the
    call. *)
Definition redistribution (dir : Directory) (Y : list point)
    : list point → Z → Z → Z → Z → Z → Z → option (list point * (Z * Z)) :=
  λ X L R K dim p1 p2,
    r ← PartitionRedistribute dir X Y L R K dim p1 p2; Some (r.1.1, r.2).

(** [static_cast<int>(x)]: the fraction of [x] is dropped. *)
Definition to_int (x : R) : Z :=
  if Rle_dec 0 x then Int_part x else - Int_part (- x).

(** The macro [sign(x)]. *)
Definition sign (x : Z) : Z := if x <? 0 then -1 else 1.

(** The sample of [_select] for an interval of [N] points with the target
    at the [I]-th of them.  The float and double values are read as the
    real numbers that they stand for, [log], [exp] and [sqrt] of the C
    library as [ln], [exp] and [sqrt], and the operations as exact:
    [Z = log(float(N))], [S = static_cast<int>(.5 * exp(2 * Z / 3))]. *)
Definition sample_Z (N : Z) : R := ln (IZR N).

Definition sample_S (N : Z) : Z :=
  to_int (1 / 2 * exp (2 * sample_Z N / 3)).

(** [SD = static_cast<int>(.5 * sqrt(Z * S * ((float)(N - S) / N))
                           * sign(I - N / 2))]. *)
Definition sample_SD (N I : Z) : Z :=
  let S := sample_S N in
  to_int (1 / 2 * sqrt (sample_Z N * IZR S * (IZR (N - S) / IZR N))
          * IZR (sign (I - cdiv N 2))).

(** [static_cast<int>(I * ((float)S / N))] of [LL], and
    [static_cast<int>((N - I) * ((float)S / N))] of [RR]. *)
Definition sample_left (N I : Z) : Z :=
  to_int (IZR I * (IZR (sample_S N) / IZR N)).

Definition sample_right (N I : Z) : Z :=
  to_int (IZR (N - I) * (IZR (sample_S N) / IZR N)).

(** * Specifications

    The predicates in which the properties of the program are stated, and
    the parts of its functions that the proofs follow. *)

(** ** Exchanges on the global array *)

(** [X'] is obtained from [X] by a sequence of exchanges of two positions
    of [[L, R]]. *)
Inductive exchanges (L R : Z) : list point → list point → Prop :=
  | exchanges_refl X : exchanges L R X X
  | exchanges_step X Y i j a b :
      exchanges L R X Y →
      L ≤ i ≤ R → L ≤ j ≤ R → 0 ≤ i → 0 ≤ j →
      Y !! Z.to_nat i = Some a → Y !! Z.to_nat j = Some b →
      exchanges L R X (<[Z.to_nat j := a]> (<[Z.to_nat i := b]> Y)).

(** A three-way partition of [[L, R]] about [T], with the block of values
    equal to [T] at [[I, J)]. *)
Definition three_way (dim T L R : Z) (X : list point) (I J : Z) : Prop :=
  L ≤ I ∧ I ≤ J ∧ J ≤ R + 1
  ∧ (∀ k, L ≤ k < I → cv dim X k < T)
  ∧ (∀ k, I ≤ k < J → cv dim X k = T)
  ∧ (∀ k, J ≤ k ≤ R → T < cv dim X k).

(** ** Parts of the partition routines *)

Section LocalBufferParts.

Variables myStart myEnd : Z.

#[local] Abbreviation getLocal := (GetLocalVal myStart myEnd).
#[local] Abbreviation loadW := (load myStart myEnd).
#[local] Abbreviation exchange := (ExchangeLocalVals myStart myEnd).

(** The window lies inside the array. *)
Definition window_ok (X : list point) : Prop := myEnd < Z.of_nat (length X).

(** One turn of the first loop of PartitionAboutMyValue after its
    exchange. *)
Definition my_body (fuel : nat) (X : list point) (dim L T : Z)
    (I J Ipt Jpt : Z) (many : bool) : option (list point * Z * Z * bool) :=
  '(J, Jpt, many) ← my_scan_down myStart myEnd (S fuel) X dim L I T J Jpt many;
  if I =? J then Some (X, I, J, many)
  else
    '(I, Ipt, many) ← my_scan_up myStart myEnd (S fuel) X dim J T I Ipt many;
    my_loop myStart myEnd fuel X dim L T I J Ipt Jpt many.

(** One turn of the exchange loop of PartitionAboutOtherValue after its
    exchange. *)
Definition other_body (fuel : nat) (X : list point) (dim T : Z)
    (I J Ipt Jpt numT : Z) : option (list point * Z * Z * Z) :=
  '(I, Ipt, numT) ← other_scan_up myStart myEnd (S fuel) X dim J T I Ipt numT;
  if I =? J then Some (X, I, J, numT)
  else
    '(J, Jpt, numT) ← other_scan_down myStart myEnd (S fuel) X dim I T J Jpt numT;
    other_loop myStart myEnd fuel X dim T I J Ipt Jpt numT.

(** The text of PartitionAboutOtherValue after its first scan. *)
Definition other_tail (dim T L R : Z) (X : list point)
    (I J Ipt Jpt numT numG numL : Z) : option (list point * (Z * Z)) :=
  let totalVals := R - L + 1 in
  if numL =? totalVals then Some (X, (R + 1, R + 1))
  else if numT =? totalVals then Some (X, (L, R + 1))
  else if numG =? totalVals then Some (X, (L, L))
  else
    '(X, I, J, numT) ←
      other_loop myStart myEnd (span L R) X dim T I J Ipt Jpt numT;
    if numT =? 0 then Some (X, (I, I))
    else
      let vals0 := I in
      Ipt ← getLocal I;
      let I := I - 1 in
      let Ipt := Ipt - 1 in
      let J := R + 1 in
      Jpt ← getLocal R;
      let Jpt := Jpt + 1 in
      r ← gather_loop myStart myEnd (span L R) X dim T I J Ipt Jpt;
      Some (r.1.1, (vals0, r.1.2)).

(** What the first scan leaves: one of the three special cases, or the
    precondition of the exchange loop. *)
Definition other_ready (dim T L R : Z) (X : list point)
    (I J Ipt Jpt numT numG numL : Z) : Prop :=
  (numL = R - L + 1 → ∀ k, L ≤ k ≤ R → cv dim X k < T)
  ∧ (numT = R - L + 1 → ∀ k, L ≤ k ≤ R → cv dim X k = T)
  ∧ (numG = R - L + 1 → ∀ k, L ≤ k ≤ R → T < cv dim X k)
  ∧ (numL ≠ R - L + 1 →
      0 ≤ numT
      ∧ (I < J →
           L ≤ I ∧ J ≤ R ∧ Ipt = I ∧ Jpt = J
           ∧ T ≤ cv dim X I ∧ cv dim X J < T
           ∧ (∀ k, L ≤ k < I → cv dim X k < T)
           ∧ (∀ k, J < k ≤ R → T ≤ cv dim X k)
           ∧ (numT = 0 → cv dim X I ≠ T ∧ ∀ k, J < k ≤ R → cv dim X k ≠ T))
      ∧ (J ≤ I →
           L ≤ I ≤ R + 1
           ∧ (∀ k, L ≤ k < I → cv dim X k < T)
           ∧ (∀ k, I ≤ k ≤ R → T ≤ cv dim X k)
           ∧ (numT = 0 → ∀ k, I ≤ k ≤ R → cv dim X k ≠ T)
           ∧ (numT ≠ 0 → I ≤ R))).

(** The text of PartitionAboutOtherValue from the classification of the
    end values on. *)
Definition other_head (dim T L R : Z) (X : list point)
    (Ipt Lval : Z) : option (list point * (Z * Z)) :=
  let '(numT, numG, numL) :=
    if Lval =? T then (1, 0, 0)
    else if Lval >? T then (0, 1, 0) else (0, 0, 1) in
  Jpt ← getLocal R;
  Rp ← loadW X Jpt;
  let Rval := coord dim Rp in
  let '(numT, numG, numL) :=
    if Rval =? T then (numT + 1, numG, numL)
    else if Rval >? T then (numT, numG + 1, numL)
    else (numT, numG, numL + 1) in
  let I := L in
  let J := R in
  '(X, I, J, Ipt, Jpt, numT, numG, numL) ←
    (if (Lval >=? T) && (Rval >=? T) then
       '(J, Jpt, numT, numG) ←
         other_first_down myStart myEnd (span L R) X dim I T J Jpt numT numG;
       Some (X, I, J, Ipt, Jpt, numT, numG, numL)
     else if (Lval <? T) && (Rval <? T) then
       Ipt ← getLocal I;
       '(I, Ipt, numT, numL) ←
         other_first_up myStart myEnd (span L R) X dim J T I Ipt numT numL;
       Some (X, I, J, Ipt, Jpt, numT, numG, numL)
     else if (Lval <? T) && (Rval >=? T) then
       Some (exchange X I J, I, J, Ipt, Jpt, numT, numG, numL)
     else
       Some (X, I, J, Ipt, Jpt, numT, numG, numL));
  other_tail dim T L R X I J Ipt Jpt numT numG numL.

End LocalBufferParts.

(** ** The global index directory *)

(** A directory as BuildGlobalIndexLists leaves it: the windows of the
    processes follow each other from index [0] to [TotalNumCells - 1]. *)
Record dir_ok (d : Directory) : Prop := {
  dir_procs : 0 < NumProcesses d;
  dir_len_start : Z.of_nat (length (StartVal d)) = NumProcesses d;
  dir_len_end : Z.of_nat (length (EndVal d)) = NumProcesses d;
  dir_len_cells : Z.of_nat (length (NumCells d)) = NumProcesses d;
  dir_first : StartVal d !! 0%nat = Some 0;
  dir_window : ∀ (i : nat) s c,
    StartVal d !! i = Some s → NumCells d !! i = Some c →
    0 ≤ c ∧ EndVal d !! i = Some (s + c - 1)
    ∧ (Z.of_nat (S i) < NumProcesses d → StartVal d !! S i = Some (s + c))
    ∧ (Z.of_nat (S i) = NumProcesses d → TotalNumCells d = s + c)
}.

(** The sum of the first [i] counts. *)
Definition psum (counts : list Z) (i : nat) : Z := foldr Z.add 0 (take i counts).

(** The first index of the window of [i]; [TotalNumCells] past the last
    process. *)
Definition upper (dir : Directory) (i : nat) : Z :=
  default (TotalNumCells dir) (StartVal dir !! i).

(** ** Rearrangements of a range of the global array *)

(** The points of [[L, R]]. *)
Definition slice (L R : Z) (X : list point) : list point :=
  take (Z.to_nat (R - L + 1)) (drop (Z.to_nat L) X).

(** [X'] holds the points of [X], and those outside [[L, R]] have not
    moved. *)
Definition rearranged (L R : Z) (X X' : list point) : Prop :=
  X' ≡ₚ X ∧ ∀ i : nat, ¬ (L ≤ Z.of_nat i ≤ R) → X' !! i = X !! i.

(** ** Selection *)

Section SelectionSpec.

Variable dir : Directory.
Variable PartitionDistributed :
  list point → Z → Z → Z → Z → Z → Z → option (list point * (Z * Z)).
Variables fr_left fr_right fr_SD : Z → Z → Z.

#[local] Abbreviation N := (TotalNumCells dir).

(** What is asked of the redistribution branch: a three-way partition of
    [[L, R]] about the value at [K], with a block of equal values that is
    not empty. *)
Definition distributed_ok : Prop :=
  ∀ X L R K dim p1 p2,
    Z.of_nat (length X) = N → 0 ≤ L → L ≤ K ≤ R → R < N →
    WhoHas dir L = Some p1 → WhoHas dir R = Some p2 → p1 ≠ p2 →
    ∃ X' I J,
      PartitionDistributed X L R K dim p1 p2 = Some (X', (I, J))
      ∧ rearranged L R X X' ∧ I < J
      ∧ three_way dim (cv dim X K) L R X' I J.

(** What is asked of the sample bounds: the sample interval holds [K]
    and is shorter than [[L, R]]. *)
Definition sample_ok : Prop :=
  ∀ Nn I, 601 < Nn → 1 ≤ I ≤ Nn →
    fr_SD Nn I ≤ fr_left Nn I
    ∧ 0 ≤ fr_right Nn I + fr_SD Nn I
    ∧ fr_left Nn I + fr_right Nn I < Nn - 1.

(** Everything left of [L] is below everything from [L] on, and
    everything up to [R] is below everything right of [R]. *)
Definition fenced (dim L0 R0 L R : Z) (X : list point) : Prop :=
  (∀ i j, L0 ≤ i < L → L ≤ j ≤ R0 → cv dim X i < cv dim X j)
  ∧ (∀ i j, L0 ≤ i ≤ R → R < j ≤ R0 → cv dim X i < cv dim X j).

(** The array is partitioned about the value at [K]. *)
Definition selected (dim L R K : Z) (X : list point) : Prop :=
  ∃ I J, I ≤ K ∧ K < J ∧ three_way dim (cv dim X K) L R X I J.

End SelectionSpec.

(** ** Order statistics *)

(** The coordinates along [dim] of the points of [[L, R]]. *)
Definition coords (dim L R : Z) (X : list point) : list Z :=
  map (coord dim) (slice L R X).

(** [v] is the [k]-th smallest value of [l], counting from 1 and with
    repetitions: fewer than [k] values are below [v], and at least [k] are
    not above it. *)
Definition kth_smallest (k v : Z) (l : list Z) : Prop :=
  Z.of_nat (length (filter (λ x, x < v) l)) < k
  ≤ Z.of_nat (length (filter (λ x, x ≤ v) l)).

(** ** Point counts in the tree *)

(** The count of every divided node is the sum of the counts of its two
    children. *)
Fixpoint counts_add_up (t : KdTree) : Prop :=
  match t with
  | Leaf _ => True
  | Split kd l r =>
      NumberOfPoints kd = NumberOfPoints (root_node l) + NumberOfPoints (root_node r)
      ∧ counts_add_up l ∧ counts_add_up r
  end.

(** The sum of the counts of the leaves. *)
Fixpoint leaf_points (t : KdTree) : Z :=
  match t with
  | Leaf kd => NumberOfPoints kd
  | Split _ l r => leaf_points l + leaf_points r
  end.

(** What a call of DivideRegion on the node at [p] does to the tree:
    nothing, with the result [-1], or the node gets two new leaves. *)
Definition divided (t : KdTree) (p : node_ptr) (L : Z) (t' : KdTree) (midpt : Z)
    : Prop :=
  ∃ s, subtree t p = Some s ∧
    let n := NumberOfPoints (root_node s) in
    let R := L + n - 1 in
    (t' = t ∧ midpt = -1)
    ∨ ∃ kd left right,
        t' = set_subtree t p (Split kd (Leaf left) (Leaf right))
        ∧ NumberOfPoints kd = n
        ∧ ((n < 2 ∧ midpt = L
            ∧ NumberOfPoints left = n ∧ NumberOfPoints right = 0)
           ∨ (2 ≤ n
              ∧ NumberOfPoints left = midpt - L
              ∧ NumberOfPoints right = R - midpt + 1)).

(** ** The fallback of DivideRegion *)

Section BuildSpec.

Variable dir : Directory.
Variable PartitionDistributed :
  list point → Z → Z → Z → Z → Z → Z → option (list point * (Z * Z)).
Variables fr_left fr_right fr_SD : Z → Z → Z.
Variable ValidDirections : Z.

#[local] Abbreviation Select' :=
  (Select dir PartitionDistributed fr_left fr_right fr_SD).

(** The directions that the loop of DivideRegion tries after [newdim]:
    those other than [maxdim] that [ValidDirections] permits. *)
Definition permitted_after (maxdim newdim : Z) : list Z :=
  filter (λ d, newdim < d ∧ d ≠ maxdim
               ∧ Z.land ValidDirections (Z.shiftl 1 d) ≠ 0)
         [XDIM; YDIM; ZDIM].

(** [Select] along each of [dims] in turn returns an index below
    [L + 1]; the result is the array after the last of them. *)
Fixpoint selects_fail (X : list point) (p1 p2 L R : Z) (dims : list Z)
    : option (list point) :=
  match dims with
  | [] => Some X
  | d :: dims =>
      '(X, midpt) ← Select' X p1 p2 d L R;
      if midpt <? L + 1 then selects_fail X p1 p2 L R dims else None
  end.

End BuildSpec.

(** ** Region boundaries *)

(** The bounds of the children of a node agree with the bounds of the
    node. *)
Definition children_agree (kd l r : KdNode) : Prop :=
  ∀ dim, 0 ≤ dim ≤ 2 →
    vget (Min l) dim = vget (Min kd) dim
    ∧ vget (Max r) dim = vget (Max kd) dim
    ∧ (dim ≠ Dim kd →
         vget (Max l) dim = vget (Max kd) dim
         ∧ vget (Min r) dim = vget (Min kd) dim)
    ∧ (dim = Dim kd → vget (Max l) dim = vget (Min r) dim).

(** Every node of the tree agrees with its children. *)
Fixpoint boundaries_fixed (t : KdTree) : Prop :=
  match t with
  | Leaf _ => True
  | Split kd l r =>
      children_agree kd (root_node l) (root_node r)
      ∧ boundaries_fixed l ∧ boundaries_fixed r
  end.

(** ** Region assignment *)

(** The regions below [n] that round-robin gives to process [p], in
    increasing order. *)
Definition owned (P p : Z) (n : nat) : list Z :=
  filter (λ r, r mod P = p) (seqZ 0 (Z.of_nat n)).

(** ** Examples *)

(** A process that never meets the redistribution branch. *)
Definition no_redistribution :
    list point → Z → Z → Z → Z → Z → Z → option (list point * (Z * Z)) :=
  λ _ _ _ _ _ _ _, None.

(** No sample, as for intervals of 600 points or fewer. *)
Definition no_sample : Z → Z → Z := λ _ _, 0.

(** Four points on one process; the last three agree along [YDIM]. *)
Definition four_points : list point :=
  [Point 0 7 0; Point 1 5 0; Point 2 5 0; Point 3 5 0].

(** One process with ten points at [(1, 2, 3)]. *)
Definition ten_points : list point := replicate 10 (Point 1 2 3).

(** Divide while a node has four points or more. *)
Definition divide_from_four (numPoints level : Z) : bool :=
  (4 <=? numPoints) && (level <? 10).

(** The tree object before the assignment, with [P] processes and [R]
    regions. *)
Definition built_tree (P R : Z) : PKdTree :=
  {| Top := Some (Leaf new_node); NumberOfRegions := R; NumProcs := P;
     RegionAssignment := NoRegionAssignment; RegionAssignmentMap := [];
     NumRegionsAssigned := []; ProcessAssignmentMap := [];
     DataLocationMap := [] |}.

(** A tree before any build: no top node and empty tables. *)
Definition unbuilt_tree : PKdTree :=
  {| Top := None; NumberOfRegions := 0; NumProcs := 2;
     RegionAssignment := ContiguousAssignment;
     RegionAssignmentMap := []; NumRegionsAssigned := [];
     ProcessAssignmentMap := []; DataLocationMap := [] |}.

(** ** The tables, the tree and the queries *)

(** The regions below [n] that [map] gives to process [p], in increasing
    order. *)
Definition regions_of (map : list Z) (p : Z) (n : nat) : list Z :=
  filter (λ r, map !! Z.to_nat r = Some p) (seqZ 0 (Z.of_nat n)).

(** Every entry of [map] is a process id. *)
Definition valid_map (P : Z) (map : list Z) : Prop :=
  Forall (λ m, 0 ≤ m < P) map.

(** The map of the round-robin assignment. *)
Definition round_robin_map (P R : Z) : list Z := (λ r, r mod P) <$> seqZ 0 R.

(** A list of [n] slots that holds [entries] so far: the entries, the mark
    [-1] of the first free slot if there is one, and zeros. *)
Definition pending (entries : list Z) (n : nat) : list Z :=
  entries
  ++ (if decide (length entries < n)%nat
      then -1 :: replicate (n - length entries - 1) 0 else []).

(** [c[k]++] *)
Definition bump (c : list Z) (k : nat) : list Z := <[k := c !!! k + 1]> c.

(** The number of entries of [IDs] that are [r]. *)
Definition cells_of (IDs : list Z) (r : Z) : Z :=
  Z.of_nat (length (filter (λ id, id = r) IDs)).

(** The entry of [proc] and [reg] in a table with one row per process. *)
Definition count_at (counts : list (list Z)) (e : nat * nat) : Z :=
  (counts !!! e.1) !!! e.2.

Definition has_cells (counts : list (list Z)) (e : nat * nat) : bool :=
  count_at counts e >? 0.

(** The tables that AllocateAndZeroProcessDataLists() leaves. *)
Definition zero_tables (nRegions nProcesses : Z) : ProcessData :=
  {| NumProcessesInRegion := zeros nRegions;
     ProcessList := replicate (Z.to_nat nRegions) [];
     NumRegionsInProcess := zeros nProcesses;
     ParallelRegionList := replicate (Z.to_nat nProcesses) [];
     CellCountList := replicate (Z.to_nat nRegions) [] |}.

(** The processes with cells in region [r], and the regions in which
    process [p] has cells, in ascending order. *)
Definition procs_in (counts : list (list Z)) (nProcesses : Z) (r : nat) : list nat :=
  filter (λ p, has_cells counts (p, r) = true) (seq 0 (Z.to_nat nProcesses)).

Definition regs_of (counts : list (list Z)) (nRegions : Z) (p : nat) : list nat :=
  filter (λ r, has_cells counts (p, r) = true) (seq 0 (Z.to_nat nRegions)).

(** The number of cells of process [p] in region [r], where [IDs] gives the
    regions of the cells of every process. *)
Definition cells_in (IDs : list (list Z)) (p r : Z) : Z :=
  cells_of (IDs !!! Z.to_nat p) r.

(** The processes with a cell in region [r], in ascending order. *)
Definition processes_with_data (IDs : list (list Z)) (nProcesses r : Z) : list Z :=
  filter (λ p, 0 < cells_in IDs p r) (seqZ 0 nProcesses).

(** The regions in which process [p] has a cell, in ascending order. *)
Definition regions_with_data (IDs : list (list Z)) (nRegions p : Z) : list Z :=
  filter (λ r, 0 < cells_in IDs p r) (seqZ 0 nRegions).

(** Every region id of every process is a region of the tree. *)
Definition valid_cells (nRegions : Z) (IDs : list (list Z)) : Prop :=
  Forall (Forall (λ id, 0 ≤ id < nRegions)) IDs.

(** The tables after a run of CreateProcessCellCountData in which no
    process fails. *)
Definition tables_of (t : PKdTree) (IDs : list (list Z)) (pd : ProcessData)
    : Prop :=
  let nRegions := NumberOfRegions t in
  let nProcesses := NumProcs t in
  length (NumProcessesInRegion pd) = Z.to_nat nRegions
  ∧ length (ProcessList pd) = Z.to_nat nRegions
  ∧ length (CellCountList pd) = Z.to_nat nRegions
  ∧ length (NumRegionsInProcess pd) = Z.to_nat nProcesses
  ∧ length (ParallelRegionList pd) = Z.to_nat nProcesses
  ∧ (∀ r, 0 ≤ r < nRegions →
       NumProcessesInRegion pd !! Z.to_nat r
       = Some (Z.of_nat (length (processes_with_data IDs nProcesses r)))
       ∧ ProcessList pd !! Z.to_nat r
         = Some (processes_with_data IDs nProcesses r)
       ∧ CellCountList pd !! Z.to_nat r
         = Some ((λ p, cells_in IDs p r) <$> processes_with_data IDs nProcesses r))
  ∧ (∀ p, 0 ≤ p < nProcesses →
       NumRegionsInProcess pd !! Z.to_nat p
       = Some (Z.of_nat (length (regions_with_data IDs nRegions p)))
       ∧ ParallelRegionList pd !! Z.to_nat p
         = Some (regions_with_data IDs nRegions p)).

(** Two processes and three regions: process 0 has the cells of the regions
    0, 2, 2 and process 1 those of the regions 1, 2. *)
Definition two_processes : list (list Z) := [[0; 2; 2]; [1; 2]].

(** Two nodes that differ in their region bounds at most. *)
Definition same_but_bounds (a b : KdNode) : Prop :=
  Dim a = Dim b ∧ NumberOfPoints a = NumberOfPoints b
  ∧ MinVal a = MinVal b ∧ MaxVal a = MaxVal b.

(** [t'] has the nodes of [t] with other region bounds at most, and the
    right child of every node has kept its lower bound along the dimension
    of the node. *)
Fixpoint keeps_cuts (t t' : KdTree) : Prop :=
  match t, t' with
  | Leaf a, Leaf b => same_but_bounds a b
  | Split a l r, Split b l' r' =>
      same_but_bounds a b
      ∧ (0 ≤ Dim a ≤ 2 →
         vget (Min (root_node r')) (Dim a) = vget (Min (root_node r)) (Dim a))
      ∧ keeps_cuts l l' ∧ keeps_cuts r r'
  | _, _ => False
  end.

(** Every leaf of [t] is [n] levels below the top. *)
Fixpoint perfect (n : nat) (t : KdTree) : Prop :=
  match n, t with
  | O, Leaf _ => True
  | S n, Split _ l r => perfect n l ∧ perfect n r
  | _, _ => False
  end.

(** Every node of [t] is a node that FillOutTree adds. *)
Fixpoint all_filler (t : KdTree) : Prop :=
  match t with
  | Leaf n => n = filler_node
  | Split n l r => n = filler_node ∧ all_filler l ∧ all_filler r
  end.

(** [t'] is [t] with trees of added nodes below some of its leaves. *)
Fixpoint filled_from (t t' : KdTree) : Prop :=
  match t, t' with
  | Leaf n, Leaf n' => n = n'
  | Leaf n, Split n' l r => n = n' ∧ all_filler l ∧ all_filler r
  | Split n l r, Split n' l' r' => n = n' ∧ filled_from l l' ∧ filled_from r r'
  | Split _ _ _, Leaf _ => False
  end.

Fixpoint same_shape (a b : KdTree) : Prop :=
  match a, b with
  | Leaf _, Leaf _ => True
  | Split _ l r, Split _ l' r' => same_shape l l' ∧ same_shape r r'
  | _, _ => False
  end.

(** Two nodes that differ in their dimension at most. *)
Definition same_but_dim (a b : KdNode) : Prop :=
  NumberOfPoints a = NumberOfPoints b
  ∧ Min a = Min b ∧ Max a = Max b
  ∧ MinVal a = MinVal b ∧ MaxVal a = MaxVal b.

(** Below the top, [kd'] has the nodes of [kd0], but for the dimension of
    the leaves. *)
Fixpoint agrees_below (kd0 kd' : KdTree) : Prop :=
  match kd0, kd' with
  | Leaf a, Leaf b => same_but_dim a b
  | Split a l0 r0, Split b l' r' => a = b ∧ agrees_below l0 l' ∧ agrees_below r0 r'
  | _, _ => False
  end.

(** The leaves of [kd'] have the dimensions of the leaves of [kd]. *)
Fixpoint keeps_leaf_dims (kd kd' : KdTree) : Prop :=
  match kd, kd' with
  | Leaf b, Leaf b' => Dim b' = Dim b
  | Split _ l r, Split _ l' r' => keeps_leaf_dims l l' ∧ keeps_leaf_dims r r'
  | _, _ => False
  end.

(** The node [dst] after it has received the contents of [src] as a
    child. *)
Definition received (src dst : KdNode) : KdNode :=
  {| Dim := Dim dst; NumberOfPoints := NumberOfPoints src;
     Min := Min src; Max := Max src;
     MinVal := MinVal src; MaxVal := MaxVal src |}.

(** Array [i] has a name that begins with [n]. *)
Definition begins_with (a : ArrayRanges) (n : String.string) (i : Z) : bool :=
  match DataName a !! Z.to_nat i with
  | Some name => String.prefix n name
  | None => false
  end.

(** The arrays from [start] on whose name begins with [n]. *)
Definition matching_from (a : ArrayRanges) (n : String.string) (start : Z) : list Z :=
  filter (λ i, begins_with a n i = true) (seqZ start (NumArrays a - start)).

(** The tables have one entry for every array. *)
Definition ranges_ok (a : ArrayRanges) : Prop :=
  NumArrays a = Z.of_nat (length (DataName a))
  ∧ length (DataMin a) = length (DataName a)
  ∧ length (DataMax a) = length (DataName a).

(** [x] is the least entry of [l]. *)
Definition least (x : Z) (l : list Z) : Prop := x ∈ l ∧ Forall (λ y, x ≤ y) l.

(** [x] is the greatest entry of [l]. *)
Definition greatest (x : Z) (l : list Z) : Prop := x ∈ l ∧ Forall (λ y, y ≤ x) l.

(** One array taken into the range. *)
Definition absorb (a : ArrayRanges) (st : bool * (Z * Z)) (i : Z) : bool * (Z * Z) :=
  let mn := DataMin a !!! Z.to_nat i in
  let mx := DataMax a !!! Z.to_nat i in
  if st.1 then (false, (mn, mx))
  else (false, (if mn <? st.2.1 then mn else st.2.1,
                if mx >? st.2.2 then mx else st.2.2)).

(** The arrays [pressure], [velocity] and [pressure_old], asked for
    [pressure]. *)
Definition three_arrays : ArrayRanges :=
  {| NumArrays := 3; DataMin := [5; -2; 1]; DataMax := [9; 7; 12];
     DataName := ["pressure"; "velocity"; "pressure_old"]%string |}.

(** What a call of DivideRegion on the node at [p] does to the region
    bounds: nothing, or the node gets a dimension and two new leaves that
    have not been divided and whose bounds agree with the bounds of the
    node. *)
Definition cut_in_two (t : KdTree) (p : node_ptr) (t' : KdTree) : Prop :=
  ∃ s, subtree t p = Some s ∧
    (t' = t
     ∨ ∃ maxdim l r,
         let kd := SetDim maxdim (root_node s) in
         t' = set_subtree t p (Split kd (Leaf l) (Leaf r))
         ∧ children_agree kd l r ∧ Dim l = 3 ∧ Dim r = 3).

(** [lo] and [hi] are, along every dimension, the least and the greatest
    coordinate of the points of [[L, R]]. *)
Definition bounding_box (X : list point) (L R : Z) (lo hi : vec3) : Prop :=
  ∀ d, 0 ≤ d ≤ 2 →
    least (vget lo d) (coords d L R X) ∧ greatest (vget hi d) (coords d L R X).

(** The bounds of the top node hold the points of [[L, R]]. *)
Definition enclosed (to_float : Z → Z) (top : KdNode) (X : list point)
    (L R : Z) : Prop :=
  ∀ i d, L ≤ i ≤ R → 0 ≤ d ≤ 2 →
    to_float (vget (Min top) d) ≤ cv d X i ≤ to_float (vget (Max top) d).

(** Entry [i] of an array of the schedule. *)
Definition zget (l : list Z) (i : Z) : Z := l !!! Z.to_nat i.

(** The global indices that the senders from [k] on have not sent yet, in
    the order in which they are sent: sender [s] has [As[s]] values from
    [b s] on and [Us[s]] of them are used. *)
Definition unsent (b : Z → Z) (As Us : list Z) (n k : Z) : list Z :=
  s ← seqZ k (n - k); seqZ (b s + zget Us s) (zget As s - zget Us s).

(** The first index of the values of sender [s] in a phase. *)
Definition phase_base (rows : list (list Z)) (phase s : Z) : Z :=
  zget (rows !!! 0%nat) s
  + (if phase >=? 1 then zget (rows !!! 4%nat) s else 0)
  + (if phase >=? 2 then zget (rows !!! 6%nat) s else 0).

(** [Y'] is [Y] with the points of [X] at the first [t] indices of [S]
    placed from [pos] on. *)
Definition placed (X : list point) (S : list Z) (pos t : Z)
    (Y Y' : list point) : Prop :=
  length Y' = length Y
  ∧ ∀ i : nat,
      Y' !! i = if decide (pos ≤ Z.of_nat i < pos + t)
                then X !! Z.to_nat (zget S (Z.of_nat i - pos))
                else Y !! i.

(** The ten arrays of SelectBuffer. *)
Definition sched_rows (lft rgt Iv Jv A0 A1 A2 U0 U1 U2 : list Z)
    : list (list Z) :=
  [lft; rgt; Iv; Jv; A0; U0; A1; U1; A2; U2].

(** The unsent values of a phase from the sender [k] on. *)
Definition phase_unsent (rows : list (list Z)) (n phase k : Z) : list Z :=
  unsent (phase_base rows phase) (rows !!! Z.to_nat (4 + 2 * phase))
    (rows !!! Z.to_nat (5 + 2 * phase)) n k.

(** The state of the schedule before the turn of the receiver [r]: [S0]
    is the order in which the values of [[L, R]] are sent, its first
    [sent] values are placed from [L] on in the next buffers, and the
    others are the unsent values of the three phases. *)
Definition scheduled (X Y0 : list point)
    (mk : list Z → list Z → list Z → list (list Z)) (n L : Z) (S0 : list Z)
    (r sent : Z) (s : Schedule) : Prop :=
  ∃ U0 U1 U2,
    SelectBuffer s = concat (mk U0 U1 U2)
    ∧ Forall (λ U, length U = Z.to_nat n) [U0; U1; U2]
    ∧ (∀ ph i, 0 ≤ ph ≤ 2 → 0 ≤ i < n →
         0 ≤ zget (mk U0 U1 U2 !!! Z.to_nat (5 + 2 * ph)) i
           ≤ zget (mk U0 U1 U2 !!! Z.to_nat (4 + 2 * ph)) i)
    ∧ 0 ≤ nextLeftProc s ≤ n + r
    ∧ 0 ≤ nextCenterProc s ≤ n + r
    ∧ 0 ≤ nextRightProc s ≤ n
    ∧ leftRemaining s
      = Z.of_nat (length (phase_unsent (mk U0 U1 U2) n 0 (nextLeftProc s)))
    ∧ centerRemaining s
      = Z.of_nat (length (phase_unsent (mk U0 U1 U2) n 1 (nextCenterProc s)))
    ∧ phase_unsent (mk U0 U1 U2) n 0 (nextLeftProc s)
      ++ phase_unsent (mk U0 U1 U2) n 1 (nextCenterProc s)
      ++ phase_unsent (mk U0 U1 U2) n 2 (nextRightProc s)
      = drop (Z.to_nat sent) S0
    ∧ length (NextPtArray s) = length X
    ∧ placed X S0 L sent Y0 (NextPtArray s).

(** The first index of the part of [[L, R]] on the process [p1 + s]; past
    the last process it is [R + 1]. *)
Definition part_start (dir : Directory) (L R p1 s : Z) : Z :=
  Z.min (R + 1) (Z.max L (upper dir (Z.to_nat (p1 + s)))).

(** The first [j] processes have partitioned their parts of [X] about
    [T], and the process [hk] has a value equal to [T]. *)
Definition parts_ok (dim T : Z) (lo : Z → Z) (hk : Z) (X : list point)
    (j : Z) (parts : list (Z * Z * Z * Z)) : Prop :=
  Z.of_nat (length parts) = j
  ∧ ∀ s, 0 ≤ s < j →
      ∃ I J, parts !! Z.to_nat s = Some (lo s, lo (s + 1) - 1, I, J)
             ∧ three_way dim T (lo s) (lo (s + 1) - 1) X I J
             ∧ (s = hk → I < J).

(** Six points on three processes, two on each. *)
Definition six_points : list point :=
  [Point 5 0 0; Point 1 1 0; Point 3 2 0; Point 3 3 0; Point 0 4 0; Point 4 5 0].

(** A node that spans [0, 8] x [0, 4] x [0, 2] and is cut along x at 4,
    with children whose bounds have drifted: the left child ends at 3
    along x and at 5 along y, the right child starts at 1 along z and
    ends at 9 along x. *)
Definition drifted_tree : KdTree :=
  Split (SetDim 0 (SetBounds 0 8 0 4 0 2 new_node))
    (Leaf (SetBounds 0 3 0 5 0 2 new_node))
    (Leaf (SetBounds 4 9 0 4 1 2 new_node)).

(** ** Proof tactics *)

(** Case analysis on the comparisons of a goal. *)
Ltac zbool :=
  repeat match goal with
  | |- context [?a <? ?b] => destruct (Z.ltb_spec a b)
  | |- context [?a >? ?b] => destruct (Z.gtb_spec a b)
  | |- context [?a <=? ?b] => destruct (Z.leb_spec a b)
  | |- context [?a >=? ?b] => destruct (Z.geb_spec a b)
  | |- context [?a =? ?b] => destruct (Z.eqb_spec a b)
  end.

(** One step of the option monad. *)
Ltac obind := cbn [mbind option_bind fst snd].

(** * Proofs *)

(** ** Exchanges on the global array *)

Lemma exchanges_length L R X X' : exchanges L R X X' → length X' = length X.
Proof. induction 1; [done|]. by rewrite !length_insert. Qed.

Lemma exchanges_Permutation L R X X' : exchanges L R X X' → X' ≡ₚ X.
Proof.
  induction 1; [done|].
  etrans; [|eassumption]. by apply Permutation_insert_swap.
Qed.

(** Positions outside [[L, R]] keep their point. *)
Lemma exchanges_frame L R X X' (k : nat) :
  exchanges L R X X' → ¬ (L ≤ Z.of_nat k ≤ R) → X' !! k = X !! k.
Proof.
  induction 1 as [|X Y i j a b _ IH]; intros Hk; [done|].
  rewrite !list_lookup_insert_ne by lia. by apply IH.
Qed.

Lemma exchanges_trans L R X Y Z' :
  exchanges L R X Y → exchanges L R Y Z' → exchanges L R X Z'.
Proof. intros HXY. induction 1; [done|]. eapply exchanges_step; eauto. Qed.

Lemma exchanges_mono L R L' R' X Y :
  L' ≤ L → R ≤ R' → exchanges L R X Y → exchanges L' R' X Y.
Proof.
  intros HL HR. induction 1; [constructor|].
  econstructor; eauto; lia.
Qed.

Lemma pt_lookup (X : list point) (i : Z) :
  0 ≤ i < Z.of_nat (length X) → X !! Z.to_nat i = Some (pt X i).
Proof. intros Hi. apply list_lookup_lookup_total_lt. lia. Qed.

Section LocalBufferFacts.

Variables myStart myEnd : Z.
Hypothesis start_nonneg : 0 ≤ myStart.

#[local] Abbreviation getLocal := (GetLocalVal myStart myEnd).
#[local] Abbreviation loadW := (load myStart myEnd).
#[local] Abbreviation exchange := (ExchangeLocalVals myStart myEnd).

Lemma GetLocalVal_in p : myStart ≤ p ≤ myEnd → getLocal p = Some p.
Proof.
  intros Hp. unfold GetLocalVal.
  destruct (Z.ltb_spec p myStart), (Z.gtb_spec p myEnd); simpl; auto; lia.
Qed.

Lemma load_in X p :
  window_ok myEnd X → myStart ≤ p ≤ myEnd → loadW X p = Some (pt X p).
Proof.
  intros HX Hp. unfold load, window_ok in *.
  destruct (Z.ltb_spec p myStart), (Z.gtb_spec p myEnd); simpl; try lia.
  apply pt_lookup. lia.
Qed.

Lemma Exchange_eq X i j :
  window_ok myEnd X → myStart ≤ i ≤ myEnd → myStart ≤ j ≤ myEnd →
  exchange X i j
  = <[Z.to_nat j := pt X i]> (<[Z.to_nat i := pt X j]> X).
Proof.
  intros HX Hi Hj. unfold ExchangeLocalVals, window_ok in *.
  rewrite !GetLocalVal_in by done.
  by rewrite !pt_lookup by lia.
Qed.

Lemma Exchange_window X i j : window_ok myEnd X → window_ok myEnd (exchange X i j).
Proof.
  unfold window_ok, ExchangeLocalVals. intros HX.
  repeat case_match; rewrite ?length_insert; done.
Qed.

Lemma Exchange_exchanges L R X0 X i j :
  window_ok myEnd X → myStart ≤ i ≤ myEnd → myStart ≤ j ≤ myEnd →
  L ≤ i ≤ R → L ≤ j ≤ R →
  exchanges L R X0 X → exchanges L R X0 (exchange X i j).
Proof.
  intros HX Hi Hj HiL HjL H0. rewrite Exchange_eq by done.
  unfold window_ok in *.
  eapply exchanges_step; eauto; try lia; apply pt_lookup; lia.
Qed.

Lemma pt_Exchange X i j k :
  window_ok myEnd X → myStart ≤ i ≤ myEnd → myStart ≤ j ≤ myEnd → 0 ≤ k →
  pt (exchange X i j) k
  = if k =? j then pt X i else if k =? i then pt X j else pt X k.
Proof.
  intros HX Hi Hj Hk. rewrite Exchange_eq by done.
  unfold pt, window_ok in *.
  rewrite !list_lookup_total_insert, !length_insert.
  destruct (Z.eqb_spec k j), (Z.eqb_spec k i); subst;
    repeat case_decide; try done; try lia.
Qed.

Lemma cv_Exchange dim X i j k :
  window_ok myEnd X → myStart ≤ i ≤ myEnd → myStart ≤ j ≤ myEnd → 0 ≤ k →
  cv dim (exchange X i j) k
  = if k =? j then cv dim X i else if k =? i then cv dim X j else cv dim X k.
Proof.
  intros. unfold cv. rewrite pt_Exchange by done. by repeat case_match.
Qed.

(** *** The scans of PartitionAboutMyValue *)

Lemma my_scan_down_spec dim L T X I fuel J many :
  window_ok myEnd X → myStart ≤ I + 1 → J - 1 ≤ myEnd → L ≤ I →
  (Z.to_nat (J - I) ≤ fuel)%nat → (0 < fuel)%nat →
  ∃ J' Jpt' many',
    my_scan_down myStart myEnd fuel X dim L I T J J many
      = Some (J', Jpt', many')
    ∧ (I < J → I ≤ J' < J) ∧ (J ≤ I → J' = J - 1)
    ∧ (∀ k, J' < k < J → T ≤ cv dim X k)
    ∧ (I < J' → cv dim X J' < T ∧ Jpt' = J')
    ∧ (many = true → many' = true)
    ∧ (many' = false → ∀ k, J' < k < J → cv dim X k ≠ T).
Proof.
  unfold cv. intros HX Hlo. revert J many.
  induction fuel as [|fuel IH]; intros J many Hhi HL Hfuel Hpos; [lia|].
  simpl. destruct (Z.gtb_spec (J - 1) I) as [Hgt|Hle].
  - rewrite load_in by (done || lia). simpl.
    destruct (Z.ltb_spec (coord dim (pt X (J - 1))) T) as [Hlt|Hge].
    + eexists _, _, _. split; [done|].
      repeat split; intros; try lia; done.
    + destruct (IH (J - 1)
        (if negb many && (J - 1 >? L) && (coord dim (pt X (J - 1)) =? T)
         then true else many)) as (J' & Jpt' & many' & -> & H1 & H2 & H3 & H4 & H5 & H6);
        try lia.
      eexists _, _, _. split; [done|].
      split_and!; try lia.
      * intros k Hk. destruct (decide (k = J - 1)) as [->|]; [done|].
        apply H3. lia.
      * intros ->. apply H5. by rewrite andb_false_l.
      * intros Hm k Hk.
        destruct (decide (k = J - 1)) as [->|]; [|apply H6; [done|lia]].
        intros Heq. destruct many; [by rewrite H5 in Hm|].
        rewrite H5 in Hm; [done|].
        rewrite Heq, Z.eqb_refl. simpl.
        destruct (Z.gtb_spec (J - 1) L); [done|lia].
  - eexists _, _, _. split; [done|].
    repeat split; intros; try lia; done.
Qed.

Lemma my_scan_up_spec dim T X J fuel I many :
  window_ok myEnd X → myStart ≤ I + 1 → J - 1 ≤ myEnd →
  (Z.to_nat (J - I) ≤ fuel)%nat → (0 < fuel)%nat →
  ∃ I' Ipt' many',
    my_scan_up myStart myEnd fuel X dim J T I I many
      = Some (I', Ipt', many')
    ∧ (I < J → I < I' ≤ J) ∧ (J ≤ I → I' = I + 1)
    ∧ (∀ k, I < k < I' → cv dim X k < T)
    ∧ (I' < J → T ≤ cv dim X I' ∧ Ipt' = I')
    ∧ (many = true → many' = true)
    ∧ (many' = false → I' < J → cv dim X I' ≠ T).
Proof.
  unfold cv. intros HX Hlo Hhi. revert I many Hlo.
  induction fuel as [|fuel IH]; intros I many Hlo Hfuel Hpos; [lia|].
  simpl. destruct (Z.ltb_spec (I + 1) J) as [Hlt|Hge].
  - rewrite load_in by (done || lia). simpl.
    rewrite Z.geb_leb.
    destruct (Z.leb_spec T (coord dim (pt X (I + 1)))) as [Hle|Hgt].
    + eexists _, _, _. split; [done|].
      split_and!; intros; try lia.
      * destruct many; [done|discriminate].
      * destruct many; simpl in *; [done|].
        destruct (Z.eqb_spec (coord dim (pt X (I + 1))) T); done.
    + destruct (IH (I + 1) many)
        as (I' & Ipt' & many' & -> & H1 & H2 & H3 & H4 & H5 & H6); try lia.
      eexists _, _, _. split; [done|].
      split_and!; try lia; try done.
      intros k Hk. destruct (decide (k = I + 1)) as [->|]; [lia|].
      apply H3. lia.
  - eexists _, _, _. split; [done|].
    split_and!; intros; try lia; done.
Qed.

(** *** The scans that gather the values equal to [T] *)

Lemma eq_scan_up_spec dim T X J fuel I :
  window_ok myEnd X → myStart ≤ I + 1 → J - 1 ≤ myEnd →
  (Z.to_nat (J - I) ≤ fuel)%nat → (0 < fuel)%nat →
  ∃ I' Ipt',
    eq_scan_up myStart myEnd fuel X dim J T I I = Some (I', Ipt')
    ∧ (I < J → I < I' ≤ J) ∧ (J ≤ I → I' = I + 1)
    ∧ (∀ k, I < k < I' → cv dim X k = T)
    ∧ (I' < J → cv dim X I' ≠ T ∧ Ipt' = I').
Proof.
  unfold cv. intros HX Hlo Hhi. revert I Hlo.
  induction fuel as [|fuel IH]; intros I Hlo Hfuel Hpos; [lia|].
  simpl. destruct (Z.ltb_spec (I + 1) J) as [Hlt|Hge].
  - rewrite load_in by (done || lia). simpl.
    destruct (Z.eqb_spec (coord dim (pt X (I + 1))) T) as [Heq|Hne]; simpl.
    + destruct (IH (I + 1)) as (I' & Ipt' & -> & H1 & H2 & H3 & H4); try lia.
      eexists _, _. split; [done|].
      split_and!; try lia; try done.
      intros k Hk. destruct (decide (k = I + 1)) as [->|]; [done|].
      apply H3. lia.
    + eexists _, _. split; [done|]. split_and!; intros; try lia; done.
  - eexists _, _. split; [done|]. split_and!; intros; try lia; done.
Qed.

Lemma eq_scan_down_spec dim T X I fuel J :
  window_ok myEnd X → myStart ≤ I + 1 → J - 1 ≤ myEnd →
  (Z.to_nat (J - I) ≤ fuel)%nat → (0 < fuel)%nat →
  ∃ J' Jpt',
    eq_scan_down myStart myEnd fuel X dim I T J J = Some (J', Jpt')
    ∧ (I < J → I ≤ J' < J) ∧ (J ≤ I → J' = J - 1)
    ∧ (∀ k, J' < k < J → cv dim X k ≠ T)
    ∧ (I < J' → cv dim X J' = T ∧ Jpt' = J').
Proof.
  unfold cv. intros HX Hlo. revert J.
  induction fuel as [|fuel IH]; intros J Hhi Hfuel Hpos; [lia|].
  simpl. destruct (Z.gtb_spec (J - 1) I) as [Hgt|Hle].
  - rewrite load_in by (done || lia). simpl.
    destruct (Z.eqb_spec (coord dim (pt X (J - 1))) T) as [Heq|Hne]; simpl.
    + eexists _, _. split; [done|]. split_and!; intros; try lia; done.
    + destruct (IH (J - 1)) as (J' & Jpt' & -> & H1 & H2 & H3 & H4); try lia.
      eexists _, _. split; [done|].
      split_and!; try lia; try done.
      intros k Hk. destruct (decide (k = J - 1)) as [->|]; [done|].
      apply H3. lia.
  - eexists _, _. split; [done|]. split_and!; intros; try lia; done.
Qed.

(** *** The scans of PartitionAboutOtherValue *)

Lemma other_first_down_spec dim T X I fuel J numT numG :
  window_ok myEnd X → myStart ≤ I + 1 → J - 1 ≤ myEnd →
  (Z.to_nat (J - I) ≤ fuel)%nat → (0 < fuel)%nat →
  ∃ J' Jpt' numT' numG',
    other_first_down myStart myEnd fuel X dim I T J J numT numG
      = Some (J', Jpt', numT', numG')
    ∧ (I < J → I ≤ J' < J) ∧ (J ≤ I → J' = J - 1)
    ∧ (∀ k, J' < k < J → T ≤ cv dim X k)
    ∧ (I < J' → cv dim X J' < T ∧ Jpt' = J')
    ∧ numT ≤ numT' ∧ numG ≤ numG'
    ∧ numT' + numG' = numT + numG + (J - 1 - J')
    ∧ (numT' = numT → ∀ k, J' < k < J → cv dim X k ≠ T)
    ∧ (numG' = numG → ∀ k, J' < k < J → cv dim X k = T).
Proof.
  unfold cv. intros HX Hlo. revert J numT numG.
  induction fuel as [|fuel IH]; intros J numT numG Hhi Hfuel Hpos; [lia|].
  simpl. destruct (Z.gtb_spec (J - 1) I) as [Hgt|Hle].
  - rewrite load_in by (done || lia). simpl.
    destruct (Z.ltb_spec (coord dim (pt X (J - 1))) T) as [Hlt|Hge].
    + eexists _, _, _, _. split; [done|].
      split_and!; intros; try lia; done.
    + destruct (Z.eqb_spec (coord dim (pt X (J - 1))) T) as [Heq|Hne].
      * destruct (IH (J - 1) (numT + 1) numG)
          as (J' & Jpt' & nT & nG & -> & H1 & H2 & H3 & H4 & H5 & H6 & H7 & H8 & H9);
          try lia.
        eexists _, _, _, _. split; [done|].
        split_and!; try lia; try done.
        -- intros k Hk. destruct (decide (k = J - 1)) as [->|]; [done|].
           apply H3. lia.
        -- intros HG k Hk. destruct (decide (k = J - 1)) as [->|]; [done|].
           apply H9; [done|lia].
      * destruct (IH (J - 1) numT (numG + 1))
          as (J' & Jpt' & nT & nG & -> & H1 & H2 & H3 & H4 & H5 & H6 & H7 & H8 & H9);
          try lia.
        eexists _, _, _, _. split; [done|].
        split_and!; try lia; try done.
        -- intros k Hk. destruct (decide (k = J - 1)) as [->|]; [done|].
           apply H3. lia.
        -- intros HT k Hk. destruct (decide (k = J - 1)) as [->|]; [done|].
           apply H8; [done|lia].
  - eexists _, _, _, _. split; [done|].
    split_and!; intros; try lia; done.
Qed.

Lemma other_first_up_spec dim T X J fuel I numT numL :
  window_ok myEnd X → myStart ≤ I + 1 → J - 1 ≤ myEnd →
  (Z.to_nat (J - I) ≤ fuel)%nat → (0 < fuel)%nat →
  ∃ I' Ipt' numT' numL',
    other_first_up myStart myEnd fuel X dim J T I I numT numL
      = Some (I', Ipt', numT', numL')
    ∧ (I < J → I < I' ≤ J) ∧ (J ≤ I → I' = I + 1)
    ∧ (∀ k, I < k < I' → cv dim X k < T)
    ∧ (I' < J → T ≤ cv dim X I' ∧ Ipt' = I')
    ∧ numL' = numL + (I' - 1 - I)
    ∧ numT ≤ numT' ≤ numT + 1
    ∧ (numT' = numT → I' < J → cv dim X I' ≠ T)
    ∧ (numT' ≠ numT → I' < J ∧ cv dim X I' = T).
Proof.
  unfold cv. intros HX Hlo Hhi. revert I numT numL Hlo.
  induction fuel as [|fuel IH]; intros I numT numL Hlo Hfuel Hpos; [lia|].
  simpl. destruct (Z.ltb_spec (I + 1) J) as [Hlt|Hge].
  - rewrite load_in by (done || lia). simpl.
    rewrite Z.geb_leb.
    destruct (Z.leb_spec T (coord dim (pt X (I + 1)))) as [Hle|Hgt].
    + eexists _, _, _, _. split; [done|].
      destruct (Z.eqb_spec (coord dim (pt X (I + 1))) T);
        split_and!; intros; try lia; done.
    + destruct (IH (I + 1) numT (numL + 1))
        as (I' & Ipt' & nT & nL & -> & H1 & H2 & H3 & H4 & H5 & H6 & H7 & H8);
        try lia.
      eexists _, _, _, _. split; [done|].
      split_and!; try lia; try done.
      intros k Hk. destruct (decide (k = I + 1)) as [->|]; [lia|].
      apply H3. lia.
  - eexists _, _, _, _. split; [done|].
    split_and!; intros; try lia; done.
Qed.

Lemma other_scan_up_spec dim T X J fuel I numT :
  window_ok myEnd X → myStart ≤ I + 1 → J - 1 ≤ myEnd →
  (Z.to_nat (J - I) ≤ fuel)%nat → (0 < fuel)%nat →
  ∃ I' Ipt' numT',
    other_scan_up myStart myEnd fuel X dim J T I I numT
      = Some (I', Ipt', numT')
    ∧ (I < J → I < I' ≤ J) ∧ (J ≤ I → I' = I + 1)
    ∧ (∀ k, I < k < I' → cv dim X k < T)
    ∧ (I' < J → T ≤ cv dim X I' ∧ Ipt' = I')
    ∧ numT ≤ numT' ≤ numT + 1
    ∧ (numT' = numT → I' < J → cv dim X I' ≠ T)
    ∧ (numT' ≠ numT → I' < J ∧ cv dim X I' = T).
Proof.
  unfold cv. intros HX Hlo Hhi. revert I numT Hlo.
  induction fuel as [|fuel IH]; intros I numT Hlo Hfuel Hpos; [lia|].
  simpl. destruct (Z.ltb_spec (I + 1) J) as [Hlt|Hge].
  - rewrite load_in by (done || lia). simpl.
    rewrite Z.geb_leb.
    destruct (Z.leb_spec T (coord dim (pt X (I + 1)))) as [Hle|Hgt].
    + eexists _, _, _. split; [done|].
      destruct (Z.eqb_spec (coord dim (pt X (I + 1))) T);
        split_and!; intros; try lia; done.
    + destruct (IH (I + 1) numT)
        as (I' & Ipt' & nT & -> & H1 & H2 & H3 & H4 & H5 & H6 & H7);
        try lia.
      eexists _, _, _. split; [done|].
      split_and!; try lia; try done.
      intros k Hk. destruct (decide (k = I + 1)) as [->|]; [lia|].
      apply H3. lia.
  - eexists _, _, _. split; [done|].
    split_and!; intros; try lia; done.
Qed.

Lemma other_scan_down_spec dim T X I fuel J numT :
  window_ok myEnd X → myStart ≤ I + 1 → J - 1 ≤ myEnd →
  (Z.to_nat (J - I) ≤ fuel)%nat → (0 < fuel)%nat →
  ∃ J' Jpt' numT',
    other_scan_down myStart myEnd fuel X dim I T J J numT
      = Some (J', Jpt', numT')
    ∧ (I < J → I ≤ J' < J) ∧ (J ≤ I → J' = J - 1)
    ∧ (∀ k, J' < k < J → T ≤ cv dim X k)
    ∧ (I < J' → cv dim X J' < T ∧ Jpt' = J')
    ∧ numT ≤ numT'
    ∧ (numT' = numT → ∀ k, J' < k < J → cv dim X k ≠ T)
    ∧ (numT' ≠ numT → ∃ k, J' < k < J ∧ cv dim X k = T).
Proof.
  unfold cv. intros HX Hlo. revert J numT.
  induction fuel as [|fuel IH]; intros J numT Hhi Hfuel Hpos; [lia|].
  simpl. destruct (Z.gtb_spec (J - 1) I) as [Hgt|Hle].
  - rewrite load_in by (done || lia). simpl.
    destruct (Z.ltb_spec (coord dim (pt X (J - 1))) T) as [Hlt|Hge].
    + eexists _, _, _. split; [done|].
      split_and!; intros; try lia; done.
    + destruct (IH (J - 1)
          (if coord dim (pt X (J - 1)) =? T then numT + 1 else numT))
        as (J' & Jpt' & nT & -> & H1 & H2 & H3 & H4 & H5 & H6 & H7);
        try lia.
      eexists _, _, _. split; [done|].
      destruct (Z.eqb_spec (coord dim (pt X (J - 1))) T) as [Heq|Hne];
        split_and!; try lia; try done.
      * intros k Hk. destruct (decide (k = J - 1)) as [->|]; [lia|].
        apply H3. lia.
      * intros _. exists (J - 1). split; [lia|done].
      * intros k Hk. destruct (decide (k = J - 1)) as [->|]; [lia|].
        apply H3. lia.
      * intros HT k Hk. destruct (decide (k = J - 1)) as [->|]; [done|].
        apply H6; [done|lia].
      * intros HT. destruct (H7 HT) as (k & Hk & Hk'). exists k.
        split; [lia|done].
  - eexists _, _, _. split; [done|].
    split_and!; intros; try lia; done.
Qed.

Lemma exchanges_pt L R X X' k :
  exchanges L R X X' → 0 ≤ k → ¬ (L ≤ k ≤ R) → pt X' k = pt X k.
Proof.
  intros HX Hk Hout. unfold pt. rewrite !list_lookup_total_alt.
  f_equal. eapply exchanges_frame; [done|lia].
Qed.

Lemma exchanges_cv dim L R X X' k :
  exchanges L R X X' → 0 ≤ k → ¬ (L ≤ k ≤ R) → cv dim X' k = cv dim X k.
Proof. intros. unfold cv. by erewrite exchanges_pt. Qed.

Lemma exchanges_window L R X X' :
  exchanges L R X X' → window_ok myEnd X → window_ok myEnd X'.
Proof. unfold window_ok. intros ->%exchanges_length. done. Qed.

(** *** Gathering the values equal to [T] *)

Lemma gather_loop_spec dim T R base fuel X I J Ipt Jpt :
  window_ok myEnd X → myStart ≤ base → R ≤ myEnd →
  base - 1 ≤ I → J ≤ R + 1 → I ≤ J → (I < J ∨ base ≤ I) →
  (I < J → Ipt = I ∧ Jpt = J) →
  (∀ k, base ≤ k ≤ I → k < J → cv dim X k = T) →
  (∀ k, I ≤ k ≤ R → J ≤ k → T < cv dim X k) →
  (∀ k, base ≤ k ≤ R → T ≤ cv dim X k) →
  (Z.to_nat (J - I) ≤ fuel)%nat → (0 < fuel)%nat →
  ∃ X' I' J',
    gather_loop myStart myEnd fuel X dim T I J Ipt Jpt = Some (X', I', J')
    ∧ exchanges base R X X'
    ∧ I ≤ I' ∧ (I < J → I < I')
    ∧ base ≤ I' ≤ R + 1
    ∧ (∀ k, base ≤ k < I' → cv dim X' k = T)
    ∧ (∀ k, I' ≤ k ≤ R → T < cv dim X' k).
Proof.
  intros HX Hbase HR. revert X I J Ipt Jpt HX.
  induction fuel as [|fuel IH];
    intros X I J Ipt Jpt HX HI HJ HIJ Hb Hsync Heq Hgt Hge Hfuel Hpos; [lia|].
  cbn [gather_loop]. destruct (Z.ltb_spec I J) as [Hlt|Hnlt].
  - destruct (Hsync Hlt) as [-> ->].
    destruct (eq_scan_up_spec dim T X J (S fuel) I)
      as (I' & Ipt' & -> & H1 & _ & H3 & H4); try done; try lia.
    obind. destruct (Z.eqb_spec I' J) as [->|Hne].
    + eexists _, _, _. split; [done|].
      split; [constructor|]. split; [lia|]. split; [lia|]. split; [lia|].
      split.
      * intros k Hk. destruct (Z_le_gt_dec k I); [apply Heq; lia|apply H3; lia].
      * intros k Hk. apply Hgt; lia.
    + destruct (eq_scan_down_spec dim T X I' (S fuel) J)
        as (J' & Jpt' & -> & G1 & _ & G3 & G4); try done; try lia.
      obind.
      assert (T < cv dim X I') as HI'.
      { destruct H4 as [H4 _]; [lia|]. specialize (Hge I'). lia. }
      destruct (Z.ltb_spec I' J') as [Hlt'|Hge'].
      * destruct G4 as [G4 ->]; [lia|]. destruct H4 as [_ ->]; [lia|].
        destruct (IH (exchange X I' J') I' J' I' J')
          as (X' & I2 & J2 & -> & E1 & Ea & Eb & E2 & E3 & E4);
          try lia; try done.
        -- by apply Exchange_window.
        -- intros k Hk1 Hk2. rewrite cv_Exchange by (done || lia).
           zbool; try lia; try done.
           destruct (Z_le_gt_dec k I); [apply Heq; lia|apply H3; lia].
        -- intros k Hk1 Hk2. rewrite cv_Exchange by (done || lia).
           zbool; try lia; try done.
           destruct (Z_lt_ge_dec k J).
           ++ specialize (G3 k). specialize (Hge k). lia.
           ++ apply Hgt; lia.
        -- intros k Hk. rewrite cv_Exchange by (done || lia).
           zbool; try lia; apply Hge; lia.
        -- eexists _, _, _. split; [done|].
           split; [|split_and!; try done; lia].
           eapply exchanges_trans; [|done].
           apply Exchange_exchanges; try done; try lia. constructor.
      * assert (J' = I') as -> by lia.
        destruct (IH X I' I' Ipt' Jpt')
          as (X' & I2 & J2 & -> & E1 & Ea & Eb & E2 & E3 & E4);
          try lia; try done.
        -- intros k Hk1 Hk2.
           destruct (Z_le_gt_dec k I); [apply Heq; lia|apply H3; lia].
        -- intros k Hk1 Hk2. destruct (decide (k = I')) as [->|]; [done|].
           destruct (Z_lt_ge_dec k J).
           ++ specialize (G3 k). specialize (Hge k). lia.
           ++ apply Hgt; lia.
        -- eexists _, _, _. split; [done|]. split_and!; try done; lia.
  - eexists _, _, _. split; [done|].
    split; [constructor|]. split; [lia|]. split; [lia|]. split; [lia|].
    split.
    + intros k Hk. apply Heq; lia.
    + intros k Hk. apply Hgt; lia.
Qed.

(** *** The exchange loop of PartitionAboutMyValue *)

Lemma my_loop_unfold fuel X dim L T I J Ipt Jpt many :
  my_loop myStart myEnd (S fuel) X dim L T I J Ipt Jpt many
  = if I <? J then my_body myStart myEnd fuel (exchange X I J) dim L T I J Ipt Jpt many
    else Some (X, I, J, many).
Proof. reflexivity. Qed.

(** After the loop, [M = I = J] is the rightmost position holding a
    value below [T] (or [L]); the pivot sits at [L] or at [R]. *)
Lemma my_body_spec dim T L R fuel X I J many :
  window_ok myEnd X → myStart ≤ L → R ≤ myEnd →
  L ≤ I → I < J → J ≤ R →
  (cv dim X L = T ∨ (cv dim X L < T ∧ cv dim X R = T)) →
  (∀ k, L < k ≤ I → cv dim X k < T) →
  (∀ k, J ≤ k ≤ R → T ≤ cv dim X k) →
  (many = false → ∀ k, J ≤ k ≤ R → cv dim X k = T → k = R ∧ cv dim X L < T) →
  (Z.to_nat (J - I) ≤ fuel)%nat →
  ∃ X' M many',
    my_body myStart myEnd fuel X dim L T I J I J many = Some (X', M, M, many')
    ∧ exchanges (L + 1) (R - 1) X X'
    ∧ L ≤ M ≤ R
    ∧ (∀ k, L < k ≤ M → cv dim X' k < T)
    ∧ (∀ k, M < k ≤ R → T ≤ cv dim X' k)
    ∧ (many' = false →
         ∀ k, M < k ≤ R → cv dim X' k = T → k = R ∧ cv dim X L < T).
Proof.
  intros Hwin HL HR. revert X I J many Hwin.
  induction fuel as [|fuel IH];
    intros X I J many HX HI HIJ HJ Hmode Hlt Hge Hmany Hfuel; [lia|].
  unfold my_body.
  destruct (my_scan_down_spec dim L T X I (S (S fuel)) J many)
    as (J' & Jpt' & many' & -> & D1 & _ & D3 & D4 & D5 & D6);
    try done; try lia.
  obind. destruct (Z.eqb_spec I J') as [<-|Hne].
  { eexists _, _, _. split; [done|]. split; [constructor|].
    split; [lia|]. split; [done|]. split.
    - intros k Hk. destruct (Z_lt_ge_dec k J); [apply D3|apply Hge]; lia.
    - intros Hm k Hk Hk'. destruct (Z_lt_ge_dec k J).
      + exfalso. apply (D6 Hm k); [lia|done].
      + destruct many; [by rewrite D5 in Hm|]. apply Hmany; try done; lia. }
  destruct D4 as [D4 ->]; [lia|].
  destruct (my_scan_up_spec dim T X J' (S (S fuel)) I many')
    as (I' & Ipt' & many'' & -> & U1 & _ & U3 & U4 & U5 & U6);
    try done; try lia.
  obind. rewrite my_loop_unfold.
  assert (many'' = false → many = false ∧ many' = false) as Hmm.
  { intros ->. destruct many'; [by specialize (U5 eq_refl)|].
    destruct many; [by specialize (D5 eq_refl)|]. done. }
  destruct (Z.ltb_spec I' J') as [Hlt'|Hge'].
  - destruct U4 as [U4 ->]; [lia|].
    destruct (IH (exchange X I' J') I' J' many'')
      as (X' & M & many3 & -> & E1 & E2 & E3 & E4 & E5); try lia; try done.
    + by apply Exchange_window.
    + rewrite !cv_Exchange by (done || lia). zbool; try lia; done.
    + intros k Hk. rewrite cv_Exchange by (done || lia).
      zbool; try lia.
      destruct (Z_le_gt_dec k I); [apply Hlt|apply U3]; lia.
    + intros k Hk. rewrite cv_Exchange by (done || lia).
      zbool; try lia.
      destruct (Z_lt_ge_dec k J); [apply D3|apply Hge]; lia.
    + intros Hm k Hk. destruct (Hmm Hm) as [Hm0 Hm1].
      rewrite !cv_Exchange by (done || lia).
      zbool; try lia.
      * intros Heq. exfalso. apply U6; [done|lia|done].
      * destruct (Z_lt_ge_dec k J).
        -- intros Hk'. exfalso. apply (D6 Hm1 k); [lia|done].
        -- apply Hmany; try done; lia.
    + eexists _, _, _. split; [done|].
      split.
      { eapply exchanges_trans; [|done].
        apply Exchange_exchanges; try done; try lia. constructor. }
      split; [done|]. split; [done|]. split; [done|].
      intros Hm k Hk Hk'. destruct (E5 Hm k Hk Hk') as [-> E6].
      split; [done|]. revert E6.
      rewrite cv_Exchange by (done || lia). zbool; try lia; done.
  - assert (I' = J') as -> by lia.
    eexists _, _, _. split; [done|]. split; [constructor|].
    split; [lia|]. split; [|split].
    + intros k Hk. destruct (decide (k = J')) as [->|]; [done|].
      destruct (Z_le_gt_dec k I); [apply Hlt|apply U3]; lia.
    + intros k Hk. destruct (Z_lt_ge_dec k J); [apply D3|apply Hge]; lia.
    + intros Hm k Hk Hk'. destruct (Hmm Hm) as [Hm0 Hm1].
      destruct (Z_lt_ge_dec k J).
      * exfalso. apply (D6 Hm1 k); [lia|done].
      * apply Hmany; try done; lia.
Qed.

Lemma span_S L R : L ≤ R → span L R = S (Z.to_nat (R - L + 1)).
Proof. intros. unfold span. lia. Qed.

(** *** PartitionAboutMyValue is a three-way partition about [X[K]] *)

Lemma PartitionAboutMyValue_correct X L R K dim :
  window_ok myEnd X → myStart ≤ L → L ≤ K ≤ R → R ≤ myEnd →
  ∃ X' I J,
    PartitionAboutMyValue myStart myEnd X L R K dim = Some (X', (I, J))
    ∧ exchanges L R X X'
    ∧ L ≤ I ∧ I < J ∧ J ≤ R + 1
    ∧ (∀ k, L ≤ k < I → cv dim X' k < cv dim X K)
    ∧ (∀ k, I ≤ k < J → cv dim X' k = cv dim X K)
    ∧ (∀ k, J ≤ k ≤ R → cv dim X K < cv dim X' k).
Proof.
  intros HX HL HK HR. unfold PartitionAboutMyValue.
  rewrite (GetLocalVal_in K), (GetLocalVal_in R), (GetLocalVal_in L) by lia.
  obind. rewrite (load_in X K) by (done || lia). obind.
  fold (cv dim X K). set (T := cv dim X K).
  set (X1 := exchange X L K).
  assert (window_ok myEnd X1) as HX1 by by apply Exchange_window.
  assert (exchanges L R X X1) as HE1.
  { apply Exchange_exchanges; try done; try lia. constructor. }
  assert (cv dim X1 L = T) as HL1.
  { unfold X1, T. rewrite cv_Exchange by (done || lia).
    zbool; try lia; congruence. }
  rewrite (load_in X1 R) by (done || lia). obind. fold (cv dim X1 R).
  (* the state before the loop *)
  assert (∃ X2 many,
    (if cv dim X1 R >=? T
     then if cv dim X1 R =? T then (X1, true)
          else (exchange X1 R L, false)
     else (X1, false)) = (X2, many)
    ∧ window_ok myEnd X2 ∧ exchanges L R X X2
    ∧ (L = R → cv dim X2 L = T)
    ∧ ((cv dim X2 R = T ∧ T ≤ cv dim X2 L) ∨ (cv dim X2 L = T ∧ cv dim X2 R < T))
    ∧ (many = false → L < R → cv dim X2 L = T → cv dim X2 R = T → False))
    as (X2 & many & -> & HX2 & HE2 & Heq2 & Hmode2 & Hmany2).
  { zbool.
    - eexists _, _. split; [done|].
      split_and!; try done; try lia; try (left; lia).
    - eexists _, _. split; [done|].
      assert (L < R) by (destruct (decide (L = R)) as [->|]; lia).
      split_and!.
      + by apply Exchange_window.
      + apply Exchange_exchanges; try done; lia.
      + lia.
      + left. rewrite !cv_Exchange by (done || lia). zbool; lia.
      + intros _ _. rewrite !cv_Exchange by (done || lia). zbool; lia.
    - eexists _, _. split; [done|].
      split_and!; try done; try lia; try (right; lia). }
  (* the exchange loop *)
  assert (∃ X3 M many',
    my_loop myStart myEnd (span L R) X2 dim L T L R L R many
      = Some (X3, M, M, many')
    ∧ window_ok myEnd X3 ∧ exchanges L R X X3 ∧ L ≤ M ≤ R
    ∧ (cv dim X3 L = T ∨ (cv dim X3 L < T ∧ cv dim X3 R = T ∧ L < R))
    ∧ (∀ k, L < k ≤ M → cv dim X3 k < T)
    ∧ (∀ k, M < k ≤ R → T ≤ cv dim X3 k)
    ∧ (many' = false →
         ∀ k, M < k ≤ R → cv dim X3 k = T → k = R ∧ cv dim X3 L < T))
    as (X3 & M & many' & -> & HX3 & HE3 & HM & Hmode3 & Hlt3 & Hge3 & Hmany3).
  { rewrite span_S, my_loop_unfold by lia.
    destruct (Z.ltb_spec L R) as [HLR|HLR].
    - destruct (my_body_spec dim T L R (Z.to_nat (R - L + 1))
                  (exchange X2 L R) L R many)
        as (X3 & M & many' & -> & E1 & E2 & E3 & E4 & E5); try lia.
      + by apply Exchange_window.
      + rewrite !cv_Exchange by (done || lia). zbool; lia.
      + intros k Hk. rewrite cv_Exchange by (done || lia).
        zbool; try lia; destruct Hmode2; lia.
      + intros Hm k Hk. rewrite !cv_Exchange by (done || lia).
        zbool; try lia; specialize (Hmany2 Hm); lia.
      + assert (exchanges L R (exchange X2 L R) X3) as E1'.
        { eapply exchanges_mono; [| |done]; lia. }
        assert (cv dim X3 L = cv dim X2 R) as EL.
        { rewrite (exchanges_cv dim (L + 1) (R - 1) (exchange X2 L R) X3)
            by (done || lia).
          rewrite cv_Exchange by (done || lia). zbool; lia. }
        assert (cv dim X3 R = cv dim X2 L) as ER.
        { rewrite (exchanges_cv dim (L + 1) (R - 1) (exchange X2 L R) X3)
            by (done || lia).
          rewrite cv_Exchange by (done || lia). zbool; lia. }
        eexists _, _, _. split; [done|]. split_and!; try done; try lia.
        * eapply exchanges_window; [done|]. by apply Exchange_window.
        * eapply exchanges_trans; [|done].
          apply Exchange_exchanges; try done; lia.
        * intros Hm k Hk Hk'. destruct (E5 Hm k Hk Hk') as [-> E6].
          split; [done|]. revert E6.
          rewrite cv_Exchange by (done || lia). zbool; lia.
    - assert (L = R) as <- by lia.
      eexists _, _, _. split; [done|].
      split_and!; try done; try lia; left; by apply Heq2. }
  obind. rewrite (load_in X3 L) by (done || lia). obind.
  fold (cv dim X3 L).
  (* the pivot goes to its place *)
  assert (∃ X4 J0,
    (if cv dim X3 L =? T then (exchange X3 L M, M)
     else (exchange X3 (M + 1) R, M + 1)) = (X4, J0)
    ∧ window_ok myEnd X4 ∧ exchanges L R X X4 ∧ L ≤ J0 ≤ R
    ∧ (∀ k, L ≤ k < J0 → cv dim X4 k < T)
    ∧ cv dim X4 J0 = T
    ∧ (∀ k, J0 < k ≤ R → T ≤ cv dim X4 k)
    ∧ (many' = false → ∀ k, J0 < k ≤ R → cv dim X4 k ≠ T))
    as (X4 & J0 & -> & HX4 & HE4 & HJ0 & Hlt4 & Heq4 & Hge4 & Hmany4).
  { destruct (Z.eqb_spec (cv dim X3 L) T) as [HLT|HLT].
    - eexists _, _. split; [done|]. split_and!; try lia.
      + by apply Exchange_window.
      + apply Exchange_exchanges; try done; lia.
      + intros k Hk. rewrite cv_Exchange by (done || lia).
        zbool; try lia; apply Hlt3; lia.
      + rewrite cv_Exchange by (done || lia). zbool; lia.
      + intros k Hk. rewrite cv_Exchange by (done || lia).
        zbool; try lia; apply Hge3; lia.
      + intros Hm k Hk. rewrite cv_Exchange by (done || lia).
        zbool; try lia. intros Hk'.
        destruct (Hmany3 Hm k) as [_ ?]; [lia|done|lia].
    - destruct Hmode3 as [?|(HL3 & HR3 & HLR)]; [done|].
      assert (M < R).
      { destruct (decide (M = R)) as [->|]; [|lia].
        specialize (Hlt3 R). lia. }
      eexists _, _. split; [done|]. split_and!; try lia.
      + by apply Exchange_window.
      + apply Exchange_exchanges; try done; lia.
      + intros k Hk. rewrite cv_Exchange by (done || lia).
        zbool; try lia. destruct (decide (k = L)) as [->|]; [done|].
        apply Hlt3; lia.
      + rewrite cv_Exchange by (done || lia).
        zbool; try lia. by replace (M + 1) with R by lia.
      + intros k Hk. rewrite cv_Exchange by (done || lia).
        zbool; try lia; apply Hge3; lia.
      + intros Hm k Hk. rewrite cv_Exchange by (done || lia).
        zbool; try lia.
        * intros Hk'. destruct (Hmany3 Hm (M + 1)); [lia|done|lia].
        * intros Hk'. destruct (Hmany3 Hm k); [lia|done|lia]. }
  destruct many'.
  - rewrite (GetLocalVal_in J0) by lia. obind.
    destruct (gather_loop_spec dim T R J0 (span L R) X4 J0 (R + 1) J0 (R + 1))
      as (X5 & I5 & J5 & -> & G1 & G2 & G3 & G4 & G5 & G6);
      try done; try lia.
    + intros k Hk _. by assert (k = J0) as -> by lia.
    + intros k Hk. destruct (decide (k = J0)) as [->|]; [lia|].
      apply Hge4; lia.
    + unfold span. lia.
    + unfold span. lia.
    + obind. eexists _, _, _. split; [done|].
      split_and!; try done; try lia.
      * eapply exchanges_trans; [done|].
        eapply exchanges_mono; [| |done]; lia.
      * intros k Hk. erewrite exchanges_cv by (done || lia).
        apply Hlt4; lia.
  - eexists _, _, _. split; [done|].
    split_and!; try done; try lia.
    + intros k Hk. by assert (k = J0) as -> by lia.
    + intros k Hk. specialize (Hge4 k). specialize (Hmany4 eq_refl k). lia.
Qed.

(** *** The exchange loop of PartitionAboutOtherValue *)

Lemma other_loop_unfold fuel X dim T I J Ipt Jpt numT :
  other_loop myStart myEnd (S fuel) X dim T I J Ipt Jpt numT
  = if I <? J then other_body myStart myEnd fuel (exchange X I J) dim T I J Ipt Jpt numT
    else Some (X, I, J, numT).
Proof. reflexivity. Qed.

(** After the loop, [M = I] is the first position holding a value
    [>= T]. *)
Lemma other_body_spec dim T L R fuel X I J numT :
  window_ok myEnd X → myStart ≤ L → R ≤ myEnd →
  L ≤ I → I < J → J ≤ R →
  cv dim X I < T → T ≤ cv dim X J →
  (∀ k, L ≤ k < I → cv dim X k < T) →
  (∀ k, J < k ≤ R → T ≤ cv dim X k) →
  0 ≤ numT →
  (numT = 0 → ∀ k, J ≤ k ≤ R → cv dim X k ≠ T) →
  (Z.to_nat (J - I) ≤ fuel)%nat →
  ∃ X' M J' numT',
    other_body myStart myEnd fuel X dim T I J I J numT = Some (X', M, J', numT')
    ∧ exchanges (I + 1) (J - 1) X X'
    ∧ I < M ≤ J
    ∧ (∀ k, L ≤ k < M → cv dim X' k < T)
    ∧ (∀ k, M ≤ k ≤ R → T ≤ cv dim X' k)
    ∧ 0 ≤ numT'
    ∧ (numT' = 0 → ∀ k, M ≤ k ≤ R → cv dim X' k ≠ T).
Proof.
  intros Hwin HL HR. revert X I J numT Hwin.
  induction fuel as [|fuel IH];
    intros X I J numT HX HI HIJ HJ HcI HcJ Hlt Hge Hnn Hnum Hfuel; [lia|].
  unfold other_body.
  destruct (other_scan_up_spec dim T X J (S (S fuel)) I numT)
    as (I' & Ipt' & nT & -> & U1 & _ & U3 & U4 & U5 & U6 & U7);
    try done; try lia.
  obind. destruct (Z.eqb_spec I' J) as [->|Hne].
  { eexists _, _, _, _. split; [done|]. split; [constructor|].
    split; [lia|]. split_and!; try lia.
    - intros k Hk. destruct (decide (k = I)) as [->|]; [done|].
      destruct (Z_lt_ge_dec k I); [apply Hlt|apply U3]; lia.
    - intros k Hk. destruct (decide (k = J)) as [->|]; [done|].
      apply Hge; lia.
    - intros Hz. apply Hnum. lia. }
  destruct U4 as [U4 ->]; [lia|].
  destruct (other_scan_down_spec dim T X I' (S (S fuel)) J nT)
    as (J' & Jpt' & nT' & -> & D1 & _ & D3 & D4 & D5 & D6 & D7);
    try done; try lia.
  obind. rewrite other_loop_unfold.
  assert (∀ k, L ≤ k < I' → cv dim X k < T) as Hlt'.
  { intros k Hk. destruct (decide (k = I)) as [->|]; [done|].
    destruct (Z_lt_ge_dec k I); [apply Hlt|apply U3]; lia. }
  assert (∀ k, J' < k ≤ R → T ≤ cv dim X k) as Hge'.
  { intros k Hk. destruct (decide (k = J)) as [->|]; [done|].
    destruct (Z_lt_ge_dec k J); [apply D3|apply Hge]; lia. }
  assert (nT' = 0 → ∀ k, I' ≤ k ≤ R → J' < k ∨ k = I' → cv dim X k ≠ T)
    as Hnum'.
  { intros Hz k Hk1 Hk2.
    destruct (decide (k = I')) as [->|]; [apply U6; lia|].
    destruct (Z_lt_ge_dec k J); [apply D6; lia|apply Hnum; lia]. }
  destruct (Z.ltb_spec I' J') as [Hlt2|Hge2].
  - destruct D4 as [D4 ->]; [lia|].
    destruct (IH (exchange X I' J') I' J' nT')
      as (X' & M & J2 & nT2 & -> & E1 & E2 & E3 & E4 & E5 & E6);
      try lia; try done.
    + by apply Exchange_window.
    + rewrite !cv_Exchange by (done || lia). zbool; lia.
    + rewrite !cv_Exchange by (done || lia). zbool; lia.
    + intros k Hk. rewrite cv_Exchange by (done || lia).
      zbool; try lia. apply Hlt'; lia.
    + intros k Hk. rewrite cv_Exchange by (done || lia).
      zbool; try lia. apply Hge'; lia.
    + intros Hz k Hk. rewrite cv_Exchange by (done || lia).
      zbool; try lia; apply Hnum'; lia.
    + eexists _, _, _, _. split; [done|].
      split_and!; try done; try lia.
      apply (exchanges_trans _ _ _ (exchange X I' J')).
      * apply Exchange_exchanges; try done; try lia. constructor.
      * eapply exchanges_mono; [| |done]; lia.
  - assert (J' = I') as -> by lia.
    eexists _, _, _, _. split; [done|]. split; [constructor|].
    split_and!; try lia; try done.
    + intros k Hk. destruct (decide (k = I')) as [->|]; [done|].
      apply Hge'; lia.
    + intros Hz k Hk. apply Hnum'; lia.
Qed.

(** *** PartitionAboutOtherValue is a three-way partition about [T] *)

Lemma other_tail_spec dim T L R X0 X I J Ipt Jpt numT numG numL :
  window_ok myEnd X → exchanges L R X0 X →
  myStart ≤ L → L ≤ R → R ≤ myEnd →
  other_ready dim T L R X I J Ipt Jpt numT numG numL →
  ∃ X' I' J',
    other_tail myStart myEnd dim T L R X I J Ipt Jpt numT numG numL = Some (X', (I', J'))
    ∧ exchanges L R X0 X' ∧ three_way dim T L R X' I' J'.
Proof.
  intros HX HE HL HLR HR (RL & RT & RG & Rloop). unfold other_tail, three_way.
  destruct (Z.eqb_spec numL (R - L + 1)) as [HnL|HnL].
  { eexists _, _, _. split; [done|]. split; [done|].
    split_and!; try lia; intros k Hk; try lia. apply RL; [done|lia]. }
  destruct (Z.eqb_spec numT (R - L + 1)) as [HnT|HnT].
  { eexists _, _, _. split; [done|]. split; [done|].
    split_and!; try lia; intros k Hk; try lia. apply RT; [done|lia]. }
  destruct (Z.eqb_spec numG (R - L + 1)) as [HnG|HnG].
  { eexists _, _, _. split; [done|]. split; [done|].
    split_and!; try lia; intros k Hk; try lia. apply RG; [done|lia]. }
  destruct (Rloop HnL) as (Hnn & Rlt & Rge).
  (* the exchange loop *)
  assert (∃ X3 M J3 nT,
    other_loop myStart myEnd (span L R) X dim T I J Ipt Jpt numT
      = Some (X3, M, J3, nT)
    ∧ window_ok myEnd X3 ∧ exchanges L R X0 X3 ∧ L ≤ M ≤ R + 1
    ∧ (∀ k, L ≤ k < M → cv dim X3 k < T)
    ∧ (∀ k, M ≤ k ≤ R → T ≤ cv dim X3 k)
    ∧ (nT = 0 → ∀ k, M ≤ k ≤ R → cv dim X3 k ≠ T)
    ∧ (nT ≠ 0 → M ≤ R))
    as (X3 & M & J3 & nT & -> & HX3 & HE3 & HM & Hlt3 & Hge3 & Hz3 & Hnz3).
  { rewrite span_S, other_loop_unfold by lia.
    destruct (Z.ltb_spec I J) as [HIJ|HIJ].
    - destruct (Rlt HIJ) as (H1 & H2 & -> & -> & H3 & H4 & H5 & H6 & H7).
      destruct (other_body_spec dim T L R (Z.to_nat (R - L + 1))
                  (exchange X I J) I J numT)
        as (X3 & M & J3 & nT & -> & E1 & E2 & E3 & E4 & E5 & E6);
        try lia; try done.
      + by apply Exchange_window.
      + rewrite !cv_Exchange by (done || lia). zbool; lia.
      + rewrite !cv_Exchange by (done || lia). zbool; lia.
      + intros k Hk. rewrite cv_Exchange by (done || lia).
        zbool; try lia. apply H5; lia.
      + intros k Hk. rewrite cv_Exchange by (done || lia).
        zbool; try lia. apply H6; lia.
      + intros Hz k Hk. rewrite cv_Exchange by (done || lia).
        destruct (H7 Hz) as [H8 H9].
        zbool; try lia; try done. apply H9; lia.
      + eexists _, _, _, _. split; [done|].
        split_and!; try done; try lia.
        * eapply exchanges_window; [done|]. by apply Exchange_window.
        * eapply exchanges_trans; [done|].
          apply (exchanges_trans _ _ _ (exchange X I J)).
          -- apply Exchange_exchanges; try done; try lia. constructor.
          -- eapply exchanges_mono; [| |done]; lia.
    - destruct (Rge HIJ) as (H1 & H2 & H3 & H4 & H5).
      eexists _, _, _, _. split; [done|]. split_and!; try done; lia. }
  obind. destruct (Z.eqb_spec nT 0) as [Hz|Hnz].
  { eexists _, _, _. split; [done|]. split; [done|].
    split_and!; try lia; try done.
    intros k Hk. specialize (Hge3 k). specialize (Hz3 Hz k). lia. }
  specialize (Hnz3 Hnz).
  rewrite (GetLocalVal_in M), (GetLocalVal_in R) by lia. obind.
  replace (R + 1 - 1 + 1) with (R + 1) by lia.
  destruct (gather_loop_spec dim T R M (span L R) X3 (M - 1) (R + 1)
              (M - 1) (R + 1))
    as (X5 & I5 & J5 & -> & G1 & G2 & G3 & G4 & G5 & G6);
    try done; try lia.
  - unfold span. lia.
  - unfold span. lia.
  - obind. eexists _, _, _. split; [done|].
    split_and!; try done; try lia.
    + eapply exchanges_trans; [done|].
      eapply exchanges_mono; [| |done]; lia.
    + intros k Hk.
      rewrite (exchanges_cv dim M R X3 X5) by (done || lia).
      apply Hlt3; lia.
Qed.

(** First scan, both end values [>= T]. *)
Lemma other_ready_down dim T L R X numT0 numG0 :
  window_ok myEnd X → myStart ≤ L → L ≤ R → R ≤ myEnd →
  T ≤ cv dim X L → T ≤ cv dim X R →
  0 ≤ numT0 → 0 ≤ numG0 → numT0 + numG0 = 2 →
  (numT0 = 0 → cv dim X L ≠ T ∧ cv dim X R ≠ T) →
  (numG0 = 0 → cv dim X L = T ∧ cv dim X R = T) →
  (L = R → numT0 ≠ 1) →
  ∃ J' Jpt' numT numG,
    other_first_down myStart myEnd (span L R) X dim L T R R numT0 numG0
      = Some (J', Jpt', numT, numG)
    ∧ other_ready dim T L R X L J' L Jpt' numT numG 0.
Proof.
  intros HX HL HLR HR HlT HrT HnT HnG Hsum HT0 HG0 Hone.
  destruct (other_first_down_spec dim T X L (span L R) R numT0 numG0)
    as (J' & Jpt' & nT & nG & -> & D1 & D2 & D3 & D4 & D5 & D6 & D7 & D8 & D9);
    try done; try (unfold span; lia).
  eexists _, _, _, _. split; [done|].
  assert (∀ k, L ≤ k ≤ R → J' < k ∨ k = L → T ≤ cv dim X k) as Hge.
  { intros k Hk1 Hk2. destruct (decide (k = L)) as [->|]; [done|].
    destruct (decide (k = R)) as [->|]; [done|]. apply D3; lia. }
  unfold other_ready. split_and!; try lia.
  - intros HnT' k Hk.
    assert (J' = L ∧ nG = numG0 ∧ numG0 = 0) as (-> & HG & HG').
    { destruct (decide (L = R)); lia. }
    destruct (HG0 HG') as [? ?].
    destruct (decide (k = L)) as [->|]; [done|].
    destruct (decide (k = R)) as [->|]; [done|]. apply D9; [done|lia].
  - intros HnG' k Hk.
    assert (J' = L ∧ nT = numT0 ∧ numT0 = 0) as (-> & HT & HT').
    { destruct (decide (L = R)); lia. }
    destruct (HT0 HT') as [? ?]. specialize (D8 HT k).
    destruct (decide (k = L)) as [->|]; [lia|].
    destruct (decide (k = R)) as [->|]; [lia|].
    specialize (D3 k). lia.
  - intros _. split; [lia|]. split.
    + intros HLJ. destruct D4 as [D4 ->]; [lia|].
      split_and!; try lia; try done.
      * intros k Hk. apply Hge; lia.
      * intros Hz. assert (numT0 = 0) as HT' by lia.
        destruct (HT0 HT') as [? ?]. split; [done|].
        intros k Hk. destruct (decide (k = R)) as [->|]; [done|].
        apply D8; lia.
    + intros HJL. split_and!; try lia.
      * intros k Hk. apply Hge; lia.
      * intros Hz k Hk. assert (numT0 = 0) as HT' by lia.
        destruct (HT0 HT') as [? ?].
        destruct (decide (k = L)) as [->|]; [done|].
        destruct (decide (k = R)) as [->|]; [done|].
        apply D8; lia.
Qed.

(** First scan, both end values [< T]. *)
Lemma other_ready_up dim T L R X :
  window_ok myEnd X → myStart ≤ L → L ≤ R → R ≤ myEnd →
  cv dim X L < T → cv dim X R < T →
  ∃ I' Ipt' numT numL,
    other_first_up myStart myEnd (span L R) X dim R T L L 0 (1 + 1)
      = Some (I', Ipt', numT, numL)
    ∧ other_ready dim T L R X I' R Ipt' R numT 0 numL.
Proof.
  intros HX HL HLR HR HlT HrT.
  destruct (other_first_up_spec dim T X R (span L R) L 0 (1 + 1))
    as (I' & Ipt' & nT & nL & -> & U1 & U2 & U3 & U4 & U5 & U6 & U7 & U8);
    try done; try (unfold span; lia).
  eexists _, _, _, _. split; [done|].
  assert (∀ k, L ≤ k < I' → cv dim X k < T) as Hlt.
  { intros k Hk. destruct (decide (k = L)) as [->|]; [done|]. apply U3; lia. }
  unfold other_ready. split_and!; try lia.
  - intros HnL k Hk. destruct (decide (k = R)) as [->|]; [done|].
    apply Hlt. lia.
  - intros HnL. split; [lia|]. split.
    + intros HIR. destruct U4 as [U4 ->]; [lia|].
      split_and!; try lia; try done.
      intros Hz. split; [apply U7; lia|]. intros k Hk; lia.
    + intros HRI. assert (L = R ∧ I' = R + 1) as [-> ->].
      { destruct (decide (L = R)); lia. }
      split_and!; try lia.
      intros k Hk. by assert (k = R) as -> by lia.
Qed.

(** First "scan" when the end values are on the wrong sides (they are
    exchanged by the loop) or on the right sides already (they are
    exchanged here, and back by the loop). *)
Lemma other_ready_ends dim T L R X numT0 numG0 :
  window_ok myEnd X → myStart ≤ L → L < R → R ≤ myEnd →
  T ≤ cv dim X L → cv dim X R < T →
  0 ≤ numT0 ≤ 1 → 0 ≤ numG0 ≤ 1 →
  (numT0 = 0 → cv dim X L ≠ T) →
  other_ready dim T L R X L R L R numT0 numG0 1.
Proof.
  intros HX HL HLR HR HlT HrT HnT HnG HT0.
  unfold other_ready. split_and!; try lia.
  intros _. split; [lia|]. split; [|lia].
  intros _. split_and!; try lia; try done.
  intros Hz. split; [by apply HT0|]. intros k Hk. lia.
Qed.

Lemma PartitionAboutOtherValue_unfold X L R T dim :
  PartitionAboutOtherValue myStart myEnd X L R T dim
  = if R - L + 1 =? 0 then Some (X, (L, L))
    else
      Ipt ← getLocal L;
      Lp ← loadW X Ipt;
      other_head myStart myEnd dim T L R X Ipt (coord dim Lp).
Proof. reflexivity. Qed.

Lemma PartitionAboutOtherValue_correct X L R T dim :
  window_ok myEnd X → myStart ≤ L → L ≤ R + 1 → R ≤ myEnd →
  ∃ X' I J,
    PartitionAboutOtherValue myStart myEnd X L R T dim = Some (X', (I, J))
    ∧ exchanges L R X X' ∧ three_way dim T L R X' I J.
Proof.
  intros HX HL HLR HR. rewrite PartitionAboutOtherValue_unfold.
  destruct (Z.eqb_spec (R - L + 1) 0) as [Hz|Hnz].
  { eexists _, _, _. split; [done|]. split; [constructor|].
    unfold three_way. split_and!; try lia; intros; lia. }
  rewrite (GetLocalVal_in L) by lia. obind.
  rewrite (load_in X L) by (done || lia). obind.
  fold (cv dim X L).
  assert (L = R → cv dim X L = cv dim X R) as Hsame by by intros ->.
  unfold other_head.
  destruct (Z.eqb_spec (cv dim X L) T) as [HLT|HLT];
    [|destruct (Z.gtb_spec (cv dim X L) T) as [HLT'|HLT']];
    cbn beta iota zeta.
  all: rewrite (GetLocalVal_in R) by lia; obind.
  all: rewrite (load_in X R) by (done || lia); obind.
  all: fold (cv dim X R).
  all: zbool; try lia; cbn [andb]; cbn beta iota zeta.
  all: try match goal with
    | |- context [other_first_down _ _ _ _ _ _ _ _ _ ?a ?b] =>
        destruct (other_ready_down dim T L R X a b)
          as (J' & Jpt' & nT & nG & -> & Hready); try done; try lia
    | |- context [other_first_up _ _ _ _ _ _ _ _ _ _ _] =>
        rewrite (GetLocalVal_in L) by lia; obind;
        destruct (other_ready_up dim T L R X)
          as (I' & Ipt' & nT & nL & -> & Hready); try done; try lia
    end.
  all: obind.
  all: try (assert (L ≠ R) as HneLR
              by (intros HLR'; specialize (Hsame HLR'); lia)).
  all: apply other_tail_spec; try done; try lia.
  all: try apply exchanges_refl.
  all: try by apply Exchange_window.
  all: try (apply Exchange_exchanges; try done; try lia; apply exchanges_refl).
  all: apply other_ready_ends; try done; try lia.
  all: try by apply Exchange_window.
  all: rewrite ?cv_Exchange by (done || lia); zbool; try lia.
Qed.

End LocalBufferFacts.

(** ** The global index directory *)

Lemma foldr_add_acc (l : list Z) (a : Z) :
  foldr Z.add a l = foldr Z.add 0 l + a.
Proof. induction l as [|x l IH]; simpl; [lia|rewrite IH; lia]. Qed.

Lemma psum_S counts i c :
  counts !! i = Some c → psum counts (S i) = psum counts i + c.
Proof.
  intros Hc. unfold psum. rewrite (take_S_r _ _ _ Hc), foldr_app. cbn.
  rewrite foldr_add_acc. lia.
Qed.

Lemma psum_0 counts : psum counts 0 = 0.
Proof. unfold psum. by rewrite take_0. Qed.

Lemma counts_nonneg (counts : list Z) j c :
  Forall (λ c, 0 ≤ c) counts → counts !! j = Some c → 0 ≤ c.
Proof. intros H Hc. by apply (Forall_lookup_1 _ _ _ _ H Hc). Qed.

Lemma psum_mono counts i j :
  Forall (λ c, 0 ≤ c) counts → (i ≤ j)%nat → psum counts i ≤ psum counts j.
Proof.
  intros Hpos. induction 1 as [|j _ IH]; [lia|].
  destruct (counts !! j) as [c|] eqn:Hc.
  - rewrite (psum_S _ _ _ Hc).
    pose proof (counts_nonneg _ _ _ Hpos Hc). lia.
  - unfold psum in *. apply lookup_ge_None in Hc.
    rewrite (take_ge counts (S j)) by lia.
    rewrite (take_ge counts j) in IH by lia. done.
Qed.

Lemma psum_all counts : psum counts (length counts) = foldr Z.add 0 counts.
Proof. unfold psum. by rewrite take_ge. Qed.

(** The loop of BuildGlobalIndexLists after [n] turns. *)
Lemma index_loop (counts : list Z) (n : nat) :
  (S n ≤ length counts)%nat →
  ∃ startVal endVal,
    foldl (index_step counts)
          (<[0%nat := 0]> (replicate (length counts) 0),
           <[0%nat := counts !!! 0%nat - 1]> (replicate (length counts) 0),
           counts !!! 0%nat)
          (seq 1 n)
    = (startVal, endVal, psum counts (S n))
    ∧ length startVal = length counts ∧ length endVal = length counts
    ∧ ∀ j, (j ≤ n)%nat →
        startVal !! j = Some (psum counts j)
        ∧ endVal !! j = Some (psum counts (S j) - 1).
Proof.
  induction n as [|n IH]; intros Hn.
  - destruct counts as [|c counts]; [simpl in Hn; lia|].
    eexists _, _. split; [|split; [|split]].
    + cbn [seq foldl]. f_equal.
      rewrite (psum_S _ 0 c), psum_0 by done. cbn. lia.
    + by rewrite length_insert, length_replicate.
    + by rewrite length_insert, length_replicate.
    + intros j Hj. assert (j = 0%nat) as -> by lia.
      rewrite (psum_S _ 0 c), psum_0 by done. cbn. done.
  - destruct IH as (sv & ev & Heq & Hls & Hle & Hinv); [lia|].
    rewrite seq_S, foldl_app, Heq. cbn [foldl index_step].
    replace (1 + n - 1)%nat with n by lia.
    destruct (Hinv n) as [Hsn Hen]; [lia|].
    destruct (lookup_lt_is_Some_2 counts (S n)) as [c Hc]; [lia|].
    rewrite (list_lookup_total_correct _ _ _ Hen),
            (list_lookup_total_correct _ _ _ Hc).
    eexists _, _. split; [|split; [|split]].
    + f_equal. by rewrite (psum_S _ _ _ Hc).
    + by rewrite length_insert.
    + by rewrite length_insert.
    + intros j Hj. destruct (decide (j = S n)) as [->|Hne].
      * rewrite !list_lookup_insert_eq by lia.
        rewrite (psum_S _ (S n) _ Hc). split; f_equal; lia.
      * rewrite !list_lookup_insert_ne by lia. apply Hinv. lia.
Qed.

(** The vectors that BuildGlobalIndexLists builds. *)
Lemma BuildGlobalIndexLists_eq (counts : list Z) :
  (0 < length counts)%nat →
  let d := BuildGlobalIndexLists counts in
  NumProcesses d = Z.of_nat (length counts)
  ∧ NumCells d = counts
  ∧ TotalNumCells d = foldr Z.add 0 counts
  ∧ length (StartVal d) = length counts
  ∧ length (EndVal d) = length counts
  ∧ ∀ j, (j < length counts)%nat →
      StartVal d !! j = Some (psum counts j)
      ∧ EndVal d !! j = Some (psum counts (S j) - 1).
Proof.
  intros Hlen. unfold BuildGlobalIndexLists.
  destruct (index_loop counts (length counts - 1))
    as (sv & ev & -> & Hls & Hle & Hinv); [lia|].
  cbn. split_and!; try done.
  - replace (S (length counts - 1)) with (length counts) by lia.
    apply psum_all.
  - intros j Hj. apply Hinv. lia.
Qed.

Lemma BuildGlobalIndexLists_ok (counts : list Z) :
  (0 < length counts)%nat → Forall (λ c, 0 ≤ c) counts →
  dir_ok (BuildGlobalIndexLists counts).
Proof.
  intros Hlen Hpos.
  destruct (BuildGlobalIndexLists_eq counts Hlen)
    as (HP & HC & HT & Hls & Hle & Hinv).
  split.
  - lia.
  - lia.
  - lia.
  - rewrite HC. lia.
  - by destruct (Hinv 0%nat Hlen) as [-> _].
  - intros i s c Hs Hc. rewrite HC in Hc.
    assert (i < length counts)%nat as Hi by by eapply lookup_lt_Some.
    destruct (Hinv i Hi) as [Hs' He']. rewrite Hs' in Hs. simplify_eq.
    rewrite (psum_S _ _ _ Hc) in He'.
    split; [by eapply counts_nonneg|]. split; [done|].
    split.
    + intros Hlt. destruct (Hinv (S i)) as [-> _]; [lia|].
      by rewrite (psum_S _ _ _ Hc).
    + intros Heq. rewrite HT, <-psum_all.
      replace (length counts) with (S i) by lia.
      apply (psum_S _ _ _ Hc).
Qed.

Section DirectoryFacts.

Variable dir : Directory.
Hypothesis Hdir : dir_ok dir.

Lemma dir_lookup (i : nat) :
  Z.of_nat i < NumProcesses dir →
  ∃ c, StartVal dir !! i = Some (upper dir i) ∧ NumCells dir !! i = Some c
       ∧ EndVal dir !! i = Some (upper dir i + c - 1) ∧ 0 ≤ c
       ∧ upper dir (S i) = upper dir i + c.
Proof.
  intros Hi. destruct Hdir as [HP Hls Hle Hlc H0 Hw].
  destruct (lookup_lt_is_Some_2 (StartVal dir) i) as [s Hs]; [lia|].
  destruct (lookup_lt_is_Some_2 (NumCells dir) i) as [c Hc]; [lia|].
  destruct (Hw i s c Hs Hc) as (Hc0 & He & Hnext & Hlast).
  exists c. unfold upper. rewrite Hs. cbn. split_and!; try done.
  destruct (decide (Z.of_nat (S i) < NumProcesses dir)) as [Hlt|Hge].
  - by rewrite (Hnext Hlt).
  - rewrite (lookup_ge_None_2 (StartVal dir) (S i)) by lia. cbn.
    apply Hlast. lia.
Qed.

Lemma upper_0 : upper dir 0 = 0.
Proof. unfold upper. by rewrite (dir_first _ Hdir). Qed.

Lemma upper_ge (i : nat) :
  NumProcesses dir ≤ Z.of_nat i → upper dir i = TotalNumCells dir.
Proof.
  intros Hi. unfold upper. rewrite lookup_ge_None_2; [done|].
  pose proof (dir_len_start _ Hdir). lia.
Qed.

Lemma upper_S_le (i : nat) : upper dir i ≤ upper dir (S i).
Proof.
  destruct (decide (Z.of_nat i < NumProcesses dir)) as [Hlt|Hge].
  - destruct (dir_lookup i Hlt) as (c & _ & _ & _ & ? & ->). lia.
  - rewrite !upper_ge by lia. lia.
Qed.

Lemma upper_mono (i j : nat) : (i ≤ j)%nat → upper dir i ≤ upper dir j.
Proof.
  induction 1 as [|j _ IH]; [lia|]. pose proof (upper_S_le j). lia.
Qed.

Lemma window_eq (p : Z) :
  0 ≤ p < NumProcesses dir →
  window dir p = Some (upper dir (Z.to_nat p), upper dir (S (Z.to_nat p)) - 1).
Proof.
  intros Hp. unfold window, vec_get.
  destruct (Z.ltb_spec p 0); [lia|].
  destruct (dir_lookup (Z.to_nat p)) as (c & -> & _ & -> & _ & ->); [lia|].
  cbn. do 2 f_equal; lia.
Qed.

Lemma NumCells_eq (p : Z) :
  0 ≤ p < NumProcesses dir →
  vec_get (NumCells dir) p
  = Some (upper dir (S (Z.to_nat p)) - upper dir (Z.to_nat p)).
Proof.
  intros Hp. unfold vec_get.
  destruct (Z.ltb_spec p 0); [lia|].
  destruct (dir_lookup (Z.to_nat p)) as (c & _ & -> & _ & _ & ->); [lia|].
  f_equal. lia.
Qed.

Lemma _whoHas_spec (fuel : nat) (L R pos : Z) :
  0 ≤ L → L ≤ R → R < NumProcesses dir →
  upper dir (Z.to_nat L) ≤ pos → pos < upper dir (S (Z.to_nat R)) →
  (Z.to_nat (R - L) < fuel)%nat →
  ∃ p, _whoHas dir fuel L R pos = Some p ∧ L ≤ p ≤ R
       ∧ upper dir (Z.to_nat p) ≤ pos < upper dir (S (Z.to_nat p)).
Proof.
  revert L R. induction fuel as [|fuel IH];
    intros L R HL HLR HR Hlo Hhi Hfuel; [lia|].
  cbn [_whoHas]. destruct (Z.eqb_spec L R) as [->|Hne].
  { exists R. split; [done|]. lia. }
  rewrite Z.shiftr_div_pow2 by lia. change (2 ^ 1) with 2.
  set (M := (L + R) / 2).
  assert (L ≤ M < R) as HM.
  { unfold M. split; [apply Z.div_le_lower_bound|apply Z.div_lt_upper_bound]; lia. }
  unfold vec_get. destruct (Z.ltb_spec M 0); [lia|].
  destruct (dir_lookup (Z.to_nat M)) as (c & -> & _ & _ & _ & HS); [lia|].
  obind. destruct (Z.ltb_spec pos (upper dir (Z.to_nat M))) as [Hlt|Hge].
  - assert (L < M).
    { destruct (decide (L = M)) as [HLM|]; [|lia]. rewrite <-HLM in Hlt. lia. }
    destruct (IH L (M - 1)) as (p & -> & Hp & Hpp); try lia.
    + replace (S (Z.to_nat (M - 1))) with (Z.to_nat M) by lia. done.
    + exists p. split; [done|]. lia.
  - destruct (Z.ltb_spec (M + 1) 0); [lia|].
    destruct (dir_lookup (Z.to_nat (M + 1))) as (c' & -> & _); [lia|].
    obind. replace (Z.to_nat (M + 1)) with (S (Z.to_nat M)) by lia.
    destruct (Z.ltb_spec pos (upper dir (S (Z.to_nat M)))) as [Hlt'|Hge'].
    + exists M. split; [done|]. lia.
    + destruct (IH (M + 1) R) as (p & -> & Hp & Hpp); try lia.
      * replace (Z.to_nat (M + 1)) with (S (Z.to_nat M)) by lia. done.
      * exists p. split; [done|]. lia.
Qed.

(** WhoHas finds the process whose window holds [pos]. *)
Lemma WhoHas_spec (pos : Z) :
  0 ≤ pos < TotalNumCells dir →
  ∃ p, WhoHas dir pos = Some p ∧ 0 ≤ p < NumProcesses dir
       ∧ upper dir (Z.to_nat p) ≤ pos < upper dir (S (Z.to_nat p)).
Proof.
  intros Hpos. unfold WhoHas.
  destruct (Z.ltb_spec pos 0); [lia|].
  destruct (Z.geb_spec pos (TotalNumCells dir)); [lia|]. cbn [orb].
  pose proof (dir_procs _ Hdir).
  destruct (_whoHas_spec (Z.to_nat (NumProcesses dir)) 0
              (NumProcesses dir - 1) pos) as (p & -> & Hp & Hpp);
    try lia.
  - change (Z.to_nat 0) with 0%nat. rewrite upper_0. lia.
  - rewrite upper_ge; lia.
  - exists p. split; [done|]. lia.
Qed.

Lemma WhoHas_outside (pos : Z) :
  pos < 0 ∨ TotalNumCells dir ≤ pos → WhoHas dir pos = Some (-1).
Proof.
  intros Hpos. unfold WhoHas.
  destruct (Z.ltb_spec pos 0); [done|].
  destruct (Z.geb_spec pos (TotalNumCells dir)); [done|lia].
Qed.

(** A global index lies in one window only. *)
Lemma window_unique (p q : nat) (pos : Z) :
  upper dir p ≤ pos < upper dir (S p) → upper dir q ≤ pos < upper dir (S q) → p = q.
Proof.
  intros Hp Hq. destruct (Nat.lt_trichotomy p q) as [Hlt|[->|Hlt]]; [|done|].
  - pose proof (upper_mono (S p) q). lia.
  - pose proof (upper_mono (S q) p). lia.
Qed.

Lemma WhoHas_mono (pos pos' p p' : Z) :
  0 ≤ pos → pos ≤ pos' → pos' < TotalNumCells dir →
  WhoHas dir pos = Some p → WhoHas dir pos' = Some p' → p ≤ p'.
Proof.
  intros H0 Hle Hlt Hp Hp'.
  destruct (WhoHas_spec pos) as (q & Hq & Hq1 & Hq2); [lia|].
  destruct (WhoHas_spec pos') as (q' & Hq' & Hq1' & Hq2'); [lia|].
  simplify_eq. destruct (Z_le_gt_dec p p'); [done|].
  pose proof (upper_mono (S (Z.to_nat p')) (Z.to_nat p)). lia.
Qed.

End DirectoryFacts.

Lemma window_Some (d : Directory) (Hd : dir_ok d) (q s e : Z) :
  window d q = Some (s, e) →
  0 ≤ q < NumProcesses d
  ∧ s = upper d (Z.to_nat q) ∧ e = upper d (S (Z.to_nat q)) - 1.
Proof.
  intros Hw.
  assert (0 ≤ q < NumProcesses d) as Hq.
  { unfold window, vec_get in Hw. destruct (Z.ltb_spec q 0); [done|].
    destruct (StartVal d !! Z.to_nat q) eqn:Hs; [|done].
    apply lookup_lt_Some in Hs. pose proof (dir_len_start _ Hd). lia. }
  rewrite (window_eq d Hd q Hq) in Hw. by simplify_eq.
Qed.

(** The value of [upper] for a directory built from counts. *)
Lemma upper_Build (counts : list Z) (i : nat) :
  (0 < length counts)%nat → Forall (λ c, 0 ≤ c) counts →
  upper (BuildGlobalIndexLists counts) i = psum counts i.
Proof.
  intros Hlen Hpos.
  destruct (BuildGlobalIndexLists_eq counts Hlen)
    as (HP & HC & HT & Hls & Hle & Hinv).
  unfold upper. destruct (decide (i < length counts)%nat) as [Hi|Hi].
  - by destruct (Hinv i Hi) as [-> _].
  - rewrite lookup_ge_None_2 by lia. cbn. rewrite HT, <-psum_all.
    unfold psum. by rewrite !take_ge by lia.
Qed.

Lemma psum_strict counts i j :
  Forall (λ c, 0 < c) counts → (i < j)%nat → (j ≤ length counts)%nat →
  psum counts i < psum counts j.
Proof.
  intros Hpos Hij. induction Hij as [|j Hij IH]; intros Hj.
  - destruct (lookup_lt_is_Some_2 counts i) as [c Hc]; [lia|].
    rewrite (psum_S _ _ _ Hc).
    pose proof (Forall_lookup_1 _ _ _ _ Hpos Hc) as Hc'. simpl in Hc'. lia.
  - destruct (lookup_lt_is_Some_2 counts j) as [c Hc]; [lia|].
    rewrite (psum_S _ _ _ Hc).
    pose proof (Forall_lookup_1 _ _ _ _ Hpos Hc) as Hc'. simpl in Hc'.
    specialize (IH ltac:(lia)). lia.
Qed.

(** C5, as the code has it: the windows follow each other, the total is
    the sum of the counts, WhoHas finds the one process whose window holds
    a global index, and the start and end vectors never decrease; they
    increase strictly when no process has a count of zero. *)
Theorem BuildGlobalIndexLists_directory (counts : list Z) :
  (0 < length counts)%nat → Forall (λ c, 0 ≤ c) counts →
  let d := BuildGlobalIndexLists counts in
  StartVal d !! 0%nat = Some 0
  ∧ (∀ i c, counts !! i = Some c →
       ∃ s, StartVal d !! i = Some s ∧ EndVal d !! i = Some (s + c - 1)
            ∧ ((S i < length counts)%nat →
               StartVal d !! S i = Some (s + c - 1 + 1)))
  ∧ TotalNumCells d = foldr Z.add 0 counts
  ∧ (∀ i j si sj, (i < j)%nat →
       StartVal d !! i = Some si → StartVal d !! j = Some sj → si ≤ sj)
  ∧ (∀ i j ei ej, (i < j)%nat →
       EndVal d !! i = Some ei → EndVal d !! j = Some ej → ei ≤ ej)
  ∧ (Forall (λ c, 0 < c) counts →
       (∀ i j si sj, (i < j)%nat →
          StartVal d !! i = Some si → StartVal d !! j = Some sj → si < sj)
       ∧ (∀ i j ei ej, (i < j)%nat →
            EndVal d !! i = Some ei → EndVal d !! j = Some ej → ei < ej))
  ∧ (∀ g, 0 ≤ g < TotalNumCells d →
       ∃ p s e, WhoHas d g = Some p ∧ window d p = Some (s, e) ∧ s ≤ g ≤ e
                ∧ ∀ q s' e', window d q = Some (s', e') → s' ≤ g ≤ e' → q = p).
Proof.
  intros Hlen Hpos d.
  destruct (BuildGlobalIndexLists_eq counts Hlen)
    as (HP & HC & HT & Hls & Hle & Hinv).
  pose proof (BuildGlobalIndexLists_ok counts Hlen Hpos) as Hok.
  fold d in HP, HC, HT, Hls, Hle, Hinv, Hok.
  assert (∀ i s, StartVal d !! i = Some s → (i < length counts)%nat ∧ s = psum counts i)
    as HS.
  { intros i s Hs. assert (i < length counts)%nat as Hi.
    { apply lookup_lt_Some in Hs. lia. }
    destruct (Hinv i Hi) as [Hs' _]. split; [done|]. congruence. }
  assert (∀ i e, EndVal d !! i = Some e →
            (i < length counts)%nat ∧ e = psum counts (S i) - 1) as HE.
  { intros i e He. assert (i < length counts)%nat as Hi.
    { apply lookup_lt_Some in He. lia. }
    destruct (Hinv i Hi) as [_ He']. split; [done|]. congruence. }
  split_and!.
  - by destruct (Hinv 0%nat Hlen) as [-> _].
  - intros i c Hc. assert (i < length counts)%nat as Hi by by eapply lookup_lt_Some.
    destruct (Hinv i Hi) as [Hs He]. exists (psum counts i).
    split; [done|]. rewrite He, (psum_S _ _ _ Hc). split; [done|].
    intros HSi. destruct (Hinv (S i) HSi) as [-> _].
    rewrite (psum_S _ _ _ Hc). f_equal. lia.
  - done.
  - intros i j si sj Hij [_ ->]%HS [_ ->]%HS. apply psum_mono; [done|lia].
  - intros i j ei ej Hij [_ ->]%HE [_ ->]%HE.
    pose proof (psum_mono counts (S i) (S j) Hpos). lia.
  - intros Hpos'. split.
    + intros i j si sj Hij [_ ->]%HS [? ->]%HS. apply psum_strict; [done|lia..].
    + intros i j ei ej Hij [_ ->]%HE [? ->]%HE.
      pose proof (psum_strict counts (S i) (S j) Hpos'). lia.
  - intros g Hg. destruct (WhoHas_spec d Hok g Hg) as (p & Hp & Hp1 & Hp2).
    exists p, (upper d (Z.to_nat p)), (upper d (S (Z.to_nat p)) - 1).
    split; [done|]. split; [by apply window_eq|]. split; [lia|].
    intros q s' e' [Hq [-> ->]]%(window_Some d Hok) Hin.
    assert (Z.to_nat q = Z.to_nat p); [|lia].
    apply (window_unique d Hok _ _ g); lia.
Qed.

(** With a process that holds no cell the start vector repeats a value:
    the counts [1; 0; 1] are not negative, and the start vector
    [0; 1; 1] is not strictly increasing. *)
Lemma BuildGlobalIndexLists_not_strict :
  Forall (λ c, 0 ≤ c) [1; 0; 1]
  ∧ ¬ (∀ (i j : nat) si sj, (i < j)%nat →
         StartVal (BuildGlobalIndexLists [1; 0; 1]) !! i = Some si →
         StartVal (BuildGlobalIndexLists [1; 0; 1]) !! j = Some sj → si < sj).
Proof.
  split; [repeat constructor; lia|].
  intros H. specialize (H 1%nat 2%nat 1 1 ltac:(lia) eq_refl eq_refl). lia.
Qed.

Lemma BuildGlobalIndexLists_directory_witness :
  TotalNumCells (BuildGlobalIndexLists [3; 0; 2]) = 5
  ∧ WhoHas (BuildGlobalIndexLists [3; 0; 2]) 3 = Some 2.
Proof.
  pose proof (BuildGlobalIndexLists_directory [3; 0; 2]
                ltac:(simpl; lia) ltac:(repeat constructor; lia)) as H.
  cbv zeta in H. destruct H as (_ & _ & HT & _). split; [exact HT|].
  reflexivity.
Defined.

(** ** Rearrangements of a range of the global array *)

Lemma rearranged_refl L R X : rearranged L R X X.
Proof. by split. Qed.

Lemma rearranged_trans L R X Y Z' :
  rearranged L R X Y → rearranged L R Y Z' → rearranged L R X Z'.
Proof.
  intros [HP1 HF1] [HP2 HF2]. split; [by etrans|].
  intros i Hi. by rewrite HF2, HF1.
Qed.

Lemma rearranged_mono L R L' R' X Y :
  L' ≤ L → R ≤ R' → rearranged L R X Y → rearranged L' R' X Y.
Proof. intros HL HR [HP HF]. split; [done|]. intros i Hi. apply HF. lia. Qed.

Lemma rearranged_length L R X Y : rearranged L R X Y → length Y = length X.
Proof. intros [HP _]. by apply Permutation_length. Qed.

Lemma exchanges_rearranged L R X Y : exchanges L R X Y → rearranged L R X Y.
Proof.
  intros H. split; [by eapply exchanges_Permutation|].
  intros i Hi. by eapply exchanges_frame.
Qed.

Lemma rearranged_pt L R X Y k :
  rearranged L R X Y → 0 ≤ k → ¬ (L ≤ k ≤ R) → pt Y k = pt X k.
Proof.
  intros [_ HF] Hk Hout. unfold pt. rewrite !list_lookup_total_alt.
  f_equal. apply HF. lia.
Qed.

Lemma rearranged_cv dim L R X Y k :
  rearranged L R X Y → 0 ≤ k → ¬ (L ≤ k ≤ R) → cv dim Y k = cv dim X k.
Proof. intros. unfold cv. by erewrite rearranged_pt. Qed.

Lemma slice_split L R X :
  0 ≤ L → L ≤ R + 1 →
  X = take (Z.to_nat L) X ++ slice L R X ++ drop (Z.to_nat (R + 1)) X.
Proof.
  intros HL HR. unfold slice.
  rewrite <-(take_drop (Z.to_nat L) X) at 1. f_equal.
  rewrite <-(take_drop (Z.to_nat (R - L + 1)) (drop (Z.to_nat L) X)) at 1.
  f_equal. rewrite drop_drop. f_equal. lia.
Qed.

Lemma rearranged_slice L R X Y :
  0 ≤ L → L ≤ R + 1 → rearranged L R X Y → slice L R Y ≡ₚ slice L R X.
Proof.
  intros HL HR [HP HF].
  rewrite (slice_split L R X HL HR), (slice_split L R Y HL HR) in HP.
  assert (take (Z.to_nat L) Y = take (Z.to_nat L) X) as Ht.
  { apply list_eq. intros i. destruct (decide (i < Z.to_nat L)%nat).
    - rewrite !lookup_take_lt by done. apply HF. lia.
    - by rewrite !lookup_take_ge by lia. }
  assert (drop (Z.to_nat (R + 1)) Y = drop (Z.to_nat (R + 1)) X) as Hd.
  { apply list_eq. intros i. rewrite !lookup_drop. apply HF. lia. }
  rewrite Ht, Hd in HP.
  apply Permutation_app_inv_l in HP. by apply Permutation_app_inv_r in HP.
Qed.

Lemma slice_lookup L R X (i : nat) :
  0 ≤ L → Z.of_nat i < R - L + 1 → slice L R X !! i = X !! (Z.to_nat L + i)%nat.
Proof.
  intros HL Hi. unfold slice. rewrite lookup_take_lt by lia. by rewrite lookup_drop.
Qed.

Lemma slice_length L R X :
  0 ≤ L → L ≤ R + 1 → R < Z.of_nat (length X) →
  length (slice L R X) = Z.to_nat (R - L + 1).
Proof. intros. unfold slice. rewrite length_take, length_drop. lia. Qed.

(** Every point of the range after a rearrangement was in the range
    before. *)
Lemma rearranged_from L R X Y k :
  0 ≤ L → R < Z.of_nat (length X) → rearranged L R X Y → L ≤ k ≤ R →
  ∃ k', L ≤ k' ≤ R ∧ pt Y k = pt X k'.
Proof.
  intros HL HR Hre Hk.
  pose proof (rearranged_length _ _ _ _ Hre) as Hlen.
  pose proof (rearranged_slice L R X Y HL ltac:(lia) Hre) as HP.
  assert (slice L R Y !! Z.to_nat (k - L) = Some (pt Y k)) as Hy.
  { rewrite slice_lookup by lia.
    replace (Z.to_nat L + Z.to_nat (k - L))%nat with (Z.to_nat k) by lia.
    apply pt_lookup. lia. }
  apply list_elem_of_lookup_2 in Hy. rewrite HP in Hy.
  apply list_elem_of_lookup_1 in Hy as [i Hi].
  assert (Z.of_nat i < R - L + 1) as Hi'.
  { apply lookup_lt_Some in Hi. rewrite slice_length in Hi by lia. lia. }
  rewrite slice_lookup in Hi by lia.
  exists (L + Z.of_nat i). split; [lia|].
  unfold pt at 2. rewrite list_lookup_total_alt.
  replace (Z.to_nat (L + Z.of_nat i)) with (Z.to_nat L + i)%nat by lia.
  by rewrite Hi.
Qed.

(** ** The selection loop *)

Section SelectionFacts.

Variable dir : Directory.
Hypothesis Hdir : dir_ok dir.

Variable PartitionDistributed :
  list point → Z → Z → Z → Z → Z → Z → option (list point * (Z * Z)).
Variables fr_left fr_right fr_SD : Z → Z → Z.

#[local] Abbreviation N := (TotalNumCells dir).

Hypothesis Hdist : distributed_ok dir PartitionDistributed.
Hypothesis Hfr : sample_ok fr_left fr_right fr_SD.

#[local] Abbreviation PartitionSubArray' :=
  (PartitionSubArray dir PartitionDistributed).
#[local] Abbreviation _select' :=
  (_select dir PartitionDistributed fr_left fr_right fr_SD).
#[local] Abbreviation Select' :=
  (Select dir PartitionDistributed fr_left fr_right fr_SD).

(** The window of the owner of [pos]. *)
Lemma owner_window (pos : Z) :
  0 ≤ pos < N →
  ∃ p s e, WhoHas dir pos = Some p ∧ 0 ≤ p < NumProcesses dir
           ∧ window dir p = Some (s, e)
           ∧ s = upper dir (Z.to_nat p) ∧ e = upper dir (S (Z.to_nat p)) - 1
           ∧ 0 ≤ s ∧ s ≤ pos ≤ e ∧ e < N.
Proof.
  intros Hpos. destruct (WhoHas_spec dir Hdir pos Hpos) as (p & Hp & Hp1 & Hp2).
  eexists p, _, _. split; [done|]. split; [done|].
  split; [by apply window_eq|]. split; [done|]. split; [done|].
  pose proof (upper_mono dir Hdir 0 (Z.to_nat p) ltac:(lia)) as H0.
  rewrite (upper_0 dir Hdir) in H0.
  pose proof (upper_mono dir Hdir (S (Z.to_nat p))
                (Z.to_nat (NumProcesses dir)) ltac:(lia)) as H1.
  rewrite (upper_ge dir Hdir (Z.to_nat (NumProcesses dir))) in H1 by lia.
  lia.
Qed.

Lemma PartitionSubArray_spec X L R K dim p1 p2 :
  Z.of_nat (length X) = N → 0 ≤ L → L ≤ K ≤ R → R < N →
  WhoHas dir L = Some p1 → WhoHas dir R = Some p2 →
  ∃ X' I J,
    PartitionSubArray' X L R K dim p1 p2 = Some (X', (I, J))
    ∧ rearranged L R X X' ∧ I < J
    ∧ three_way dim (cv dim X K) L R X' I J.
Proof.
  intros Hlen HL HK HR Hp1 Hp2. unfold PartitionSubArray.
  destruct (Z.eqb_spec p1 p2) as [<-|Hne]; [|by apply Hdist].
  destruct (owner_window L) as (p & s & e & Hp & Hpr & Hw & Hs & He & Hs0 & HsL & HeN);
    [lia|].
  destruct (owner_window R) as (p' & s' & e' & Hp' & Hpr' & Hw' & Hs' & He' & _ & HsR & _);
    [lia|].
  assert (p = p1) as -> by congruence. assert (p' = p1) as -> by congruence.
  rewrite Hw. obind. subst s' e'.
  destruct (PartitionAboutMyValue_correct s e Hs0 X L R K dim)
    as (X' & I & J & -> & HE & HI & HIJ & HJ & H1 & H2 & H3);
    try lia.
  { unfold window_ok. lia. }
  eexists _, _, _. split; [done|]. split; [by apply exchanges_rearranged|].
  split; [done|]. unfold three_way. split_and!; try done; lia.
Qed.

(** The update of [(L, R)] shrinks the interval and keeps [K] in it, or
    ends the loop. *)
Lemma select_update_shrinks (L R K I J : Z) :
  L ≤ K ≤ R → L < R → L ≤ I → I < J → J ≤ R + 1 →
  ∃ L' R', select_update L R K I J = (L', R')
    ∧ (J ≤ K → L' = J ∧ R' = R ∧ L < L')
    ∧ (K < I → L' = L ∧ R' = I - 1 ∧ R' < R)
    ∧ (I ≤ K < J → L' = R ∧ R' = R)
    ∧ R' - L' < R - L
    ∧ (L' < R' → L' ≤ K ≤ R').
Proof.
  intros HK HLR HI HIJ HJ. unfold select_update.
  destruct (Z.geb_spec K J); [|destruct (Z.geb_spec K I)];
    eexists _, _; (split; [done|]); split_and!; intros; lia.
Qed.

Lemma fenced_rearranged dim L0 R0 L R X Y :
  0 ≤ L0 → L0 ≤ L → R ≤ R0 → R0 < Z.of_nat (length X) →
  rearranged L R X Y → fenced dim L0 R0 L R X → fenced dim L0 R0 L R Y.
Proof.
  intros H0 HL HR HR0 Hre [F1 F2].
  assert (∀ k, L0 ≤ k ≤ R0 →
            ∃ k', cv dim Y k = cv dim X k'
                  ∧ (L ≤ k ≤ R → L ≤ k' ≤ R) ∧ (¬ (L ≤ k ≤ R) → k' = k)) as Hfrom.
  { intros k Hk. destruct (decide (L ≤ k ≤ R)) as [Hin|Hout].
    - destruct (rearranged_from L R X Y k) as (k' & Hk' & Heq); try done; try lia.
      exists k'. unfold cv. rewrite Heq. split; [done|]. split; [done|lia].
    - exists k. split; [|done]. apply (rearranged_cv dim L R); [done|lia|done]. }
  split.
  - intros i j Hi Hj.
    destruct (Hfrom i) as (i' & -> & _ & Hi'); [lia|].
    destruct (Hfrom j) as (j' & -> & Hj1 & Hj2); [lia|].
    rewrite Hi' by lia.
    destruct (decide (L ≤ j ≤ R)); [apply F1; lia|].
    rewrite Hj2 by done. apply F1; lia.
  - intros i j Hi Hj.
    destruct (Hfrom i) as (i' & -> & Hi1 & Hi2); [lia|].
    destruct (Hfrom j) as (j' & -> & _ & Hj'); [lia|].
    rewrite Hj' by lia.
    destruct (decide (L ≤ i ≤ R)); [apply F2; lia|].
    rewrite Hi2 by done. apply F2; lia.
Qed.

Lemma _select_loop dim L0 R0 K (fuel : nat) X L R :
  Z.of_nat (length X) = N → 0 ≤ L0 → L0 ≤ L → L ≤ K ≤ R → R ≤ R0 → R0 < N →
  fenced dim L0 R0 L R X →
  (Z.to_nat (R - L) < fuel)%nat →
  ∃ X', _select' fuel X L R K dim = Some X'
        ∧ rearranged L R X X' ∧ selected dim L0 R0 K X'.
Proof.
  revert X L0 R0 L R. induction fuel as [|fuel IH];
    intros X L0 R0 L R Hlen H0 HL0 HK HR0 HN Hf Hfuel; [lia|].
  cbn [_select]. destruct (Z.gtb_spec R L) as [HLR|HLR].
  2: { assert (L = K ∧ R = K) as [-> ->] by lia.
       exists X. split; [done|]. split; [apply rearranged_refl|].
       destruct Hf as [F1 F2]. exists K, (K + 1).
       split; [lia|]. split; [lia|]. unfold three_way.
       split_and!; try lia.
       - intros k Hk. apply F1; lia.
       - intros k Hk. by assert (k = K) as -> by lia.
       - intros k Hk. apply F2; lia. }
  (* the sample *)
  set (LL := Z.max L _). set (RR := Z.min R _).
  assert (∃ X1,
    (if R - L >? 600 then _select' fuel X LL RR K dim else Some X) = Some X1
    ∧ rearranged L R X X1) as (X1 & -> & Hre1).
  { destruct (Z.gtb_spec (R - L) 600) as [Hbig|Hsmall].
    - destruct (Hfr (R - L + 1) (K - L + 1)) as (Ha & Hb & Hab); [lia..|].
      destruct (IH X LL RR LL RR) as (X1 & -> & Hre & _); try lia.
      + split; intros; lia.
      + exists X1. split; [done|]. eapply rearranged_mono; [| |done]; lia.
    - exists X. split; [done|apply rearranged_refl]. }
  clear LL RR.
  obind.
  pose proof (rearranged_length _ _ _ _ Hre1) as Hlen1.
  destruct (WhoHas_spec dir Hdir L) as (p1 & Hp1 & _); [lia|].
  destruct (WhoHas_spec dir Hdir R) as (p2 & Hp2 & _); [lia|].
  rewrite Hp1, Hp2. obind.
  destruct (PartitionSubArray_spec X1 L R K dim p1 p2)
    as (X2 & I & J & HPS & Hre2 & HIJ & HI & _ & HJ & T1 & T2 & T3);
    try done; try lia.
  rewrite HPS. obind.
  pose proof (rearranged_length _ _ _ _ Hre2) as Hlen2.
  assert (rearranged L R X X2) as Hre by by eapply rearranged_trans.
  assert (fenced dim L0 R0 L R X2) as [F1 F2].
  { eapply fenced_rearranged; [..|exact Hre|exact Hf]; lia. }
  set (T := cv dim X1 K) in *.
  destruct (select_update_shrinks L R K I J) as (L' & R' & -> & U1 & U2 & U3 & U4 & U5);
    try lia.
  destruct (Z_le_gt_dec J K) as [HJK|HJK]; [|destruct (Z_lt_ge_dec K I) as [HKI|HKI]].
  - (* the value at K lies right of the block *)
    destruct (U1 HJK) as (-> & -> & HLJ).
    destruct (IH X2 L0 R0 J R) as (X3 & -> & Hre3 & Hsel); try lia.
    + split.
      * intros i j Hi Hj. destruct (Z_lt_ge_dec i L); [apply F1; lia|].
        destruct (Z_le_gt_dec j R); [|apply F2; lia].
        assert (cv dim X2 i ≤ T).
        { destruct (Z_lt_ge_dec i I); [specialize (T1 i)|specialize (T2 i)]; lia. }
        specialize (T3 j). lia.
      * intros i j Hi Hj. apply F2; lia.
    + exists X3. split; [done|]. split; [|done].
      eapply rearranged_trans; [done|]. eapply rearranged_mono; [| |done]; lia.
  - (* the value at K lies left of the block *)
    destruct (U2 HKI) as (-> & -> & HIR).
    destruct (IH X2 L0 R0 L (I - 1)) as (X3 & -> & Hre3 & Hsel); try lia.
    + split.
      * intros i j Hi Hj. apply F1; lia.
      * intros i j Hi Hj. destruct (Z_le_gt_dec j R); [|apply F2; lia].
        destruct (Z_lt_ge_dec i L); [apply F1; lia|].
        assert (T ≤ cv dim X2 j).
        { destruct (Z_lt_ge_dec j J); [specialize (T2 j)|specialize (T3 j)]; lia. }
        specialize (T1 i). lia.
    + exists X3. split; [done|]. split; [|done].
      eapply rearranged_trans; [done|]. eapply rearranged_mono; [| |done]; lia.
  - (* K is in the block of values equal to T: the loop ends *)
    destruct U3 as [-> ->]; [lia|].
    assert (_select' fuel X2 R R K dim = Some X2) as ->.
    { destruct fuel; [lia|]. cbn [_select].
      destruct (Z.gtb_spec R R); [lia|done]. }
    exists X2. split; [done|]. split; [done|].
    assert (cv dim X2 K = T) as HT by (apply T2; lia).
    exists I, J. split; [lia|]. split; [lia|]. rewrite HT.
    unfold three_way. split_and!; try lia.
    + intros k Hk. destruct (Z_lt_ge_dec k L); [|apply T1; lia].
      rewrite <-HT. apply F1; lia.
    + intros k Hk. apply T2; lia.
    + intros k Hk. destruct (Z_le_gt_dec k R); [apply T3; lia|].
      rewrite <-HT. apply F2; lia.
Qed.

(** *** The roll-back of [Select] *)

Lemma owner_val_spec X dim p pos :
  Z.of_nat (length X) = N → 0 ≤ pos < N → WhoHas dir pos = Some p →
  owner_val dir X dim p pos = Some (cv dim X pos).
Proof.
  intros Hlen Hpos Hp.
  destruct (owner_window pos Hpos) as (p' & s & e & Hp' & _ & Hw & _ & _ & Hs & Hin & He).
  assert (p' = p) as -> by congruence.
  unfold owner_val. rewrite Hw. obind.
  rewrite GetLocalVal_in by lia. obind.
  rewrite (load_in s e Hs) by (unfold window_ok; lia). done.
Qed.

Lemma roll_back_spec dim Kval s e X (fuel : nat) ptr :
  Z.of_nat (length X) = N → 0 ≤ s → e < N → s ≤ ptr ≤ e →
  (Z.to_nat (ptr - s) < fuel)%nat →
  ∃ r, roll_back fuel s e X dim Kval s (ptr - 1) ptr ptr = Some r
       ∧ s ≤ r ≤ ptr
       ∧ (∀ i, r ≤ i < ptr → ¬ cv dim X i < Kval)
       ∧ (s < r → cv dim X (r - 1) < Kval).
Proof.
  intros Hlen Hs He. revert ptr.
  induction fuel as [|fuel IH]; intros ptr Hptr Hfuel; [lia|].
  cbn [roll_back]. destruct (Z.geb_spec (ptr - 1) s) as [Hge|Hlt].
  - cbv zeta. rewrite (load_in s e Hs) by (unfold window_ok; lia). obind.
    fold (cv dim X (ptr - 1)).
    destruct (Z.ltb_spec (cv dim X (ptr - 1)) Kval) as [Hlt|Hnlt].
    + exists ptr. split; [done|]. split_and!; intros; try lia; done.
    + replace (ptr - 1 - 1) with ((ptr - 1) - 1) by lia.
      destruct (IH (ptr - 1)) as (r & -> & Hr & Hall & Hprev); try lia.
      exists r. split; [done|]. split_and!; try lia; try done.
      intros i Hi. destruct (decide (i = ptr - 1)) as [->|]; [lia|].
      apply Hall. lia.
  - exists ptr. split; [done|]. split_and!; try lia.
Qed.

Lemma firstKval_of_spec X dim L R K I J p1 p2 hl me :
  Z.of_nat (length X) = N → 0 ≤ L → L < K → K ≤ R → R < N →
  WhoHas dir L = Some p1 → WhoHas dir R = Some p2 →
  WhoHas dir (K - 1) = Some hl →
  I < K → K < J → three_way dim (cv dim X K) L R X I J →
  p1 ≤ me ≤ p2 →
  ∃ f, firstKval_of dir X dim K (cv dim X K) hl me = Some f
       ∧ (L < I → I ≤ f)
       ∧ (upper dir (Z.to_nat me) ≤ I < upper dir (S (Z.to_nat me)) → f ≤ I).
Proof.
  intros Hlen HL HLK HKR HR Hp1 Hp2 Hhl HIK HKJ (HI & _ & HJ & T1 & T2 & T3) Hme.
  destruct (WhoHas_spec dir Hdir L) as (q1 & Hq1 & Hq1r & Hq1w); [lia|].
  destruct (WhoHas_spec dir Hdir R) as (q2 & Hq2 & Hq2r & Hq2w); [lia|].
  destruct (WhoHas_spec dir Hdir (K - 1)) as (ql & Hql & Hqlr & Hqlw); [lia|].
  assert (q1 = p1) as -> by congruence. assert (q2 = p2) as -> by congruence.
  assert (ql = hl) as -> by congruence.
  unfold firstKval_of. cbv zeta.
  rewrite (NumCells_eq dir Hdir) by lia. obind.
  set (s := upper dir (Z.to_nat me)). set (e' := upper dir (S (Z.to_nat me))).
  destruct (Z.leb_spec me hl) as [Hle|Hgt]; cbn [andb].
  2: { exists N. split; [done|]. split; [lia|]. intros Hown.
       assert (S (Z.to_nat hl) ≤ Z.to_nat me)%nat as Hm by lia.
       pose proof (upper_mono dir Hdir _ _ Hm). fold s in H. lia. }
  destruct (Z.gtb_spec (e' - s) 0) as [Hnc|Hnc].
  2: { exists N. split; [done|]. split; [lia|]. intros Hown. subst s e'. lia. }
  rewrite (window_eq dir Hdir) by lia. obind. fold s e'.
  assert (s ≤ K - 1) as HsK.
  { assert (Z.to_nat me ≤ Z.to_nat hl)%nat as Hm by lia.
    pose proof (upper_mono dir Hdir _ _ Hm). fold s in H. lia. }
  assert (L ≤ e' - 1) as HLe.
  { assert (S (Z.to_nat p1) ≤ S (Z.to_nat me))%nat as Hm by lia.
    pose proof (upper_mono dir Hdir _ _ Hm). fold e' in H. lia. }
  assert (0 ≤ s) as Hs0.
  { pose proof (upper_mono dir Hdir 0 (Z.to_nat me) ltac:(lia)) as H.
    rewrite (upper_0 dir Hdir) in H. done. }
  assert (e' ≤ N) as HeN.
  { pose proof (upper_mono dir Hdir (S (Z.to_nat me))
                  (Z.to_nat (NumProcesses dir)) ltac:(lia)) as H.
    rewrite (upper_ge dir Hdir (Z.to_nat (NumProcesses dir))) in H by lia. done. }
  set (start := if e' - 1 >? K - 1 then K - 1 else e' - 1).
  assert (s ≤ start ≤ e' - 1 ∧ L ≤ start ≤ K - 1
          ∧ (e' - 1 < K - 1 → start = e' - 1) ∧ (K - 1 ≤ e' - 1 → start = K - 1))
    as (Hst1 & Hst2 & Hst3 & Hst4).
  { subst start. destruct (Z.gtb_spec (e' - 1) (K - 1)); lia. }
  rewrite GetLocalVal_in by lia. obind.
  rewrite (load_in s (e' - 1) Hs0) by (unfold window_ok; lia). obind.
  fold (cv dim X start).
  destruct (Z.eqb_spec (cv dim X start) (cv dim X K)) as [Heq|Hne].
  2: { exists N. split; [done|]. split; [lia|]. intros Hown.
       exfalso. apply Hne. apply T2. lia. }
  cbv zeta.
  destruct (roll_back_spec dim (cv dim X K) s (e' - 1) X
              (Z.to_nat (start - s + 1)) start)
    as (r & -> & Hr & Hall & Hprev); try lia.
  assert (I ≤ start) as HIs.
  { destruct (Z_le_gt_dec I start); [done|]. specialize (T1 start). lia. }
  exists r. split; [done|]. split.
  - intros HLI. destruct (Z_le_gt_dec I r); [done|].
    exfalso. apply (Hall (I - 1)); [lia|]. apply T1. lia.
  - intros Hown. destruct (Z_le_gt_dec r I); [done|].
    specialize (Hprev ltac:(lia)). specialize (T2 (r - 1)). lia.
Qed.

Lemma mapM_spec {A B} (f : A → option B) (P : A → B → Prop) (l : list A) :
  (∀ x, x ∈ l → ∃ y, f x = Some y ∧ P x y) →
  ∃ k, mapM f l = Some k ∧ Forall2 P l k.
Proof.
  induction l as [|x l IH]; intros Hf.
  - by exists [].
  - destruct (Hf x) as (y & Hy & HP); [left|].
    destruct IH as (k & Hk & HF). { intros x' Hx'. apply Hf. by right. }
    exists (y :: k). cbn. rewrite Hy. cbn. rewrite Hk. cbn.
    split; [done|]. by constructor.
Qed.

Lemma foldl_min_spec (l : list Z) (v : Z) :
  foldl Z.min v l ∈ v :: l ∧ ∀ x, x ∈ v :: l → foldl Z.min v l ≤ x.
Proof.
  revert v. induction l as [|a l IH]; intros v; cbn [foldl].
  - split; [left|]. intros x ->%list_elem_of_singleton. lia.
  - destruct (IH (Z.min v a)) as [Hin Hle]. split.
    + apply elem_of_cons in Hin as [Hin|Hin]; [|by do 2 right].
      rewrite Hin. destruct (Z.min_spec v a) as [[_ ->]|[_ ->]];
        [left|right; left].
    + intros x Hx. apply elem_of_cons in Hx as [->|Hx].
      * specialize (Hle (Z.min v a) ltac:(left)). lia.
      * apply elem_of_cons in Hx as [->|Hx].
        -- specialize (Hle (Z.min v a) ltac:(left)). lia.
        -- apply Hle. by right.
Qed.

Lemma ReduceMin_spec (vals : list Z) :
  vals ≠ [] →
  ∃ m, ReduceMin vals = Some m ∧ m ∈ vals ∧ ∀ x, x ∈ vals → m ≤ x.
Proof.
  destruct vals as [|v l]; [done|]. intros _. eexists. split; [done|].
  apply foldl_min_spec.
Qed.

Lemma elem_of_ranks p1 p2 x : x ∈ ranks p1 p2 ↔ p1 ≤ x ≤ p2.
Proof.
  unfold ranks. rewrite list_elem_of_fmap. split.
  - intros (i & -> & Hi%elem_of_seq). lia.
  - intros Hx. exists (Z.to_nat (x - p1)). split; [lia|].
    apply elem_of_seq. lia.
Qed.

(** The target index of [Select]. *)
Lemma target_in_range L R :
  0 ≤ L → L < R → L < cdiv (R + L) 2 + 1 ≤ R.
Proof.
  intros HL HLR. unfold cdiv. rewrite Z.quot_div_nonneg by lia.
  pose proof (Z.div_mod (R + L) 2 ltac:(lia)).
  pose proof (Z.mod_pos_bound (R + L) 2 ltac:(lia)). lia.
Qed.

(** [Select] returns: the array is partitioned about the value at [K],
    and the index returned is the first of the run of equal values that
    ends at [K] when this run starts after [L], and no more than [L]
    otherwise. *)
Lemma Select_spec X p1 p2 dim L R :
  Z.of_nat (length X) = N → 0 ≤ L → L < R → R < N →
  WhoHas dir L = Some p1 → WhoHas dir R = Some p2 →
  let K := cdiv (R + L) 2 + 1 in
  ∃ X' K' I J,
    Select' X p1 p2 dim L R = Some (X', K')
    ∧ rearranged L R X X'
    ∧ I ≤ K ∧ K < J ∧ three_way dim (cv dim X' K) L R X' I J
    ∧ K' ≤ I ∧ (L < I → K' = I).
Proof.
  intros Hlen HL HLR HR Hp1 Hp2 K.
  pose proof (target_in_range L R HL HLR) as HK. fold K in HK.
  unfold Select. fold K.
  destruct (_select_loop dim L R K (Z.to_nat (R - L + 2)) X L R)
    as (X1 & -> & Hre & I & J & HIK & HKJ & Htw); try lia.
  { split; intros; lia. }
  obind. pose proof (rearranged_length _ _ _ _ Hre) as Hlen1.
  destruct (Z.eqb_spec K L); [lia|].
  destruct (WhoHas_spec dir Hdir K) as (hk & Hhk & _); [lia|].
  destruct (WhoHas_spec dir Hdir (K - 1)) as (hl & Hhl & Hhlr & Hhlw); [lia|].
  rewrite Hhk, Hhl. obind.
  rewrite !owner_val_spec by (done || lia). obind.
  pose proof Htw as (HLI & _ & HJR & T1 & T2 & T3).
  destruct (Z.eqb_spec (cv dim X1 (K - 1)) (cv dim X1 K)) as [Heq|Hne]; cbn [negb].
  - (* the value left of K equals the value at K *)
    assert (I < K) as HIK'.
    { destruct (Z_lt_ge_dec I K); [done|]. specialize (T1 (K - 1)). lia. }
    destruct (mapM_spec (firstKval_of dir X1 dim K (cv dim X1 K) hl)
                (λ me f, (L < I → I ≤ f)
                         ∧ (upper dir (Z.to_nat me) ≤ I < upper dir (S (Z.to_nat me))
                            → f ≤ I))
                (ranks p1 p2)) as (vals & -> & HF).
    { intros me Hme%elem_of_ranks.
      eapply (firstKval_of_spec X1 dim L R K I J p1 p2 hl me); eauto; lia. }
    obind.
    destruct (WhoHas_spec dir Hdir I) as (q & Hq & Hqr & Hqw); [lia|].
    assert (p1 ≤ q ≤ p2) as Hqin.
    { split; [eapply (WhoHas_mono dir Hdir L I)|eapply (WhoHas_mono dir Hdir I R)];
        eauto; lia. }
    apply elem_of_ranks, list_elem_of_lookup_1 in Hqin as [iq Hiq].
    destruct (Forall2_lookup_l _ _ _ _ _ HF Hiq) as (fq & Hfq & _ & Hfq').
    destruct (ReduceMin_spec vals) as (m & -> & Hm & Hmin).
    { intros ->. done. }
    obind. exists X1, m, I, J. split; [done|].
    split; [by rewrite <-Hlen1 in *|]. split_and!; try done.
    + specialize (Hmin fq (list_elem_of_lookup_2 _ _ _ Hfq)).
      specialize (Hfq' Hqw). lia.
    + intros HLI'.
      apply list_elem_of_lookup_1 in Hm as [im Him].
      destruct (Forall2_lookup_r _ _ _ _ _ HF Him) as (me & _ & Hme & _).
      specialize (Hme HLI').
      specialize (Hmin fq (list_elem_of_lookup_2 _ _ _ Hfq)).
      specialize (Hfq' Hqw). lia.
  - (* the run of equal values starts at K *)
    assert (I = K) as ->.
    { destruct (Z_lt_ge_dec I K); [|lia]. exfalso. apply Hne. apply T2. lia. }
    exists X1, K, K, J. split; [done|]. split_and!; try done; lia.
Qed.

End SelectionFacts.

(** ** Order statistics *)

Lemma count_partition (T : Z) (l : list Z) (a b : nat) :
  (a ≤ b ≤ length l)%nat →
  (∀ i x, l !! i = Some x → (i < a)%nat → x < T) →
  (∀ i x, l !! i = Some x → (a ≤ i < b)%nat → x = T) →
  (∀ i x, l !! i = Some x → (b ≤ i)%nat → T < x) →
  length (filter (λ x, x < T) l) = a ∧ length (filter (λ x, x ≤ T) l) = b.
Proof.
  revert a b. induction l as [|x l IH]; intros a b Hab H1 H2 H3.
  - cbn in *. split; lia.
  - assert (∀ a' b',
      (a' ≤ b' ≤ length l)%nat →
      (∀ i : nat, (i < a')%nat → (S i < a)%nat) →
      (∀ i : nat, (a' ≤ i < b')%nat → (a ≤ S i < b)%nat) →
      (∀ i : nat, (b' ≤ i)%nat → (b ≤ S i)%nat) →
      length (filter (λ x, x < T) l) = a' ∧ length (filter (λ x, x ≤ T) l) = b')
      as Htail.
    { intros a' b' Hab' Ha Hm Hb. apply IH; [done|..].
      - intros i y Hy Hi. apply (H1 (S i) y Hy). by apply Ha.
      - intros i y Hy Hi. apply (H2 (S i) y Hy). by apply Hm.
      - intros i y Hy Hi. apply (H3 (S i) y Hy). by apply Hb. }
    cbn [length] in Hab.
    destruct a as [|a]; [destruct b as [|b]|].
    + specialize (H3 0%nat x eq_refl ltac:(lia)).
      rewrite !filter_cons_False by lia.
      apply Htail; intros; lia.
    + specialize (H2 0%nat x eq_refl ltac:(lia)).
      rewrite filter_cons_False, filter_cons_True by lia. cbn [length].
      destruct (Htail 0%nat b) as [-> ->]; intros; lia.
    + specialize (H1 0%nat x eq_refl ltac:(lia)).
      rewrite !filter_cons_True by lia. cbn [length].
      destruct b as [|b]; [lia|].
      destruct (Htail a b) as [-> ->]; intros; lia.
Qed.

Lemma coords_lookup dim L R X (i : nat) x :
  0 ≤ L → coords dim L R X !! i = Some x → x = cv dim X (L + Z.of_nat i).
Proof.
  intros HL Hx. unfold coords in Hx. rewrite list_lookup_fmap in Hx.
  destruct (slice L R X !! i) as [p|] eqn:Hp; [|done].
  cbn in Hx. injection Hx as <-.
  assert (Z.of_nat i < R - L + 1) as Hi.
  { apply lookup_lt_Some in Hp. unfold slice in Hp. rewrite length_take in Hp. lia. }
  rewrite slice_lookup in Hp by lia.
  unfold cv, pt. rewrite list_lookup_total_alt.
  replace (Z.to_nat (L + Z.of_nat i)) with (Z.to_nat L + i)%nat by lia.
  by rewrite Hp.
Qed.

Lemma three_way_kth dim L R K I J X :
  0 ≤ L → R < Z.of_nat (length X) → I ≤ K → K < J →
  three_way dim (cv dim X K) L R X I J →
  kth_smallest (K - L + 1) (cv dim X K) (coords dim L R X).
Proof.
  intros HL HR HIK HKJ (HI & _ & HJ & T1 & T2 & T3).
  assert (length (coords dim L R X) = Z.to_nat (R - L + 1)) as Hlen.
  { unfold coords. rewrite length_map. apply slice_length; lia. }
  destruct (count_partition (cv dim X K) (coords dim L R X)
              (Z.to_nat (I - L)) (Z.to_nat (J - L))) as [Ha Hb].
  - lia.
  - intros i x Hx Hi. rewrite (coords_lookup _ _ _ _ _ _ HL Hx). apply T1. lia.
  - intros i x Hx Hi. rewrite (coords_lookup _ _ _ _ _ _ HL Hx). apply T2. lia.
  - intros i x Hx Hi. pose proof (lookup_lt_Some _ _ _ Hx).
    rewrite (coords_lookup _ _ _ _ _ _ HL Hx). apply T3. lia.
  - unfold kth_smallest. rewrite Ha, Hb. lia.
Qed.

Lemma kth_smallest_Permutation k v l l' :
  l ≡ₚ l' → kth_smallest k v l → kth_smallest k v l'.
Proof. unfold kth_smallest. by intros ->. Qed.

(** Every point of the range after the exchanges was in the range
    before. *)
Lemma exchanges_from L R X Y k :
  0 ≤ L → R < Z.of_nat (length X) → exchanges L R X Y → L ≤ k ≤ R →
  ∃ k', L ≤ k' ≤ R ∧ pt Y k = pt X k'.
Proof.
  intros HL HR HE. apply rearranged_from; [done|done|].
  by apply exchanges_rearranged.
Qed.

(** C1: on a range [[L, R]] of the local buffer, the two partition
    routines rearrange the array by exchanges inside the range (so the
    result is a permutation) and return [(I, J)] with
    [L <= I <= J <= R + 1], the values of [[L, I)] strictly below the
    pivot, those of [[I, J)] equal to it and those of [[J, R]] strictly
    above: PartitionAboutMyValue about the value at [K], with [I < J], and
    PartitionAboutOtherValue about any [T], with [I = J] when no value of
    the range is [T] and [I = J = L] on a range of length zero. *)
Theorem partition_three_way (myStart myEnd : Z) (X : list point) (L R dim : Z) :
  0 ≤ myStart → myEnd < Z.of_nat (length X) →
  myStart ≤ L → L ≤ R + 1 → R ≤ myEnd →
  (∀ K, L ≤ K ≤ R →
     ∃ X' I J,
       PartitionAboutMyValue myStart myEnd X L R K dim = Some (X', (I, J))
       ∧ exchanges L R X X' ∧ X' ≡ₚ X
       ∧ I < J ∧ three_way dim (cv dim X K) L R X' I J)
  ∧ (∀ T,
       ∃ X' I J,
         PartitionAboutOtherValue myStart myEnd X L R T dim = Some (X', (I, J))
         ∧ exchanges L R X X' ∧ X' ≡ₚ X
         ∧ three_way dim T L R X' I J
         ∧ ((∀ k, L ≤ k ≤ R → cv dim X k ≠ T) → I = J)
         ∧ (R - L + 1 = 0 → I = L ∧ J = L)).
Proof.
  intros Hs HX HL HLR HR. split.
  - intros K HK.
    destruct (PartitionAboutMyValue_correct myStart myEnd Hs X L R K dim)
      as (X' & I & J & HP & HE & HI & HIJ & HJ & H1 & H2 & H3); try done.
    exists X', I, J. split; [done|]. split; [done|].
    split; [by eapply exchanges_Permutation|]. split; [done|].
    unfold three_way. split_and!; try done; lia.
  - intros T.
    destruct (PartitionAboutOtherValue_correct myStart myEnd Hs X L R T dim)
      as (X' & I & J & HP & HE & Htw); try done.
    exists X', I, J. split; [done|]. split; [done|].
    split; [by eapply exchanges_Permutation|]. split; [done|].
    destruct Htw as (HI & HIJ & HJ & H1 & H2 & H3). split.
    + intros Habs. destruct (Z_lt_ge_dec I J) as [Hlt|Hge]; [|lia].
      exfalso. destruct (exchanges_from L R X X' I) as (k' & Hk' & Hpt);
        try done; try lia.
      apply (Habs k' Hk'). specialize (H2 I ltac:(lia)).
      unfold cv in *. by rewrite <-Hpt.
    + intros Hz. lia.
Qed.

Lemma partition_three_way_witness :
  (∃ X' I J,
     PartitionAboutMyValue 0 3 four_points 0 3 2 YDIM = Some (X', (I, J))
     ∧ I < J ∧ three_way YDIM 5 0 3 X' I J)
  ∧ (∃ X' I J,
       PartitionAboutOtherValue 0 3 four_points 0 3 6 YDIM = Some (X', (I, J))
       ∧ I = J).
Proof.
  destruct (partition_three_way 0 3 four_points 0 3 YDIM) as [HM HO].
  - lia.
  - vm_compute. reflexivity.
  - lia.
  - lia.
  - lia.
  - split.
    + destruct (HM 2 ltac:(lia)) as (X' & I & J & HP & _ & _ & HIJ & Htw).
      exists X', I, J. split; [exact HP|]. split; [exact HIJ|exact Htw].
    + destruct (HO 6) as (X' & I & J & HP & _ & _ & _ & Habs & _).
      exists X', I, J. split; [exact HP|]. apply Habs.
      intros k Hk.
      assert (k = 0 ∨ k = 1 ∨ k = 2 ∨ k = 3) as [-> | [-> | [-> | ->]]] by lia;
        vm_compute; discriminate.
Defined.

(** ** Point counts in the tree *)

Lemma leaf_points_root (t : KdTree) :
  counts_add_up t → leaf_points t = NumberOfPoints (root_node t).
Proof.
  induction t as [kd|kd l IHl r IHr]; [done|].
  intros (Hkd & Hl & Hr). cbn. rewrite IHl, IHr by done. lia.
Qed.

Lemma subtree_set_subtree (t : KdTree) (p : node_ptr) (s u : KdTree) :
  subtree t p = Some s → subtree (set_subtree t p u) p = Some u.
Proof.
  revert t. induction p as [|b p IH]; intros t Hs; [reflexivity|].
  destruct t as [kd|kd l r]; [done|]. cbn in *.
  destruct b; cbn; by apply IH.
Qed.

Lemma set_subtree_counts (t : KdTree) (p : node_ptr) (s u : KdTree) :
  subtree t p = Some s →
  NumberOfPoints (root_node u) = NumberOfPoints (root_node s) →
  counts_add_up t → counts_add_up u →
  counts_add_up (set_subtree t p u)
  ∧ NumberOfPoints (root_node (set_subtree t p u)) = NumberOfPoints (root_node t).
Proof.
  revert t. induction p as [|b p IH]; intros t Hs Hn Ht Hu.
  - cbn in *. by simplify_eq.
  - destruct t as [kd|kd l r]; [done|]. cbn in Hs. destruct Ht as (Hkd & Hl & Hr).
    destruct b; cbn.
    + destruct (IH r Hs Hn Hr Hu) as [IH1 IH2]. split; [|done].
      split_and!; try done. by rewrite IH2.
    + destruct (IH l Hs Hn Hl Hu) as [IH1 IH2]. split; [|done].
      split_and!; try done. by rewrite IH2.
Qed.

Section BuildFacts.

Variable dir : Directory.
Variable PartitionDistributed :
  list point → Z → Z → Z → Z → Z → Z → option (list point * (Z * Z)).
Variables fr_left fr_right fr_SD : Z → Z → Z.
Variable MyId : Z.
Variable DivideTest : Z → Z → bool.
Variable SelectCutDirection : KdNode → Z.
Variable ValidDirections : Z.
Variable midpoint : Z → Z → Z.
Variable to_float : Z → Z.

#[local] Abbreviation Select' :=
  (Select dir PartitionDistributed fr_left fr_right fr_SD).
#[local] Abbreviation permitted_after' := (permitted_after ValidDirections).
#[local] Abbreviation selects_fail' :=
  (selects_fail dir PartitionDistributed fr_left fr_right fr_SD).
#[local] Abbreviation find_midpt' :=
  (find_midpt dir PartitionDistributed fr_left fr_right fr_SD ValidDirections).
#[local] Abbreviation DivideRegion' :=
  (DivideRegion dir PartitionDistributed fr_left fr_right fr_SD MyId
     DivideTest SelectCutDirection ValidDirections midpoint to_float).
#[local] Abbreviation divide_queue' :=
  (divide_queue dir PartitionDistributed fr_left fr_right fr_SD MyId
     DivideTest SelectCutDirection ValidDirections midpoint to_float).
#[local] Abbreviation BreadthFirstDivide' :=
  (BreadthFirstDivide dir PartitionDistributed fr_left fr_right fr_SD MyId
     DivideTest SelectCutDirection ValidDirections midpoint to_float).

Lemma DivideRegion_divided X t p L level tag X' t' midpt :
  DivideRegion' X t p L level tag = Some (X', t', midpt) →
  divided t p L t' midpt.
Proof.
  unfold DivideRegion, divided. intros H.
  destruct (subtree t p) as [s|] eqn:Hs; [|done]. cbn [mbind option_bind] in H.
  exists s. split; [done|]. cbv zeta in *.
  set (kd := root_node s) in *. set (n := NumberOfPoints kd) in *.
  destruct (DivideTest n level); cbn [negb] in H; [|left; by simplify_eq].
  destruct (Z.ltb_spec n 2) as [Hn|Hn].
  - destruct (WhoHas dir L) as [q|]; [|done]. cbn [mbind option_bind] in H.
    destruct (MyId =? q); cbn [negb] in H; [|left; by simplify_eq].
    destruct (window dir MyId) as [[s0 e0]|]; [|done]. cbn [mbind option_bind] in H.
    destruct (GetLocalVal s0 e0 L) as [vp|]; [|done]. cbn [mbind option_bind] in H.
    destruct (load s0 e0 X vp) as [val|]; [|done]. cbn [mbind option_bind] in H.
    injection H as <- <- <-. right. eexists _, _, _. split; [done|].
    split; [done|]. left. split_and!; done.
  - destruct (WhoHas dir L) as [p1|]; [|done]. cbn [mbind option_bind] in H.
    destruct (WhoHas dir (L + n - 1)) as [p2|]; [|done]. cbn [mbind option_bind] in H.
    destruct ((MyId <? p1) || (MyId >? p2)); [left; by simplify_eq|].
    destruct (find_midpt _ _ _ _ _ _ _ _ _ _ _ _) as [[[X1 d] m]|]; [|done].
    cbn [mbind option_bind] in H.
    destruct (GetDataBounds _ _ _ _ _ _ _ _ _) as [[lb rb]|]; [|done].
    cbn [mbind option_bind] in H.
    injection H as <- <- <-. right. eexists _, _, _. split; [done|].
    split; [done|]. right. split_and!; done.
Qed.

Lemma divided_counts t p L t' midpt :
  divided t p L t' midpt → counts_add_up t →
  counts_add_up t'
  ∧ NumberOfPoints (root_node t') = NumberOfPoints (root_node t).
Proof.
  intros (s & Hs & [[-> _]|(kd & l & r & -> & Hkd & Hlr)]) Ht; [done|].
  eapply set_subtree_counts; [done|done|done|].
  cbn. split; [|done]. destruct Hlr as [(?&?&?&?)|(?&?&?)]; lia.
Qed.

Lemma divide_queue_counts (fuel : nat) X t Queue X' t' :
  divide_queue' fuel X t Queue = Some (X', t') → counts_add_up t →
  counts_add_up t'
  ∧ NumberOfPoints (root_node t') = NumberOfPoints (root_node t).
Proof.
  revert X t Queue. induction fuel as [|fuel IH]; intros X t Queue H Ht; [done|].
  cbn [divide_queue] in H. destruct Queue as [|[[[kd L] level] tag] Queue].
  - by simplify_eq.
  - destruct (DivideRegion' X t kd L level tag) as [[[X1 t1] m]|] eqn:HD; [|done].
    cbn [mbind option_bind] in H.
    destruct (divided_counts _ _ _ _ _ (DivideRegion_divided _ _ _ _ _ _ _ _ _ HD) Ht)
      as [Ht1 Hn1].
    destruct (IH _ _ _ H Ht1) as [Ht' Hn']. split; [done|]. by rewrite Hn'.
Qed.

Lemma BreadthFirstDivide_counts (fuel : nat) X volBounds X' t' :
  BreadthFirstDivide' fuel X volBounds = Some (X', t') →
  counts_add_up t'
  ∧ NumberOfPoints (root_node t') = TotalNumCells dir.
Proof.
  unfold BreadthFirstDivide. cbv zeta. intros H.
  destruct (DivideRegion' X _ [] 0 0 1) as [[[X1 t1] m]|] eqn:HD; [|done].
  cbn [mbind option_bind] in H.
  destruct (divided_counts _ _ _ _ _ (DivideRegion_divided _ _ _ _ _ _ _ _ _ HD) I)
    as [Ht1 Hn1].
  destruct (divide_queue_counts _ _ _ _ _ _ H Ht1) as [Ht' Hn'].
  split; [done|]. by rewrite Hn', Hn1.
Qed.

(** *** The fallback for coincident points *)

Lemma permitted_after_ZDIM maxdim newdim :
  ZDIM ≤ newdim → permitted_after' maxdim newdim = [].
Proof.
  intros H. unfold permitted_after, XDIM, YDIM, ZDIM in *.
  rewrite !filter_cons_False by lia. done.
Qed.

Lemma permitted_after_step maxdim newdim :
  XDIM - 1 ≤ newdim → newdim < ZDIM →
  permitted_after' maxdim newdim
  = if (newdim + 1 =? maxdim)
       || (Z.land ValidDirections (Z.shiftl 1 (newdim + 1)) =? 0)
    then permitted_after' maxdim (newdim + 1)
    else (newdim + 1) :: permitted_after' maxdim (newdim + 1).
Proof.
  intros H1 H2. unfold XDIM, YDIM, ZDIM in *.
  assert (newdim + 1 = 0 ∨ newdim + 1 = 1 ∨ newdim + 1 = 2) as Hd by lia.
  set (d := newdim + 1) in *.
  replace newdim with (d - 1) by lia. clearbody d. clear H1 H2.
  unfold permitted_after, XDIM, YDIM, ZDIM.
  destruct (Z.eqb_spec d maxdim) as [Hm|Hm];
    destruct (Z.eqb_spec (Z.land ValidDirections (Z.shiftl 1 d)) 0) as [Hb|Hb];
    cbn [orb];
    destruct (decide (Z.land ValidDirections (Z.shiftl 1 0) = 0)),
             (decide (Z.land ValidDirections (Z.shiftl 1 1) = 0)),
             (decide (Z.land ValidDirections (Z.shiftl 1 2) = 0)),
             (decide (0 = maxdim)), (decide (1 = maxdim)), (decide (2 = maxdim));
    try lia;
    destruct Hd as [-> | [-> | ->]]; try lia; try done;
    repeat (first [rewrite filter_cons_True by (split_and!; (lia || done))
                  |rewrite filter_cons_False by (intros (?&?&?); (lia || done))]);
    rewrite ?filter_nil; done.
Qed.

Lemma next_dim_spec maxdim (fuel : nat) newdim :
  XDIM - 1 ≤ newdim → (Z.to_nat (ZDIM - newdim) < fuel)%nat →
  next_dim ValidDirections fuel maxdim newdim
  = Some (head (permitted_after' maxdim newdim)).
Proof.
  revert newdim. induction fuel as [|fuel IH]; intros newdim H1 Hfuel; [lia|].
  cbn [next_dim]. cbv zeta.
  destruct (Z.gtb_spec (newdim + 1) ZDIM) as [Hgt|Hle].
  - rewrite permitted_after_ZDIM by lia. done.
  - rewrite permitted_after_step by lia.
    destruct ((newdim + 1 =? maxdim) || _); [|done].
    apply IH; unfold XDIM, ZDIM in *; lia.
Qed.

Lemma permitted_after_head maxdim newdim d :
  XDIM - 1 ≤ newdim →
  head (permitted_after' maxdim newdim) = Some d →
  newdim < d ≤ ZDIM
  ∧ permitted_after' maxdim newdim = d :: permitted_after' maxdim d.
Proof.
  unfold XDIM, YDIM, ZDIM. intros H1 Hd.
  destruct (Z_le_gt_dec 2 newdim) as [Hge|Hlt].
  { by rewrite permitted_after_ZDIM in Hd. }
  assert (newdim = -1 ∨ newdim = 0 ∨ newdim = 1) as Hn by lia.
  revert Hd. unfold permitted_after, XDIM, YDIM, ZDIM.
  destruct (decide (Z.land ValidDirections (Z.shiftl 1 0) = 0)),
           (decide (Z.land ValidDirections (Z.shiftl 1 1) = 0)),
           (decide (Z.land ValidDirections (Z.shiftl 1 2) = 0)),
           (decide (0 = maxdim)), (decide (1 = maxdim)), (decide (2 = maxdim));
    try lia;
    destruct Hn as [-> | [-> | ->]];
    repeat (first [rewrite filter_cons_True by (split_and!; (lia || done))
                  |rewrite filter_cons_False by (intros (?&?&?); (lia || done))]);
    rewrite ?filter_nil; cbn [head]; intros Hd; simplify_eq;
    (split; [lia|]);
    repeat (first [rewrite filter_cons_True by (split_and!; (lia || done))
                  |rewrite filter_cons_False by (intros (?&?&?); (lia || done))]);
    rewrite ?filter_nil; done.
Qed.

Lemma other_dims_fail (fuel : nat) X p1 p2 L R maxdim newdim midpt X' :
  XDIM - 1 ≤ newdim → (Z.to_nat (ZDIM - newdim) < fuel)%nat →
  midpt < L + 1 →
  selects_fail' X p1 p2 L R (permitted_after' maxdim newdim) = Some X' →
  other_dims dir PartitionDistributed fr_left fr_right fr_SD ValidDirections
    fuel X p1 p2 L R maxdim newdim midpt
  = Some (X', maxdim, cdiv (L + R) 2 + 1).
Proof.
  revert X newdim midpt.
  induction fuel as [|fuel IH]; intros X newdim midpt H1 Hfuel Hm Hsel; [lia|].
  cbn [other_dims]. destruct (Z.ltb_spec midpt (L + 1)); [|lia].
  rewrite next_dim_spec by (unfold ZDIM, XDIM in *; lia).
  cbn [mbind option_bind].
  destruct (head (permitted_after' maxdim newdim)) as [d|] eqn:Hd.
  - destruct (permitted_after_head _ _ _ H1 Hd) as [Hdr Heq].
    rewrite Heq in Hsel. cbn [selects_fail] in Hsel.
    destruct (Select' X p1 p2 d L R) as [[X1 m]|]; [|done].
    cbn [mbind option_bind] in *.
    destruct (Z.ltb_spec m (L + 1)); [|done].
    apply IH; unfold ZDIM, XDIM in *; try lia. done.
  - destruct (permitted_after' maxdim newdim); [|done].
    cbn in Hsel. by simplify_eq.
Qed.

Lemma find_midpt_fail X p1 p2 L R maxdim X' :
  selects_fail' X p1 p2 L R (maxdim :: permitted_after' maxdim (XDIM - 1))
  = Some X' →
  find_midpt' X p1 p2 L R maxdim = Some (X', maxdim, cdiv (L + R) 2 + 1).
Proof.
  cbn [selects_fail]. unfold find_midpt. intros Hsel.
  destruct (Select' X p1 p2 maxdim L R) as [[X1 m]|]; [|done].
  cbn [mbind option_bind] in *.
  destruct (Z.ltb_spec m (L + 1)); [|done]. cbv zeta.
  apply other_dims_fail; unfold ZDIM, XDIM; try lia. done.
Qed.

End BuildFacts.

(** C4: a call of DivideRegion either leaves the tree alone and returns
    [-1], or gives the node of [n] points over [[L, L + n - 1]] two new
    leaves whose counts add up to [n]: [midpt - L] and [R - midpt + 1], or
    [n] and [0] when [n < 2]; so in the tree that BreadthFirstDivide
    builds the count of every divided node is the sum of its children's,
    and the counts of the leaves add up to [TotalNumCells]. *)
Theorem DivideRegion_counts dir PartitionDistributed fr_left fr_right fr_SD
    MyId DivideTest SelectCutDirection ValidDirections midpoint to_float :
  (∀ X t p L level tag X' t' midpt s,
     DivideRegion dir PartitionDistributed fr_left fr_right fr_SD MyId
       DivideTest SelectCutDirection ValidDirections midpoint to_float
       X t p L level tag = Some (X', t', midpt) →
     subtree t p = Some s →
     let n := NumberOfPoints (root_node s) in
     let R := L + n - 1 in
     (t' = t ∧ midpt = -1)
     ∨ ∃ kd left right,
         subtree t' p = Some (Split kd (Leaf left) (Leaf right))
         ∧ NumberOfPoints kd = n
         ∧ NumberOfPoints left + NumberOfPoints right = n
         ∧ (n < 2 → NumberOfPoints left = n ∧ NumberOfPoints right = 0)
         ∧ (2 ≤ n → NumberOfPoints left = midpt - L
                    ∧ NumberOfPoints right = R - midpt + 1))
  ∧ (∀ fuel X volBounds X' t',
       BreadthFirstDivide dir PartitionDistributed fr_left fr_right fr_SD MyId
         DivideTest SelectCutDirection ValidDirections midpoint to_float
         fuel X volBounds = Some (X', t') →
       counts_add_up t' ∧ leaf_points t' = TotalNumCells dir).
Proof.
  split.
  - intros X t p L level tag X' t' midpt s HD Hs n R.
    destruct (DivideRegion_divided _ _ _ _ _ _ _ _ _ _ _ _ _ _ _ _ _ _ _ _ HD)
      as (s' & Hs' & Hcases).
    assert (s' = s) as -> by congruence. cbv zeta in Hcases. fold n in Hcases.
    destruct Hcases as [?|(kd & l & r & -> & Hkd & Hlr)]; [by left|right].
    exists kd, l, r. split; [by eapply subtree_set_subtree|]. split; [done|].
    subst R. destruct Hlr as [(?&?&?&?)|(?&?&?)]; split_and!; lia.
  - intros fuel X volBounds X' t' HB.
    destruct (BreadthFirstDivide_counts _ _ _ _ _ _ _ _ _ _ _ _ _ _ _ _ HB)
      as [Hc Hn].
    split; [done|]. by rewrite leaf_points_root.
Qed.

Lemma DivideRegion_counts_witness :
  (∃ X' t' midpt kd left right,
     DivideRegion (BuildGlobalIndexLists [10]) no_redistribution
       no_sample no_sample no_sample 0 divide_from_four (λ _, XDIM) 7
       (λ a b, (a + b) / 2) (λ x, x)
       ten_points (Leaf (SetNumberOfPoints 10 new_node)) [] 0 0 1
     = Some (X', t', midpt)
     ∧ subtree t' [] = Some (Split kd (Leaf left) (Leaf right))
     ∧ NumberOfPoints left + NumberOfPoints right = 10)
  ∧ (∃ X' t',
       BreadthFirstDivide (BuildGlobalIndexLists [10]) no_redistribution
         no_sample no_sample no_sample 0 divide_from_four (λ _, XDIM) 7
         (λ a b, (a + b) / 2) (λ x, x) 20 ten_points (Vec3 1 2 3, Vec3 1 2 3)
       = Some (X', t')
       ∧ counts_add_up t' ∧ leaf_points t' = 10).
Proof.
  pose proof (DivideRegion_counts (BuildGlobalIndexLists [10]) no_redistribution
                no_sample no_sample no_sample 0 divide_from_four (λ _, XDIM) 7
                (λ a b, (a + b) / 2) (λ x, x)) as [HD HB].
  split.
  - destruct (DivideRegion (BuildGlobalIndexLists [10]) no_redistribution
                no_sample no_sample no_sample 0 divide_from_four (λ _, XDIM) 7
                (λ a b, (a + b) / 2) (λ x, x)
                ten_points (Leaf (SetNumberOfPoints 10 new_node)) [] 0 0 1)
      as [[[X' t'] midpt]|] eqn:Heq; [|vm_compute in Heq; discriminate].
    destruct (HD _ _ _ _ _ _ _ _ _ _ Heq eq_refl)
      as [[-> Hm]|(kd & l & r & Hs & _ & Hsum & _)].
    + vm_compute in Heq. injection Heq as _ _ <-. discriminate.
    + exists X', t', midpt, kd, l, r. split; [reflexivity|].
      split; [exact Hs|exact Hsum].
  - eexists _, _. split; [vm_compute; reflexivity|].
    eapply (HB 20%nat ten_points (Vec3 1 2 3, Vec3 1 2 3)).
    vm_compute. reflexivity.
Defined.

(** C6: when [Select] along the chosen direction and then along each of
    the other permitted directions returns an index below [L + 1],
    DivideRegion splits the node at [midpt = (L + R) / 2 + 1] along the
    chosen direction, and with two points or more each child gets at least
    one point. *)
Theorem DivideRegion_coincident_fallback dir PartitionDistributed
    fr_left fr_right fr_SD MyId DivideTest SelectCutDirection ValidDirections
    midpoint to_float
    (X : list point) (t : KdTree) (kd_ptr : node_ptr) (L level tag : Z)
    (s : KdTree) (p1 p2 : Z) (X1 : list point) bounds :
  subtree t kd_ptr = Some s →
  let kd := root_node s in
  let n := NumberOfPoints kd in
  let R := L + n - 1 in
  let maxdim := SelectCutDirection kd in
  let midpt := cdiv (L + R) 2 + 1 in
  DivideTest n level = true → 2 ≤ n → 0 ≤ L →
  WhoHas dir L = Some p1 → WhoHas dir R = Some p2 → p1 ≤ MyId ≤ p2 →
  selects_fail dir PartitionDistributed fr_left fr_right fr_SD
    X p1 p2 L R (maxdim :: permitted_after ValidDirections maxdim (XDIM - 1))
  = Some X1 →
  GetDataBounds dir to_float X1 (root_node t) p1 p2 L midpt R = Some bounds →
  ∃ t' left right,
    DivideRegion dir PartitionDistributed fr_left fr_right fr_SD MyId
      DivideTest SelectCutDirection ValidDirections midpoint to_float
      X t kd_ptr L level tag = Some (X1, t', midpt)
    ∧ subtree t' kd_ptr = Some (Split (SetDim maxdim kd) (Leaf left) (Leaf right))
    ∧ NumberOfPoints left = midpt - L
    ∧ NumberOfPoints right = R - midpt + 1
    ∧ 1 ≤ NumberOfPoints left ∧ 1 ≤ NumberOfPoints right.
Proof.
  intros Hs kd n R maxdim midpt HDT Hn HL Hp1 Hp2 HMy Hsel HGB.
  unfold DivideRegion. rewrite Hs. cbn [mbind option_bind]. cbv zeta.
  fold kd n. rewrite HDT. cbn [negb].
  destruct (Z.ltb_spec n 2); [lia|].
  rewrite Hp1. cbn [mbind option_bind]. fold R. rewrite Hp2. cbn [mbind option_bind].
  destruct (Z.ltb_spec MyId p1); [lia|]. destruct (Z.gtb_spec MyId p2); [lia|].
  cbn [orb]. fold maxdim.
  rewrite (find_midpt_fail _ _ _ _ _ _ _ _ _ _ _ _ _ Hsel).
  cbn [mbind option_bind]. fold midpt. rewrite HGB. cbn [mbind option_bind].
  destruct bounds as [lb rb].
  eexists _, _, _. split; [reflexivity|].
  split; [by eapply subtree_set_subtree|].
  assert (L < midpt ≤ R) as Hm.
  { subst midpt. replace (L + R) with (R + L) by lia.
    apply target_in_range; lia. }
  cbn. lia.
Qed.

Lemma DivideRegion_coincident_fallback_witness :
  ∃ t' left right,
    DivideRegion (BuildGlobalIndexLists [10]) no_redistribution
      no_sample no_sample no_sample 0 divide_from_four (λ _, XDIM) 7
      (λ a b, (a + b) / 2) (λ x, x)
      ten_points (Leaf (SetNumberOfPoints 10 new_node)) [] 0 0 1
    = Some (ten_points, t', 5)
    ∧ subtree t' [] = Some (Split (SetDim XDIM (SetNumberOfPoints 10 new_node))
                              (Leaf left) (Leaf right))
    ∧ NumberOfPoints left = 5 ∧ NumberOfPoints right = 5.
Proof.
  destruct (DivideRegion_coincident_fallback (BuildGlobalIndexLists [10])
              no_redistribution no_sample no_sample no_sample 0 divide_from_four
              (λ _, XDIM) 7 (λ a b, (a + b) / 2) (λ x, x)
              ten_points (Leaf (SetNumberOfPoints 10 new_node)) [] 0 0 1
              (Leaf (SetNumberOfPoints 10 new_node)) 0 0 ten_points
              ((Vec3 1 2 3, Vec3 1 2 3), (Vec3 1 2 3, Vec3 1 2 3)))
    as (t' & l & r & HD & Hs & Hl & Hr & _).
  - reflexivity.
  - reflexivity.
  - vm_compute. discriminate.
  - lia.
  - reflexivity.
  - reflexivity.
  - lia.
  - vm_compute. reflexivity.
  - vm_compute. reflexivity.
  - exists t', l, r. split; [exact HD|]. split; [exact Hs|]. split; [exact Hl|exact Hr].
Defined.

(** ** Packing and unpacking a node *)

Lemma int_of_double_of_int (i : Z) : int_of_double (double_of_int i) = i.
Proof.
  unfold int_of_double, double_of_int. apply Z.quot_mul.
  unfold double_unit. apply Z.pow_nonzero; lia.
Qed.

Lemma vec3_eta (v : vec3) : Vec3 (c0 v) (c1 v) (c2 v) = v.
Proof. by destruct v. Qed.

(** C10: unpacking what PackData produced for [kd] into any node that has
    children restores the split dimension of [kd], the numbers of points of
    both children, their region bounds and their data bounds. *)
Theorem PackData_UnpackData_roundtrip (n : KdNode) (l r : KdTree)
    (n' : KdNode) (l' r' : KdTree) :
  ∃ data n2 l2 r2,
    PackData (Split n l r) = Some data
    ∧ length data = 27%nat
    ∧ UnpackData (Split n' l' r') data = Some (Split n2 l2 r2)
    ∧ Dim n2 = Dim n
    ∧ NumberOfPoints (root_node l2) = NumberOfPoints (root_node l)
    ∧ NumberOfPoints (root_node r2) = NumberOfPoints (root_node r)
    ∧ Min (root_node l2) = Min (root_node l)
    ∧ Max (root_node l2) = Max (root_node l)
    ∧ Min (root_node r2) = Min (root_node r)
    ∧ Max (root_node r2) = Max (root_node r)
    ∧ MinVal (root_node l2) = MinVal (root_node l)
    ∧ MaxVal (root_node l2) = MaxVal (root_node l)
    ∧ MinVal (root_node r2) = MinVal (root_node r)
    ∧ MaxVal (root_node r2) = MaxVal (root_node r).
Proof.
  eexists _, _, _, _. split; [reflexivity|]. split; [reflexivity|].
  split; [reflexivity|].
  cbn -[int_of_double double_of_int].
  rewrite !int_of_double_of_int.
  destruct l' as [kl|kl ? ?], r' as [kr|kr ? ?];
    cbn -[int_of_double double_of_int];
    rewrite ?vec3_eta; split_and!; reflexivity.
Qed.

(** ** Boundary reconciliation *)

Lemma vset_vget (v : vec3) (d : Z) : vset v d (vget v d) = v.
Proof. unfold vset, vget. destruct v. by repeat case_match. Qed.

Lemma vget_vset (v : vec3) (d e x : Z) :
  0 ≤ d ≤ 2 → 0 ≤ e ≤ 2 →
  vget (vset v d x) e = if e =? d then x else vget v e.
Proof.
  intros Hd He. unfold vset, vget.
  repeat (case_match; simpl); try lia; done.
Qed.

(** A guarded assignment [if ((a - b) != 0.0) a = b] leaves [b] in [a]. *)
Lemma guarded_assign (a b : Z) {A} (x y : A) :
  (a = b → x = y) → (if negb (a - b =? 0) then y else x) = y.
Proof. intros H. destruct (Z.eqb_spec (a - b) 0); simpl; [apply H; lia|done]. Qed.

Lemma Min_SetMinBounds v kd : Min (SetMinBounds v kd) = v.
Proof. unfold SetMinBounds. simpl. apply vec3_eta. Qed.
Lemma Max_SetMinBounds v kd : Max (SetMinBounds v kd) = Max kd.
Proof. unfold SetMinBounds. simpl. apply vec3_eta. Qed.
Lemma Min_SetMaxBounds v kd : Min (SetMaxBounds v kd) = Min kd.
Proof. unfold SetMaxBounds. simpl. apply vec3_eta. Qed.
Lemma Max_SetMaxBounds v kd : Max (SetMaxBounds v kd) = v.
Proof. unfold SetMaxBounds. simpl. apply vec3_eta. Qed.

Lemma SetMinBounds_id kd : SetMinBounds (Min kd) kd = kd.
Proof. unfold SetMinBounds, SetBounds. destruct kd; simpl. by rewrite !vec3_eta. Qed.
Lemma SetMaxBounds_id kd : SetMaxBounds (Max kd) kd = kd.
Proof. unfold SetMaxBounds, SetBounds. destruct kd; simpl. by rewrite !vec3_eta. Qed.

Lemma assign_min (kd : KdNode) (d b : Z) :
  (if negb (vget (Min kd) d - b =? 0)
   then SetMinBounds (vset (Min kd) d b) kd else kd)
  = SetMinBounds (vset (Min kd) d b) kd.
Proof.
  apply guarded_assign. intros <-. by rewrite vset_vget, SetMinBounds_id.
Qed.

Lemma assign_max (kd : KdNode) (d b : Z) :
  (if negb (vget (Max kd) d - b =? 0)
   then SetMaxBounds (vset (Max kd) d b) kd else kd)
  = SetMaxBounds (vset (Max kd) d b) kd.
Proof.
  apply guarded_assign. intros <-. by rewrite vset_vget, SetMaxBounds_id.
Qed.

(** One turn of the loop, as assignments. *)
Lemma fix_dim_eq nextDim kd lr dim :
  fix_dim nextDim kd lr dim
  = let l := lr.1 in
    let r := lr.2 in
    let l1 := SetMinBounds (vset (Min l) dim (vget (Min kd) dim)) l in
    let r1 := SetMaxBounds (vset (Max r) dim (vget (Max kd) dim)) r in
    if dim =? nextDim
    then (SetMaxBounds (vset (Max l1) dim (vget (Min r1) dim)) l1, r1)
    else (SetMaxBounds (vset (Max l1) dim (vget (Max kd) dim)) l1,
          SetMinBounds (vset (Min r1) dim (vget (Min kd) dim)) r1).
Proof.
  unfold fix_dim. cbv zeta.
  rewrite (assign_min lr.1), (assign_max lr.2).
  destruct (dim =? nextDim); cbn [negb].
  - by rewrite assign_max.
  - by rewrite assign_max, assign_min.
Qed.

Lemma fix_dims_agree kd l r :
  let lr := foldl (fix_dim (Dim kd) kd) (l, r) [0; 1; 2] in
  children_agree kd lr.1 lr.2.
Proof.
  cbn [foldl]. rewrite !fix_dim_eq. cbv zeta.
  intros dim Hdim.
  assert (dim = 0 ∨ dim = 1 ∨ dim = 2) as [-> | [-> | ->]] by lia;
    destruct (Z.eqb_spec 0 (Dim kd)), (Z.eqb_spec 1 (Dim kd)),
             (Z.eqb_spec 2 (Dim kd)); try lia;
    cbn [fst snd];
    rewrite ?Min_SetMinBounds, ?Max_SetMinBounds, ?Min_SetMaxBounds,
            ?Max_SetMaxBounds;
    repeat (rewrite ?Min_SetMinBounds, ?Max_SetMinBounds, ?Min_SetMaxBounds,
                    ?Max_SetMaxBounds, ?vget_vset by lia; cbn [Z.eqb Pos.eqb]);
    split_and!; try done; try lia; intros; try lia; done.
Qed.

Lemma root_node_CheckFix_from kd t : root_node (CheckFix_from kd t) = kd.
Proof. by destruct t. Qed.

Lemma CheckFix_from_fixed kd t : boundaries_fixed (CheckFix_from kd t).
Proof.
  revert kd. induction t as [n|n l IHl r IHr]; intros kd; [done|].
  cbn [CheckFix_from boundaries_fixed]. rewrite !root_node_CheckFix_from.
  split; [apply fix_dims_agree|]. split; [apply IHl|apply IHr].
Qed.

(** ** Round-robin assignment *)

Lemma owned_S P p n :
  owned P p (S n)
  = owned P p n ++ (if decide (Z.of_nat n mod P = p) then [Z.of_nat n] else []).
Proof.
  unfold owned. by rewrite seqZ_S, filter_app.
Qed.

Lemma owned_length_le P p n m :
  (n ≤ m)%nat → (length (owned P p n) ≤ length (owned P p m))%nat.
Proof.
  induction 1 as [|m _ IH]; [done|].
  rewrite owned_S, length_app. lia.
Qed.

Lemma elem_of_owned P p n r :
  r ∈ owned P p n ↔ 0 ≤ r < Z.of_nat n ∧ r mod P = p.
Proof.
  unfold owned. rewrite list_elem_of_filter, elem_of_seqZ.
  split; intros [? ?]; split; done || lia.
Qed.

Lemma owned_sorted P p n : StronglySorted Z.lt (owned P p n).
Proof.
  induction n as [|n IH]; [constructor|].
  rewrite owned_S. case_decide; [|by rewrite app_nil_r].
  apply StronglySorted_app_2; [|done|repeat constructor].
  intros x y [Hx _]%elem_of_owned ->%list_elem_of_singleton. lia.
Qed.

Section RoundRobin.

Variable P : Z.
Hypothesis P_pos : 0 < P.

(** The state of the first loop after [n] turns. *)
Lemma round_robin_loop (R n : nat) :
  (n ≤ R)%nat →
  ∃ assigned,
    foldl (round_robin_step P) (replicate R 0, replicate (Z.to_nat P) 0, 0)
          (seq 0 n)
    = (((λ r, r mod P) <$> seqZ 0 (Z.of_nat n)) ++ replicate (R - n) 0,
       assigned, Z.of_nat n mod P)
    ∧ length assigned = Z.to_nat P
    ∧ ∀ p, 0 ≤ p < P →
        assigned !! Z.to_nat p = Some (Z.of_nat (length (owned P p n))).
Proof.
  induction n as [|n IH]; intros Hn.
  - exists (replicate (Z.to_nat P) 0). split; [|split].
    + cbn [seq foldl]. rewrite Nat.sub_0_r. cbn. by rewrite Z.mod_0_l by lia.
    + by rewrite length_replicate.
    + intros p Hp. rewrite lookup_replicate_2 by lia. done.
  - destruct IH as (assigned & Heq & Hlen & Hasg); [lia|].
    rewrite seq_S, foldl_app, Heq. cbn [foldl round_robin_step].
    eexists. split; [|split].
    + f_equal; [f_equal|].
      * rewrite seqZ_S, fmap_app, <-app_assoc. cbn [fmap list_fmap].
        rewrite Z.add_0_l.
        replace (R - n)%nat with (S (R - S n)) by lia. cbn [replicate].
        rewrite insert_app_r_alt; rewrite length_fmap, length_seqZ; [|lia].
        replace (0 + n - Z.to_nat (Z.of_nat n))%nat with 0%nat by lia.
        done.
      * destruct (Z.eqb_spec (Z.of_nat n mod P) (P - 1)) as [Heq'|Hne].
        -- replace (Z.of_nat (S n)) with (Z.of_nat n + 1) by lia.
           rewrite <-Zplus_mod_idemp_l, Heq'.
           replace (P - 1 + 1) with P by lia. by rewrite Z_mod_same_full.
        -- replace (Z.of_nat (S n)) with (Z.of_nat n + 1) by lia.
           rewrite <-Zplus_mod_idemp_l.
           pose proof (Z.mod_pos_bound (Z.of_nat n) P P_pos).
           symmetry. apply Z.mod_small. lia.
    + by rewrite length_insert.
    + intros p Hp. pose proof (Z.mod_pos_bound (Z.of_nat n) P P_pos).
      rewrite owned_S, length_app.
      destruct (decide (Z.of_nat n mod P = p)) as [<-|Hne].
      * rewrite list_lookup_insert_eq by lia.
        rewrite list_lookup_total_alt, Hasg by lia. cbn. f_equal. lia.
      * rewrite list_lookup_insert_ne by lia.
        rewrite Hasg by lia. cbn. f_equal. lia.
Qed.

(** The state of the loop of BuildRegionListsForProcesses after [n]
    turns: the list of [p] holds its regions below [n], then zeros. *)
Lemma region_list_loop (map : list Z) (lists0 : list (list Z)) (R n : nat) :
  (∀ r, (r < R)%nat → map !! r = Some (Z.of_nat r mod P)) →
  length lists0 = Z.to_nat P →
  (∀ p, 0 ≤ p < P →
     lists0 !! Z.to_nat p = Some (replicate (length (owned P p R)) 0)) →
  (n ≤ R)%nat →
  ∃ lists count,
    foldl (region_list_step map) (lists0, replicate (Z.to_nat P) 0) (seq 0 n)
    = (lists, count)
    ∧ length lists = Z.to_nat P ∧ length count = Z.to_nat P
    ∧ ∀ p, 0 ≤ p < P →
        count !! Z.to_nat p = Some (Z.of_nat (length (owned P p n)))
        ∧ lists !! Z.to_nat p
          = Some (owned P p n
                  ++ replicate (length (owned P p R) - length (owned P p n)) 0).
Proof.
  intros Hmap Hlen0 Hlists0. induction n as [|n IH]; intros Hn.
  - eexists _, _. split; [reflexivity|]. split; [done|].
    split; [by rewrite length_replicate|].
    intros p Hp. split; [by rewrite lookup_replicate_2 by lia|].
    rewrite Hlists0 by done. cbn. by rewrite Nat.sub_0_r.
  - destruct IH as (lists & count & Heq & Hlen & Hlenc & Hinv); [lia|].
    rewrite seq_S, foldl_app, Heq. cbn [foldl region_list_step].
    pose proof (Z.mod_pos_bound (Z.of_nat n) P P_pos) as Hq.
    set (q := Z.of_nat n mod P) in *.
    assert (map !!! (0 + n)%nat = q) as ->.
    { apply list_lookup_total_correct, Hmap. lia. }
    destruct (Hinv q Hq) as [Hcq Hlq].
    rewrite (list_lookup_total_correct _ _ _ Hcq),
            (list_lookup_total_correct _ _ _ Hlq).
    eexists _, _. split; [reflexivity|].
    split; [by rewrite length_insert|]. split; [by rewrite length_insert|].
    intros p Hp. destruct (Hinv p Hp) as [Hcp Hlp].
    rewrite owned_S. destruct (decide (q = p)) as [<-|Hne].
    + rewrite !list_lookup_insert_eq by lia.
      rewrite decide_True by done.
      rewrite length_app. cbn [length]. split; [f_equal; lia|]. f_equal.
      pose proof (owned_length_le P q (S n) R Hn) as Hle.
      rewrite owned_S, decide_True, length_app in Hle by done.
      cbn [length] in Hle.
      replace (length (owned P q R) - length (owned P q n))%nat
        with (S (length (owned P q R) - (length (owned P q n) + 1))) by lia.
      cbn [replicate]. rewrite Nat2Z.id.
      rewrite insert_app_r_alt by lia. rewrite Nat.sub_diag. cbn [insert list_insert].
      by rewrite <-app_assoc.
    + rewrite !list_lookup_insert_ne by lia.
      rewrite decide_False by done. rewrite app_nil_r. done.
Qed.

End RoundRobin.

(** C8: round-robin gives region [r] to process [r mod P], and the list
    of process [p] enumerates the regions [r < R] with [r mod P = p] in
    increasing order. *)
Theorem AssignRegionsRoundRobin_assigns (t : PKdTree) (top : KdTree) :
  Top t = Some top → 0 < NumProcs t → 0 ≤ NumberOfRegions t →
  let t' := AssignRegionsRoundRobin t in
  let P := NumProcs t in
  let R := NumberOfRegions t in
  length (RegionAssignmentMap t') = Z.to_nat R
  ∧ (∀ r, 0 ≤ r < R → RegionAssignmentMap t' !! Z.to_nat r = Some (r mod P))
  ∧ (∀ p, 0 ≤ p < P →
       let regions := filter (λ r, r mod P = p) (seqZ 0 R) in
       ProcessAssignmentMap t' !! Z.to_nat p = Some regions
       ∧ NumRegionsAssigned t' !! Z.to_nat p = Some (Z.of_nat (length regions))
       ∧ StronglySorted Z.lt regions
       ∧ (∀ r, r ∈ regions ↔ 0 ≤ r < R ∧ r mod P = p)).
Proof.
  intros HTop HP HR. cbv zeta.
  unfold AssignRegionsRoundRobin. cbn [Top set_RegionAssignment]. rewrite HTop.
  cbn [AllocateAndZeroRegionAssignmentLists set_assignment_lists NumProcs
       NumberOfRegions RegionAssignmentMap NumRegionsAssigned
       ProcessAssignmentMap set_RegionAssignment].
  unfold zeros.
  destruct (round_robin_loop (NumProcs t) HP (Z.to_nat (NumberOfRegions t))
              (Z.to_nat (NumberOfRegions t)))
    as (assigned & -> & Hlen & Hasg); [done|].
  rewrite Nat.sub_diag, app_nil_r, Z2Nat.id by done.
  unfold BuildRegionListsForProcesses.
  cbn [AllocateAndZeroRegionAssignmentLists set_assignment_lists NumProcs
       NumberOfRegions RegionAssignmentMap NumRegionsAssigned
       ProcessAssignmentMap set_RegionAssignment].
  rewrite length_fmap, length_seqZ. unfold zeros.
  set (P := NumProcs t) in *. set (R := NumberOfRegions t) in *.
  destruct (region_list_loop P HP ((λ r, r mod P) <$> seqZ 0 R)
              (imap (λ p l, resize (assigned !!! p) l)
                    (replicate (Z.to_nat P) []))
              (Z.to_nat R) (Z.to_nat R))
    as (lists & count & -> & Hll & Hlc & Hinv).
  - intros r Hr. rewrite list_lookup_fmap, lookup_seqZ_lt by lia. done.
  - by rewrite length_imap, length_replicate.
  - intros p Hp. rewrite list_lookup_imap, lookup_replicate_2 by lia.
    cbn. f_equal. unfold resize.
    rewrite (list_lookup_total_correct _ _ _ (Hasg p Hp)).
    rewrite take_nil. cbn. by rewrite Nat2Z.id, Nat.sub_0_r.
  - done.
  - cbn [set_assignment_lists NumProcs NumberOfRegions RegionAssignmentMap
         NumRegionsAssigned ProcessAssignmentMap].
    split; [by rewrite length_fmap, length_seqZ|]. split.
    + intros r Hr. rewrite list_lookup_fmap, lookup_seqZ_lt by lia.
      cbn. do 2 f_equal. lia.
    + intros p Hp. destruct (Hinv p Hp) as [_ Hl]. specialize (Hasg p Hp).
      rewrite Nat.sub_diag, app_nil_r in Hl.
      unfold owned in Hl, Hasg. rewrite Z2Nat.id in Hl, Hasg by done.
      split; [done|]. split; [done|]. split.
      * pose proof (owned_sorted P p (Z.to_nat R)) as Hs.
        unfold owned in Hs. by rewrite Z2Nat.id in Hs.
      * intros r. pose proof (elem_of_owned P p (Z.to_nat R) r) as He.
        unfold owned in He. rewrite Z2Nat.id in He by done.
        rewrite He. lia.
Qed.

(** With four processes and sixteen regions the list of process 2 is
    [2; 6; 10; 14]. *)
Lemma AssignRegionsRoundRobin_assigns_witness :
  ProcessAssignmentMap (AssignRegionsRoundRobin (built_tree 4 16)) !! 2%nat
  = Some [2; 6; 10; 14].
Proof.
  pose proof (AssignRegionsRoundRobin_assigns (built_tree 4 16) (Leaf new_node)
                eq_refl ltac:(simpl; lia) ltac:(simpl; lia)) as H.
  cbv zeta in H. destruct H as (_ & _ & H).
  destruct (H 2 ltac:(simpl; lia)) as [H2 _]. exact H2.
Defined.

(** ** Queries on a tree that has not been built *)

Section QueryFacts.

Variable GetRegionsAtLevel : KdTree → Z → list KdTree.
Variable GetLeafNodeIds : KdTree → list Z.

#[local] Abbreviation Update :=
  (UpdateRegionAssignment GetRegionsAtLevel GetLeafNodeIds).
#[local] Abbreviation AssignmentList :=
  (GetRegionAssignmentList GetRegionsAtLevel GetLeafNodeIds).

(** Without a tree UpdateRegionAssignment only stores the assignment
    mode that it found. *)
Lemma UpdateRegionAssignment_unbuilt (t : PKdTree) :
  Top t = None → Update t = t.
Proof.
  intros HTop. unfold UpdateRegionAssignment.
  destruct t as [top nr np mode map asg lists loc]; simpl in *; subst top.
  destruct mode; try done.
Qed.

(** C9: the queries answer with their sentinels, and build nothing, when
    the lookup tables are empty (no tree has been built) and when the
    region or process id is out of range. *)
Theorem queries_return_sentinels (t : PKdTree) (processId regionId : Z)
    (list : list Z) :
  ((RegionAssignmentMap t = [] ∨ regionId < 0 ∨ NumberOfRegions t ≤ regionId) →
     GetProcessAssignedToRegion t regionId = -1)
  ∧ ((DataLocationMap t = [] ∨ processId < 0 ∨ NumProcs t ≤ processId
      ∨ regionId < 0 ∨ NumberOfRegions t ≤ regionId) →
     HasData t processId regionId = 0)
  ∧ ((processId < 0 ∨ NumProcs t ≤ processId
      ∨ (Top t = None ∧ RegionAssignmentMap t = [])) →
     AssignmentList t processId list = (t, 0, list)).
Proof.
  split_and!.
  - intros H. unfold GetProcessAssignedToRegion.
    destruct (bool_decide_reflect (RegionAssignmentMap t = [])); [done|].
    destruct (Z.ltb_spec regionId 0); [done|].
    destruct (Z.geb_spec regionId (NumberOfRegions t)); [done|].
    destruct H as [?|[?|?]]; [done|lia|lia].
  - intros H. unfold HasData.
    destruct (bool_decide_reflect (DataLocationMap t = [])); [done|].
    destruct (Z.ltb_spec processId 0); [done|].
    destruct (Z.geb_spec processId (NumProcs t)); [done|].
    destruct (Z.ltb_spec regionId 0); [done|].
    destruct (Z.geb_spec regionId (NumberOfRegions t)); [done|].
    destruct H as [?|[?|[?|[?|?]]]]; [done|lia..].
  - intros H. unfold GetRegionAssignmentList.
    destruct (Z.ltb_spec processId 0); [done|].
    destruct (Z.geb_spec processId (NumProcs t)); [done|].
    destruct H as [?|[?|[HTop Hmap]]]; try lia.
    simpl. rewrite !(bool_decide_eq_true_2 (RegionAssignmentMap t = [])) by done.
    rewrite UpdateRegionAssignment_unbuilt by done.
    by rewrite bool_decide_eq_true_2.
Qed.

End QueryFacts.

Lemma queries_return_sentinels_witness :
  GetProcessAssignedToRegion unbuilt_tree 0 = -1
  ∧ HasData unbuilt_tree 1 0 = 0
  ∧ GetRegionAssignmentList (λ _ _, []) (λ _, []) unbuilt_tree 1 []
    = (unbuilt_tree, 0, []).
Proof.
  destruct (queries_return_sentinels (λ _ _, []) (λ _, []) unbuilt_tree 1 0 [])
    as (H1 & H2 & H3).
  split; [apply H1; left; reflexivity|].
  split; [apply H2; left; reflexivity|].
  apply H3. right. right. split; reflexivity.
Defined.

(** ** User-defined assignment *)

Lemma regions_of_S map p n :
  regions_of map p (S n)
  = regions_of map p n
    ++ (if decide (map !! n = Some p) then [Z.of_nat n] else []).
Proof.
  unfold regions_of. rewrite seqZ_S, filter_app. f_equal.
  rewrite Z.add_0_l. cbn [filter list_filter]. rewrite Nat2Z.id.
  by destruct (decide (map !! n = Some p)).
Qed.

Lemma regions_of_length_le map p n m :
  (n ≤ m)%nat → (length (regions_of map p n) ≤ length (regions_of map p m))%nat.
Proof.
  induction 1 as [|m _ IH]; [done|].
  rewrite regions_of_S, length_app. lia.
Qed.

Lemma elem_of_regions_of map p n r :
  r ∈ regions_of map p n ↔ 0 ≤ r < Z.of_nat n ∧ map !! Z.to_nat r = Some p.
Proof.
  unfold regions_of. rewrite list_elem_of_filter, elem_of_seqZ.
  split; intros [? ?]; split; done || lia.
Qed.

Lemma regions_of_sorted map p n : StronglySorted Z.lt (regions_of map p n).
Proof.
  induction n as [|n IH]; [constructor|].
  rewrite regions_of_S. case_decide; [|by rewrite app_nil_r].
  apply StronglySorted_app_2; [|done|repeat constructor].
  intros x y [Hx _]%elem_of_regions_of ->%list_elem_of_singleton. lia.
Qed.

(** The first loop of AssignRegions on a map of process ids. *)
Lemma assign_loop_spec (P : Z) (map : list Z) (k n : nat)
    (regionMap assigned : list Z) :
  valid_map P map → (n + k = length map)%nat →
  length regionMap = length map → take n regionMap = take n map →
  length assigned = Z.to_nat P →
  (∀ p, 0 ≤ p < P →
     assigned !! Z.to_nat p = Some (Z.of_nat (length (regions_of map p n)))) →
  ∃ assigned',
    assign_loop P (drop n map) n regionMap assigned = Some (map, assigned')
    ∧ length assigned' = Z.to_nat P
    ∧ ∀ p, 0 ≤ p < P →
        assigned' !! Z.to_nat p
        = Some (Z.of_nat (length (regions_of map p (length map)))).
Proof.
  intros Hvalid. revert n regionMap assigned.
  induction k as [|k IH]; intros n regionMap assigned Hn Hlen Htake Hla Hasg.
  - rewrite drop_ge by lia. cbn. exists assigned.
    replace n with (length map) in * by lia.
    rewrite <-Hlen, firstn_all in Htake at 1. rewrite firstn_all in Htake.
    by subst.
  - destruct (lookup_lt_is_Some_2 map n) as [m Hm]; [lia|].
    rewrite (drop_S _ _ _ Hm). cbn [assign_loop].
    pose proof (Forall_lookup_1 _ _ _ _ Hvalid Hm) as Hmr. cbn in Hmr.
    destruct (Z.ltb_spec m 0); [lia|]. destruct (Z.geb_spec m P); [lia|].
    cbn [orb]. apply IH.
    + lia.
    + by rewrite length_insert.
    + rewrite (take_S_r _ _ _ Hm).
      rewrite (take_S_r _ _ m).
      * f_equal. rewrite take_insert_ge by lia. done.
      * apply list_lookup_insert_eq. lia.
    + by rewrite length_insert.
    + intros p Hp. rewrite regions_of_S, length_app.
      destruct (decide (m = p)) as [->|Hne].
      * rewrite list_lookup_insert_eq by lia.
        rewrite (list_lookup_total_correct _ _ _ (Hasg p Hp)).
        rewrite decide_True by done. cbn. f_equal. lia.
      * rewrite list_lookup_insert_ne by lia. rewrite Hasg by done.
        rewrite decide_False by congruence. cbn. f_equal. lia.
Qed.

(** The loop stops at an entry that is no process id. *)
Lemma assign_loop_None (P : Z) (map : list Z) (i : nat)
    (regionMap assigned : list Z) :
  assign_loop P map i regionMap assigned = None
  ↔ Exists (λ m, m < 0 ∨ P ≤ m) map.
Proof.
  revert i regionMap assigned.
  induction map as [|m map IH]; intros i regionMap assigned; cbn [assign_loop].
  - split; [done|]. by intros ?%Exists_nil.
  - rewrite Exists_cons.
    destruct (Z.ltb_spec m 0); [split; [left; lia|done]|].
    destruct (Z.geb_spec m P); cbn [orb]; [split; [left; lia|done]|].
    rewrite IH. split; [by right|]. intros [?|?]; [lia|done].
Qed.

(** The loop of BuildRegionListsForProcesses after [n] turns. *)
Lemma build_lists_loop (P : Z) (map : list Z) (lists0 : list (list Z)) (n : nat) :
  valid_map P map →
  length lists0 = Z.to_nat P →
  (∀ p, 0 ≤ p < P →
     lists0 !! Z.to_nat p
     = Some (replicate (length (regions_of map p (length map))) 0)) →
  (n ≤ length map)%nat →
  ∃ lists count,
    foldl (region_list_step map) (lists0, replicate (Z.to_nat P) 0) (seq 0 n)
    = (lists, count)
    ∧ length lists = Z.to_nat P ∧ length count = Z.to_nat P
    ∧ ∀ p, 0 ≤ p < P →
        count !! Z.to_nat p = Some (Z.of_nat (length (regions_of map p n)))
        ∧ lists !! Z.to_nat p
          = Some (regions_of map p n
                  ++ replicate (length (regions_of map p (length map))
                                - length (regions_of map p n)) 0).
Proof.
  intros Hvalid Hlen0 Hlists0. induction n as [|n IH]; intros Hn.
  - eexists _, _. split; [reflexivity|]. split; [done|].
    split; [by rewrite length_replicate|].
    intros p Hp. split; [by rewrite lookup_replicate_2 by lia|].
    rewrite Hlists0 by done. cbn. by rewrite Nat.sub_0_r.
  - destruct IH as (lists & count & Heq & Hlen & Hlenc & Hinv); [lia|].
    rewrite seq_S, foldl_app, Heq. cbn [foldl region_list_step].
    destruct (lookup_lt_is_Some_2 map n) as [q Hq]; [lia|].
    pose proof (Forall_lookup_1 _ _ _ _ Hvalid Hq) as Hqr. cbn in Hqr.
    rewrite Nat.add_0_l, (list_lookup_total_correct _ _ _ Hq).
    destruct (Hinv q Hqr) as [Hcq Hlq].
    rewrite (list_lookup_total_correct _ _ _ Hcq),
            (list_lookup_total_correct _ _ _ Hlq).
    eexists _, _. split; [reflexivity|].
    split; [by rewrite length_insert|]. split; [by rewrite length_insert|].
    intros p Hp. destruct (Hinv p Hp) as [Hcp Hlp].
    rewrite regions_of_S. destruct (decide (q = p)) as [<-|Hne].
    + rewrite !list_lookup_insert_eq by lia.
      rewrite decide_True by done.
      rewrite length_app. cbn [length]. split; [f_equal; lia|]. f_equal.
      pose proof (regions_of_length_le map q (S n) (length map) Hn) as Hle.
      rewrite regions_of_S, decide_True, length_app in Hle by done.
      cbn [length] in Hle.
      replace (length (regions_of map q (length map))
               - length (regions_of map q n))%nat
        with (S (length (regions_of map q (length map))
                 - (length (regions_of map q n) + 1))) by lia.
      cbn [replicate]. rewrite Nat2Z.id.
      rewrite insert_app_r_alt by lia. rewrite Nat.sub_diag.
      cbn [insert list_insert]. by rewrite <-app_assoc.
    + rewrite !list_lookup_insert_ne by lia.
      rewrite decide_False by congruence. rewrite app_nil_r. done.
Qed.

(** The tables that AssignRegions builds from a map of process ids. *)
Lemma AssignRegions_tables (t : PKdTree) (map : list Z) :
  0 ≤ NumProcs t → 0 ≤ NumberOfRegions t → valid_map (NumProcs t) map →
  let t' := (AssignRegions t map).1 in
  (AssignRegions t map).2 = 0
  ∧ RegionAssignment t' = UserDefinedAssignment
  ∧ RegionAssignmentMap t' = map
  ∧ NumProcs t' = NumProcs t ∧ NumberOfRegions t' = NumberOfRegions t
  ∧ Top t' = Top t ∧ DataLocationMap t' = DataLocationMap t
  ∧ ∀ p, 0 ≤ p < NumProcs t →
      ProcessAssignmentMap t' !! Z.to_nat p
      = Some (regions_of map p (length map))
      ∧ NumRegionsAssigned t' !! Z.to_nat p
        = Some (Z.of_nat (length (regions_of map p (length map)))).
Proof.
  intros HP HR Hvalid. cbv zeta. unfold AssignRegions. cbv zeta.
  cbn [AllocateAndZeroRegionAssignmentLists set_assignment_lists NumProcs
       NumberOfRegions RegionAssignmentMap NumRegionsAssigned
       ProcessAssignmentMap set_RegionAssignment].
  set (P := NumProcs t) in *.
  destruct (assign_loop_spec P map (length map) 0
              (resize (Z.of_nat (length map))
                 (replicate (length (zeros (NumberOfRegions t))) 0))
              (zeros P))
    as (assigned & Heq & Hlen & Hasg); try done.
  - unfold resize. rewrite length_app, length_take, !length_replicate. lia.
  - unfold zeros. by rewrite length_replicate.
  - intros p Hp. unfold zeros. rewrite lookup_replicate_2 by lia. done.
  - rewrite drop_0 in Heq. unfold zeros in Heq. unfold zeros. rewrite Heq.
    cbn [fst snd]. unfold BuildRegionListsForProcesses.
    cbn [set_assignment_lists NumProcs NumberOfRegions RegionAssignmentMap
         NumRegionsAssigned ProcessAssignmentMap RegionAssignment
         set_RegionAssignment AllocateAndZeroRegionAssignmentLists].
    fold P. unfold zeros.
    destruct (build_lists_loop P map
                (imap (λ p l, resize (assigned !!! p) l)
                      (replicate (Z.to_nat P) []))
                (length map))
      as (lists & count & -> & Hll & Hlc & Hinv); try done.
    + by rewrite length_imap, length_replicate.
    + intros p Hp. rewrite list_lookup_imap, lookup_replicate_2 by lia.
      cbn. f_equal. unfold resize.
      rewrite (list_lookup_total_correct _ _ _ (Hasg p Hp)).
      rewrite take_nil. cbn. by rewrite Nat2Z.id, Nat.sub_0_r.
    + cbn [set_assignment_lists NumProcs NumberOfRegions RegionAssignmentMap
           NumRegionsAssigned ProcessAssignmentMap RegionAssignment fst snd].
      split_and!; try done.
      intros p Hp. destruct (Hinv p Hp) as [_ Hl]. specialize (Hasg p Hp).
      rewrite Nat.sub_diag, app_nil_r in Hl. done.
Qed.

(** AssignRegions accepts a map of process ids: it returns [0], stores
    the map, and gives every process the list of its regions in increasing
    order, with their number. *)
Theorem AssignRegions_assigns (t : PKdTree) (map : list Z) :
  0 ≤ NumProcs t → 0 ≤ NumberOfRegions t → valid_map (NumProcs t) map →
  let t' := (AssignRegions t map).1 in
  (AssignRegions t map).2 = 0
  ∧ RegionAssignment t' = UserDefinedAssignment
  ∧ RegionAssignmentMap t' = map
  ∧ ∀ p, 0 ≤ p < NumProcs t →
      let regions :=
        filter (λ r, map !! Z.to_nat r = Some p) (seqZ 0 (Z.of_nat (length map))) in
      ProcessAssignmentMap t' !! Z.to_nat p = Some regions
      ∧ NumRegionsAssigned t' !! Z.to_nat p = Some (Z.of_nat (length regions))
      ∧ StronglySorted Z.lt regions
      ∧ (∀ r, r ∈ regions ↔ 0 ≤ r < Z.of_nat (length map)
                             ∧ map !! Z.to_nat r = Some p).
Proof.
  intros HP HR Hvalid.
  destruct (AssignRegions_tables t map HP HR Hvalid)
    as (Hrc & Hmode & Hmap & _ & _ & _ & _ & Hlists).
  cbv zeta. split_and!; try done.
  intros p Hp. destruct (Hlists p Hp) as [Hl Hn].
  split; [done|]. split; [done|].
  split; [apply regions_of_sorted|]. intros r. apply elem_of_regions_of.
Qed.

(** AssignRegions rejects a map with an entry that is no process id: it
    returns [1] and leaves the three assignment tables empty, so no region
    has a process afterwards. *)
Theorem AssignRegions_rejects (t : PKdTree) (map : list Z) :
  Exists (λ m, m < 0 ∨ NumProcs t ≤ m) map →
  let t' := (AssignRegions t map).1 in
  (AssignRegions t map).2 = 1
  ∧ RegionAssignment t' = UserDefinedAssignment
  ∧ RegionAssignmentMap t' = []
  ∧ NumRegionsAssigned t' = []
  ∧ ProcessAssignmentMap t' = []
  ∧ ∀ regionId, GetProcessAssignedToRegion t' regionId = -1.
Proof.
  intros Hbad. cbv zeta. unfold AssignRegions. cbv zeta.
  cbn [AllocateAndZeroRegionAssignmentLists set_assignment_lists NumProcs
       NumberOfRegions RegionAssignmentMap NumRegionsAssigned
       ProcessAssignmentMap set_RegionAssignment].
  rewrite (proj2 (assign_loop_None _ _ _ _ _) Hbad). cbn. split_and!; done.
Qed.

(** After AssignRegions has accepted [map], GetProcessAssignedToRegion
    answers [map[r]] for a region [r] of the map and of the tree, and
    GetRegionAssignmentList answers, for a process, the regions that the map
    gives it, in increasing order. *)
Theorem AssignRegions_queries GetRegionsAtLevel GetLeafNodeIds
    (t : PKdTree) (map : list Z) :
  0 ≤ NumProcs t → 0 ≤ NumberOfRegions t → valid_map (NumProcs t) map →
  map ≠ [] →
  let t' := (AssignRegions t map).1 in
  (∀ r m, map !! Z.to_nat r = Some m → 0 ≤ r < NumberOfRegions t →
     GetProcessAssignedToRegion t' r = m)
  ∧ (∀ p list, 0 ≤ p < NumProcs t →
       let regions :=
         filter (λ r, map !! Z.to_nat r = Some p)
                (seqZ 0 (Z.of_nat (length map))) in
       GetRegionAssignmentList GetRegionsAtLevel GetLeafNodeIds t' p list
       = (t', Z.of_nat (length regions), regions)).
Proof.
  intros HP HR Hvalid Hne.
  destruct (AssignRegions_tables t map HP HR Hvalid)
    as (Hrc & Hmode & Hmap & HNP & HNR & _ & _ & Hlists).
  cbv zeta. set (t' := (AssignRegions t map).1) in *. split.
  - intros r m Hm Hr. unfold GetProcessAssignedToRegion. rewrite Hmap, HNR.
    rewrite bool_decide_eq_false_2 by done.
    destruct (Z.ltb_spec r 0); [lia|]. destruct (Z.geb_spec r (NumberOfRegions t)); [lia|].
    cbn [orb]. by apply list_lookup_total_correct.
  - intros p list Hp. unfold GetRegionAssignmentList. rewrite HNP.
    destruct (Z.ltb_spec p 0); [lia|]. destruct (Z.geb_spec p (NumProcs t)); [lia|].
    cbn [orb].
    rewrite !(bool_decide_eq_false_2 (RegionAssignmentMap t' = []))
      by (by rewrite Hmap).
    destruct (Hlists p Hp) as [Hl Hn].
    rewrite (list_lookup_total_correct _ _ _ Hl),
            (list_lookup_total_correct _ _ _ Hn).
    rewrite Nat2Z.id, firstn_all. done.
Qed.

(** ** Round-robin and contiguous assignment as user-defined assignments *)

Lemma filter_ext_in {A} (P Q : A → Prop) `{∀ x, Decision (P x)}
    `{∀ x, Decision (Q x)} (l : list A) :
  (∀ x, x ∈ l → P x ↔ Q x) → filter P l = filter Q l.
Proof.
  induction l as [|x l IH]; intros HPQ; [done|].
  rewrite !filter_cons. rewrite IH by (intros y Hy; apply HPQ; by right).
  destruct (decide (P x)) as [HP|HP], (decide (Q x)) as [HQ|HQ]; try done.
  - exfalso. apply HQ, HPQ; [left|done].
  - exfalso. apply HP, HPQ; [left|done].
Qed.

Lemma round_robin_map_valid P R : 0 < P → valid_map P (round_robin_map P R).
Proof.
  intros HP. apply Forall_fmap, Forall_forall. intros r _. cbn.
  apply Z.mod_pos_bound. lia.
Qed.

Lemma round_robin_map_length P R : 0 ≤ R → length (round_robin_map P R) = Z.to_nat R.
Proof. intros. unfold round_robin_map. by rewrite length_fmap, length_seqZ. Qed.

Lemma regions_of_round_robin P R p (n : nat) :
  (n ≤ Z.to_nat R)%nat →
  regions_of (round_robin_map P R) p n = owned P p n.
Proof.
  intros Hn. unfold regions_of, owned. apply filter_ext_in.
  intros r Hr%elem_of_seqZ. unfold round_robin_map.
  rewrite list_lookup_fmap, lookup_seqZ_lt by lia. cbn.
  rewrite Z.add_0_l, Z2Nat.id by lia. split; [by intros [= ->]|by intros ->].
Qed.

(** Round-robin builds the tables of the user-defined assignment of the
    map [r mod P]. *)
Lemma AssignRegionsRoundRobin_tables (t : PKdTree) (top : KdTree) :
  Top t = Some top → 0 < NumProcs t → 0 ≤ NumberOfRegions t →
  AssignRegionsRoundRobin t
  = set_RegionAssignment RoundRobinAssignment
      (AssignRegions t (round_robin_map (NumProcs t) (NumberOfRegions t))).1.
Proof.
  intros HTop HP HR.
  unfold AssignRegionsRoundRobin, AssignRegions. cbv zeta.
  cbn [Top set_RegionAssignment]. rewrite HTop.
  cbn [AllocateAndZeroRegionAssignmentLists set_assignment_lists NumProcs
       NumberOfRegions RegionAssignmentMap NumRegionsAssigned
       ProcessAssignmentMap set_RegionAssignment].
  set (P := NumProcs t) in *. set (R := NumberOfRegions t) in *.
  set (map := round_robin_map P R).
  pose proof (round_robin_map_length P R HR) as Hlm. fold map in Hlm.
  unfold zeros.
  destruct (round_robin_loop P HP (Z.to_nat R) (Z.to_nat R))
    as (assigned & -> & Hlen & Hasg); [done|].
  rewrite Nat.sub_diag, app_nil_r, Z2Nat.id by done. fold (round_robin_map P R).
  fold map.
  destruct (assign_loop_spec P map (length map) 0
              (resize (Z.of_nat (length map))
                 (replicate (length (replicate (Z.to_nat R) 0)) 0))
              (replicate (Z.to_nat P) 0))
    as (assigned' & Heq & Hlen' & Hasg'); try done.
  - by apply round_robin_map_valid.
  - unfold resize. rewrite length_app, length_take, !length_replicate. lia.
  - by rewrite length_replicate.
  - intros p Hp. rewrite lookup_replicate_2 by lia. done.
  - rewrite drop_0 in Heq. rewrite Heq. cbn [fst].
    assert (assigned' = assigned) as ->.
    { apply list_eq. intros i. destruct (decide (i < Z.to_nat P)%nat) as [Hi|Hi].
      - specialize (Hasg (Z.of_nat i) ltac:(lia)).
        specialize (Hasg' (Z.of_nat i) ltac:(lia)).
        rewrite Nat2Z.id in Hasg, Hasg'. rewrite Hasg, Hasg'.
        rewrite Hlm. unfold map. by rewrite regions_of_round_robin.
      - rewrite !lookup_ge_None_2 by lia. done. }
    unfold BuildRegionListsForProcesses.
    cbn [set_assignment_lists NumProcs NumberOfRegions RegionAssignmentMap
         NumRegionsAssigned ProcessAssignmentMap RegionAssignment
         set_RegionAssignment].
    destruct (foldl _ _ _) as [lists count]. reflexivity.
Qed.

Lemma filter_eq_seqZ (p : Z) (n : nat) :
  filter (λ r, r = p) (seqZ 0 (Z.of_nat n))
  = if decide (0 ≤ p < Z.of_nat n) then [p] else [].
Proof.
  induction n as [|n IH].
  - cbn. by rewrite decide_False by lia.
  - rewrite seqZ_S, filter_app, IH, Z.add_0_l. cbn [filter list_filter].
    destruct (decide (Z.of_nat n = p)) as [<-|Hne].
    + rewrite decide_False, decide_True by lia. done.
    + destruct (decide (0 ≤ p < Z.of_nat n)).
      * rewrite decide_True by lia. done.
      * rewrite decide_False by lia. done.
Qed.

(** The tables of the round-robin assignment, through AssignRegions. *)
Lemma AssignRegionsRoundRobin_lists (t : PKdTree) (top : KdTree) :
  Top t = Some top → 0 < NumProcs t → 0 ≤ NumberOfRegions t →
  let t' := AssignRegionsRoundRobin t in
  let P := NumProcs t in
  let R := NumberOfRegions t in
  RegionAssignment t' = RoundRobinAssignment
  ∧ RegionAssignmentMap t' = round_robin_map P R
  ∧ NumProcs t' = P ∧ NumberOfRegions t' = R
  ∧ ∀ p, 0 ≤ p < P →
      ProcessAssignmentMap t' !! Z.to_nat p = Some (owned P p (Z.to_nat R))
      ∧ NumRegionsAssigned t' !! Z.to_nat p
        = Some (Z.of_nat (length (owned P p (Z.to_nat R)))).
Proof.
  intros HTop HP HR. cbv zeta.
  rewrite (AssignRegionsRoundRobin_tables t top HTop HP HR).
  destruct (AssignRegions_tables t
              (round_robin_map (NumProcs t) (NumberOfRegions t)))
    as (_ & _ & Hmap & HNP & HNR & _ & _ & Hlists); [lia|done|..].
  { by apply round_robin_map_valid. }
  cbn [RegionAssignment RegionAssignmentMap NumProcs NumberOfRegions
       ProcessAssignmentMap NumRegionsAssigned set_RegionAssignment].
  split_and!; try done.
  intros p Hp. destruct (Hlists p Hp) as [Hl Hn].
  rewrite round_robin_map_length in Hl, Hn by done.
  rewrite regions_of_round_robin in Hl, Hn by done. done.
Qed.

(** A query for the regions of a process runs the pending round-robin
    assignment when the tables are still empty: on a built tree with at
    least one region it answers the regions [r] with [r mod P = p], in
    increasing order, and leaves the tables built; GetProcessAssignedToRegion
    then answers [r mod P]. *)
Theorem GetRegionAssignmentList_round_robin GetRegionsAtLevel GetLeafNodeIds
    (t : PKdTree) (top : KdTree) :
  Top t = Some top → 0 < NumProcs t → 0 < NumberOfRegions t →
  RegionAssignment t = RoundRobinAssignment → RegionAssignmentMap t = [] →
  let t' := AssignRegionsRoundRobin t in
  let P := NumProcs t in
  let R := NumberOfRegions t in
  (∀ p list, 0 ≤ p < P →
     let regions := filter (λ r, r mod P = p) (seqZ 0 R) in
     GetRegionAssignmentList GetRegionsAtLevel GetLeafNodeIds t p list
     = (t', Z.of_nat (length regions), regions))
  ∧ (∀ r, 0 ≤ r < R → GetProcessAssignedToRegion t' r = r mod P).
Proof.
  intros HTop HP HR Hmode Hempty. cbv zeta.
  destruct (AssignRegionsRoundRobin_lists t top HTop HP ltac:(lia))
    as (_ & Hmap & HNP & HNR & Hlists).
  assert (round_robin_map (NumProcs t) (NumberOfRegions t) ≠ []) as Hne.
  { intros Heq. apply (f_equal length) in Heq.
    rewrite round_robin_map_length in Heq by lia. cbn in Heq. lia. }
  split.
  - intros p list Hp. unfold GetRegionAssignmentList.
    destruct (Z.ltb_spec p 0); [lia|].
    destruct (Z.geb_spec p (NumProcs t)); [lia|]. cbn [orb].
    rewrite !(bool_decide_eq_true_2 (RegionAssignmentMap t = [])) by done.
    unfold UpdateRegionAssignment. rewrite Hmode.
    rewrite bool_decide_eq_false_2 by (by rewrite Hmap).
    destruct (Hlists p Hp) as [Hl Hn].
    rewrite (list_lookup_total_correct _ _ _ Hl),
            (list_lookup_total_correct _ _ _ Hn).
    rewrite Nat2Z.id, firstn_all. unfold owned. rewrite Z2Nat.id by lia. done.
  - intros r Hr. unfold GetProcessAssignedToRegion. rewrite Hmap, HNR.
    rewrite bool_decide_eq_false_2 by done.
    destruct (Z.ltb_spec r 0); [lia|].
    destruct (Z.geb_spec r (NumberOfRegions t)); [lia|]. cbn [orb].
    apply list_lookup_total_correct. unfold round_robin_map.
    rewrite list_lookup_fmap, lookup_seqZ_lt by lia. cbn. do 2 f_equal. lia.
Qed.

(** With no more regions than processes, the contiguous assignment gives
    region [r] to process [r]: a process below the number of regions has
    the one region of its own rank, the others have none. *)
Theorem AssignRegionsContiguous_few_regions GetRegionsAtLevel GetLeafNodeIds
    (t : PKdTree) (top : KdTree) :
  Top t = Some top → 0 ≤ NumberOfRegions t → NumberOfRegions t ≤ NumProcs t →
  0 < NumProcs t →
  let t' := AssignRegionsContiguous GetRegionsAtLevel GetLeafNodeIds t in
  RegionAssignment t' = ContiguousAssignment
  ∧ RegionAssignmentMap t' = seqZ 0 (NumberOfRegions t)
  ∧ ∀ p, 0 ≤ p < NumProcs t →
      ProcessAssignmentMap t' !! Z.to_nat p
      = Some (if p <? NumberOfRegions t then [p] else [])
      ∧ NumRegionsAssigned t' !! Z.to_nat p
        = Some (if p <? NumberOfRegions t then 1 else 0).
Proof.
  intros HTop HR HRP HP. cbv zeta. unfold AssignRegionsContiguous. cbv zeta.
  cbn [Top set_RegionAssignment NumProcs NumberOfRegions]. rewrite HTop.
  destruct (Z.leb_spec (NumberOfRegions t) (NumProcs t)); [|lia].
  destruct (AssignRegionsRoundRobin_lists
              (set_RegionAssignment ContiguousAssignment t) top HTop HP HR)
    as (_ & Hmap & _ & _ & Hlists).
  cbn [NumProcs NumberOfRegions set_RegionAssignment] in Hmap, Hlists.
  set (t1 := AssignRegionsRoundRobin _) in *.
  cbn [RegionAssignment RegionAssignmentMap ProcessAssignmentMap
       NumRegionsAssigned set_RegionAssignment].
  split; [done|]. split.
  - rewrite Hmap. unfold round_robin_map.
    rewrite <-(list_fmap_id (seqZ 0 (NumberOfRegions t))) at 2.
    apply list_fmap_ext. intros i r Hr. cbn.
    apply lookup_seqZ in Hr. apply Z.mod_small. lia.
  - intros p Hp. destruct (Hlists p Hp) as [Hl Hn].
    assert (owned (NumProcs t) p (Z.to_nat (NumberOfRegions t))
            = if p <? NumberOfRegions t then [p] else []) as Hown.
    { unfold owned.
      rewrite (filter_ext_in _ (λ r, r = p)).
      - rewrite filter_eq_seqZ.
        destruct (Z.ltb_spec p (NumberOfRegions t)).
        + rewrite decide_True by lia. done.
        + rewrite decide_False by lia. done.
      - intros r Hr%elem_of_seqZ. rewrite Z.mod_small by lia. done. }
    rewrite Hown in Hl, Hn. split; [done|]. rewrite Hn.
    by destruct (p <? NumberOfRegions t).
Qed.

(** Two processes and the map [1; 0; 1] of three regions: process 1 has the
    regions 0 and 2. *)
Lemma AssignRegions_assigns_witness :
  (AssignRegions (built_tree 2 3) [1; 0; 1]).2 = 0
  ∧ ProcessAssignmentMap (AssignRegions (built_tree 2 3) [1; 0; 1]).1 !! 1%nat
    = Some [0; 2].
Proof.
  destruct (AssignRegions_assigns (built_tree 2 3) [1; 0; 1])
    as (Hrc & _ & _ & Hlists).
  - cbn. lia.
  - cbn. lia.
  - repeat constructor; cbn; lia.
  - split; [exact Hrc|]. destruct (Hlists 1) as [Hl _]; [cbn; lia|]. exact Hl.
Defined.

(** Two processes and a map with the entry 2: the map is rejected. *)
Lemma AssignRegions_rejects_witness :
  (AssignRegions (built_tree 2 3) [0; 2; 1]).2 = 1
  ∧ GetProcessAssignedToRegion (AssignRegions (built_tree 2 3) [0; 2; 1]).1 0
    = -1.
Proof.
  destruct (AssignRegions_rejects (built_tree 2 3) [0; 2; 1])
    as (Hrc & _ & _ & _ & _ & Hq).
  - apply Exists_cons_tl, Exists_cons_hd. cbn. lia.
  - split; [exact Hrc|apply Hq].
Defined.

(** After the map [1; 0; 1] region 2 belongs to process 1, whose list has
    two regions. *)
Lemma AssignRegions_queries_witness :
  GetProcessAssignedToRegion (AssignRegions (built_tree 2 3) [1; 0; 1]).1 2 = 1
  ∧ (GetRegionAssignmentList (λ _ _, []) (λ _, [])
       (AssignRegions (built_tree 2 3) [1; 0; 1]).1 1 []).1.2 = 2.
Proof.
  destruct (AssignRegions_queries (λ _ _, []) (λ _, []) (built_tree 2 3) [1; 0; 1])
    as (Hq & Hl).
  - cbn. lia.
  - cbn. lia.
  - repeat constructor; cbn; lia.
  - discriminate.
  - split.
    + apply Hq; [reflexivity|cbn; lia].
    + rewrite Hl by (cbn; lia). reflexivity.
Defined.

(** Four processes, sixteen regions and a pending round-robin assignment:
    the query for process 2 answers four regions. *)
Lemma GetRegionAssignmentList_round_robin_witness :
  (GetRegionAssignmentList (λ _ _, []) (λ _, [])
     (set_RegionAssignment RoundRobinAssignment (built_tree 4 16)) 2 []).2
  = [2; 6; 10; 14].
Proof.
  destruct (GetRegionAssignmentList_round_robin (λ _ _, []) (λ _, [])
              (set_RegionAssignment RoundRobinAssignment (built_tree 4 16))
              (Leaf new_node)) as (Hl & _).
  - reflexivity.
  - cbn. lia.
  - cbn. lia.
  - reflexivity.
  - reflexivity.
  - rewrite Hl by (cbn; lia). reflexivity.
Defined.

(** Four processes and three regions: process 1 has region 1, process 3 has
    none. *)
Lemma AssignRegionsContiguous_few_regions_witness :
  ProcessAssignmentMap
    (AssignRegionsContiguous (λ _ _, []) (λ _, []) (built_tree 4 3)) !! 1%nat
  = Some [1]
  ∧ ProcessAssignmentMap
      (AssignRegionsContiguous (λ _ _, []) (λ _, []) (built_tree 4 3)) !! 3%nat
    = Some [].
Proof.
  destruct (AssignRegionsContiguous_few_regions (λ _ _, []) (λ _, [])
              (built_tree 4 3) (Leaf new_node)) as (_ & _ & Hl).
  - reflexivity.
  - cbn. lia.
  - cbn. lia.
  - cbn. lia.
  - split.
    + destruct (Hl 1) as [H1 _]; [cbn; lia|]. exact H1.
    + destruct (Hl 3) as [H3 _]; [cbn; lia|]. exact H3.
Defined.

(** ** AddEntry *)

Lemma pending_length entries n :
  (length entries ≤ n)%nat → length (pending entries n) = n.
Proof.
  intros H. unfold pending. rewrite length_app. case_decide; cbn.
  - rewrite length_replicate. lia.
  - lia.
Qed.

Lemma pending_full entries : pending entries (length entries) = entries.
Proof. unfold pending. rewrite decide_False by lia. by rewrite app_nil_r. Qed.

Lemma add_entry_scan_free (fuel : nat) (l : list Z) (len i : Z) (k : nat) :
  (∀ j x, (Z.to_nat i ≤ j < k)%nat → l !! j = Some x → x ≠ -1) →
  0 ≤ i ≤ Z.of_nat k → Z.of_nat k ≤ len → (k ≤ length l)%nat →
  (Z.of_nat k < len → l !! k = Some (-1)) →
  (k - Z.to_nat i < fuel)%nat →
  add_entry_scan fuel l len i = Some (Z.of_nat k).
Proof.
  revert i. induction fuel as [|fuel IH]; intros i Hfree Hi Hk Hlen Hmark Hfuel; [lia|].
  cbn [add_entry_scan]. destruct (Z.ltb_spec i len) as [Hlt|Hge].
  - destruct (decide (i = Z.of_nat k)) as [->|Hne].
    + unfold vec_get. destruct (Z.ltb_spec (Z.of_nat k) 0); [lia|].
      rewrite Nat2Z.id, Hmark by done. done.
    + destruct (lookup_lt_is_Some_2 l (Z.to_nat i)) as [x Hx]; [lia|].
      unfold vec_get. destruct (Z.ltb_spec i 0); [lia|]. rewrite Hx. cbn.
      destruct (Z.eqb_spec x (-1)) as [->|_].
      * exfalso. by apply (Hfree (Z.to_nat i) (-1) ltac:(lia) Hx).
      * cbn. apply IH; try lia; try done.
        intros j y Hj. apply Hfree. lia.
  - f_equal. lia.
Qed.

(** AddEntry puts [id] in the first free slot and marks the next one. *)
Lemma AddEntry_pending (entries : list Z) (n : nat) (id : Z) :
  Forall (λ x, x ≠ -1) entries → (length entries < n)%nat →
  AddEntry (pending entries n) (Z.of_nat n) id = Some (pending (entries ++ [id]) n).
Proof.
  intros Hfree Hlen. unfold AddEntry.
  rewrite (add_entry_scan_free _ _ _ _ (length entries)).
  - cbn. destruct (Z.eqb_spec (Z.of_nat (length entries)) (Z.of_nat n)); [lia|].
    unfold vec_set. rewrite pending_length by lia.
    destruct (Z.ltb_spec (Z.of_nat (length entries)) 0); [lia|].
    destruct (Z.geb_spec (Z.of_nat (length entries)) (Z.of_nat n)); [lia|].
    cbn. rewrite length_insert, pending_length by lia.
    rewrite Nat2Z.id. unfold pending. rewrite decide_True by done.
    rewrite insert_app_r_alt by lia. rewrite Nat.sub_diag. cbn [insert list_insert].
    rewrite length_app. cbn [length].
    destruct (Z.ltb_spec (Z.of_nat (length entries) + 1) (Z.of_nat n)) as [Hlt|Hge].
    + destruct (Z.ltb_spec (Z.of_nat (length entries) + 1) 0); [lia|].
      destruct (Z.geb_spec (Z.of_nat (length entries) + 1) (Z.of_nat n)); [lia|].
      cbn. rewrite decide_True by lia. f_equal.
      replace (Z.to_nat (Z.of_nat (length entries) + 1))
        with (length entries + 1)%nat by lia.
      rewrite insert_app_r_alt by lia.
      replace (length entries + 1 - length entries)%nat with 1%nat by lia.
      replace (n - length entries - 1)%nat
        with (S (n - (length entries + 1) - 1)) by lia.
      cbn. by rewrite <-app_assoc.
    + rewrite decide_False by lia.
      replace (n - length entries - 1)%nat with 0%nat by lia. cbn.
      by rewrite <-app_assoc.
  - intros j x Hj Hx. unfold pending in Hx. rewrite lookup_app_l in Hx by lia.
    by apply (Forall_lookup_1 _ _ _ _ Hfree Hx).
  - lia.
  - lia.
  - rewrite pending_length; lia.
  - intros _. unfold pending. rewrite decide_True by done.
    rewrite lookup_app_r by lia. by rewrite Nat.sub_diag.
  - lia.
Qed.

(** AddEntry finds no free slot: the list stays as it is. *)
Lemma AddEntry_no_slot (l : list Z) (id : Z) :
  Forall (λ x, x ≠ -1) l → AddEntry l (Z.of_nat (length l)) id = Some l.
Proof.
  intros Hfree. unfold AddEntry.
  rewrite (add_entry_scan_free _ _ _ _ (length l)); try lia.
  - cbn. by rewrite Z.eqb_refl.
  - intros j x Hj Hx. by apply (Forall_lookup_1 _ _ _ _ Hfree Hx).
Qed.

(** A list of [n] slots, filled by AddEntry from the start, holds the ids
    in the order in which they came; the ids that come when no slot is free
    are dropped. *)
Theorem AddEntry_fills (ids : list Z) (n : nat) :
  Forall (λ x, x ≠ -1) ids →
  fold_opt (λ l id, AddEntry l (Z.of_nat n) id) (pending [] n) ids
  = Some (pending (take n ids) n).
Proof.
  intros Hids.
  assert (∀ entries rest,
            Forall (λ x, x ≠ -1) entries → Forall (λ x, x ≠ -1) rest →
            (length entries ≤ n)%nat →
            fold_opt (λ l id, AddEntry l (Z.of_nat n) id) (pending entries n) rest
            = Some (pending (take n (entries ++ rest)) n)) as Hgen.
  { intros entries rest. revert entries.
    induction rest as [|id rest IH]; intros entries He Hr Hlen.
    - cbn. rewrite app_nil_r, take_ge by lia. done.
    - cbn [fold_opt]. apply Forall_cons in Hr as [Hid Hr].
      destruct (decide (length entries < n)%nat) as [Hlt|Hge].
      + rewrite AddEntry_pending by done. cbn.
        rewrite (IH (entries ++ [id])).
        * by rewrite <-app_assoc.
        * apply Forall_app. split; [done|]. by constructor.
        * done.
        * rewrite length_app. cbn. lia.
      + assert (n = length entries) as -> by lia.
        rewrite pending_full, AddEntry_no_slot by done. cbn.
        rewrite <-(pending_full entries) at 1.
        rewrite IH by (done || lia).
        rewrite !take_app_le by lia. done. }
  apply (Hgen [] ids); [constructor|done|cbn; lia].
Qed.

(** ** Loops that can fail *)

Lemma fold_opt_ext {A S : Type} (f g : S → A → option S) (s : S) (l : list A) :
  (∀ s x, x ∈ l → f s x = g s x) → fold_opt f s l = fold_opt g s l.
Proof.
  revert s. induction l as [|x l IH]; intros s H; [done|].
  cbn. rewrite (H s x) by left. destruct (g s x) as [s'|]; [|done].
  cbn. apply IH. intros s0 y Hy. apply H. by right.
Qed.

Lemma fold_opt_filter {A S : Type} (sel : A → bool) (g : S → A → option S)
    (s : S) (l : list A) :
  fold_opt (λ s x, if sel x then g s x else Some s) s l
  = fold_opt g s (filter (λ x, sel x = true) l).
Proof.
  revert s. induction l as [|x l IH]; intros s; [done|].
  cbn [fold_opt]. destruct (sel x) eqn:Hx.
  - rewrite filter_cons_True by done. cbn. destruct (g s x); [|done]. cbn. apply IH.
  - rewrite filter_cons_False by congruence. cbn. apply IH.
Qed.

Lemma fold_opt_pair {A S1 S2 : Type} (f : S1 → A → option S1)
    (g : S2 → A → option S2) (s1 : S1) (s2 : S2) (l : list A) :
  fold_opt (λ '(a, b) x, a' ← f a x; b' ← g b x; Some (a', b')) (s1, s2) l
  = a ← fold_opt f s1 l; b ← fold_opt g s2 l; Some (a, b).
Proof.
  revert s1 s2. induction l as [|x l IH]; intros s1 s2; [done|].
  cbn [fold_opt]. destruct (f s1 x) as [a|]; [|done]. cbn.
  destruct (g s2 x) as [b|]; cbn.
  - apply IH.
  - by destruct (fold_opt f a l).
Qed.

Lemma fold_opt_total {A S : Type} (f : S → A → S) (s : S) (l : list A) :
  fold_opt (λ s x, Some (f s x)) s l = Some (foldl f s l).
Proof. revert s. induction l as [|x l IH]; intros s; [done|]. cbn. apply IH. Qed.

(** ** Counters *)

Lemma bumps_length (keys : list nat) (c : list Z) :
  length (foldl bump c keys) = length c.
Proof.
  revert c. induction keys as [|k keys IH]; intros c; [done|].
  cbn. rewrite IH. unfold bump. by rewrite length_insert.
Qed.

Lemma bumps_lookup (keys : list nat) (c : list Z) (k : nat) :
  (k < length c)%nat →
  foldl bump c keys !!! k
  = c !!! k + Z.of_nat (length (filter (λ k', k' = k) keys)).
Proof.
  revert c. induction keys as [|k' keys IH]; intros c Hk.
  - cbn. lia.
  - cbn [foldl]. rewrite IH by (unfold bump; by rewrite length_insert).
    unfold bump. destruct (decide (k' = k)) as [->|Hne].
    + rewrite filter_cons_True by done. rewrite list_lookup_total_insert.
      rewrite decide_True by done. cbn [length]. lia.
    + rewrite filter_cons_False by done.
      rewrite list_lookup_total_insert_ne by done. done.
Qed.

Lemma bumps_zeros_lookup (keys : list nat) (n : Z) (k : nat) :
  (k < Z.to_nat n)%nat →
  foldl bump (zeros n) keys !! k
  = Some (Z.of_nat (length (filter (λ k', k' = k) keys))).
Proof.
  intros Hk.
  rewrite list_lookup_lookup_total_lt
    by (rewrite bumps_length; unfold zeros; by rewrite length_replicate).
  rewrite bumps_lookup by (unfold zeros; by rewrite length_replicate).
  unfold zeros. rewrite lookup_total_replicate_2 by done. f_equal.
Qed.

(** ** CollectLocalRegionProcessData *)

Lemma collect_loop_bumps (numRegions : Z) (IDs c : list Z) :
  Forall (λ id, 0 ≤ id < numRegions) IDs →
  collect_loop numRegions IDs c = Some (foldl bump c (Z.to_nat <$> IDs)).
Proof.
  revert c. induction IDs as [|id IDs IH]; intros c H; [done|].
  apply Forall_cons in H as [Hid H]. cbn.
  destruct (Z.ltb_spec id 0); [lia|]. destruct (Z.geb_spec id numRegions); [lia|].
  cbn. by rewrite IH.
Qed.

Lemma collect_loop_None (numRegions : Z) (IDs c : list Z) :
  Exists (λ id, id < 0 ∨ numRegions ≤ id) IDs →
  collect_loop numRegions IDs c = None.
Proof.
  revert c. induction IDs as [|id IDs IH]; intros c H.
  - by apply Exists_nil in H.
  - cbn. destruct (Z.ltb_spec id 0); [done|].
    destruct (Z.geb_spec id numRegions); [done|]. cbn.
    apply Exists_cons in H as [H|H]; [lia|]. by apply IH.
Qed.

Lemma filter_to_nat_length (IDs : list Z) (r : nat) :
  Forall (λ id, 0 ≤ id) IDs →
  length (filter (λ k', k' = r) (Z.to_nat <$> IDs))
  = length (filter (λ id, id = Z.of_nat r) IDs).
Proof.
  induction 1 as [|id IDs Hid _ IH]; [done|]. cbn [fmap list_fmap].
  destruct (decide (id = Z.of_nat r)) as [->|Hne].
  - rewrite !filter_cons_True by lia. cbn. by rewrite IH.
  - rewrite !filter_cons_False by lia. done.
Qed.

Lemma Collect_lookup (t : PKdTree) (IDs : list Z) :
  Forall (λ id, 0 ≤ id < NumberOfRegions t) IDs →
  ∃ counts,
    CollectLocalRegionProcessData t IDs = Some counts
    ∧ length counts = Z.to_nat (NumberOfRegions t)
    ∧ ∀ r, 0 ≤ r < NumberOfRegions t →
           counts !! Z.to_nat r = Some (cells_of IDs r).
Proof.
  intros H. eexists. unfold CollectLocalRegionProcessData. cbn zeta.
  rewrite collect_loop_bumps by done. split_and!; [done|..].
  - rewrite bumps_length. unfold zeros. by rewrite length_replicate.
  - intros r Hr. rewrite bumps_zeros_lookup by lia.
    rewrite filter_to_nat_length.
    + unfold cells_of. by rewrite Z2Nat.id by lia.
    + eapply Forall_impl; [done|]. cbn. lia.
Qed.

Lemma sum_counts (IDs : list Z) (n : nat) :
  Forall (λ id, 0 ≤ id < Z.of_nat n) IDs →
  foldr Z.add 0 ((λ r, cells_of IDs r) <$> seqZ 0 (Z.of_nat n))
  = Z.of_nat (length IDs).
Proof.
  induction 1 as [|id IDs Hid _ IH].
  - induction n as [|n IHn]; [done|].
    rewrite seqZ_S, fmap_app, foldr_app. cbn. apply IHn.
  - cbn [length]. rewrite Nat2Z.inj_succ, <-IH. clear IH.
    assert (∀ m : nat, foldr Z.add 0
              ((λ r, cells_of (id :: IDs) r) <$> seqZ 0 (Z.of_nat m))
            = (if bool_decide (id < Z.of_nat m) then 1 else 0)
              + foldr Z.add 0 ((λ r, cells_of IDs r) <$> seqZ 0 (Z.of_nat m)))
      as Hm.
    { induction m as [|m IHm].
      - cbn. by rewrite bool_decide_eq_false_2 by lia.
      - rewrite !seqZ_S, !fmap_app, !foldr_app. cbn [fmap list_fmap foldr].
        rewrite Nat2Z.inj_succ.
        assert (∀ a l, foldr Z.add a l = a + foldr Z.add 0 l) as Hf.
        { intros a l. induction l as [|y l IHl]; cbn; lia. }
        rewrite (Hf (cells_of (id :: IDs) _ + 0)), (Hf (cells_of IDs _ + 0)), IHm.
        unfold cells_of. destruct (decide (id = Z.of_nat m)) as [->|Hne].
        + rewrite filter_cons_True by lia. cbn [length].
          rewrite bool_decide_eq_false_2, bool_decide_eq_true_2 by lia. lia.
        + rewrite filter_cons_False by lia.
          destruct (decide (id < Z.of_nat m)).
          * rewrite !bool_decide_eq_true_2 by lia. lia.
          * rewrite !bool_decide_eq_false_2 by lia. lia. }
    rewrite Hm, bool_decide_eq_true_2 by lia. lia.
Qed.

(** CollectLocalRegionProcessData counts the cells of every region: with
    region ids that are all regions of the tree, it returns [true] with one
    count per region, [cellCounts[r]] is the number of cells whose region is
    [r], and the counts add up to the number of cells. *)
Theorem CollectLocalRegionProcessData_counts (t : PKdTree) (IDs : list Z) :
  Forall (λ id, 0 ≤ id < NumberOfRegions t) IDs →
  ∃ cellCounts,
    CollectLocalRegionProcessData t IDs = Some cellCounts
    ∧ cellCounts = (λ r, cells_of IDs r) <$> seqZ 0 (NumberOfRegions t)
    ∧ foldr Z.add 0 cellCounts = Z.of_nat (length IDs).
Proof.
  intros H. destruct (Collect_lookup t IDs H) as (counts & Hc & Hlen & Hlook).
  exists counts. split; [done|].
  assert (counts = (λ r, cells_of IDs r) <$> seqZ 0 (NumberOfRegions t)) as ->.
  { apply list_eq. intros i. rewrite list_lookup_fmap.
    destruct (decide (i < Z.to_nat (NumberOfRegions t))%nat) as [Hi|Hi].
    - rewrite lookup_seqZ_lt by lia. cbn.
      rewrite <-(Nat2Z.id i) at 1. rewrite Hlook by lia. f_equal; f_equal; lia.
    - rewrite lookup_seqZ_ge by lia. cbn. apply lookup_ge_None. lia. }
  split; [done|].
  destruct (decide (0 ≤ NumberOfRegions t)) as [Hn|Hn].
  - rewrite <-(Z2Nat.id (NumberOfRegions t)) by done. apply sum_counts.
    by rewrite Z2Nat.id.
  - destruct IDs as [|id IDs]; [|apply Forall_cons in H as [? _]; lia].
    unfold seqZ. replace (Z.to_nat (NumberOfRegions t)) with 0%nat by lia. done.
Qed.

Lemma CollectLocalRegionProcessData_None (t : PKdTree) (IDs : list Z) :
  Exists (λ id, id < 0 ∨ NumberOfRegions t ≤ id) IDs →
  CollectLocalRegionProcessData t IDs = None.
Proof. intros H. unfold CollectLocalRegionProcessData. by apply collect_loop_None. Qed.

(** ** Lists filled by AddEntry *)

Lemma scatter_entries {A : Type} (key : A → nat) (val : A → Z)
    (lens : list Z) (all : list A) (evs2 evs1 : list A) (ls : list (list Z)) :
  all = evs1 ++ evs2 →
  Forall (λ e, val e ≠ -1 ∧ (key e < length ls)%nat) all →
  (∀ k, (k < length ls)%nat →
        lens !!! k = Z.of_nat (length (filter (λ e, key e = k) all))) →
  (∀ k, (k < length ls)%nat →
        ls !! k = Some (pending (val <$> filter (λ e, key e = k) evs1)
                          (length (filter (λ e, key e = k) all)))) →
  ∃ ls',
    fold_opt (λ ls e, add_entry_at ls (key e) (lens !!! key e) (val e)) ls evs2
    = Some ls'
    ∧ length ls' = length ls
    ∧ ∀ k, (k < length ls)%nat →
           ls' !! k = Some (val <$> filter (λ e, key e = k) all).
Proof.
  revert evs1 ls. induction evs2 as [|e evs2 IH]; intros evs1 ls Hall Hev Hlens Hls.
  - exists ls. split_and!; [done..|]. intros k Hk. rewrite Hls by done.
    rewrite app_nil_r in Hall. subst evs1. f_equal.
    rewrite <-(length_fmap val). apply pending_full.
  - assert (val e ≠ -1 ∧ (key e < length ls)%nat) as [Hval Hkey].
    { eapply (proj1 (Forall_forall _ _) Hev). subst all.
      apply elem_of_app. right. left. }
    assert (add_entry_at ls (key e) (lens !!! key e) (val e)
            = Some (<[key e := pending
                 ((val <$> filter (λ e0, key e0 = key e) evs1) ++ [val e])
                 (length (filter (λ e0, key e0 = key e) all))]> ls)) as Hstep.
    { unfold add_entry_at. rewrite (Hls _ Hkey). cbn.
      rewrite (Hlens _ Hkey). rewrite AddEntry_pending; [done|..].
      - apply Forall_fmap, Forall_forall. intros x Hx. cbn.
        apply (proj1 (Forall_forall _ _) Hev). subst all.
        apply list_elem_of_filter in Hx as [_ Hx]. apply elem_of_app. by left.
      - rewrite length_fmap. subst all.
        rewrite filter_app, filter_cons_True by done.
        rewrite length_app. cbn. lia. }
    cbn [fold_opt]. rewrite Hstep. cbn [mbind option_bind].
    destruct (IH (evs1 ++ [e]) (<[key e := pending
             ((val <$> filter (λ e0, key e0 = key e) evs1) ++ [val e])
             (length (filter (λ e0, key e0 = key e) all))]> ls))
        as (ls' & Hf & Hlen & Hlook).
    + by rewrite <-app_assoc.
    + by rewrite length_insert.
    + intros k. rewrite length_insert. apply Hlens.
    + intros k. rewrite length_insert. intros Hk.
      rewrite filter_app, fmap_app.
      destruct (decide (k = key e)) as [->|Hne].
      * rewrite list_lookup_insert_eq by done.
        by rewrite filter_cons_True, filter_nil by done.
      * rewrite list_lookup_insert_ne by done.
        rewrite filter_cons_False, filter_nil, app_nil_r by done. by apply Hls.
    + exists ls'. rewrite length_insert in Hlen, Hlook. done.
Qed.

Lemma start_lists_lookup (counts : list Z) (K k : nat) :
  (k < K)%nat →
  start_lists counts (replicate K []) !! k
  = Some (pending [] (Z.to_nat (counts !!! k))).
Proof.
  intros Hk. unfold start_lists. rewrite list_lookup_imap.
  rewrite lookup_replicate_2 by done. cbn. f_equal.
  unfold pending, resize. cbn [length take app]. rewrite take_nil.
  destruct (Z.gtb_spec (counts !!! k) 0) as [Hpos|Hle].
  - rewrite decide_True by lia. cbn [app].
    replace (Z.to_nat (counts !!! k) - 0)%nat
      with (S (Z.to_nat (counts !!! k) - 0 - 1)) at 1 by lia.
    done.
  - rewrite decide_False by lia. done.
Qed.

Lemma start_lists_length (counts : list Z) (K : nat) :
  length (start_lists counts (replicate K [])) = K.
Proof. unfold start_lists. by rewrite length_imap, length_replicate. Qed.

(** ** The turns of the loops over the processes and the regions *)

Lemma filter_bind {A B : Type} (P : B → Prop) `{∀ x, Decision (P x)}
    (f : A → list B) (l : list A) :
  filter P (l ≫= f) = l ≫= (λ x, filter P (f x)).
Proof.
  induction l as [|x l IH]; [done|].
  cbn. rewrite filter_app. by rewrite IH.
Qed.

Lemma filter_as_bind {A : Type} (P : A → Prop) `{∀ x, Decision (P x)}
    (l : list A) :
  filter P l = l ≫= (λ x, if decide (P x) then [x] else []).
Proof.
  induction l as [|x l IH]; [done|].
  rewrite bind_cons, filter_cons, IH. by destruct (decide (P x)).
Qed.

Lemma bind_ext_in {A B : Type} (f g : A → list B) (l : list A) :
  (∀ x, x ∈ l → f x = g x) → l ≫= f = l ≫= g.
Proof.
  induction l as [|x l IH]; intros H; [done|].
  cbn. rewrite (H x) by left. rewrite IH; [done|]. intros y Hy. apply H. by right.
Qed.

Lemma fmap_bind {A B C : Type} (g : B → C) (f : A → list B) (l : list A) :
  g <$> (l ≫= f) = l ≫= (λ x, g <$> f x).
Proof.
  induction l as [|x l IH]; [done|]. cbn. by rewrite fmap_app, IH.
Qed.

Lemma bind_single {B : Type} (x : nat) (L : list B) (n : nat) :
  (x < n)%nat →
  seq 0 n ≫= (λ y, if decide (y = x) then L else []) = L.
Proof.
  induction n as [|n IH]; intros Hx; [lia|].
  rewrite seq_S, bind_app. cbn.
  destruct (decide (x = n)) as [->|Hne].
  - rewrite decide_True by done. rewrite app_nil_r.
    rewrite (bind_ext_in _ (λ _, [])).
    + clear. induction (seq 0 n) as [|y l IHl]; [done|]. cbn. done.
    + intros y Hy. apply elem_of_seq in Hy. rewrite decide_False by lia. done.
  - rewrite decide_False by lia. rewrite app_nil_r. apply IH. lia.
Qed.

Lemma row_of_region (sel : nat * nat → bool) (p r n : nat) :
  filter (λ e, e.2 = r)
    (filter (λ e, sel e = true) ((λ reg, (p, reg)) <$> seq 0 n))
  = if decide ((r < n)%nat ∧ sel (p, r) = true) then [(p, r)] else [].
Proof.
  induction n as [|n IH].
  - cbn. rewrite decide_False by lia. done.
  - rewrite seq_S, fmap_app, !filter_app, IH. cbn [fmap list_fmap Nat.add].
    destruct (decide (r = n)) as [->|Hne].
    + rewrite (decide_False (P := (n < n)%nat ∧ _)) by lia. cbn [app].
      destruct (sel (p, n)) eqn:Hsel.
      * rewrite (filter_cons_True (λ e, sel e = true)) by done.
        rewrite filter_nil, filter_cons_True by done.
        rewrite decide_True by (split; [lia|done]). done.
      * rewrite (filter_cons_False (λ e, sel e = true)) by congruence.
        rewrite decide_False by (intros [_ ?]; congruence). done.
    + assert (filter (λ e : nat * nat, e.2 = r)
                (filter (λ e, sel e = true) [(p, n)]) = []) as ->.
      { destruct (sel (p, n)) eqn:Hsel.
        - rewrite (filter_cons_True (λ e, sel e = true)) by done.
          rewrite filter_nil, filter_cons_False by (cbn; lia). done.
        - rewrite (filter_cons_False (λ e, sel e = true)) by congruence. done. }
      rewrite app_nil_r. destruct (decide ((r < n)%nat ∧ sel (p, r) = true)).
      * rewrite decide_True by (split; [lia|tauto]). done.
      * rewrite decide_False by (intros [? ?]; apply n0; split; [lia|done]). done.
Qed.

Lemma row_of_process (sel : nat * nat → bool) (p p' : nat) (l : list nat) :
  filter (λ e, e.1 = p)
    (filter (λ e, sel e = true) ((λ reg, (p', reg)) <$> l))
  = if decide (p' = p)
    then (λ r, (p, r)) <$> filter (λ r, sel (p, r) = true) l else [].
Proof.
  induction l as [|r l IH].
  - cbn. by destruct (decide (p' = p)).
  - cbn [fmap list_fmap]. destruct (decide (p' = p)) as [->|Hne].
    + destruct (sel (p, r)) eqn:Hsel.
      * rewrite (filter_cons_True (λ e, sel e = true)) by done.
        rewrite filter_cons_True by done. rewrite IH.
        rewrite (filter_cons_True (λ r, sel (p, r) = true)) by done. done.
      * rewrite (filter_cons_False (λ e, sel e = true)) by congruence.
        rewrite IH.
        rewrite (filter_cons_False (λ r, sel (p, r) = true)) by congruence. done.
    + destruct (sel (p', r)) eqn:Hsel.
      * rewrite (filter_cons_True (λ e, sel e = true)) by done.
        rewrite filter_cons_False by done. apply IH.
      * rewrite (filter_cons_False (λ e, sel e = true)) by congruence. apply IH.
Qed.

(** The turns of region [r] that [sel] picks, in the order of the loops. *)
Lemma turns_of_region (sel : nat * nat → bool) (nProcesses nRegions : Z) (r : nat) :
  (r < Z.to_nat nRegions)%nat →
  filter (λ e, e.2 = r)
    (filter (λ e, sel e = true) (proc_reg_turns nProcesses nRegions))
  = (λ p, (p, r)) <$> filter (λ p, sel (p, r) = true) (seq 0 (Z.to_nat nProcesses)).
Proof.
  intros Hr. unfold proc_reg_turns.
  rewrite !filter_bind. rewrite (filter_as_bind _ (seq _ _)), fmap_bind.
  apply bind_ext_in. intros p _. rewrite row_of_region.
  destruct (decide (sel (p, r) = true)).
  - rewrite decide_True by done. done.
  - rewrite decide_False by tauto. done.
Qed.

(** The turns of process [p] that [sel] picks, in the order of the loops. *)
Lemma turns_of_process (sel : nat * nat → bool) (nProcesses nRegions : Z) (p : nat) :
  (p < Z.to_nat nProcesses)%nat →
  filter (λ e, e.1 = p)
    (filter (λ e, sel e = true) (proc_reg_turns nProcesses nRegions))
  = (λ r, (p, r)) <$> filter (λ r, sel (p, r) = true) (seq 0 (Z.to_nat nRegions)).
Proof.
  intros Hp. unfold proc_reg_turns. rewrite !filter_bind.
  rewrite (bind_ext_in _ (λ p', if decide (p' = p)
     then (λ r, (p, r)) <$> filter (λ r, sel (p, r) = true) (seq 0 (Z.to_nat nRegions))
     else [])).
  - by apply bind_single.
  - intros p' _. apply row_of_process.
Qed.

Lemma lookup_concat_rows (n : nat) (rows : list (list Z)) (p r : nat) :
  Forall (λ l, length l = n) rows → (r < n)%nat →
  concat rows !! (p * n + r)%nat = rows !! p ≫= (.!! r).
Proof.
  intros Hrows Hr. revert p. induction Hrows as [|l rows Hl _ IH]; intros p.
  - cbn. by rewrite !lookup_nil.
  - cbn [concat]. destruct p as [|p].
    + cbn. rewrite lookup_app_l by lia. done.
    + rewrite lookup_app_r by lia. cbn.
      replace (n + p * n + r - length l)%nat with (p * n + r)%nat by lia.
      apply IH.
Qed.

(** ** The tables of CreateProcessCellCountData *)

Lemma elem_of_turns (nProcesses nRegions : Z) (e : nat * nat) :
  e ∈ proc_reg_turns nProcesses nRegions →
  (e.1 < Z.to_nat nProcesses)%nat ∧ (e.2 < Z.to_nat nRegions)%nat.
Proof.
  unfold proc_reg_turns. intros H.
  apply list_elem_of_bind in H as (p & H & Hp).
  apply list_elem_of_fmap in H as (r & -> & Hr).
  apply elem_of_seq in Hp, Hr. cbn. lia.
Qed.

Lemma read_rows (nRegions : Z) (rows : list (list Z)) (p r : nat) :
  Forall (λ row, length row = Z.to_nat nRegions) rows →
  (p < length rows)%nat → (r < Z.to_nat nRegions)%nat →
  vec_get (concat rows) (Z.of_nat p * nRegions + Z.of_nat r)
  = Some (count_at rows (p, r)).
Proof.
  intros Hrows Hp Hr. unfold vec_get, count_at.
  destruct (Z.ltb_spec (Z.of_nat p * nRegions + Z.of_nat r) 0); [nia|].
  replace (Z.to_nat (Z.of_nat p * nRegions + Z.of_nat r))
    with (p * Z.to_nat nRegions + r)%nat by nia.
  rewrite (lookup_concat_rows _ _ _ _ Hrows Hr).
  destruct (lookup_lt_is_Some_2 rows p Hp) as [row Hrow].
  rewrite Hrow. cbn. rewrite (list_lookup_total_correct _ _ _ Hrow).
  apply list_lookup_lookup_total_lt.
  rewrite (Forall_lookup_1 _ _ _ _ Hrows Hrow). done.
Qed.

Lemma count_at_flags (counts : list (list Z)) (p r : nat) :
  (p < length counts)%nat → (r < length (counts !!! p))%nat →
  count_at (data_flags <$> counts) (p, r)
  = if count_at counts (p, r) >? 0 then 1 else 0.
Proof.
  intros Hp Hr. unfold count_at. cbn.
  destruct (lookup_lt_is_Some_2 counts p Hp) as [row Hrow].
  rewrite (list_lookup_total_correct _ _ _ Hrow) in Hr |- *.
  rewrite (list_lookup_total_correct (data_flags <$> counts) p (data_flags row))
    by (by rewrite list_lookup_fmap, Hrow).
  destruct (lookup_lt_is_Some_2 row r Hr) as [c Hc].
  rewrite (list_lookup_total_correct _ _ _ Hc).
  apply list_lookup_total_correct. unfold data_flags.
  by rewrite list_lookup_fmap, Hc.
Qed.

Lemma foldl_bump_pair {A : Type} (f g : A → nat) (evs : list A) (c1 c2 : list Z) :
  foldl (λ st e, (bump st.1 (f e), bump st.2 (g e))) (c1, c2) evs
  = (foldl bump c1 (f <$> evs), foldl bump c2 (g <$> evs)).
Proof.
  revert c1 c2. induction evs as [|e evs IH]; intros c1 c2; [done|].
  cbn. apply IH.
Qed.

Lemma filter_fmap_length {A : Type} (f : A → nat) (k : nat) (l : list A) :
  length (filter (λ k', k' = k) (f <$> l))
  = length (filter (λ e, f e = k) l).
Proof.
  induction l as [|e l IH]; [done|]. cbn [fmap list_fmap].
  destruct (decide (f e = k)).
  - rewrite !filter_cons_True by done. cbn. by rewrite IH.
  - rewrite !filter_cons_False by done. done.
Qed.

Lemma fill_tables_spec (nRegions nProcesses : Z) (counts : list (list Z)) :
  length counts = Z.to_nat nProcesses →
  Forall (λ row, length row = Z.to_nat nRegions) counts →
  ∃ pd,
    fill_tables nRegions nProcesses (concat (data_flags <$> counts)) counts
      (zero_tables nRegions nProcesses) = Some pd
    ∧ length (NumProcessesInRegion pd) = Z.to_nat nRegions
    ∧ length (ProcessList pd) = Z.to_nat nRegions
    ∧ length (CellCountList pd) = Z.to_nat nRegions
    ∧ length (NumRegionsInProcess pd) = Z.to_nat nProcesses
    ∧ length (ParallelRegionList pd) = Z.to_nat nProcesses
    ∧ (∀ r, (r < Z.to_nat nRegions)%nat →
         NumProcessesInRegion pd !! r
         = Some (Z.of_nat (length (procs_in counts nProcesses r)))
         ∧ ProcessList pd !! r = Some (Z.of_nat <$> procs_in counts nProcesses r)
         ∧ CellCountList pd !! r
           = Some ((λ p, count_at counts (p, r)) <$> procs_in counts nProcesses r))
    ∧ (∀ p, (p < Z.to_nat nProcesses)%nat →
         NumRegionsInProcess pd !! p
         = Some (Z.of_nat (length (regs_of counts nRegions p)))
         ∧ ParallelRegionList pd !! p
           = Some (Z.of_nat <$> regs_of counts nRegions p)).
Proof.
  intros Hlen Hrows.
  set (turns := proc_reg_turns nProcesses nRegions).
  set (evs := filter (λ e, has_cells counts e = true) turns).
  assert (∀ e, e ∈ turns →
            vec_get (concat (data_flags <$> counts))
              (Z.of_nat e.1 * nRegions + Z.of_nat e.2)
            = Some (if has_cells counts e then 1 else 0)) as Hflag.
  { intros [p r] He. apply elem_of_turns in He as [Hp Hr]. cbn in Hp, Hr. cbn [fst snd].
    rewrite read_rows.
    - rewrite count_at_flags; [done|lia|].
      destruct (lookup_lt_is_Some_2 counts p ltac:(lia)) as [row Hrow].
      rewrite (list_lookup_total_correct _ _ _ Hrow).
      by rewrite (Forall_lookup_1 _ _ _ _ Hrows Hrow).
    - apply Forall_fmap. eapply Forall_impl; [done|]. intros row Hrow. cbn.
      unfold data_flags. by rewrite length_fmap.
    - rewrite length_fmap. lia.
    - done. }
  assert (∀ e, e ∈ turns →
            vec_get (concat counts) (Z.of_nat e.1 * nRegions + Z.of_nat e.2)
            = Some (count_at counts e)) as Hcount.
  { intros [p r] He. apply elem_of_turns in He as [Hp Hr]. cbn in Hp, Hr.
    apply read_rows; [done|lia|done]. }
  assert (∀ e, e ∈ evs →
            (e.1 < Z.to_nat nProcesses)%nat ∧ (e.2 < Z.to_nat nRegions)%nat
            ∧ 0 < count_at counts e) as Hevs.
  { intros e He. apply list_elem_of_filter in He as [Hsel He].
    apply elem_of_turns in He as [? ?]. unfold has_cells in Hsel.
    split_and!; [done..|]. by destruct (Z.gtb_spec (count_at counts e) 0). }
  (* the counters *)
  set (inRegion := foldl bump (zeros nRegions) (snd <$> evs)).
  set (inProcess := foldl bump (zeros nProcesses) (fst <$> evs)).
  assert (fold_opt (count_turn nRegions (concat (data_flags <$> counts)))
            (zeros nRegions, zeros nProcesses) turns
          = Some (inRegion, inProcess)) as Hcounters.
  { rewrite (fold_opt_ext _ (λ st e, if has_cells counts e
        then Some ((λ st e, (bump st.1 e.2, bump st.2 e.1)) st e) else Some st)).
    - rewrite fold_opt_filter, fold_opt_total. fold evs.
      by rewrite (foldl_bump_pair snd fst).
    - intros [c1 c2] [p r] He. unfold count_turn.
      pose proof (Hflag _ He) as Hf. cbn [fst snd] in Hf. rewrite Hf. cbn.
      by destruct (has_cells counts (p, r)). }
  assert (∀ r, (r < Z.to_nat nRegions)%nat →
            inRegion !!! r = Z.of_nat (length (filter (λ e, e.2 = r) evs)))
    as HinRegion.
  { intros r Hr. unfold inRegion.
    rewrite bumps_lookup by (unfold zeros; by rewrite length_replicate).
    unfold zeros. rewrite lookup_total_replicate_2 by done.
    by rewrite filter_fmap_length. }
  assert (∀ p, (p < Z.to_nat nProcesses)%nat →
            inProcess !!! p = Z.of_nat (length (filter (λ e, e.1 = p) evs)))
    as HinProcess.
  { intros p Hp. unfold inProcess.
    rewrite bumps_lookup by (unfold zeros; by rewrite length_replicate).
    unfold zeros. rewrite lookup_total_replicate_2 by done.
    by rewrite filter_fmap_length. }
  (* the lists of processes and of regions *)
  destruct (scatter_entries snd (λ e, Z.of_nat e.1) inRegion evs evs []
              (start_lists inRegion (replicate (Z.to_nat nRegions) [])))
    as (processList & HprocessList & HprocessList_len & HprocessList_look).
  { done. }
  { apply Forall_forall. intros e He. rewrite start_lists_length.
    destruct (Hevs e He) as (? & ? & ?). split; [lia|done]. }
  { intros k. rewrite start_lists_length. apply HinRegion. }
  { intros k. rewrite start_lists_length. intros Hk.
    rewrite start_lists_lookup by done. rewrite HinRegion by done.
    by rewrite Nat2Z.id. }
  destruct (scatter_entries fst (λ e, Z.of_nat e.2) inProcess evs evs []
              (start_lists inProcess (replicate (Z.to_nat nProcesses) [])))
    as (regionList & HregionList & HregionList_len & HregionList_look).
  { done. }
  { apply Forall_forall. intros e He. rewrite start_lists_length.
    destruct (Hevs e He) as (? & ? & ?). split; [lia|done]. }
  { intros k. rewrite start_lists_length. apply HinProcess. }
  { intros k. rewrite start_lists_length. intros Hk.
    rewrite start_lists_lookup by done. rewrite HinProcess by done.
    by rewrite Nat2Z.id. }
  destruct (scatter_entries snd (count_at counts) inRegion evs evs []
              (start_lists inRegion (replicate (Z.to_nat nRegions) [])))
    as (cellCountList & HcellCountList & HcellCountList_len & HcellCountList_look).
  { done. }
  { apply Forall_forall. intros e He. rewrite start_lists_length.
    destruct (Hevs e He) as (? & ? & ?). split; [lia|done]. }
  { intros k. rewrite start_lists_length. apply HinRegion. }
  { intros k. rewrite start_lists_length. intros Hk.
    rewrite start_lists_lookup by done. rewrite HinRegion by done.
    by rewrite Nat2Z.id. }
  rewrite start_lists_length in *.
  assert (fold_opt (enter_turn nRegions (concat (data_flags <$> counts))
                      inRegion inProcess)
            (start_lists inRegion (replicate (Z.to_nat nRegions) []),
             start_lists inProcess (replicate (Z.to_nat nProcesses) [])) turns
          = Some (processList, regionList)) as Henter.
  { rewrite (fold_opt_ext _ (λ st e, if has_cells counts e
        then (λ '(a, b) e,
                a' ← add_entry_at a e.2 (inRegion !!! e.2) (Z.of_nat e.1);
                b' ← add_entry_at b e.1 (inProcess !!! e.1) (Z.of_nat e.2);
                Some (a', b')) st e
        else Some st)).
    - rewrite fold_opt_filter. fold evs.
      rewrite (fold_opt_pair
                 (λ a e, add_entry_at a e.2 (inRegion !!! e.2) (Z.of_nat e.1))
                 (λ b e, add_entry_at b e.1 (inProcess !!! e.1) (Z.of_nat e.2))).
      by rewrite HprocessList, HregionList.
    - intros [a b] [p r] He. unfold enter_turn.
      pose proof (Hflag _ He) as Hf. cbn [fst snd] in Hf. rewrite Hf. cbn.
      by destruct (has_cells counts (p, r)). }
  assert (fold_opt (cell_count_turn nRegions (concat counts) inRegion)
            (start_lists inRegion (replicate (Z.to_nat nRegions) [])) turns
          = Some cellCountList) as Hcells.
  { rewrite (fold_opt_ext _ (λ st e, if has_cells counts e
        then add_entry_at st e.2 (inRegion !!! e.2) (count_at counts e)
        else Some st)).
    - rewrite fold_opt_filter. by fold evs.
    - intros st [p r] He. unfold cell_count_turn.
      pose proof (Hcount _ He) as Hf. cbn [fst snd] in Hf. rewrite Hf. cbn.
      done. }
  eexists. unfold fill_tables. cbn [NumProcessesInRegion NumRegionsInProcess
    ProcessList ParallelRegionList CellCountList zero_tables].
  fold turns. rewrite Hcounters. cbn [mbind option_bind].
  rewrite Henter. cbn [mbind option_bind]. rewrite Hcells. cbn [mbind option_bind].
  split; [done|].
  cbn [NumProcessesInRegion NumRegionsInProcess ProcessList ParallelRegionList
       CellCountList].
  assert (length inRegion = Z.to_nat nRegions) as HlenR.
  { unfold inRegion. rewrite bumps_length. unfold zeros. by rewrite length_replicate. }
  assert (length inProcess = Z.to_nat nProcesses) as HlenP.
  { unfold inProcess. rewrite bumps_length. unfold zeros. by rewrite length_replicate. }
  split_and!; try done.
  - intros r Hr. split_and!.
    + rewrite list_lookup_lookup_total_lt by lia. rewrite HinRegion by done.
      unfold evs, turns. rewrite turns_of_region by done.
      by rewrite length_fmap.
    + rewrite HprocessList_look by done.
      unfold evs, turns. rewrite turns_of_region by done.
      by rewrite <-list_fmap_compose.
    + rewrite HcellCountList_look by done.
      unfold evs, turns. rewrite turns_of_region by done.
      by rewrite <-list_fmap_compose.
  - intros p Hp. split_and!.
    + rewrite list_lookup_lookup_total_lt by lia. rewrite HinProcess by done.
      unfold evs, turns. rewrite turns_of_process by done.
      by rewrite length_fmap.
    + rewrite HregionList_look by done.
      unfold evs, turns. rewrite turns_of_process by done.
      by rewrite <-list_fmap_compose.
Qed.

(** ** CreateProcessCellCountData *)

Lemma AllCheckForFailure_zeros {A : Type} (f : A → Z) (l : list A) :
  Forall (λ x, f x = 0) l → AllCheckForFailure (f <$> l) = 0.
Proof.
  intros H. unfold AllCheckForFailure.
  assert (foldr Z.add 0 (f <$> l) = 0) as ->; [|done].
  induction H as [|x l Hx _ IH]; [done|]. cbn. lia.
Qed.

Lemma AllCheckForFailure_one {A : Type} (f : A → Z) (l : list A) :
  Forall (λ x, f x = 0 ∨ f x = 1) l → Exists (λ x, f x = 1) l →
  AllCheckForFailure (f <$> l) = 1.
Proof.
  intros H01 H1. unfold AllCheckForFailure.
  assert (0 ≤ foldr Z.add 0 (f <$> l)) as Hnonneg.
  { clear H1. induction H01 as [|x l Hx _ IH]; cbn; lia. }
  assert (0 < foldr Z.add 0 (f <$> l)) as Hpos.
  { clear Hnonneg. induction H1 as [x l Hx|x l _ IH].
    - apply Forall_cons in H01 as [_ H01]. cbn.
      assert (0 ≤ foldr Z.add 0 (f <$> l)); [|lia].
      clear Hx. induction H01 as [|y l Hy _ IH]; cbn; lia.
    - apply Forall_cons in H01 as [Hx H01]. cbn. specialize (IH H01). lia. }
  by destruct (Z.eqb_spec (foldr Z.add 0 (f <$> l)) 0); [lia|].
Qed.

Lemma filter_seq_seqZ (Q : nat → Prop) (Q' : Z → Prop)
    `{∀ i, Decision (Q i)} `{∀ i, Decision (Q' i)} (n : Z) :
  (∀ i, (i < Z.to_nat n)%nat → Q i ↔ Q' (Z.of_nat i)) →
  Z.of_nat <$> filter Q (seq 0 (Z.to_nat n)) = filter Q' (seqZ 0 n).
Proof.
  intros HQ. unfold seqZ.
  assert (∀ l : list nat, (∀ i, i ∈ l → Q i ↔ Q' (Z.of_nat i)) →
            Z.of_nat <$> filter Q l = filter Q' ((λ i, Z.of_nat i + 0) <$> l)) as Hl.
  { induction l as [|i l IH]; intros Hi; [done|]. cbn [fmap list_fmap].
    rewrite Z.add_0_r. rewrite !filter_cons.
    rewrite <-IH by (intros j Hj; apply Hi; by right).
    destruct (decide (Q i)) as [HQi|HQi].
    - rewrite decide_True by (apply Hi; [left|done]). done.
    - rewrite decide_False; [done|]. intros HQ'. apply HQi, Hi; [left|done]. }
  apply Hl. intros i Hi. apply elem_of_seq in Hi. apply HQ. lia.
Qed.

Lemma fmap_ext_in {A B : Type} (f g : A → B) (l : list A) :
  (∀ x, x ∈ l → f x = g x) → f <$> l = g <$> l.
Proof.
  induction l as [|x l IH]; intros H; [done|].
  cbn. rewrite (H x) by left. rewrite IH; [done|]. intros y Hy. apply H. by right.
Qed.

Lemma Create_ok (t : PKdTree) (tops : list bool) (IDs : list (list Z)) :
  Forall (λ top, top = true) tops →
  length IDs = Z.to_nat (NumProcs t) →
  valid_cells (NumberOfRegions t) IDs →
  ∃ pd map,
    CreateProcessCellCountData t tops IDs
    = Some (set_DataLocationMap map t, pd, 0)
    ∧ tables_of t IDs pd
    ∧ length map = (Z.to_nat (NumProcs t) * Z.to_nat (NumberOfRegions t))%nat
    ∧ ∀ p r, 0 ≤ p < NumProcs t → 0 ≤ r < NumberOfRegions t →
        map !! Z.to_nat (NumberOfRegions t * p + r)
        = Some (if 0 <? cells_in IDs p r then 1 else 0).
Proof.
  intros Htops Hlen Hvalid.
  set (nR := NumberOfRegions t). set (nP := NumProcs t).
  set (t0 := set_DataLocationMap (zeros (nR * nP)) t).
  set (counts := default [] <$> (CollectLocalRegionProcessData t0 <$> IDs)).
  assert (∀ p ids, IDs !! p = Some ids →
            ∃ row, CollectLocalRegionProcessData t0 ids = Some row
                   ∧ counts !! p = Some row
                   ∧ length row = Z.to_nat nR
                   ∧ ∀ r, 0 ≤ r < nR → row !! Z.to_nat r = Some (cells_of ids r))
    as Hrow.
  { intros p ids Hids.
    destruct (Collect_lookup t0 ids) as (row & Hc & Hl & Hlook).
    { apply (Forall_lookup_1 _ _ _ _ Hvalid Hids). }
    exists row. split_and!; try done.
    unfold counts. by rewrite !list_lookup_fmap, Hids; cbn; rewrite Hc. }
  assert (length counts = Z.to_nat nP) as Hcounts_len.
  { unfold counts. by rewrite !length_fmap. }
  assert (Forall (λ row, length row = Z.to_nat nR) counts) as Hrows.
  { apply Forall_lookup. intros p row Hp.
    destruct (lookup_lt_is_Some_2 IDs p) as [ids Hids].
    { apply lookup_lt_Some in Hp. lia. }
    destruct (Hrow p ids Hids) as (row' & _ & Hp' & Hl & _). congruence. }
  assert (∀ p r, (p < Z.to_nat nP)%nat → (r < Z.to_nat nR)%nat →
            count_at counts (p, r) = cells_in IDs (Z.of_nat p) (Z.of_nat r))
    as Hcount.
  { intros p r Hp Hr. unfold count_at, cells_in. cbn [fst snd].
    destruct (lookup_lt_is_Some_2 IDs p ltac:(lia)) as [ids Hids].
    destruct (Hrow p ids Hids) as (row & _ & Hp' & _ & Hlook).
    rewrite (list_lookup_total_correct _ _ _ Hp'). rewrite Nat2Z.id.
    rewrite (list_lookup_total_correct _ _ _ Hids).
    apply list_lookup_total_correct. rewrite <-(Nat2Z.id r) at 1.
    apply Hlook. lia. }
  assert (∀ p r, (p < Z.to_nat nP)%nat → (r < Z.to_nat nR)%nat →
            has_cells counts (p, r) = true
            ↔ 0 < cells_in IDs (Z.of_nat p) (Z.of_nat r)) as Hhas.
  { intros p r Hp Hr. unfold has_cells. rewrite Hcount by done.
    destruct (Z.gtb_spec (cells_in IDs (Z.of_nat p) (Z.of_nat r)) 0);
      split; (done || lia). }
  destruct (fill_tables_spec nR nP counts Hcounts_len Hrows)
    as (pd & Hfill & HL1 & HL2 & HL3 & HL4 & HL5 & Hreg & Hproc).
  exists pd, (concat (data_flags <$> counts)).
  split_and!.
  - unfold CreateProcessCellCountData. cbn zeta.
    unfold AllocateAndZeroProcessDataLists. fold nR nP. fold t0.
    rewrite AllCheckForFailure_zeros
      by (eapply Forall_impl; [exact Htops|]; by intros ? ->).
    cbn [Z.eqb negb].
    rewrite (AllCheckForFailure_zeros
               (λ c : option (list Z), match c with Some _ => 0 | None => 1 end)).
    + cbn [Z.eqb negb]. fold counts. fold (zero_tables nR nP).
      rewrite Hfill. done.
    + apply Forall_fmap, Forall_lookup. intros p ids Hids. cbn.
      destruct (Hrow p ids Hids) as (row & -> & _). done.
  - unfold tables_of. fold nR nP. split_and!; try done.
    + intros r Hr. destruct (Hreg (Z.to_nat r) ltac:(lia)) as (H1 & H2 & H3).
      assert (Z.of_nat <$> procs_in counts nP (Z.to_nat r)
              = processes_with_data IDs nP r) as Hprocs.
      { unfold procs_in, processes_with_data. apply filter_seq_seqZ.
        intros p Hp. rewrite Hhas by lia. by rewrite Z2Nat.id by lia. }
      split_and!.
      * rewrite H1. by rewrite <-Hprocs, length_fmap.
      * by rewrite H2, Hprocs.
      * rewrite H3, <-Hprocs, <-list_fmap_compose. f_equal.
        apply fmap_ext_in. intros p Hp. unfold compose.
        apply list_elem_of_filter in Hp as [_ Hp]. apply elem_of_seq in Hp.
        rewrite Hcount by lia. by rewrite Z2Nat.id by lia.
    + intros p Hp. destruct (Hproc (Z.to_nat p) ltac:(lia)) as (H1 & H2).
      assert (Z.of_nat <$> regs_of counts nR (Z.to_nat p)
              = regions_with_data IDs nR p) as Hregs.
      { unfold regs_of, regions_with_data. apply filter_seq_seqZ.
        intros r Hr. rewrite Hhas by lia. by rewrite Z2Nat.id by lia. }
      split_and!.
      * rewrite H1. by rewrite <-Hregs, length_fmap.
      * by rewrite H2, Hregs.
  - clear -Hrows Hcounts_len.
    assert (∀ rows : list (list Z), Forall (λ row, length row = Z.to_nat nR) rows →
              length (concat (data_flags <$> rows))
              = (length rows * Z.to_nat nR)%nat) as Hc.
    { induction 1 as [|row rows Hr _ IH]; [done|].
      cbn. rewrite length_app, IH. unfold data_flags. rewrite length_fmap. lia. }
    rewrite Hc by done. lia.
  - intros p r Hp Hr.
    pose proof (read_rows nR (data_flags <$> counts) (Z.to_nat p) (Z.to_nat r))
      as Hread.
    unfold vec_get in Hread.
    destruct (Z.ltb_spec (Z.of_nat (Z.to_nat p) * nR + Z.of_nat (Z.to_nat r)) 0);
      [nia|].
    replace (Z.to_nat (nR * p + r))
      with (Z.to_nat (Z.of_nat (Z.to_nat p) * nR + Z.of_nat (Z.to_nat r))) by nia.
    rewrite Hread.
    + rewrite count_at_flags.
      * rewrite Hcount by lia. rewrite !Z2Nat.id by lia.
        by rewrite Z.gtb_ltb.
      * lia.
      * destruct (lookup_lt_is_Some_2 counts (Z.to_nat p) ltac:(lia)) as [row Hrow'].
        rewrite (list_lookup_total_correct _ _ _ Hrow').
        rewrite (Forall_lookup_1 _ _ _ _ Hrows Hrow'). lia.
    + apply Forall_fmap. eapply Forall_impl; [done|]. intros row Hrow'. cbn.
      unfold data_flags. by rewrite length_fmap.
    + rewrite length_fmap. lia.
    + lia.
Qed.

(** ** Queries on the tables *)

Lemma find_in_row_found (fuel : nat) (row : list Z) (n id : Z) (k i : nat) :
  row !! i = Some id → (∀ j, (k ≤ j < i)%nat → row !! j ≠ Some id) →
  (k ≤ i)%nat → Z.of_nat i < n → (i - k < fuel)%nat →
  find_in_row fuel row n id (Z.of_nat k) = Some (Z.of_nat i).
Proof.
  revert k. induction fuel as [|fuel IH]; intros k Hi Hfirst Hk Hn Hfuel; [lia|].
  cbn [find_in_row]. destruct (Z.ltb_spec (Z.of_nat k) n); [|lia].
  unfold vec_get. destruct (Z.ltb_spec (Z.of_nat k) 0); [lia|]. rewrite Nat2Z.id.
  destruct (decide (k = i)) as [->|Hne].
  - rewrite Hi. cbn. by rewrite Z.eqb_refl.
  - destruct (lookup_lt_is_Some_2 row k) as [v Hv].
    { apply lookup_lt_Some in Hi. lia. }
    rewrite Hv. cbn. destruct (Z.eqb_spec v id) as [->|_].
    + exfalso. by apply (Hfirst k ltac:(lia)).
    + replace (Z.of_nat k + 1) with (Z.of_nat (S k)) by lia.
      apply IH; try done; try lia. intros j Hj. apply Hfirst. lia.
Qed.

Lemma find_in_row_missing (fuel : nat) (row : list Z) (id : Z) (k : nat) :
  id ∉ row → (k ≤ length row)%nat → (length row - k < fuel)%nat →
  find_in_row fuel row (Z.of_nat (length row)) id (Z.of_nat k) = Some (-1).
Proof.
  intros Hid. revert k. induction fuel as [|fuel IH]; intros k Hk Hfuel; [lia|].
  cbn [find_in_row]. destruct (Z.ltb_spec (Z.of_nat k) (Z.of_nat (length row))); [|done].
  unfold vec_get. destruct (Z.ltb_spec (Z.of_nat k) 0); [lia|]. rewrite Nat2Z.id.
  destruct (lookup_lt_is_Some_2 row k ltac:(lia)) as [v Hv].
  rewrite Hv. cbn. destruct (Z.eqb_spec v id) as [->|_].
  - exfalso. apply Hid. by eapply list_elem_of_lookup_2.
  - replace (Z.of_nat k + 1) with (Z.of_nat (S k)) by lia. apply IH; lia.
Qed.

Lemma find_iam_found (fuel : nat) (row : list Z) (n id : Z) (k i : nat) :
  row !! i = Some id → (∀ j, (k ≤ j < i)%nat → row !! j ≠ Some id) →
  (k ≤ i)%nat → Z.of_nat i < n → (i - k < fuel)%nat →
  find_iam fuel row n id (Z.of_nat k) = Some (Z.of_nat i).
Proof.
  revert k. induction fuel as [|fuel IH]; intros k Hi Hfirst Hk Hn Hfuel; [lia|].
  cbn [find_iam]. destruct (Z.ltb_spec (Z.of_nat k) n); [|lia].
  unfold vec_get. destruct (Z.ltb_spec (Z.of_nat k) 0); [lia|]. rewrite Nat2Z.id.
  destruct (decide (k = i)) as [->|Hne].
  - rewrite Hi. cbn. by rewrite Z.eqb_refl.
  - destruct (lookup_lt_is_Some_2 row k) as [v Hv].
    { apply lookup_lt_Some in Hi. lia. }
    rewrite Hv. cbn. destruct (Z.eqb_spec v id) as [->|_].
    + exfalso. by apply (Hfirst k ltac:(lia)).
    + replace (Z.of_nat k + 1) with (Z.of_nat (S k)) by lia.
      apply IH; try done; try lia. intros j Hj. apply Hfirst. lia.
Qed.

Lemma NoDup_processes_with_data (IDs : list (list Z)) (nProcesses r : Z) :
  NoDup (processes_with_data IDs nProcesses r).
Proof. apply NoDup_filter, NoDup_seqZ. Qed.

Lemma elem_of_processes_with_data (IDs : list (list Z)) (nProcesses r p : Z) :
  p ∈ processes_with_data IDs nProcesses r
  ↔ 0 ≤ p < nProcesses ∧ 0 < cells_in IDs p r.
Proof.
  unfold processes_with_data. rewrite list_elem_of_filter, elem_of_seqZ. lia.
Qed.

Lemma elem_of_regions_with_data (IDs : list (list Z)) (nRegions p r : Z) :
  r ∈ regions_with_data IDs nRegions p
  ↔ 0 ≤ r < nRegions ∧ 0 < cells_in IDs p r.
Proof.
  unfold regions_with_data. rewrite list_elem_of_filter, elem_of_seqZ. lia.
Qed.

(** Where [x] is in a list without duplicates. *)
Lemma NoDup_position {A : Type} (l : list A) (x : A) :
  NoDup l → x ∈ l →
  ∃ i, l !! i = Some x ∧ ∀ j, (j < i)%nat → l !! j ≠ Some x.
Proof.
  intros Hnd Hx. apply list_elem_of_lookup_1 in Hx as [i Hi].
  exists i. split; [done|]. intros j Hj Hj'.
  pose proof (NoDup_lookup _ _ _ _ Hnd Hi Hj'). lia.
Qed.

Lemma read_row_all (table : list (list Z)) (k : Z) (row : list Z) :
  0 ≤ k → table !! Z.to_nat k = Some row →
  read_row table k (Z.of_nat (length row)) = Some row.
Proof.
  intros Hk Hrow. unfold read_row. destruct (Z.ltb_spec k 0); [lia|].
  rewrite Hrow. cbn. destruct (Z.leb_spec (Z.of_nat (length row)) 0).
  - destruct row; [done|cbn in *; lia].
  - destruct (Z.gtb_spec (Z.of_nat (length row)) (Z.of_nat (length row))); [lia|].
    by rewrite Nat2Z.id, take_ge.
Qed.

Lemma read_row_some (table : list (list Z)) (k n : Z) (row : list Z) :
  0 ≤ k → table !! Z.to_nat k = Some row → n ≤ Z.of_nat (length row) →
  read_row table k n = Some (take (Z.to_nat n) row).
Proof.
  intros Hk Hrow Hn. unfold read_row. destruct (Z.ltb_spec k 0); [lia|].
  rewrite Hrow. cbn. destruct (Z.leb_spec n 0).
  - by replace (Z.to_nat n) with 0%nat by lia.
  - by destruct (Z.gtb_spec n (Z.of_nat (length row))); [lia|].
Qed.

Lemma mapM_values {A B : Type} (f : A → option B) (g : A → B) (l : list A) :
  (∀ x, x ∈ l → f x = Some (g x)) → mapM f l = Some (g <$> l).
Proof.
  induction l as [|x l IH]; intros H; [done|].
  cbn. rewrite (H x) by left. cbn. rewrite IH; [done|].
  intros y Hy. apply H. by right.
Qed.

Lemma fmap_seq_take {A B : Type} `{Inhabited A} (f : A → B) (l : list A) (n : nat) :
  (n ≤ length l)%nat →
  (λ i, f (l !!! i)) <$> seq 0 n = take n (f <$> l).
Proof.
  induction n as [|n IH]; intros Hn; [done|].
  rewrite seq_S, fmap_app, IH by lia. cbn.
  destruct (lookup_lt_is_Some_2 l n ltac:(lia)) as [x Hx].
  rewrite (take_S_r _ _ (f x)) by (by rewrite list_lookup_fmap, Hx).
  by rewrite (list_lookup_total_correct _ _ _ Hx).
Qed.

Lemma vec_get_nat (v : list Z) (i : Z) :
  0 ≤ i → vec_get v i = v !! Z.to_nat i.
Proof. intros Hi. unfold vec_get. by destruct (Z.ltb_spec i 0); [lia|]. Qed.

Section TableQueries.
Variables (t : PKdTree) (IDs : list (list Z)) (pd : ProcessData).
Hypothesis Htables : tables_of t IDs pd.

Lemma tables_region_nonempty (r : Z) :
  0 ≤ r < NumberOfRegions t →
  NumProcessesInRegion pd ≠ [] ∧ ProcessList pd ≠ [] ∧ CellCountList pd ≠ [].
Proof.
  intros Hr. destruct Htables as (H1 & H2 & H3 & _).
  split_and!; intros Hnil; rewrite Hnil in *; cbn in *; lia.
Qed.

Lemma tables_process_nonempty (p : Z) :
  0 ≤ p < NumProcs t →
  NumRegionsInProcess pd ≠ [] ∧ ParallelRegionList pd ≠ [].
Proof.
  intros Hr. destruct Htables as (_ & _ & _ & H4 & H5 & _).
  split_and!; intros Hnil; rewrite Hnil in *; cbn in *; lia.
Qed.

Lemma GetTotalProcessesInRegion_ok (r : Z) :
  0 ≤ r < NumberOfRegions t →
  GetTotalProcessesInRegion t pd r
  = Some (Z.of_nat (length (processes_with_data IDs (NumProcs t) r))).
Proof.
  intros Hr. destruct (tables_region_nonempty r Hr) as (Hne & _).
  destruct Htables as (_ & _ & _ & _ & _ & Hreg & _).
  destruct (Hreg r Hr) as (Hn & _).
  unfold GetTotalProcessesInRegion. rewrite bool_decide_eq_false_2 by done.
  destruct (Z.ltb_spec r 0); [lia|].
  destruct (Z.geb_spec r (NumberOfRegions t)); [lia|]. cbn.
  unfold vec_get. by destruct (Z.ltb_spec r 0); [lia|].
Qed.

Lemma GetProcessListForRegion_ok (r : Z) (processes : list Z) :
  0 ≤ r < NumberOfRegions t →
  GetProcessListForRegion t pd r processes
  = Some (Z.of_nat (length (processes_with_data IDs (NumProcs t) r)),
          processes ++ processes_with_data IDs (NumProcs t) r).
Proof.
  intros Hr. destruct (tables_region_nonempty r Hr) as (_ & Hne & _).
  destruct Htables as (_ & _ & _ & _ & _ & Hreg & _).
  destruct (Hreg r Hr) as (Hn & Hl & _).
  unfold GetProcessListForRegion. rewrite bool_decide_eq_false_2 by done.
  destruct (Z.ltb_spec r 0); [lia|].
  destruct (Z.geb_spec r (NumberOfRegions t)); [lia|]. cbn.
  unfold vec_get. destruct (Z.ltb_spec r 0); [lia|]. rewrite Hn. cbn.
  erewrite read_row_all; [done|lia|exact Hl].
Qed.

Lemma GetProcessesCellCountForRegion_ok (r len : Z) :
  0 ≤ r < NumberOfRegions t → 0 ≤ len →
  GetProcessesCellCountForRegion t pd r len
  = Some (Z.min len (Z.of_nat (length (processes_with_data IDs (NumProcs t) r))),
          take (Z.to_nat len)
            ((λ p, cells_in IDs p r) <$> processes_with_data IDs (NumProcs t) r)).
Proof.
  intros Hr Hlen. destruct (tables_region_nonempty r Hr) as (_ & _ & Hne).
  destruct Htables as (_ & _ & _ & _ & _ & Hreg & _).
  destruct (Hreg r Hr) as (Hn & _ & Hc).
  unfold GetProcessesCellCountForRegion. rewrite bool_decide_eq_false_2 by done.
  destruct (Z.ltb_spec r 0); [lia|].
  destruct (Z.geb_spec r (NumberOfRegions t)); [lia|]. cbn.
  unfold vec_get. destruct (Z.ltb_spec r 0); [lia|]. rewrite Hn. cbn.
  set (L := processes_with_data IDs (NumProcs t) r) in *.
  destruct (Z.ltb_spec len (Z.of_nat (length L))).
  - erewrite read_row_some; [|lia|exact Hc|rewrite length_fmap; lia].
    cbn. by rewrite Z.min_l by lia.
  - erewrite read_row_some; [|lia|exact Hc|rewrite length_fmap; lia].
    cbn. rewrite Z.min_r by lia. rewrite Nat2Z.id.
    rewrite !take_ge by (rewrite length_fmap; lia). done.
Qed.

Lemma GetProcessCellCountForRegion_ok (p r : Z) :
  0 ≤ p < NumProcs t → 0 ≤ r < NumberOfRegions t →
  GetProcessCellCountForRegion t pd p r = Some (cells_in IDs p r).
Proof.
  intros Hp Hr. destruct (tables_region_nonempty r Hr) as (_ & _ & Hne).
  destruct Htables as (_ & _ & _ & _ & _ & Hreg & _).
  destruct (Hreg r Hr) as (Hn & Hl & Hc).
  unfold GetProcessCellCountForRegion. rewrite bool_decide_eq_false_2 by done.
  destruct (Z.ltb_spec r 0); [lia|].
  destruct (Z.geb_spec r (NumberOfRegions t)); [lia|].
  destruct (Z.ltb_spec p 0); [lia|].
  destruct (Z.geb_spec p (NumProcs t)); [lia|]. cbn.
  rewrite (vec_get_nat _ r), Hn by lia. cbn.
  rewrite Hl. cbn. rewrite Nat2Z.id.
  set (L := processes_with_data IDs (NumProcs t) r) in *.
  destruct (decide (p ∈ L)) as [Hin|Hout].
  - destruct (NoDup_position L p (NoDup_processes_with_data _ _ _) Hin)
      as (i & Hi & Hfirst).
    rewrite (find_in_row_found _ _ _ _ 0 i Hi).
    + cbn. destruct (Z.eqb_spec (Z.of_nat i) (-1)); [lia|].
      rewrite Hc. cbn. rewrite vec_get_nat by lia.
      by rewrite Nat2Z.id, list_lookup_fmap, Hi.
    + intros j Hj. apply Hfirst. lia.
    + lia.
    + apply lookup_lt_Some in Hi. lia.
    + apply lookup_lt_Some in Hi. lia.
  - rewrite (find_in_row_missing _ _ _ 0 Hout) by lia. cbn.
    unfold L in Hout. rewrite elem_of_processes_with_data in Hout.
    assert (0 ≤ cells_in IDs p r) by (unfold cells_in, cells_of; lia).
    f_equal. lia.
Qed.

Lemma GetTotalRegionsForProcess_ok (p : Z) :
  0 ≤ p < NumProcs t →
  GetTotalRegionsForProcess t pd p
  = Some (Z.of_nat (length (regions_with_data IDs (NumberOfRegions t) p))).
Proof.
  intros Hp. destruct (tables_process_nonempty p Hp) as (Hne & _).
  destruct Htables as (_ & _ & _ & _ & _ & _ & Hproc).
  destruct (Hproc p Hp) as (Hn & _).
  unfold GetTotalRegionsForProcess. rewrite bool_decide_eq_false_2 by done.
  destruct (Z.ltb_spec p 0); [lia|].
  destruct (Z.geb_spec p (NumProcs t)); [lia|]. cbn.
  unfold vec_get. by destruct (Z.ltb_spec p 0); [lia|].
Qed.

Lemma GetRegionListForProcess_ok (p : Z) (regions : list Z) :
  0 ≤ p < NumProcs t →
  GetRegionListForProcess t pd p regions
  = Some (Z.of_nat (length (regions_with_data IDs (NumberOfRegions t) p)),
          regions ++ regions_with_data IDs (NumberOfRegions t) p).
Proof.
  intros Hp. destruct (tables_process_nonempty p Hp) as (_ & Hne).
  destruct Htables as (_ & _ & _ & _ & _ & _ & Hproc).
  destruct (Hproc p Hp) as (Hn & Hl).
  unfold GetRegionListForProcess. rewrite bool_decide_eq_false_2 by done.
  destruct (Z.ltb_spec p 0); [lia|].
  destruct (Z.geb_spec p (NumProcs t)); [lia|]. cbn.
  unfold vec_get. destruct (Z.ltb_spec p 0); [lia|]. rewrite Hn. cbn.
  erewrite read_row_all; [done|lia|exact Hl].
Qed.

Lemma GetRegionsCellCountForProcess_ok (p len : Z) :
  0 ≤ p < NumProcs t → 0 ≤ len →
  GetRegionsCellCountForProcess t pd p len
  = Some (Z.min len (Z.of_nat (length (regions_with_data IDs (NumberOfRegions t) p))),
          take (Z.to_nat len)
            ((λ r, cells_in IDs p r) <$> regions_with_data IDs (NumberOfRegions t) p)).
Proof.
  intros Hp Hlen.
  set (L := regions_with_data IDs (NumberOfRegions t) p).
  assert (L ≠ [] → CellCountList pd ≠ []) as Hne.
  { intros HL Hnil. destruct Htables as (_ & _ & H3 & _).
    destruct L as [|r L'] eqn:HeqL; [done|].
    assert (r ∈ L) as Hr by (rewrite HeqL; left).
    apply elem_of_regions_with_data in Hr as [Hr _].
    rewrite Hnil in H3. cbn in H3. lia. }
  pose proof Htables as (_ & _ & _ & _ & _ & Hreg & Hproc).
  destruct (Hproc p Hp) as (Hn & Hl). fold L in Hn, Hl.
  unfold GetRegionsCellCountForProcess.
  destruct (decide (CellCountList pd = [])) as [Hnil|Hfull].
  { rewrite bool_decide_eq_true_2 by done. cbn.
    destruct L; [|exfalso; by apply Hne]. cbn. rewrite Z.min_r by lia.
    by rewrite take_nil. }
  rewrite bool_decide_eq_false_2 by done.
  destruct (Z.ltb_spec p 0); [lia|].
  destruct (Z.geb_spec p (NumProcs t)); [lia|]. cbn.
  rewrite (vec_get_nat _ p), Hn by lia. cbn.
  rewrite Hl. cbn.
  set (n := if len <? Z.of_nat (length L) then len else Z.of_nat (length L)).
  assert (n = Z.min len (Z.of_nat (length L))) as Hmin.
  { unfold n. destruct (Z.ltb_spec len (Z.of_nat (length L))); lia. }
  rewrite (mapM_values _ (λ i, cells_in IDs p (L !!! i))).
  - cbn. rewrite Hmin. f_equal. f_equal.
    rewrite (fmap_seq_take (λ r, cells_in IDs p r)) by lia.
    destruct (Z.ltb_spec len (Z.of_nat (length L))).
    + by rewrite Z.min_l by lia.
    + rewrite Z.min_r, Nat2Z.id by lia.
      rewrite !take_ge by (rewrite length_fmap; lia). done.
  - intros i Hi. apply elem_of_seq in Hi.
    destruct (lookup_lt_is_Some_2 L i ltac:(lia)) as [r Hr].
    rewrite (list_lookup_total_correct _ _ _ Hr).
    assert (r ∈ L) as Hin by (by eapply list_elem_of_lookup_2).
    apply elem_of_regions_with_data in Hin as [Hr_range Hcells].
    destruct (Hreg r Hr_range) as (Hn' & Hl' & Hc').
    rewrite (vec_get_nat _ (Z.of_nat i)) by lia.
    rewrite Nat2Z.id, Hr. cbn.
    rewrite (vec_get_nat _ r), Hn' by lia. cbn.
    destruct (Z.ltb_spec r 0); [lia|]. rewrite Hl'. cbn. rewrite Nat2Z.id.
    assert (p ∈ processes_with_data IDs (NumProcs t) r) as Hpin
      by (by apply elem_of_processes_with_data).
    destruct (NoDup_position _ p (NoDup_processes_with_data _ _ _) Hpin)
      as (k & Hk & Hfirst).
    rewrite (find_iam_found _ _ _ _ 0 k Hk).
    + cbn. rewrite Hc'. cbn. rewrite vec_get_nat by lia.
      by rewrite Nat2Z.id, list_lookup_fmap, Hk.
    + intros j Hj. apply Hfirst. lia.
    + lia.
    + apply lookup_lt_Some in Hk. lia.
    + apply lookup_lt_Some in Hk. lia.
Qed.

End TableQueries.

Lemma Create_fails (t : PKdTree) (tops : list bool) (IDs : list (list Z)) :
  Exists (λ top, top = false) tops
  ∨ Exists (Exists (λ id, id < 0 ∨ NumberOfRegions t ≤ id)) IDs →
  CreateProcessCellCountData t tops IDs
  = Some (set_DataLocationMap [] t, empty_tables, 1).
Proof.
  intros Hfail. unfold CreateProcessCellCountData. cbn zeta.
  unfold AllocateAndZeroProcessDataLists.
  set (t0 := set_DataLocationMap _ t).
  assert (FreeProcessDataLists t0 = (set_DataLocationMap [] t, empty_tables)) as Hfree
    by done.
  destruct (decide (Exists (λ top, top = false) tops)) as [Htop|Htop].
  - rewrite AllCheckForFailure_one.
    + cbn [Z.eqb negb]. by rewrite Hfree.
    + apply Forall_forall. intros [] _; [by left|by right].
    + eapply Exists_impl; [exact Htop|]. by intros ? ->.
  - destruct Hfail as [?|Hids]; [done|].
    rewrite AllCheckForFailure_zeros.
    + cbn [Z.eqb negb].
      rewrite (AllCheckForFailure_one
                 (λ c : option (list Z), match c with Some _ => 0 | None => 1 end)).
      * cbn [Z.eqb negb]. by rewrite Hfree.
      * apply Forall_forall. intros [] _; [by left|by right].
      * apply Exists_fmap. eapply Exists_impl; [exact Hids|].
        intros ids Hbad. cbn.
        by rewrite (CollectLocalRegionProcessData_None t0 ids Hbad).
    + apply Forall_forall. intros top Hin.
      destruct top; [done|]. exfalso. apply Htop, Exists_exists. by exists false.
Qed.

Lemma HasData_map (t : PKdTree) (IDs : list (list Z)) (map : list Z) (p r : Z) :
  length map = (Z.to_nat (NumProcs t) * Z.to_nat (NumberOfRegions t))%nat →
  map !! Z.to_nat (NumberOfRegions t * p + r)
  = Some (if 0 <? cells_in IDs p r then 1 else 0) →
  0 ≤ p < NumProcs t → 0 ≤ r < NumberOfRegions t →
  HasData (set_DataLocationMap map t) p r
  = if 0 <? cells_in IDs p r then 1 else 0.
Proof.
  intros Hlen Hlook Hp Hr. unfold HasData.
  cbn [DataLocationMap NumProcs NumberOfRegions set_DataLocationMap].
  rewrite bool_decide_eq_false_2 by (intros ->; cbn in Hlen; nia).
  destruct (Z.ltb_spec p 0); [lia|]. destruct (Z.geb_spec p (NumProcs t)); [lia|].
  destruct (Z.ltb_spec r 0); [lia|].
  destruct (Z.geb_spec r (NumberOfRegions t)); [lia|]. cbn.
  by apply list_lookup_total_correct.
Qed.

(** After a run of CreateProcessCellCountData in which every process has a
    tree and every cell lies in a region of the tree, HasData says for every
    process and region whether the process has a cell in the region, and
    GetProcessCellCountForRegion gives the number of its cells there. *)
Theorem CreateProcessCellCountData_counts (t : PKdTree) (tops : list bool)
    (IDs : list (list Z)) :
  Forall (λ top, top = true) tops →
  length IDs = Z.to_nat (NumProcs t) →
  valid_cells (NumberOfRegions t) IDs →
  ∃ t' pd,
    CreateProcessCellCountData t tops IDs = Some (t', pd, 0)
    ∧ ∀ p r, 0 ≤ p < NumProcs t → 0 ≤ r < NumberOfRegions t →
        HasData t' p r = (if 0 <? cells_in IDs p r then 1 else 0)
        ∧ GetProcessCellCountForRegion t' pd p r = Some (cells_in IDs p r).
Proof.
  intros Htops Hlen Hvalid.
  destruct (Create_ok t tops IDs Htops Hlen Hvalid)
    as (pd & map & Hrun & Htab & Hmlen & Hmap).
  exists (set_DataLocationMap map t), pd. split; [done|].
  intros p r Hp Hr. split.
  - by apply HasData_map; [|apply Hmap|..].
  - by apply (GetProcessCellCountForRegion_ok (set_DataLocationMap map t) IDs pd).
Qed.

(** After such a run the queries on a region [r] give the processes with a
    cell in [r] in ascending order: GetTotalProcessesInRegion their number,
    GetProcessListForRegion their ids, appended to the array, and
    GetProcessesCellCountForRegion the cell counts of the first [len] of
    them, in the same order. *)
Theorem CreateProcessCellCountData_region_queries (t : PKdTree)
    (tops : list bool) (IDs : list (list Z)) :
  Forall (λ top, top = true) tops →
  length IDs = Z.to_nat (NumProcs t) →
  valid_cells (NumberOfRegions t) IDs →
  ∃ t' pd,
    CreateProcessCellCountData t tops IDs = Some (t', pd, 0)
    ∧ ∀ r, 0 ≤ r < NumberOfRegions t →
        let processes := processes_with_data IDs (NumProcs t) r in
        let n := Z.of_nat (length processes) in
        GetTotalProcessesInRegion t' pd r = Some n
        ∧ (∀ list, GetProcessListForRegion t' pd r list
                   = Some (n, list ++ processes))
        ∧ (∀ len, 0 ≤ len →
             GetProcessesCellCountForRegion t' pd r len
             = Some (Z.min len n,
                     take (Z.to_nat len) ((λ p, cells_in IDs p r) <$> processes))).
Proof.
  intros Htops Hlen Hvalid.
  destruct (Create_ok t tops IDs Htops Hlen Hvalid)
    as (pd & map & Hrun & Htab & Hmlen & Hmap).
  exists (set_DataLocationMap map t), pd. split; [done|].
  intros r Hr. cbn zeta. split_and!.
  - by apply (GetTotalProcessesInRegion_ok (set_DataLocationMap map t) IDs pd).
  - intros list.
    by apply (GetProcessListForRegion_ok (set_DataLocationMap map t) IDs pd).
  - intros len Hl.
    by apply (GetProcessesCellCountForRegion_ok (set_DataLocationMap map t) IDs pd).
Qed.

(** After such a run the queries on a process [p] give the regions in which
    [p] has a cell in ascending order: GetTotalRegionsForProcess their
    number, GetRegionListForProcess their ids, appended to the array, and
    GetRegionsCellCountForProcess the cell counts of [p] in the first [len]
    of them, in the same order. *)
Theorem CreateProcessCellCountData_process_queries (t : PKdTree)
    (tops : list bool) (IDs : list (list Z)) :
  Forall (λ top, top = true) tops →
  length IDs = Z.to_nat (NumProcs t) →
  valid_cells (NumberOfRegions t) IDs →
  ∃ t' pd,
    CreateProcessCellCountData t tops IDs = Some (t', pd, 0)
    ∧ ∀ p, 0 ≤ p < NumProcs t →
        let regions := regions_with_data IDs (NumberOfRegions t) p in
        let n := Z.of_nat (length regions) in
        GetTotalRegionsForProcess t' pd p = Some n
        ∧ (∀ list, GetRegionListForProcess t' pd p list
                   = Some (n, list ++ regions))
        ∧ (∀ len, 0 ≤ len →
             GetRegionsCellCountForProcess t' pd p len
             = Some (Z.min len n,
                     take (Z.to_nat len) ((λ r, cells_in IDs p r) <$> regions))).
Proof.
  intros Htops Hlen Hvalid.
  destruct (Create_ok t tops IDs Htops Hlen Hvalid)
    as (pd & map & Hrun & Htab & Hmlen & Hmap).
  exists (set_DataLocationMap map t), pd. split; [done|].
  intros p Hp. cbn zeta. split_and!.
  - by apply (GetTotalRegionsForProcess_ok (set_DataLocationMap map t) IDs pd).
  - intros list.
    by apply (GetRegionListForProcess_ok (set_DataLocationMap map t) IDs pd).
  - intros len Hl.
    by apply (GetRegionsCellCountForProcess_ok (set_DataLocationMap map t) IDs pd).
Qed.

(** A process without a tree, or a cell whose region is no region of the
    tree, makes CreateProcessCellCountData return 1 on every process with
    all tables freed; every query on the tables then returns 0 and leaves
    the array it was given as it is. *)
Theorem CreateProcessCellCountData_fails (t : PKdTree) (tops : list bool)
    (IDs : list (list Z)) :
  Exists (λ top, top = false) tops
  ∨ Exists (Exists (λ id, id < 0 ∨ NumberOfRegions t ≤ id)) IDs →
  ∃ t' pd,
    CreateProcessCellCountData t tops IDs = Some (t', pd, 1)
    ∧ DataLocationMap t' = [] ∧ pd = empty_tables
    ∧ ∀ p r len list,
        HasData t' p r = 0
        ∧ GetTotalProcessesInRegion t' pd r = Some 0
        ∧ GetProcessListForRegion t' pd r list = Some (0, list)
        ∧ GetProcessesCellCountForRegion t' pd r len = Some (0, [])
        ∧ GetProcessCellCountForRegion t' pd p r = Some 0
        ∧ GetTotalRegionsForProcess t' pd p = Some 0
        ∧ GetRegionListForProcess t' pd p list = Some (0, list)
        ∧ GetRegionsCellCountForProcess t' pd p len = Some (0, []).
Proof.
  intros Hfail. exists (set_DataLocationMap [] t), empty_tables.
  split; [by apply Create_fails|]. split_and!; try done.
Qed.

(** Three ids into a list of two slots: the third is dropped. *)
Lemma AddEntry_fills_witness :
  fold_opt (λ l id, AddEntry l 2 id) [-1; 0] [7; 5; 9] = Some [7; 5].
Proof.
  apply (AddEntry_fills [7; 5; 9] 2). repeat constructor; lia.
Defined.

(** Five cells in a tree of three regions. *)
Lemma CollectLocalRegionProcessData_counts_witness :
  ∃ cellCounts,
    CollectLocalRegionProcessData (built_tree 2 3) [0; 2; 2; 1; 2]
    = Some cellCounts
    ∧ cellCounts
      = (λ r, cells_of [0; 2; 2; 1; 2] r) <$> seqZ 0 (NumberOfRegions (built_tree 2 3))
    ∧ foldr Z.add 0 cellCounts = 5.
Proof.
  apply (CollectLocalRegionProcessData_counts (built_tree 2 3) [0; 2; 2; 1; 2]).
  repeat constructor; cbn; lia.
Defined.

Lemma two_processes_valid :
  valid_cells (NumberOfRegions (built_tree 2 3)) two_processes.
Proof. repeat constructor; cbn; lia. Qed.

Lemma CreateProcessCellCountData_counts_witness :
  ∃ t' pd,
    CreateProcessCellCountData (built_tree 2 3) [true; true] two_processes
    = Some (t', pd, 0)
    ∧ HasData t' 1 0 = 0
    ∧ GetProcessCellCountForRegion t' pd 0 2 = Some 2.
Proof.
  destruct (CreateProcessCellCountData_counts (built_tree 2 3) [true; true]
              two_processes) as (t' & pd & Hrun & Hq).
  - repeat constructor.
  - reflexivity.
  - apply two_processes_valid.
  - exists t', pd. split; [exact Hrun|]. split.
    + destruct (Hq 1 0) as [H _]; [cbn; lia..|]. exact H.
    + destruct (Hq 0 2) as [_ H]; [cbn; lia..|]. exact H.
Defined.

Lemma CreateProcessCellCountData_region_queries_witness :
  ∃ t' pd,
    CreateProcessCellCountData (built_tree 2 3) [true; true] two_processes
    = Some (t', pd, 0)
    ∧ GetProcessListForRegion t' pd 2 [] = Some (2, [0; 1])
    ∧ GetProcessesCellCountForRegion t' pd 2 5 = Some (2, [2; 1]).
Proof.
  destruct (CreateProcessCellCountData_region_queries (built_tree 2 3)
              [true; true] two_processes) as (t' & pd & Hrun & Hq).
  - repeat constructor.
  - reflexivity.
  - apply two_processes_valid.
  - exists t', pd. split; [exact Hrun|].
    destruct (Hq 2) as (_ & Hl & Hc); [cbn; lia|]. split.
    + apply (Hl []).
    + apply (Hc 5). lia.
Defined.

Lemma CreateProcessCellCountData_process_queries_witness :
  ∃ t' pd,
    CreateProcessCellCountData (built_tree 2 3) [true; true] two_processes
    = Some (t', pd, 0)
    ∧ GetRegionListForProcess t' pd 0 [] = Some (2, [0; 2])
    ∧ GetRegionsCellCountForProcess t' pd 0 1 = Some (1, [1]).
Proof.
  destruct (CreateProcessCellCountData_process_queries (built_tree 2 3)
              [true; true] two_processes) as (t' & pd & Hrun & Hq).
  - repeat constructor.
  - reflexivity.
  - apply two_processes_valid.
  - exists t', pd. split; [exact Hrun|].
    destruct (Hq 0) as (_ & Hl & Hc); [cbn; lia|]. split.
    + apply (Hl []).
    + apply (Hc 1). lia.
Defined.

(** Process 1 has a cell with the region id 3 in a tree of three regions. *)
Lemma CreateProcessCellCountData_fails_witness :
  ∃ t' pd,
    CreateProcessCellCountData (built_tree 2 3) [true; true] [[0; 2]; [3]]
    = Some (t', pd, 1)
    ∧ DataLocationMap t' = [] ∧ pd = empty_tables.
Proof.
  destruct (CreateProcessCellCountData_fails (built_tree 2 3) [true; true]
              [[0; 2]; [3]]) as (t' & pd & Hrun & Hmap & Hpd & _).
  - right. apply Exists_cons_tl, Exists_cons_hd, Exists_cons_hd. cbn. lia.
  - exists t', pd. split; [exact Hrun|]. split; [exact Hmap|exact Hpd].
Defined.

(** ** What CheckFixRegionBoundaries keeps *)

Lemma same_but_bounds_refl a : same_but_bounds a a.
Proof. by split_and!. Qed.

Lemma same_but_bounds_trans a b c :
  same_but_bounds a b → same_but_bounds b c → same_but_bounds a c.
Proof. intros (? & ? & ? & ?) (? & ? & ? & ?). split_and!; congruence. Qed.

Lemma same_but_bounds_SetMinBounds v a : same_but_bounds a (SetMinBounds v a).
Proof. by split_and!. Qed.

Lemma same_but_bounds_SetMaxBounds v a : same_but_bounds a (SetMaxBounds v a).
Proof. by split_and!. Qed.

Lemma fix_dim_same nextDim kd lr dim :
  same_but_bounds lr.1 (fix_dim nextDim kd lr dim).1
  ∧ same_but_bounds lr.2 (fix_dim nextDim kd lr dim).2.
Proof.
  rewrite fix_dim_eq. cbv zeta. destruct (dim =? nextDim); cbn [fst snd]; split;
    repeat (first [apply same_but_bounds_refl
                  | eapply same_but_bounds_trans;
                    [|first [apply same_but_bounds_SetMinBounds
                            |apply same_but_bounds_SetMaxBounds]]]).
Qed.

Lemma fix_dims_same nextDim kd l r :
  let lr := foldl (fix_dim nextDim kd) (l, r) [0; 1; 2] in
  same_but_bounds l lr.1 ∧ same_but_bounds r lr.2.
Proof.
  cbn [foldl]. cbv zeta.
  set (s0 := (l, r)). set (s1 := fix_dim nextDim kd s0 0).
  set (s2 := fix_dim nextDim kd s1 1).
  destruct (fix_dim_same nextDim kd s0 0) as [H0l H0r].
  destruct (fix_dim_same nextDim kd s1 1) as [H1l H1r].
  destruct (fix_dim_same nextDim kd s2 2) as [H2l H2r].
  fold s1 in H0l, H0r. fold s2 in H1l, H1r.
  split; (eapply same_but_bounds_trans; [|eassumption]);
    (eapply same_but_bounds_trans; [|eassumption]); done.
Qed.

(** The loop leaves the right child's lower bound along the dimension of
    the node as it is. *)
Lemma fix_dims_cut kd l r :
  0 ≤ Dim kd ≤ 2 →
  vget (Min (foldl (fix_dim (Dim kd) kd) (l, r) [0; 1; 2]).2) (Dim kd)
  = vget (Min r) (Dim kd).
Proof.
  intros Hd. cbn [foldl]. rewrite !fix_dim_eq. cbv zeta.
  assert (Dim kd = 0 ∨ Dim kd = 1 ∨ Dim kd = 2) as [-> | [-> | ->]] by lia;
    cbn [Z.eqb Pos.eqb fst snd];
    repeat (rewrite ?Min_SetMinBounds, ?Max_SetMinBounds, ?Min_SetMaxBounds,
                    ?Max_SetMaxBounds, ?vget_vset by lia; cbn [Z.eqb Pos.eqb]);
    done.
Qed.

Lemma CheckFix_from_keeps kd t :
  same_but_bounds (root_node t) kd → keeps_cuts t (CheckFix_from kd t).
Proof.
  revert kd. induction t as [n|n l IHl r IHr]; intros kd Hkd; [done|].
  cbn [CheckFix_from keeps_cuts root_node] in *.
  rewrite !root_node_CheckFix_from.
  destruct (fix_dims_same (Dim kd) kd (root_node l) (root_node r)) as [Hl Hr].
  split; [done|]. split.
  - intros Hd. destruct Hkd as [Hdim _]. rewrite Hdim in *. by apply fix_dims_cut.
  - split; [by apply IHl|by apply IHr].
Qed.

(** CheckFixRegionBoundaries changes region bounds only: the tree keeps its
    shape, every node keeps its dimension, its number of points and its data
    bounds, the top node keeps its region bounds, and the cut of every node,
    the lower bound of its right child along the dimension of the node,
    stays where it was. *)
Theorem CheckFixRegionBoundaries_keeps (tree : KdTree) :
  keeps_cuts tree (CheckFixRegionBoundaries tree)
  ∧ root_node (CheckFixRegionBoundaries tree) = root_node tree.
Proof.
  split; [|apply root_node_CheckFix_from].
  apply CheckFix_from_keeps, same_but_bounds_refl.
Qed.

Lemma vset_same (v : vec3) (d x : Z) : vget v d = x → vset v d x = v.
Proof. intros <-. apply vset_vget. Qed.

Lemma fix_dims_agreed kd l r :
  children_agree kd l r →
  foldl (fix_dim (Dim kd) kd) (l, r) [0; 1; 2] = (l, r).
Proof.
  intros Hagree.
  assert (∀ dim, 0 ≤ dim ≤ 2 → fix_dim (Dim kd) kd (l, r) dim = (l, r)) as Hstep.
  { intros dim Hdim. destruct (Hagree dim Hdim) as (Hlmin & Hrmax & Hother & Hcut).
    rewrite fix_dim_eq. cbv zeta. cbn [fst snd].
    rewrite (vset_same (Min l)), SetMinBounds_id by done.
    rewrite (vset_same (Max r)), SetMaxBounds_id by done.
    destruct (Z.eqb_spec dim (Dim kd)) as [Heq|Hne].
    - rewrite (vset_same (Max l)), SetMaxBounds_id by (by apply Hcut). done.
    - destruct (Hother Hne) as [Hlmax Hrmin].
      rewrite (vset_same (Max l)), SetMaxBounds_id by done.
      rewrite (vset_same (Min r)), SetMinBounds_id by done. done. }
  cbn [foldl]. rewrite !Hstep by lia. done.
Qed.

Lemma CheckFix_from_fixed_point t :
  boundaries_fixed t → CheckFix_from (root_node t) t = t.
Proof.
  induction t as [n|n l IHl r IHr]; intros Hfixed; [done|].
  cbn [boundaries_fixed] in Hfixed. destruct Hfixed as (Hagree & Hl & Hr).
  cbn [CheckFix_from root_node]. rewrite fix_dims_agreed by done.
  cbn [fst snd]. by rewrite IHl, IHr.
Qed.

(** CheckFixRegionBoundaries leaves a tree alone in which every node agrees
    with its children; so a second run after a first changes nothing. *)
Theorem CheckFixRegionBoundaries_fixed_point (tree : KdTree) :
  (boundaries_fixed tree → CheckFixRegionBoundaries tree = tree)
  ∧ CheckFixRegionBoundaries (CheckFixRegionBoundaries tree)
    = CheckFixRegionBoundaries tree.
Proof.
  split.
  - apply CheckFix_from_fixed_point.
  - apply CheckFix_from_fixed_point, CheckFix_from_fixed.
Qed.

(** ** ComputeDepth and FillOutTree *)

Lemma ComputeDepth_max n l r :
  ComputeDepth (Split n l r) = Z.max (ComputeDepth l) (ComputeDepth r) + 1.
Proof. cbn. destruct (Z.gtb_spec (ComputeDepth l) (ComputeDepth r)); lia. Qed.

Lemma ComputeDepth_nonneg t : 0 ≤ ComputeDepth t.
Proof.
  induction t as [n|n l IHl r IHr]; [done|]. rewrite ComputeDepth_max. lia.
Qed.

Lemma ComputeDepth_perfect n t : perfect n t → ComputeDepth t = Z.of_nat n.
Proof.
  revert t. induction n as [|n IH]; intros [kd|kd l r] H; try done.
  destruct H as [Hl Hr]. rewrite ComputeDepth_max, (IH l), (IH r) by done. lia.
Qed.

Lemma filled_from_filler t t' :
  filled_from t t' → all_filler t → all_filler t'.
Proof.
  revert t'. induction t as [n|n l IHl r IHr]; intros [n'|n' l' r'] H Ht; cbn in *.
  - congruence.
  - destruct H as (-> & ? & ?). done.
  - done.
  - destruct H as (-> & Hl & Hr), Ht as (? & ? & ?).
    split_and!; [done|by apply IHl|by apply IHr].
Qed.

Lemma FillOutTree_levels (n : nat) :
  ∀ (fuel : nat) (kd : KdTree),
    ComputeDepth kd ≤ Z.of_nat n → (n < fuel)%nat →
    ∃ kd', FillOutTree fuel kd (Z.of_nat n) = Some kd'
           ∧ perfect n kd' ∧ filled_from kd kd'.
Proof.
  induction n as [|n IH]; intros fuel kd Hdepth Hfuel;
    (destruct fuel as [|fuel]; [lia|]).
  - destruct kd as [kd|kd l r].
    + by exists (Leaf kd).
    + rewrite ComputeDepth_max in Hdepth.
      pose proof (ComputeDepth_nonneg l). lia.
  - cbn [FillOutTree]. destruct (Z.eqb_spec (Z.of_nat (S n)) 0); [lia|].
    replace (Z.of_nat (S n) - 1) with (Z.of_nat n) by lia.
    destruct kd as [kd|kd l r].
    + destruct (IH fuel (Leaf filler_node)) as (l' & Hl & Hpl & Hfl);
        [cbn; lia|lia|].
      rewrite Hl. cbn. exists (Split kd l' l'). split; [done|].
      split; [done|]. cbn. split; [done|].
      split; by apply (filled_from_filler (Leaf filler_node)).
    + rewrite ComputeDepth_max in Hdepth.
      destruct (IH fuel l) as (l' & Hl & Hpl & Hfl); [lia..|].
      destruct (IH fuel r) as (r' & Hr & Hpr & Hfr); [lia..|].
      rewrite Hl, Hr. cbn. by exists (Split kd l' r').
Qed.

(** FillOutTree with a level that is at least the depth of the tree, as
    CompleteTree calls it, returns a tree in which every leaf is [level]
    levels below the top, so its depth is [level]; the nodes of the old tree
    are kept and only nodes with bounds and number of points [-1] are
    added. *)
Theorem FillOutTree_complete (kd : KdTree) (level : Z) :
  ComputeDepth kd ≤ level →
  ∃ kd',
    FillOutTree (Z.to_nat level + 1) kd level = Some kd'
    ∧ perfect (Z.to_nat level) kd'
    ∧ filled_from kd kd'
    ∧ ComputeDepth kd' = level.
Proof.
  intros Hdepth. pose proof (ComputeDepth_nonneg kd).
  destruct (FillOutTree_levels (Z.to_nat level) (Z.to_nat level + 1) kd)
    as (kd' & Hrun & Hperfect & Hfilled); [lia..|].
  rewrite Z2Nat.id in Hrun by lia.
  exists kd'. split_and!; try done.
  rewrite (ComputeDepth_perfect _ _ Hperfect). lia.
Qed.

(** A leaf filled to two levels. *)
Lemma FillOutTree_complete_witness :
  ∃ kd',
    FillOutTree 3 (Leaf new_node) 2 = Some kd'
    ∧ perfect 2 kd'
    ∧ filled_from (Leaf new_node) kd'
    ∧ ComputeDepth kd' = 2.
Proof. apply (FillOutTree_complete (Leaf new_node) 2). cbn. lia. Defined.

(** ** BroadcastData *)

Lemma UnpackData_PackData (n : KdNode) (l r : KdTree) (n' : KdNode) (l' r' : KdTree) :
  ∃ data,
    PackData (Split n l r) = Some data
    ∧ UnpackData (Split n' l' r') data
      = Some (Split (SetDim (Dim n) n')
                (set_root (received (root_node l) (root_node l')) l')
                (set_root (received (root_node r) (root_node r')) r')).
Proof.
  eexists. split; [reflexivity|].
  cbn -[int_of_double double_of_int].
  rewrite !int_of_double_of_int. unfold received.
  destruct (root_node l) as [? ? [] [] [] []], (root_node r) as [? ? [] [] [] []].
  reflexivity.
Qed.

Lemma same_shape_set_root n a b : same_shape a b → same_shape a (set_root n b).
Proof. by destruct a, b. Qed.

Lemma root_node_set_root n t : root_node (set_root n t) = n.
Proof. by destruct t. Qed.

Lemma keeps_leaf_dims_set_root n t t' :
  Dim n = Dim (root_node t) →
  keeps_leaf_dims (set_root n t) t' → keeps_leaf_dims t t'.
Proof. destruct t, t'; cbn; congruence. Qed.

Lemma SetDim_same_but_dim a b : same_but_dim a b → SetDim (Dim a) b = a.
Proof.
  destruct a, b. intros (? & ? & ? & ? & ?). cbn in *. unfold SetDim. cbn.
  congruence.
Qed.

Lemma BroadcastData_below (MyId : Z) (kd0 kd : KdTree) :
  0 < MyId → same_shape kd0 kd →
  same_but_dim (root_node kd0) (root_node kd) →
  ∃ kd', BroadcastData MyId kd0 kd = Some kd'
         ∧ agrees_below kd0 kd' ∧ keeps_leaf_dims kd kd'.
Proof.
  intros Hme. revert kd.
  induction kd0 as [a|a l0 IHl r0 IHr]; intros [b|b l r] Hshape Hroot; try done.
  - by exists (Leaf b).
  - destruct Hshape as [Hsl Hsr]. cbn [root_node] in Hroot.
    destruct (UnpackData_PackData a l0 r0 b l r) as (data & Hpack & Hunpack).
    cbn [BroadcastData]. rewrite Hpack. cbn [mbind option_bind].
    destruct (Z.gtb_spec MyId 0); [|lia]. rewrite Hunpack. cbn [mbind option_bind].
    destruct (IHl (set_root (received (root_node l0) (root_node l)) l))
      as (l' & Hl & Hal & Hkl).
    { by apply same_shape_set_root. }
    { rewrite root_node_set_root. by split_and!. }
    destruct (IHr (set_root (received (root_node r0) (root_node r)) r))
      as (r' & Hr & Har & Hkr).
    { by apply same_shape_set_root. }
    { rewrite root_node_set_root. by split_and!. }
    rewrite Hl, Hr. cbn [mbind option_bind]. eexists. split; [done|].
    cbn [agrees_below keeps_leaf_dims]. split_and!; try done.
    + by rewrite SetDim_same_but_dim.
    + by apply keeps_leaf_dims_set_root in Hkl.
    + by apply keeps_leaf_dims_set_root in Hkr.
Qed.

(** BroadcastData on a process other than process 0, whose tree has the
    shape of the tree of process 0: afterwards the top node has the dimension
    of the top node of process 0 and is otherwise as it was, every node below
    it is the node of process 0, but for the leaves, which keep their
    dimension. *)
Theorem BroadcastData_agrees (MyId : Z) (kd0 kd : KdTree) :
  0 < MyId → same_shape kd0 kd →
  ∃ kd',
    BroadcastData MyId kd0 kd = Some kd'
    ∧ keeps_leaf_dims kd kd'
    ∧ match kd0, kd' with
      | Leaf _, _ => kd' = kd
      | Split a l0 r0, Split b' l' r' =>
          b' = SetDim (Dim a) (root_node kd)
          ∧ agrees_below l0 l' ∧ agrees_below r0 r'
      | _, _ => False
      end.
Proof.
  intros Hme Hshape. destruct kd0 as [a|a l0 r0], kd as [b|b l r]; try done.
  - by exists (Leaf b).
  - destruct Hshape as [Hsl Hsr].
    destruct (UnpackData_PackData a l0 r0 b l r) as (data & Hpack & Hunpack).
    cbn [BroadcastData]. rewrite Hpack. cbn [mbind option_bind].
    destruct (Z.gtb_spec MyId 0); [|lia]. rewrite Hunpack. cbn [mbind option_bind].
    destruct (BroadcastData_below MyId l0
                (set_root (received (root_node l0) (root_node l)) l) Hme)
      as (l' & Hl & Hal & Hkl).
    { by apply same_shape_set_root. }
    { rewrite root_node_set_root. by split_and!. }
    destruct (BroadcastData_below MyId r0
                (set_root (received (root_node r0) (root_node r)) r) Hme)
      as (r' & Hr & Har & Hkr).
    { by apply same_shape_set_root. }
    { rewrite root_node_set_root. by split_and!. }
    rewrite Hl, Hr. cbn [mbind option_bind]. eexists. split; [done|].
    cbn [keeps_leaf_dims root_node]. split_and!; try done.
    + by apply keeps_leaf_dims_set_root in Hkl.
    + by apply keeps_leaf_dims_set_root in Hkr.
Qed.

(** Process 1 receives a tree of three nodes. *)
Lemma BroadcastData_agrees_witness :
  ∃ kd',
    BroadcastData 1
      (Split (SetDim 0 new_node) (Leaf filler_node) (Leaf filler_node))
      (Split new_node (Leaf new_node) (Leaf new_node)) = Some kd'
    ∧ kd' = Split (SetDim 0 new_node) (Leaf (SetDim 3 filler_node))
              (Leaf (SetDim 3 filler_node)).
Proof.
  destruct (BroadcastData_agrees 1
              (Split (SetDim 0 new_node) (Leaf filler_node) (Leaf filler_node))
              (Split new_node (Leaf new_node) (Leaf new_node)))
    as (kd' & Hrun & _ & _).
  - lia.
  - cbn. tauto.
  - exists kd'. split; [exact Hrun|].
    vm_compute in Hrun. injection Hrun as <-. reflexivity.
Defined.

(** ** BinarySearch *)

Lemma linear_search_spec (fuel : nat) (l : list Z) (which : Z) (i : nat) :
  (length l - i < fuel)%nat → (i ≤ length l)%nat →
  ∃ mid,
    linear_search fuel l (Z.of_nat (length l)) which (Z.of_nat i) = Some mid
    ∧ (mid = -1 ∨ (Z.of_nat i ≤ mid < Z.of_nat (length l)
                   ∧ l !! Z.to_nat mid = Some which))
    ∧ ((∃ j, (i ≤ j)%nat ∧ l !! j = Some which) → mid ≠ -1).
Proof.
  revert i. induction fuel as [|fuel IH]; intros i Hfuel Hi; [lia|].
  cbn [linear_search].
  destruct (Z.ltb_spec (Z.of_nat i) (Z.of_nat (length l))) as [Hlt|Hge].
  - destruct (lookup_lt_is_Some_2 l i ltac:(lia)) as [v Hv].
    unfold vec_get. destruct (Z.ltb_spec (Z.of_nat i) 0); [lia|].
    rewrite Nat2Z.id, Hv. cbn. destruct (Z.eqb_spec v which) as [->|Hne].
    + exists (Z.of_nat i). split; [done|]. split; [|lia].
      right. by rewrite Nat2Z.id.
    + replace (Z.of_nat i + 1) with (Z.of_nat (S i)) by lia.
      destruct (IH (S i)) as (mid & Hrun & Hsound & Hcomplete); [lia..|].
      exists mid. split; [done|]. split.
      * destruct Hsound as [?|[? ?]]; [by left|right]. split; [lia|done].
      * intros (j & Hj & Hjw). apply Hcomplete.
        destruct (decide (j = i)) as [->|?]; [congruence|].
        exists j. split; [lia|done].
  - exists (-1). split; [done|]. split; [by left|].
    intros (j & Hj & Hjw). apply lookup_lt_Some in Hjw. lia.
Qed.

Lemma sorted_lookup_le (l : list Z) (i j : nat) (x y : Z) :
  StronglySorted Z.le l → l !! i = Some x → l !! j = Some y → (i ≤ j)%nat →
  x ≤ y.
Proof.
  intros Hs. revert i j. induction Hs as [|z l Hs IH Hz]; intros i j Hi Hj Hij.
  - by rewrite lookup_nil in Hi.
  - destruct i as [|i], j as [|j]; cbn in Hi, Hj; try lia.
    + assert (x = y) by congruence. lia.
    + injection Hi as ->.
      apply (proj1 (Forall_forall _ _) Hz). by eapply list_elem_of_lookup_2.
    + apply (IH i j); [done..|lia].
Qed.

Lemma bisect_spec (fuel : nat) (l : list Z) (which mid lft rgt : Z) :
  0 ≤ lft → lft < mid < rgt → rgt < Z.of_nat (length l) →
  rgt - lft ≤ Z.of_nat fuel →
  ∃ m,
    bisect fuel l which mid lft rgt = Some m
    ∧ (m = -1 ∨ (lft ≤ m ≤ rgt ∧ l !! Z.to_nat m = Some which))
    ∧ (StronglySorted Z.le l →
       (∃ j, lft ≤ Z.of_nat j ≤ rgt ∧ l !! j = Some which) → m ≠ -1).
Proof.
  revert mid lft rgt. induction fuel as [|fuel IH];
    intros mid lft rgt Hl Hm Hr Hfuel; [lia|].
  cbn [bisect].
  assert (∀ i, 0 ≤ i < Z.of_nat (length l) →
            ∃ v, vec_get l i = Some v ∧ l !! Z.to_nat i = Some v) as Hget.
  { intros i Hi. destruct (lookup_lt_is_Some_2 l (Z.to_nat i) ltac:(lia)) as [v Hv].
    exists v. split; [|done]. unfold vec_get.
    by destruct (Z.ltb_spec i 0); [lia|]. }
  destruct (Hget mid ltac:(lia)) as (v & -> & Hv). cbn [mbind option_bind].
  destruct (Z.eqb_spec v which) as [->|Hne]; cbn [negb].
  { exists mid. split; [done|]. split; [right; split; [lia|done]|lia]. }
  set (lft' := if v <? which then mid + 1 else lft).
  set (rgt' := if v <? which then rgt else mid - 1).
  assert (lft ≤ lft' ∧ lft' ≤ rgt' ∧ rgt' ≤ rgt ∧ rgt' - lft' < rgt - lft)
    as (Hl1 & Hl2 & Hl3 & Hl4).
  { unfold lft', rgt'. destruct (Z.ltb_spec v which); lia. }
  assert (StronglySorted Z.le l →
          ∀ j, lft ≤ Z.of_nat j ≤ rgt → l !! j = Some which →
               lft' ≤ Z.of_nat j ≤ rgt') as Hkeep.
  { intros Hs j Hj Hjw. unfold lft', rgt'.
    destruct (Z.ltb_spec v which) as [Hlt|Hge].
    - destruct (decide (Z.of_nat j ≤ mid)); [|lia].
      pose proof (sorted_lookup_le l j (Z.to_nat mid) _ _ Hs Hjw Hv ltac:(lia)).
      lia.
    - destruct (decide (mid ≤ Z.of_nat j)); [|lia].
      pose proof (sorted_lookup_le l (Z.to_nat mid) j _ _ Hs Hv Hjw ltac:(lia)).
      lia. }
  clearbody lft' rgt'.
  destruct (Z.gtb_spec rgt' (lft' + 1)) as [Hwide|Hnarrow].
  - rewrite Z.shiftr_div_pow2 by lia. change (2 ^ 1) with 2.
    destruct (IH ((lft' + rgt') / 2) lft' rgt') as (m & Hrun & Hsound & Hcomplete).
    + lia.
    + pose proof (Z.div_mod (lft' + rgt') 2 ltac:(lia)).
      pose proof (Z.mod_pos_bound (lft' + rgt') 2 ltac:(lia)). lia.
    + lia.
    + lia.
    + exists m. split; [done|]. split.
      * destruct Hsound as [?|[? ?]]; [by left|right]. split; [lia|done].
      * intros Hs (j & Hj & Hjw). apply (Hcomplete Hs).
        exists j. split; [by apply Hkeep|done].
  - destruct (Hget lft' ltac:(lia)) as (vl & -> & Hvl). cbn [mbind option_bind].
    destruct (Z.eqb_spec vl which) as [->|Hnel].
    { exists lft'. split; [done|]. split; [right; split; [lia|done]|lia]. }
    destruct (Hget rgt' ltac:(lia)) as (vr & -> & Hvr). cbn [mbind option_bind].
    destruct (Z.eqb_spec vr which) as [->|Hner].
    { exists rgt'. split; [done|]. split; [right; split; [lia|done]|lia]. }
    exists (-1). split; [done|]. split; [by left|].
    intros Hs (j & Hj & Hjw). specialize (Hkeep Hs j Hj Hjw).
    assert (Z.of_nat j = lft' ∨ Z.of_nat j = rgt') as [Heq|Heq] by lia.
    + rewrite <-Heq, Nat2Z.id in Hvl. congruence.
    + rewrite <-Heq, Nat2Z.id in Hvr. congruence.
Qed.

(** BinarySearch on an array of [len] entries reads inside the array and
    returns [-1] or an index at which the array holds [which]; it returns
    such an index whenever [which] is in the array and the array is in
    ascending order or has three entries at most. *)
Theorem BinarySearch_finds (list : list Z) (which : Z) :
  let len := Z.of_nat (length list) in
  ∃ mid,
    BinarySearch list len which = Some mid
    ∧ (mid = -1 ∨ (0 ≤ mid < len ∧ list !! Z.to_nat mid = Some which))
    ∧ (StronglySorted Z.le list ∨ len ≤ 3 → which ∈ list → mid ≠ -1).
Proof.
  cbv zeta. unfold BinarySearch.
  destruct (Z.leb_spec (Z.of_nat (length list)) 3) as [Hshort|Hlong].
  - destruct (linear_search_spec (Z.to_nat (Z.of_nat (length list)) + 1) list which 0)
      as (mid & Hrun & Hsound & Hcomplete); [lia..|].
    exists mid. split; [done|]. split; [done|].
    intros _ Hin. apply Hcomplete.
    apply list_elem_of_lookup_1 in Hin as [j Hj]. exists j. split; [lia|done].
  - rewrite Z.shiftr_div_pow2 by lia. change (2 ^ 1) with 2.
    destruct (bisect_spec (Z.to_nat (Z.of_nat (length list))) list which
                (Z.of_nat (length list) / 2) 0 (Z.of_nat (length list) - 1))
      as (mid & Hrun & Hsound & Hcomplete).
    + lia.
    + pose proof (Z.div_mod (Z.of_nat (length list)) 2 ltac:(lia)).
      pose proof (Z.mod_pos_bound (Z.of_nat (length list)) 2 ltac:(lia)). lia.
    + lia.
    + lia.
    + exists mid. split; [done|]. split.
      * destruct Hsound as [?|[? ?]]; [by left|right]. split; [lia|done].
      * intros [Hs|?] Hin; [|lia]. apply (Hcomplete Hs).
        apply list_elem_of_lookup_1 in Hin as [j Hj]. exists j. split; [|done].
        apply lookup_lt_Some in Hj. lia.
Qed.

(** ** The ranges of the field arrays, by name *)

Lemma find_next_loop_spec (a : ArrayRanges) (n : String.string) (fuel : nat) (i : Z) :
  NumArrays a = Z.of_nat (length (DataName a)) →
  0 ≤ i ≤ NumArrays a → (Z.to_nat (NumArrays a - i) < fuel)%nat →
  ∃ r, find_next_loop fuel n (DataName a) (NumArrays a) i = Some r
       ∧ ((r = -1 ∧ matching_from a n i = [])
          ∨ (i ≤ r < NumArrays a
             ∧ matching_from a n i = r :: matching_from a n (r + 1))).
Proof.
  intros Hlen. revert i. induction fuel as [|fuel IH]; intros i Hi Hfuel; [lia|].
  cbn [find_next_loop]. destruct (Z.ltb_spec i (NumArrays a)) as [Hlt|Hge].
  - destruct (Z.ltb_spec i 0); [lia|].
    destruct (lookup_lt_is_Some_2 (DataName a) (Z.to_nat i) ltac:(lia)) as [name Hname].
    rewrite Hname. cbn [mbind option_bind].
    assert (matching_from a n i
            = (if begins_with a n i then [i] else []) ++ matching_from a n (i + 1))
      as Hsplit.
    { unfold matching_from. rewrite (seqZ_cons i) by lia.
      rewrite filter_cons.
      replace (Z.pred (NumArrays a - i)) with (NumArrays a - (i + 1)) by lia.
      replace (Z.succ i) with (i + 1) by lia.
      destruct (begins_with a n i); by case_decide. }
    assert (begins_with a n i = strncmp_eq n name) as Hb.
    { unfold begins_with. by rewrite Hname. }
    rewrite Hb in Hsplit. destruct (strncmp_eq n name).
    + exists i. split; [done|]. right. split; [lia|done].
    + destruct (IH (i + 1)) as (r & Hr & Hcases); [lia..|].
      exists r. split; [done|]. rewrite Hsplit. cbn [app].
      destruct Hcases as [[-> ?]|[? ?]]; [by left|right]. split; [lia|done].
  - exists (-1). split; [done|]. left. split; [done|].
    unfold matching_from, seqZ. by replace (Z.to_nat (NumArrays a - i)) with 0%nat by lia.
Qed.

Lemma GetArrayGlobalRange_ok (a : ArrayRanges) (i : Z) (range : Z * Z) :
  ranges_ok a → 0 ≤ i < NumArrays a →
  GetArrayGlobalRange a i range
  = Some (0, (DataMin a !!! Z.to_nat i, DataMax a !!! Z.to_nat i)).
Proof.
  intros (Hn & Hmin & Hmax) Hi. unfold GetArrayGlobalRange.
  destruct (Z.ltb_spec i 0); [lia|]. destruct (Z.geb_spec i (NumArrays a)); [lia|].
  rewrite bool_decide_eq_false_2
    by (intros Hnil; rewrite Hnil in Hmin; cbn in Hmin; lia).
  cbn [orb]. unfold vec_get. destruct (Z.ltb_spec i 0); [lia|].
  rewrite !list_lookup_lookup_total_lt by lia. done.
Qed.

Lemma named_range_loop_fold (a : ArrayRanges) (n : String.string) (fuel : nat)
    (first : bool) (tmp range : Z * Z) (start : Z) :
  ranges_ok a → 0 ≤ start ≤ NumArrays a →
  (Z.to_nat (NumArrays a - start) < fuel)%nat →
  named_range_loop fuel a n first tmp range start
  = Some (foldl (absorb a) (first, range) (matching_from a n start)).
Proof.
  intros Hok. revert first tmp range start.
  induction fuel as [|fuel IH]; intros first tmp range start Hstart Hfuel; [lia|].
  cbn [named_range_loop]. unfold FindNextLocalArrayIndex.
  destruct (find_next_loop_spec a n (Z.to_nat (NumArrays a - start) + 1) start)
    as (r & -> & Hcases); [apply Hok|lia|lia|].
  cbn [mbind option_bind]. destruct Hcases as [[-> ->]|[Hr ->]].
  - done.
  - destruct (Z.geb_spec r 0); [|lia]. cbn [foldl].
    destruct first.
    + rewrite GetArrayGlobalRange_ok by (done || lia). cbn [mbind option_bind snd].
      rewrite IH by lia. done.
    + rewrite GetArrayGlobalRange_ok by (done || lia). cbn [mbind option_bind snd fst].
      rewrite IH by lia. done.
Qed.

Lemma absorb_more (a : ArrayRanges) (l : list Z) (lo hi : Z) :
  ∃ lo' hi',
    foldl (absorb a) (false, (lo, hi)) l = (false, (lo', hi'))
    ∧ least lo' (lo :: ((λ i, DataMin a !!! Z.to_nat i) <$> l))
    ∧ greatest hi' (hi :: ((λ i, DataMax a !!! Z.to_nat i) <$> l)).
Proof.
  revert lo hi. induction l as [|i l IH]; intros lo hi.
  - exists lo, hi. split; [done|]. split; (split; [left|by repeat constructor]).
  - cbn [foldl absorb fst snd fmap list_fmap].
    set (mn := DataMin a !!! Z.to_nat i). set (mx := DataMax a !!! Z.to_nat i).
    destruct (IH (if mn <? lo then mn else lo) (if mx >? hi then mx else hi))
      as (lo' & hi' & Hrun & [Hlo_in Hlo_le] & [Hhi_in Hhi_le]).
    exists lo', hi'. split; [done|].
    apply Forall_cons in Hlo_le as [Hlo1 Hlo2], Hhi_le as [Hhi1 Hhi2].
    apply elem_of_cons in Hlo_in, Hhi_in. split; split.
    + destruct Hlo_in as [->|?]; [|by do 2 right].
      destruct (mn <? lo); [right; left|left].
    + constructor; [|constructor; [|done]];
        destruct (Z.ltb_spec mn lo); lia.
    + destruct Hhi_in as [->|?]; [|by do 2 right].
      destruct (mx >? hi); [right; left|left].
    + constructor; [|constructor; [|done]];
        destruct (Z.gtb_spec mx hi); lia.
Qed.

Lemma absorb_first (a : ArrayRanges) (l : list Z) (range : Z * Z) :
  l ≠ [] →
  ∃ lo hi,
    foldl (absorb a) (true, range) l = (false, (lo, hi))
    ∧ least lo ((λ i, DataMin a !!! Z.to_nat i) <$> l)
    ∧ greatest hi ((λ i, DataMax a !!! Z.to_nat i) <$> l).
Proof.
  destruct l as [|i l]; [done|]. intros _. cbn [foldl absorb fst].
  apply absorb_more.
Qed.

(** GetCellArrayGlobalRange and GetPointArrayGlobalRange by name take every
    array whose name begins with [n]: with no such array they return [1] and
    leave [range] alone; otherwise they return [0] with the least of the
    minima and the greatest of the maxima of these arrays. *)
Theorem GetArrayGlobalRangeByName_range (a : ArrayRanges) (n : String.string)
    (range : Z * Z) :
  ranges_ok a →
  let arrays := matching_from a n 0 in
  ∃ fail range',
    GetArrayGlobalRangeByName a n range = Some (fail, range')
    ∧ (arrays = [] → fail = 1 ∧ range' = range)
    ∧ (arrays ≠ [] →
       fail = 0
       ∧ least range'.1 ((λ i, DataMin a !!! Z.to_nat i) <$> arrays)
       ∧ greatest range'.2 ((λ i, DataMax a !!! Z.to_nat i) <$> arrays)).
Proof.
  intros Hok. cbv zeta. unfold GetArrayGlobalRangeByName.
  rewrite named_range_loop_fold; [|done|destruct Hok as [-> _]; lia|lia].
  cbn [mbind option_bind].
  destruct (decide (matching_from a n 0 = [])) as [Hnone|Hsome].
  - rewrite Hnone. cbn. eexists _, _. split; [done|]. split; [done|]. done.
  - destruct (absorb_first a _ range Hsome) as (lo & hi & -> & Hlo & Hhi).
    cbn. eexists _, _. split; [done|]. split; [done|]. done.
Qed.

Lemma GetArrayGlobalRangeByName_range_witness :
  ∃ fail range',
    GetArrayGlobalRangeByName three_arrays "pressure"%string (0, 0)
    = Some (fail, range')
    ∧ fail = 0 ∧ range' = (1, 12).
Proof.
  destruct (GetArrayGlobalRangeByName_range three_arrays "pressure"%string (0, 0))
    as (fail & range' & Hrun & _ & _).
  - repeat split.
  - exists fail, range'. split; [exact Hrun|].
    vm_compute in Hrun. injection Hrun as <- <-. split; reflexivity.
Defined.

(** ** The region bounds that DivideRegion gives *)

Lemma bounds_agree (kd : KdNode) (maxdim coord : Z) (l r : KdNode) :
  Min l = Min (left_bounds kd maxdim coord new_node) →
  Max l = Max (left_bounds kd maxdim coord new_node) →
  Min r = Min (right_bounds kd maxdim coord new_node) →
  Max r = Max (right_bounds kd maxdim coord new_node) →
  children_agree (SetDim maxdim kd) l r.
Proof.
  intros Hlmin Hlmax Hrmin Hrmax dim Hdim.
  rewrite Hlmin, Hlmax, Hrmin, Hrmax. unfold left_bounds, right_bounds, XDIM, YDIM, ZDIM.
  cbn [Min Max SetBounds SetDim Dim].
  assert (dim = 0 ∨ dim = 1 ∨ dim = 2) as [-> | [-> | ->]] by lia;
    unfold vget; cbn [Z.eqb Pos.eqb c0 c1 c2];
    destruct (Z.eqb_spec maxdim 0), (Z.eqb_spec maxdim 1), (Z.eqb_spec maxdim 2);
    split_and!; intros; try done; try lia.
Qed.

Lemma set_subtree_fixed (t : KdTree) (p : node_ptr) (s u : KdTree) :
  subtree t p = Some s →
  Min (root_node u) = Min (root_node s) → Max (root_node u) = Max (root_node s) →
  boundaries_fixed t → boundaries_fixed u →
  boundaries_fixed (set_subtree t p u)
  ∧ Min (root_node (set_subtree t p u)) = Min (root_node t)
  ∧ Max (root_node (set_subtree t p u)) = Max (root_node t).
Proof.
  revert t. induction p as [|b p IH]; intros t Hs Hmin Hmax Ht Hu.
  - cbn in *. by simplify_eq.
  - destruct t as [kd|kd l r]; [done|]. cbn in Hs. destruct Ht as (Hkd & Hl & Hr).
    destruct b; cbn [set_subtree].
    + destruct (IH r Hs Hmin Hmax Hr Hu) as (IH1 & IH2 & IH3).
      split; [|done]. cbn [boundaries_fixed]. split_and!; try done.
      intros dim Hdim. rewrite IH2, IH3. by apply Hkd.
    + destruct (IH l Hs Hmin Hmax Hl Hu) as (IH1 & IH2 & IH3).
      split; [|done]. cbn [boundaries_fixed]. split_and!; try done.
      intros dim Hdim. rewrite IH2, IH3. by apply Hkd.
Qed.

Lemma cut_in_two_fixed (t : KdTree) (p : node_ptr) (t' : KdTree) :
  cut_in_two t p t' → boundaries_fixed t →
  boundaries_fixed t'
  ∧ Min (root_node t') = Min (root_node t)
  ∧ Max (root_node t') = Max (root_node t).
Proof.
  intros (s & Hs & [->|(maxdim & l & r & -> & Hagree & _)]) Ht; [done|].
  eapply set_subtree_fixed; [done|done|done|done|]. by cbn.
Qed.

Section BuildBounds.

Variable dir : Directory.
Variable PartitionDistributed :
  list point → Z → Z → Z → Z → Z → Z → option (list point * (Z * Z)).
Variables fr_left fr_right fr_SD : Z → Z → Z.
Variable MyId : Z.
Variable DivideTest : Z → Z → bool.
Variable SelectCutDirection : KdNode → Z.
Variable ValidDirections : Z.
Variable midpoint : Z → Z → Z.
Variable to_float : Z → Z.

Lemma DivideRegion_cut X t p L level tag X' t' midpt :
  DivideRegion dir PartitionDistributed fr_left fr_right fr_SD MyId
    DivideTest SelectCutDirection ValidDirections midpoint to_float
    X t p L level tag = Some (X', t', midpt) →
  cut_in_two t p t'.
Proof.
  unfold DivideRegion, cut_in_two. intros H.
  destruct (subtree t p) as [s|] eqn:Hs; [|done]. cbn [mbind option_bind] in H.
  exists s. split; [done|]. cbv zeta in *.
  set (kd := root_node s) in *. set (n := NumberOfPoints kd) in *.
  destruct (DivideTest n level); cbn [negb] in H; [|left; by simplify_eq].
  destruct (Z.ltb_spec n 2) as [Hn|Hn].
  - destruct (WhoHas dir L) as [q|]; [|done]. cbn [mbind option_bind] in H.
    destruct (MyId =? q); cbn [negb] in H; [|left; by simplify_eq].
    destruct (window dir MyId) as [[s0 e0]|]; [|done]. cbn [mbind option_bind] in H.
    destruct (GetLocalVal s0 e0 L) as [vp|]; [|done]. cbn [mbind option_bind] in H.
    destruct (load s0 e0 X vp) as [val|]; [|done]. cbn [mbind option_bind] in H.
    injection H as <- <- <-. right. eexists _, _, _. split; [done|].
    split; [|done]. eapply bounds_agree; reflexivity.
  - destruct (WhoHas dir L) as [p1|]; [|done]. cbn [mbind option_bind] in H.
    destruct (WhoHas dir (L + n - 1)) as [p2|]; [|done]. cbn [mbind option_bind] in H.
    destruct ((MyId <? p1) || (MyId >? p2)); [left; by simplify_eq|].
    destruct (find_midpt _ _ _ _ _ _ _ _ _ _ _ _) as [[[X1 d] m]|]; [|done].
    cbn [mbind option_bind] in H.
    destruct (GetDataBounds _ _ _ _ _ _ _ _ _) as [[lb rb]|]; [|done].
    cbn [mbind option_bind] in H.
    injection H as <- <- <-. right. eexists _, _, _. split; [done|].
    split; [|done]. eapply bounds_agree; reflexivity.
Qed.

Lemma divide_queue_fixed (fuel : nat) X t Queue X' t' :
  divide_queue dir PartitionDistributed fr_left fr_right fr_SD MyId
    DivideTest SelectCutDirection ValidDirections midpoint to_float
    fuel X t Queue = Some (X', t') →
  boundaries_fixed t →
  boundaries_fixed t'
  ∧ Min (root_node t') = Min (root_node t)
  ∧ Max (root_node t') = Max (root_node t).
Proof.
  revert X t Queue. induction fuel as [|fuel IH]; intros X t Queue H Ht; [done|].
  cbn [divide_queue] in H. destruct Queue as [|[[[kd L] level] tag] Queue].
  - by simplify_eq.
  - destruct (DivideRegion _ _ _ _ _ _ _ _ _ _ _ X t kd L level tag)
      as [[[X1 t1] m]|] eqn:HD; [|done].
    cbn [mbind option_bind] in H.
    destruct (cut_in_two_fixed _ _ _ (DivideRegion_cut _ _ _ _ _ _ _ _ _ HD) Ht)
      as (Ht1 & Hmin1 & Hmax1).
    destruct (IH _ _ _ H Ht1) as (Ht' & Hmin' & Hmax').
    split; [done|]. by rewrite Hmin', Hmax'.
Qed.

Lemma BreadthFirstDivide_fixed (fuel : nat) X volBounds X' t' :
  BreadthFirstDivide dir PartitionDistributed fr_left fr_right fr_SD MyId
    DivideTest SelectCutDirection ValidDirections midpoint to_float
    fuel X volBounds = Some (X', t') →
  boundaries_fixed t'
  ∧ Min (root_node t') = volBounds.1 ∧ Max (root_node t') = volBounds.2.
Proof.
  unfold BreadthFirstDivide. cbv zeta. intros H.
  destruct (DivideRegion _ _ _ _ _ _ _ _ _ _ _ X _ [] 0 0 1)
    as [[[X1 t1] m]|] eqn:HD; [|done].
  cbn [mbind option_bind] in H.
  destruct (cut_in_two_fixed _ _ _ (DivideRegion_cut _ _ _ _ _ _ _ _ _ HD) I)
    as (Ht1 & Hmin1 & Hmax1).
  destruct (divide_queue_fixed _ _ _ _ _ _ H Ht1) as (Ht' & Hmin' & Hmax').
  split; [done|]. rewrite Hmin', Hmax', Hmin1, Hmax1. cbn.
  by rewrite !vec3_eta.
Qed.

End BuildBounds.

(** A call of DivideRegion either leaves the tree alone or gives the node a
    dimension and two new, undivided leaves that share the region of the
    node: they have its bounds, but for the cut along the dimension of the
    node, where the upper bound of the left leaf is the lower bound of the
    right one.  So in the tree that BreadthFirstDivide builds every node
    agrees with its children, and the top node has the bounds of the
    volume. *)
Theorem DivideRegion_bounds dir PartitionDistributed fr_left fr_right fr_SD
    MyId DivideTest SelectCutDirection ValidDirections midpoint to_float :
  (∀ X t p L level tag X' t' midpt s,
     DivideRegion dir PartitionDistributed fr_left fr_right fr_SD MyId
       DivideTest SelectCutDirection ValidDirections midpoint to_float
       X t p L level tag = Some (X', t', midpt) →
     subtree t p = Some s →
     t' = t
     ∨ ∃ maxdim l r,
         let kd := SetDim maxdim (root_node s) in
         t' = set_subtree t p (Split kd (Leaf l) (Leaf r))
         ∧ children_agree kd l r ∧ Dim l = 3 ∧ Dim r = 3)
  ∧ (∀ fuel X volBounds X' t',
       BreadthFirstDivide dir PartitionDistributed fr_left fr_right fr_SD MyId
         DivideTest SelectCutDirection ValidDirections midpoint to_float
         fuel X volBounds = Some (X', t') →
       boundaries_fixed t'
       ∧ Min (root_node t') = volBounds.1 ∧ Max (root_node t') = volBounds.2).
Proof.
  split.
  - intros X t p L level tag X' t' midpt s HD Hs.
    destruct (DivideRegion_cut _ _ _ _ _ _ _ _ _ _ _ _ _ _ _ _ _ _ _ _ HD)
      as (s' & Hs' & Hcases).
    by assert (s' = s) as -> by congruence.
  - intros fuel X volBounds X' t' HB.
    by eapply BreadthFirstDivide_fixed.
Qed.

(** One process with ten points at [(1, 2, 3)]: the tree that is built has
    consistent bounds. *)
Lemma DivideRegion_bounds_witness :
  ∃ X' t',
    BreadthFirstDivide (BuildGlobalIndexLists [10]) no_redistribution
      no_sample no_sample no_sample 0 divide_from_four (λ _, XDIM) 7
      (λ a b, (a + b) / 2) (λ x, x) 20 ten_points (Vec3 1 2 3, Vec3 1 2 3)
    = Some (X', t')
    ∧ boundaries_fixed t' ∧ t' ≠ Leaf (root_node t').
Proof.
  pose proof (DivideRegion_bounds (BuildGlobalIndexLists [10]) no_redistribution
                no_sample no_sample no_sample 0 divide_from_four (λ _, XDIM) 7
                (λ a b, (a + b) / 2) (λ x, x)) as [_ HB].
  eexists _, _. split; [vm_compute; reflexivity|]. split.
  - eapply (HB 20%nat ten_points (Vec3 1 2 3, Vec3 1 2 3)).
    vm_compute. reflexivity.
  - discriminate.
Defined.

(** ** The data bounds *)

(** One dimension of the inner loop of GetLocalMinMax. *)
Lemma minmax_dim_spec (val : point) (mm : vec3 * vec3) (d e : Z) :
  0 ≤ d ≤ 2 → 0 ≤ e ≤ 2 → vget mm.1 d ≤ vget mm.2 d →
  let mm' :=
    (λ '(mn, mx) d,
       if coord d val <? vget mn d then (vset mn d (coord d val), mx)
       else if coord d val >? vget mx d then (mn, vset mx d (coord d val))
       else (mn, mx)) mm d in
  vget mm'.1 e = (if e =? d then Z.min (vget mm.1 d) (coord d val) else vget mm.1 e)
  ∧ vget mm'.2 e = (if e =? d then Z.max (vget mm.2 d) (coord d val) else vget mm.2 e).
Proof.
  intros Hd He Hle. destruct mm as [mn mx]. cbn [fst snd] in *. cbv zeta beta.
  destruct (Z.ltb_spec (coord d val) (vget mn d));
    [|destruct (Z.gtb_spec (coord d val) (vget mx d))];
    cbn [fst snd]; rewrite ?vget_vset by done;
    destruct (Z.eqb_spec e d) as [->|?]; split; lia.
Qed.

Lemma minmax_step_spec (mm : vec3 * vec3) (val : point) (d : Z) :
  (∀ d, 0 ≤ d ≤ 2 → vget mm.1 d ≤ vget mm.2 d) → 0 ≤ d ≤ 2 →
  vget (minmax_step mm val).1 d = Z.min (vget mm.1 d) (coord d val)
  ∧ vget (minmax_step mm val).2 d = Z.max (vget mm.2 d) (coord d val).
Proof.
  intros Hle Hd. unfold minmax_step.
  match goal with |- context [foldl ?g mm _] => set (f := g) end.
  cbn [foldl].
  pose proof (minmax_dim_spec val mm 0) as S0.
  pose proof (minmax_dim_spec val (f mm 0) 1) as S1.
  pose proof (minmax_dim_spec val (f (f mm 0) 1) 2) as S2.
  cbv zeta in S0, S1, S2. fold f in S0, S1, S2.
  destruct (S0 1 ltac:(lia) ltac:(lia) (Hle 0 ltac:(lia))) as [S01a S01b].
  destruct (S0 2 ltac:(lia) ltac:(lia) (Hle 0 ltac:(lia))) as [S02a S02b].
  destruct (S0 0 ltac:(lia) ltac:(lia) (Hle 0 ltac:(lia))) as [S00a S00b].
  cbn [Z.eqb Pos.eqb] in S01a, S01b, S02a, S02b, S00a, S00b.
  assert (vget (f mm 0).1 1 ≤ vget (f mm 0).2 1) as Hle1.
  { rewrite S01a, S01b. apply Hle. lia. }
  destruct (S1 0 ltac:(lia) ltac:(lia) Hle1) as [S10a S10b].
  destruct (S1 1 ltac:(lia) ltac:(lia) Hle1) as [S11a S11b].
  destruct (S1 2 ltac:(lia) ltac:(lia) Hle1) as [S12a S12b].
  cbn [Z.eqb Pos.eqb] in S10a, S10b, S11a, S11b, S12a, S12b.
  assert (vget (f (f mm 0) 1).1 2 ≤ vget (f (f mm 0) 1).2 2) as Hle2.
  { rewrite S12a, S12b, S02a, S02b. apply Hle. lia. }
  destruct (S2 0 ltac:(lia) ltac:(lia) Hle2) as [S20a S20b].
  destruct (S2 1 ltac:(lia) ltac:(lia) Hle2) as [S21a S21b].
  destruct (S2 2 ltac:(lia) ltac:(lia) Hle2) as [S22a S22b].
  cbn [Z.eqb Pos.eqb] in S20a, S20b, S21a, S21b, S22a, S22b.
  assert (d = 0 ∨ d = 1 ∨ d = 2) as [-> | [-> | ->]] by lia.
  - rewrite S20a, S20b, S10a, S10b, S00a, S00b. done.
  - rewrite S21a, S21b, S11a, S11b, S01a, S01b. done.
  - rewrite S22a, S22b, S12a, S12b, S02a, S02b. done.
Qed.

Lemma minmax_fold_spec (vals : list point) (mm : vec3 * vec3) :
  (∀ d, 0 ≤ d ≤ 2 → vget mm.1 d ≤ vget mm.2 d) →
  ∀ d, 0 ≤ d ≤ 2 →
    vget (foldl minmax_step mm vals).1 d
    = foldl Z.min (vget mm.1 d) (coord d <$> vals)
    ∧ vget (foldl minmax_step mm vals).2 d
      = foldl Z.max (vget mm.2 d) (coord d <$> vals).
Proof.
  revert mm. induction vals as [|val vals IH]; intros mm Hle d Hd; [done|].
  cbn [foldl fmap list_fmap].
  destruct (minmax_step_spec mm val d Hle Hd) as [<- <-].
  apply IH; [|done]. intros d' Hd'.
  destruct (minmax_step_spec mm val d' Hle Hd') as [-> ->].
  specialize (Hle d' Hd'). lia.
Qed.

Lemma foldl_max_spec (l : list Z) (v : Z) :
  foldl Z.max v l ∈ v :: l ∧ ∀ x, x ∈ v :: l → x ≤ foldl Z.max v l.
Proof.
  revert v. induction l as [|a l IH]; intros v; cbn [foldl].
  - split; [left|]. intros x ->%list_elem_of_singleton. lia.
  - destruct (IH (Z.max v a)) as [Hin Hle]. split.
    + apply elem_of_cons in Hin as [Hin|Hin]; [|by do 2 right].
      rewrite Hin. destruct (Z.max_spec v a) as [[_ ->]|[_ ->]];
        [right; left|left].
    + intros x Hx. apply elem_of_cons in Hx as [->|Hx].
      * specialize (Hle (Z.max v a) ltac:(left)). lia.
      * apply elem_of_cons in Hx as [->|Hx].
        -- specialize (Hle (Z.max v a) ltac:(left)). lia.
        -- apply Hle. by right.
Qed.

Lemma least_foldl (v : Z) (l : list Z) : least (foldl Z.min v l) (v :: l).
Proof.
  destruct (foldl_min_spec l v) as [Hin Hle]. split; [done|].
  by apply Forall_forall.
Qed.

Lemma greatest_foldl (v : Z) (l : list Z) : greatest (foldl Z.max v l) (v :: l).
Proof.
  destruct (foldl_max_spec l v) as [Hin Hle]. split; [done|].
  by apply Forall_forall.
Qed.

Lemma coord_vget (val : point) (d : Z) :
  vget (Vec3 (px val) (py val) (pz val)) d = coord d val.
Proof. done. Qed.

Lemma slice_cons (X : list point) (L R : Z) :
  0 ≤ L → L ≤ R → R < Z.of_nat (length X) →
  slice L R X
  = pt X L :: ((λ i : nat, pt X (L + 1 + Z.of_nat i)) <$> seq 0 (Z.to_nat (R - L))).
Proof.
  intros HL HLR HR. apply list_eq. intros i.
  destruct (decide (Z.of_nat i < R - L + 1)) as [Hi|Hi].
  - rewrite slice_lookup by lia.
    rewrite (list_lookup_lookup_total_lt X) by lia.
    destruct i as [|i]; rewrite lookup_cons; cbv iota beta.
    + unfold pt. do 2 f_equal. lia.
    + rewrite list_lookup_fmap, lookup_seq_lt by lia. cbn.
      unfold pt. do 2 f_equal. lia.
  - rewrite !(proj2 (lookup_ge_None _ _)); [done|..].
    + cbn. rewrite length_fmap, length_seq. lia.
    + rewrite slice_length by lia. lia.
Qed.

Section DataBounds.

Variable dir : Directory.
Hypothesis Hdir : dir_ok dir.
Variable to_float : Z → Z.
Variable X : list point.
Hypothesis HX : TotalNumCells dir ≤ Z.of_nat (length X).
Variable top : KdNode.

(** A process with points of [[L, R]] finds their bounds. *)
Lemma GetLocalMinMax_data (L R me s e : Z) :
  window dir me = Some (s, e) → 0 ≤ s → e < TotalNumCells dir →
  Z.max L s ≤ Z.min R e →
  ∃ mn mx,
    GetLocalMinMax dir to_float X top L R me = Some (mn, mx)
    ∧ bounding_box X (Z.max L s) (Z.min R e) mn mx.
Proof.
  intros Hw Hs He Hne. unfold GetLocalMinMax. rewrite Hw. cbn [mbind option_bind].
  replace (if L >? s then L else s) with (Z.max L s)
    by (destruct (Z.gtb_spec L s); lia).
  replace (if R <? e then R else e) with (Z.min R e)
    by (destruct (Z.ltb_spec R e); lia).
  set (from := Z.max L s) in *. set (to := Z.min R e) in *.
  destruct (Z.leb_spec from to); [|lia].
  assert (∀ i, from ≤ i ≤ to → load s e X i = Some (pt X i)) as Hload.
  { intros i Hi. unfold load.
    destruct (Z.ltb_spec i s); [lia|]. destruct (Z.gtb_spec i e); [lia|]. cbn.
    unfold pt. apply list_lookup_lookup_total_lt. lia. }
  unfold GetLocalVal. destruct (Z.ltb_spec from s); [lia|].
  destruct (Z.gtb_spec from e); [lia|]. cbn [orb mbind option_bind].
  rewrite Hload by lia. cbn [mbind option_bind].
  rewrite (mapM_values _ (λ i : nat, pt X (from + 1 + Z.of_nat i))).
  - cbn [mbind option_bind].
    set (v0 := Vec3 (px (pt X from)) (py (pt X from)) (pz (pt X from))).
    destruct (foldl minmax_step (v0, v0) _) as [mn mx] eqn:Hfold.
    exists mn, mx. split; [done|]. intros d Hd.
    pose proof (minmax_fold_spec
                  ((λ i : nat, pt X (from + 1 + Z.of_nat i))
                     <$> seq 0 (Z.to_nat (to - from))) (v0, v0)) as Hspec.
    rewrite Hfold in Hspec.
    destruct (Hspec (λ _ _, Z.le_refl _) d Hd) as [Hmn Hmx].
    cbn [fst snd] in Hmn, Hmx. rewrite Hmn, Hmx.
    unfold coords. rewrite slice_cons by lia. cbn [map].
    change (map (coord d)) with (fmap (M := list) (coord d)).
    unfold v0. rewrite coord_vget.
    split; [apply least_foldl|apply greatest_foldl].
  - intros i Hi. apply elem_of_seq in Hi. apply Hload. lia.
Qed.

(** A process without points of [[L, R]] answers the bounds of the top
    node, the upper ones as the minimum. *)
Lemma GetLocalMinMax_none (L R me s e : Z) :
  window dir me = Some (s, e) → Z.min R e < Z.max L s →
  ∃ mn mx,
    GetLocalMinMax dir to_float X top L R me = Some (mn, mx)
    ∧ ∀ d, 0 ≤ d ≤ 2 →
        vget mn d = to_float (vget (Max top) d)
        ∧ vget mx d = to_float (vget (Min top) d).
Proof.
  intros Hw Hempty. unfold GetLocalMinMax. rewrite Hw. cbn [mbind option_bind].
  replace (if L >? s then L else s) with (Z.max L s)
    by (destruct (Z.gtb_spec L s); lia).
  replace (if R <? e then R else e) with (Z.min R e)
    by (destruct (Z.ltb_spec R e); lia).
  destruct (Z.leb_spec (Z.max L s) (Z.min R e)); [lia|].
  eexists _, _. split; [done|]. intros d Hd.
  assert (d = 0 ∨ d = 1 ∨ d = 2) as [-> | [-> | ->]] by lia; done.
Qed.

Lemma elem_of_coords (d A B x : Z) :
  0 ≤ A → B < Z.of_nat (length X) →
  x ∈ coords d A B X ↔ ∃ i, A ≤ i ≤ B ∧ x = cv d X i.
Proof.
  intros HA HB. split.
  - intros Hx. apply list_elem_of_lookup_1 in Hx as [i Hi].
    pose proof (lookup_lt_Some _ _ _ Hi) as Hlt.
    unfold coords in Hlt. rewrite length_map in Hlt.
    unfold slice in Hlt. rewrite length_take in Hlt.
    exists (A + Z.of_nat i). split; [lia|]. by eapply coords_lookup.
  - intros (i & Hi & ->). apply (list_elem_of_lookup_2 _ (Z.to_nat (i - A))).
    unfold coords. change (map (coord d)) with (fmap (M := list) (coord d)).
    rewrite list_lookup_fmap, slice_lookup by lia.
    rewrite (list_lookup_lookup_total_lt X) by lia. cbn. unfold cv, pt.
    do 3 f_equal. lia.
Qed.

Lemma vget_vmin (a b : vec3) (d : Z) :
  vget (vmin a b) d = Z.min (vget a d) (vget b d).
Proof. unfold vget, vmin. cbn. by repeat case_match. Qed.

Lemma vget_vmax (a b : vec3) (d : Z) :
  vget (vmax a b) d = Z.max (vget a d) (vget b d).
Proof. unfold vget, vmax. cbn. by repeat case_match. Qed.

Lemma reduce_minmax_spec (mms : list (vec3 * vec3)) :
  mms ≠ [] →
  ∃ r, reduce_minmax mms = Some r
       ∧ ∀ d, least (vget r.1 d) ((λ m, vget m.1 d) <$> mms)
              ∧ greatest (vget r.2 d) ((λ m, vget m.2 d) <$> mms).
Proof.
  destruct mms as [|mm mms]; [done|]. intros _. eexists. split; [done|].
  intros d. cbn [fmap list_fmap].
  assert (∀ acc,
            vget (foldl (λ acc m, (vmin acc.1 m.1, vmax acc.2 m.2)) acc mms).1 d
            = foldl Z.min (vget acc.1 d) ((λ m, vget m.1 d) <$> mms)
            ∧ vget (foldl (λ acc m, (vmin acc.1 m.1, vmax acc.2 m.2)) acc mms).2 d
              = foldl Z.max (vget acc.2 d) ((λ m, vget m.2 d) <$> mms)) as Hfold.
  { induction mms as [|m mms IH]; intros acc; [done|].
    cbn [foldl fmap list_fmap]. destruct (IH (vmin acc.1 m.1, vmax acc.2 m.2)) as [-> ->].
    cbn [fst snd]. by rewrite vget_vmin, vget_vmax. }
  destruct (Hfold mm) as [-> ->].
  split; [apply least_foldl|apply greatest_foldl].
Qed.

(** What the process [q] answers for the range [[A, B]]. *)
Lemma GetLocalMinMax_cases (A B q : Z) :
  0 ≤ q < NumProcesses dir →
  ∃ s e mm,
    window dir q = Some (s, e)
    ∧ GetLocalMinMax dir to_float X top A B q = Some mm
    ∧ ((Z.max A s ≤ Z.min B e
        ∧ bounding_box X (Z.max A s) (Z.min B e) mm.1 mm.2)
       ∨ (Z.min B e < Z.max A s
          ∧ ∀ d, 0 ≤ d ≤ 2 →
              vget mm.1 d = to_float (vget (Max top) d)
              ∧ vget mm.2 d = to_float (vget (Min top) d))).
Proof.
  intros Hq. pose proof (window_eq dir Hdir q Hq) as Hw.
  set (s := upper dir (Z.to_nat q)) in *.
  set (e := upper dir (S (Z.to_nat q)) - 1) in *.
  assert (0 ≤ s) as Hs.
  { pose proof (upper_mono dir Hdir 0 (Z.to_nat q) ltac:(lia)) as H0.
    rewrite (upper_0 dir Hdir) in H0. done. }
  assert (e < TotalNumCells dir) as He.
  { pose proof (upper_mono dir Hdir (S (Z.to_nat q))
                  (Z.to_nat (NumProcesses dir)) ltac:(lia)) as H1.
    rewrite (upper_ge dir Hdir (Z.to_nat (NumProcesses dir))) in H1 by lia.
    unfold e. lia. }
  destruct (decide (Z.max A s ≤ Z.min B e)) as [Hdata|Hnone].
  - destruct (GetLocalMinMax_data A B q s e Hw Hs He Hdata) as (mn & mx & Hrun & Hbox).
    exists s, e, (mn, mx). split_and!; [done..|]. left. done.
  - destruct (GetLocalMinMax_none A B q s e Hw ltac:(lia)) as (mn & mx & Hrun & Hsent).
    exists s, e, (mn, mx). split_and!; [done..|]. right. split; [lia|done].
Qed.

(** The reduction over the processes [p1 .. p2] that hold [[L, R]] finds
    the bounds of a part [[A, B]] of it. *)
Lemma part_bounds (L R A B p1 p2 : Z) :
  0 ≤ L → L ≤ A → A ≤ B → B ≤ R → R < TotalNumCells dir →
  WhoHas dir L = Some p1 → WhoHas dir R = Some p2 →
  enclosed to_float top X A B →
  ∃ mms r,
    mapM (GetLocalMinMax dir to_float X top A B) (ranks p1 p2) = Some mms
    ∧ reduce_minmax mms = Some r
    ∧ bounding_box X A B r.1 r.2.
Proof.
  intros HL HLA HAB HBR HR Hp1 Hp2 Henc.
  destruct (owner_window dir Hdir L ltac:(lia))
    as (p1' & s1 & e1 & Hp1' & Hp1r & _).
  destruct (owner_window dir Hdir R ltac:(lia))
    as (p2' & s2 & e2 & Hp2' & Hp2r & _).
  assert (p1' = p1) as -> by congruence. assert (p2' = p2) as -> by congruence.
  set (P := λ (q : Z) (mm : vec3 * vec3),
         ∃ s e, window dir q = Some (s, e)
           ∧ ((Z.max A s ≤ Z.min B e
               ∧ bounding_box X (Z.max A s) (Z.min B e) mm.1 mm.2)
              ∨ (Z.min B e < Z.max A s
                 ∧ ∀ d, 0 ≤ d ≤ 2 →
                     vget mm.1 d = to_float (vget (Max top) d)
                     ∧ vget mm.2 d = to_float (vget (Min top) d)))).
  destruct (mapM_spec (GetLocalMinMax dir to_float X top A B) P (ranks p1 p2))
    as (mms & Hmms & Hall).
  { intros q Hq. apply elem_of_ranks in Hq.
    destruct (GetLocalMinMax_cases A B q ltac:(lia)) as (s & e & mm & Hw & Hrun & Hc).
    exists mm. split; [done|]. by exists s, e. }
  (* the owner of an index of the part is one of the processes *)
  assert (∀ i, A ≤ i ≤ B →
            ∃ mm A' B', mm ∈ mms ∧ A ≤ A' ∧ A' ≤ i ≤ B' ∧ B' ≤ B
                        ∧ bounding_box X A' B' mm.1 mm.2) as Hown.
  { intros i Hi.
    destruct (owner_window dir Hdir i ltac:(lia))
      as (q & s & e & Hq & Hqr & Hw & _ & _ & _ & Hin & _).
    pose proof (WhoHas_mono dir Hdir L i p1 q ltac:(lia) ltac:(lia) ltac:(lia) Hp1 Hq).
    pose proof (WhoHas_mono dir Hdir i R q p2 ltac:(lia) ltac:(lia) ltac:(lia) Hq Hp2).
    assert (q ∈ ranks p1 p2) as Hqin by (apply elem_of_ranks; lia).
    apply list_elem_of_lookup_1 in Hqin as [k Hk].
    destruct (Forall2_lookup_l _ _ _ _ _ Hall Hk) as (mm & Hmm & s' & e' & Hw' & Hc).
    assert (s' = s ∧ e' = e) as [-> ->] by (split; congruence).
    destruct Hc as [[Hne Hbox]|[Hempty _]]; [|lia].
    exists mm, (Z.max A s), (Z.min B e).
    split; [by eapply list_elem_of_lookup_2|]. split_and!; try lia. done. }
  assert (mms ≠ []) as Hne.
  { destruct (Hown A ltac:(lia)) as (mm & _ & _ & Hmm & _).
    intros ->. by apply elem_of_nil in Hmm. }
  destruct (reduce_minmax_spec mms Hne) as (r & Hr & Hred).
  exists mms, r. split; [done|]. split; [done|].
  assert (B < Z.of_nat (length X)) as HBX by lia.
  intros d Hd. destruct (Hred d) as [[Hmin_in Hmin_le] [Hmax_in Hmax_le]].
  apply list_elem_of_fmap in Hmin_in as (mmin & Hmin_eq & Hmmin).
  apply list_elem_of_fmap in Hmax_in as (mmax & Hmax_eq & Hmmax).
  assert (∀ mm, mm ∈ mms → vget r.1 d ≤ vget mm.1 d) as Hlow.
  { intros mm Hmm. apply (proj1 (Forall_forall _ _) Hmin_le).
    apply list_elem_of_fmap. by exists mm. }
  assert (∀ mm, mm ∈ mms → vget mm.2 d ≤ vget r.2 d) as Hhigh.
  { intros mm Hmm. apply (proj1 (Forall_forall _ _) Hmax_le).
    apply list_elem_of_fmap. by exists mm. }
  (* what a process with points answers lies among the coordinates *)
  assert (∀ mm A' B', A ≤ A' → A' ≤ B' → B' ≤ B →
            bounding_box X A' B' mm.1 mm.2 →
            vget mm.1 d ∈ coords d A B X ∧ vget mm.2 d ∈ coords d A B X) as Hsub.
  { intros mm A' B' HA' HAB' HB' Hbox.
    destruct (Hbox d Hd) as [[Hlo _] [Hhi _]].
    apply elem_of_coords in Hlo as (i & Hi & ->); [|lia..].
    apply elem_of_coords in Hhi as (j & Hj & ->); [|lia..].
    split; apply elem_of_coords; try lia; [exists i|exists j]; split; (lia || done). }
  destruct (Hown A ltac:(lia)) as (mmA & A1 & B1 & HmmA & HA1 & HiA & HB1 & HboxA).
  destruct (Hsub mmA A1 B1 ltac:(lia) ltac:(lia) ltac:(lia) HboxA) as [HloA HhiA].
  split; split.
  - (* the minimum is a coordinate *)
    apply list_elem_of_lookup_1 in Hmmin as [k Hk].
    destruct (Forall2_lookup_r _ _ _ _ _ Hall Hk) as (q & Hq & s & e & Hw & Hc).
    rewrite Hmin_eq. destruct Hc as [[Hne' Hbox]|[_ Hsent]].
    + apply (Hsub mmin (Z.max A s) (Z.min B e)); (lia || done).
    + destruct (Hsent d Hd) as [Hs _].
      apply elem_of_coords in HloA as (i & Hi & HiA'); [|lia..].
      pose proof (Henc i d Hi Hd) as [_ Hup].
      pose proof (Hlow mmA HmmA) as HlowA.
      assert (vget mmin.1 d = cv d X i) as -> by lia.
      apply elem_of_coords; [lia..|]. by exists i.
  - (* and it is below every coordinate *)
    apply Forall_forall. intros x Hx.
    apply elem_of_coords in Hx as (i & Hi & ->); [|lia..].
    destruct (Hown i Hi) as (mm & A' & B' & Hmm & HA' & Hi' & HB' & Hbox).
    destruct (Hbox d Hd) as [[_ Hle] _].
    pose proof (proj1 (Forall_forall _ _) Hle (cv d X i)) as Hle'.
    specialize (Hlow mm Hmm).
    assert (vget mm.1 d ≤ cv d X i); [|lia].
    apply Hle'. apply elem_of_coords; [lia..|]. by exists i.
  - apply list_elem_of_lookup_1 in Hmmax as [k Hk].
    destruct (Forall2_lookup_r _ _ _ _ _ Hall Hk) as (q & Hq & s & e & Hw & Hc).
    rewrite Hmax_eq. destruct Hc as [[Hne' Hbox]|[_ Hsent]].
    + apply (Hsub mmax (Z.max A s) (Z.min B e)); (lia || done).
    + destruct (Hsent d Hd) as [_ Hs].
      apply elem_of_coords in HhiA as (i & Hi & HiA'); [|lia..].
      pose proof (Henc i d Hi Hd) as [Hdown _].
      pose proof (Hhigh mmA HmmA) as HhighA.
      assert (vget mmax.2 d = cv d X i) as -> by lia.
      apply elem_of_coords; [lia..|]. by exists i.
  - apply Forall_forall. intros x Hx.
    apply elem_of_coords in Hx as (i & Hi & ->); [|lia..].
    destruct (Hown i Hi) as (mm & A' & B' & Hmm & HA' & Hi' & HB' & Hbox).
    destruct (Hbox d Hd) as [_ [_ Hge]].
    pose proof (proj1 (Forall_forall _ _) Hge (cv d X i)) as Hge'.
    specialize (Hhigh mm Hmm).
    assert (cv d X i ≤ vget mm.2 d); [|lia].
    apply Hge'. apply elem_of_coords; [lia..|]. by exists i.
Qed.

Lemma GetDataBounds_boxes (L K R p1 p2 : Z) :
  0 ≤ L → L < K → K ≤ R → R < TotalNumCells dir →
  WhoHas dir L = Some p1 → WhoHas dir R = Some p2 →
  enclosed to_float top X L R →
  ∃ lb rb,
    GetDataBounds dir to_float X top p1 p2 L K R = Some (lb, rb)
    ∧ bounding_box X L (K - 1) lb.1 lb.2
    ∧ bounding_box X K R rb.1 rb.2.
Proof.
  intros HL HLK HKR HR Hp1 Hp2 Henc.
  destruct (part_bounds L R L (K - 1) p1 p2) as (lefts & lb & Hl & Hlr & Hlbox);
    [lia|lia|lia|lia|lia|done|done| |].
  { intros i d Hi Hd. apply Henc; lia. }
  destruct (part_bounds L R K R p1 p2) as (rights & rb & Hr & Hrr & Hrbox);
    [lia|lia|lia|lia|lia|done|done| |].
  { intros i d Hi Hd. apply Henc; lia. }
  exists lb, rb. unfold GetDataBounds. rewrite Hl, Hr. cbn [mbind option_bind].
  rewrite Hlr, Hrr. done.
Qed.

End DataBounds.

(** GetDataBounds finds the bounding boxes of the two parts [L .. K-1] and
    [K .. R] of a range whose first and last index belong to the processes
    [p1] and [p2]: along every dimension the least and the greatest
    coordinate of the points of the part, when the bounds of the top node,
    which the processes without points of a part answer, hold the points of
    the range. *)
Theorem GetDataBounds_bounding_boxes (dir : Directory) (to_float : Z → Z)
    (X : list point) (top : KdNode) (L K R p1 p2 : Z) :
  dir_ok dir → TotalNumCells dir ≤ Z.of_nat (length X) →
  0 ≤ L → L < K → K ≤ R → R < TotalNumCells dir →
  WhoHas dir L = Some p1 → WhoHas dir R = Some p2 →
  enclosed to_float top X L R →
  ∃ lb rb,
    GetDataBounds dir to_float X top p1 p2 L K R = Some (lb, rb)
    ∧ bounding_box X L (K - 1) lb.1 lb.2
    ∧ bounding_box X K R rb.1 rb.2.
Proof. intros. by apply GetDataBounds_boxes. Qed.

(** Four points on two processes, two on each, parted at index 2: the
    right part lies between [(2, 5, 0)] and [(3, 5, 0)]. *)
Lemma GetDataBounds_bounding_boxes_witness :
  ∃ lb rb,
    GetDataBounds (BuildGlobalIndexLists [2; 2]) (λ x, x) four_points
      (SetBounds 0 3 5 7 0 0 new_node) 0 1 0 2 3 = Some (lb, rb)
    ∧ rb = (Vec3 2 5 0, Vec3 3 5 0)
    ∧ bounding_box four_points 2 3 rb.1 rb.2.
Proof.
  destruct (GetDataBounds_bounding_boxes (BuildGlobalIndexLists [2; 2]) (λ x, x)
              four_points (SetBounds 0 3 5 7 0 0 new_node) 0 2 3 0 1)
    as (lb & rb & Hrun & _ & Hbox).
  - apply BuildGlobalIndexLists_ok; [cbn; lia|repeat constructor; lia].
  - cbn. lia.
  - lia.
  - lia.
  - lia.
  - cbn. lia.
  - reflexivity.
  - reflexivity.
  - intros i d Hi Hd.
    assert (i = 0 ∨ i = 1 ∨ i = 2 ∨ i = 3) as [-> | [-> | [-> | ->]]] by lia;
      (assert (d = 0 ∨ d = 1 ∨ d = 2) as [-> | [-> | ->]] by lia);
      vm_compute; split; discriminate.
  - exists lb, rb. split; [exact Hrun|]. split; [|exact Hbox].
    vm_compute in Hrun. injection Hrun as _ <-. reflexivity.
Defined.

(** ** The redistribution of PartitionSubArray *)

(** *** memcpy *)

Lemma memcpy_length (X Y : list point) (f t c : Z) :
  0 ≤ f → 0 ≤ t → 0 ≤ c →
  f + c ≤ Z.of_nat (length X) → t + c ≤ Z.of_nat (length Y) →
  length (memcpy X Y f t c) = length Y.
Proof.
  intros. unfold memcpy.
  rewrite !length_app, !length_take, !length_drop. lia.
Qed.

Lemma memcpy_lookup (X Y : list point) (f t c : Z) (i : nat) :
  0 ≤ f → 0 ≤ t → 0 ≤ c →
  f + c ≤ Z.of_nat (length X) → t + c ≤ Z.of_nat (length Y) →
  memcpy X Y f t c !! i
  = if decide (t ≤ Z.of_nat i < t + c)
    then X !! Z.to_nat (f + (Z.of_nat i - t))
    else Y !! i.
Proof.
  intros Hf Ht Hc HX HY. unfold memcpy.
  destruct (decide (Z.of_nat i < t)) as [Hlt|Hge].
  { rewrite lookup_app_l by (rewrite length_take; lia).
    rewrite lookup_take_lt by lia. by rewrite decide_False by lia. }
  rewrite lookup_app_r by (rewrite length_take; lia).
  rewrite length_take, Nat.min_l by lia.
  destruct (decide (Z.of_nat i < t + c)) as [Hlt|Hge'].
  - rewrite lookup_app_l by (rewrite length_take, length_drop; lia).
    rewrite lookup_take_lt by lia. rewrite lookup_drop.
    rewrite decide_True by lia. f_equal. lia.
  - rewrite lookup_app_r by (rewrite length_take, length_drop; lia).
    rewrite length_take, length_drop, Nat.min_l by lia.
    rewrite lookup_drop. rewrite decide_False by lia. f_equal. lia.
Qed.

(** *** Placing points *)

Lemma placed_none (X : list point) (S : list Z) (pos : Z) (Y : list point) :
  placed X S pos 0 Y Y.
Proof. split; [done|]. intros i. by rewrite decide_False by lia. Qed.

Lemma zget_drop (S : list Z) (t i : Z) :
  0 ≤ t → 0 ≤ i → zget (drop (Z.to_nat t) S) i = zget S (t + i).
Proof.
  intros Ht Hi. unfold zget. rewrite lookup_total_drop. f_equal. lia.
Qed.

Lemma placed_app (X : list point) (S : list Z) (pos t1 t2 : Z)
    (Y Y1 Y2 : list point) :
  0 ≤ t1 → 0 ≤ t2 →
  placed X S pos t1 Y Y1 →
  placed X (drop (Z.to_nat t1) S) (pos + t1) t2 Y1 Y2 →
  placed X S pos (t1 + t2) Y Y2.
Proof.
  intros Ht1 Ht2 [Hl1 H1] [Hl2 H2]. split; [congruence|]. intros i.
  rewrite H2. destruct (decide (pos + t1 ≤ Z.of_nat i < pos + t1 + t2)).
  - rewrite decide_True by lia. rewrite zget_drop by lia.
    do 3 f_equal. lia.
  - rewrite H1. destruct (decide (pos ≤ Z.of_nat i < pos + t1)).
    + by rewrite decide_True by lia.
    + by rewrite decide_False by lia.
Qed.

Lemma placed_ext (X : list point) (S S' : list Z) (pos t : Z)
    (Y Y' : list point) :
  (∀ i, 0 ≤ i < t → zget S i = zget S' i) →
  placed X S pos t Y Y' → placed X S' pos t Y Y'.
Proof.
  intros HS [Hl H]. split; [done|]. intros i. rewrite H.
  destruct (decide _); [|done]. by rewrite HS by lia.
Qed.

Lemma zget_seqZ_app (m len : Z) (l : list Z) (i : Z) :
  0 ≤ i < len → zget (seqZ m len ++ l) i = m + i.
Proof.
  intros Hi. unfold zget. rewrite lookup_total_app_l by (rewrite length_seqZ; lia).
  rewrite lookup_total_seqZ_lt by lia. lia.
Qed.

(** *** The arrays of the schedule in SelectBuffer *)

Section Rows.

Variables (n : Z) (rows : list (list Z)).
Hypothesis Hn : 0 ≤ n.
Hypothesis Hrows : Forall (λ r, length r = Z.to_nat n) rows.

Lemma rows_lookup (k i : Z) :
  0 ≤ k → 0 ≤ i < n →
  (Z.to_nat k < length rows)%nat →
  rd (concat rows) k n i = Some (zget (rows !!! Z.to_nat k) i).
Proof.
  intros Hk Hi Hlen. unfold rd. rewrite vec_get_nat by nia.
  replace (Z.to_nat (k * n + i)) with (Z.to_nat k * Z.to_nat n + Z.to_nat i)%nat by nia.
  rewrite (lookup_concat_rows (Z.to_nat n)) by (done || lia).
  destruct (lookup_lt_is_Some_2 rows (Z.to_nat k) Hlen) as [row Hrow].
  rewrite Hrow. cbn.
  rewrite (list_lookup_total_correct _ _ _ Hrow).
  apply list_lookup_lookup_total_lt.
  rewrite Forall_lookup in Hrows. rewrite (Hrows _ _ Hrow). lia.
Qed.

Lemma rows_length : length (concat rows) = (length rows * Z.to_nat n)%nat.
Proof.
  assert (H := Hrows). clear Hrows.
  induction H as [|r l Hr _ IH]; [done|].
  cbn [concat length]. rewrite length_app, IH, Hr. lia.
Qed.

(** A read past the end of an array is a read of a later array. *)
Lemma rows_spill (k i : Z) :
  0 ≤ k → 0 ≤ i → k * n + i < Z.of_nat (length rows) * n →
  is_Some (rd (concat rows) k n i).
Proof.
  intros Hk Hi Hlen. unfold rd. rewrite vec_get_nat by nia.
  apply lookup_lt_is_Some_2. rewrite rows_length. nia.
Qed.

Lemma rows_insert (k i v : Z) :
  0 ≤ k → 0 ≤ i < n →
  (Z.to_nat k < length rows)%nat →
  vec_set (concat rows) (k * n + i) v
  = Some (concat (<[Z.to_nat k := <[Z.to_nat i := v]> (rows !!! Z.to_nat k)]> rows)).
Proof.
  intros Hk Hi Hlen. unfold vec_set.
  destruct (Z.ltb_spec (k * n + i) 0); [nia|].
  destruct (Z.geb_spec (k * n + i) (Z.of_nat (length (concat rows)))) as [Hge|_].
  { rewrite rows_length in Hge. nia. }
  cbn [orb]. f_equal.
  replace (Z.to_nat (k * n + i)) with (Z.to_nat k * Z.to_nat n + Z.to_nat i)%nat by nia.
  assert (Z.to_nat i < Z.to_nat n)%nat as Hi' by lia.
  clear Hi Hk. revert Hlen. generalize (Z.to_nat k) as p. intros p.
  assert (Hall := Hrows). clear Hrows.
  revert p. induction Hall as [|r l Hr Hl IH]; intros p Hlen; [cbn in Hlen; lia|].
  destruct p as [|p].
  - cbn. rewrite insert_app_l by lia. done.
  - cbn [concat]. rewrite insert_app_r_alt by lia.
    cbn. f_equal.
    replace (Z.to_nat n + p * Z.to_nat n + Z.to_nat i - length r)%nat
      with (p * Z.to_nat n + Z.to_nat i)%nat by lia.
    apply IH. cbn in Hlen. lia.
Qed.

End Rows.

(** *** The unsent values *)

Lemma unsent_end (b : Z → Z) (As Us : list Z) (n k : Z) :
  n ≤ k → unsent b As Us n k = [].
Proof. intros Hk. unfold unsent. by rewrite seqZ_nil by lia. Qed.

Lemma unsent_cons (b : Z → Z) (As Us : list Z) (n k : Z) :
  k < n →
  unsent b As Us n k
  = seqZ (b k + zget Us k) (zget As k - zget Us k) ++ unsent b As Us n (k + 1).
Proof.
  intros Hk. unfold unsent. rewrite (seqZ_cons k) by lia.
  rewrite bind_cons. unfold Z.succ, Z.pred.
  by replace (n - k + -1) with (n - (k + 1)) by lia.
Qed.

Lemma zget_insert (l : list Z) (i j v : Z) :
  0 ≤ i < Z.of_nat (length l) → 0 ≤ j →
  zget (<[Z.to_nat i := v]> l) j = if decide (j = i) then v else zget l j.
Proof.
  intros Hi Hj. unfold zget. destruct (decide (j = i)) as [->|Hne].
  - rewrite list_lookup_total_insert. by rewrite decide_True by lia.
  - by rewrite list_lookup_total_insert_ne by lia.
Qed.

Lemma unsent_insert (b : Z → Z) (As Us : list Z) (n k j v : Z) :
  0 ≤ j < k → j < Z.of_nat (length Us) →
  unsent b As (<[Z.to_nat j := v]> Us) n k = unsent b As Us n k.
Proof.
  intros Hj Hlen. unfold unsent. apply bind_ext_in.
  intros s Hs. apply elem_of_seqZ in Hs.
  rewrite zget_insert by lia. by rewrite decide_False by lia.
Qed.

Lemma drop_seqZ_app (m t len : Z) (l : list Z) :
  0 ≤ t ≤ len →
  drop (Z.to_nat t) (seqZ m len ++ l) = seqZ (m + t) (len - t) ++ l.
Proof.
  intros Ht. replace len with (t + (len - t)) at 1 by lia.
  rewrite seqZ_app by lia. rewrite <-app_assoc.
  rewrite drop_app_length'; [done|]. rewrite length_seqZ. lia.
Qed.

(** *** DoTransfer *)

Lemma DoTransfer_spec (dir : Directory) (X Y : list point)
    (from to f pos c c' : Z) (l : list Z) (fs fe ts te : Z) :
  0 ≤ c ≤ c' →
  window dir from = Some (fs, fe) → window dir to = Some (ts, te) →
  0 ≤ fs → fs ≤ f → f + c' ≤ fe + 1 → fe < Z.of_nat (length X) →
  0 ≤ ts → ts ≤ pos → pos + c ≤ te + 1 → te < Z.of_nat (length X) →
  length Y = length X →
  ∃ Y', DoTransfer dir X Y from to f pos c = Some Y'
        ∧ placed X (seqZ f c' ++ l) pos c Y Y'.
Proof.
  intros Hc Hfrom Hto Hfs0 Hfs Hfe HfX Hts0 Hts Hte HtX HY. unfold DoTransfer.
  destruct (Z.ltb_spec c 0); [lia|].
  destruct (Z.eqb_spec c 0) as [->|Hc0].
  { eexists. split; [done|]. apply placed_none. }
  rewrite Hfrom, Hto. cbn. unfold GetLocalVal.
  destruct (Z.ltb_spec f fs); [lia|]. destruct (Z.gtb_spec f fe); [lia|].
  destruct (Z.ltb_spec pos ts); [lia|]. destruct (Z.gtb_spec pos te); [lia|].
  cbn. destruct (Z.gtb_spec (f + c - 1) fe); [lia|].
  destruct (Z.gtb_spec (pos + c - 1) te); [lia|]. cbn.
  eexists. split; [done|]. split.
  - apply memcpy_length; lia.
  - intros i. rewrite memcpy_lookup by lia.
    destruct (decide _); [|done]. rewrite zget_seqZ_app by lia. done.
Qed.

(** *** A loop over the senders *)

Section SendLoop.

Variables (dir : Directory) (X : list point) (p1 n : Z).
Variable rows0 : list (list Z).
Variables (ph recvr : Z).

Hypothesis Hn : 0 < n.
Hypothesis Hrows : Forall (λ r, length r = Z.to_nat n) rows0.
Hypothesis Hlen : length rows0 = 10%nat.
Hypothesis Hph : 0 ≤ ph ≤ 2.
Hypothesis Hrecvr : 0 ≤ recvr < n.

#[local] Abbreviation lft := (rows0 !!! 0%nat).
#[local] Abbreviation rgt := (rows0 !!! 1%nat).
#[local] Abbreviation A := (rows0 !!! Z.to_nat (4 + 2 * ph)).
#[local] Abbreviation ku := (Z.to_nat (5 + 2 * ph)).
#[local] Abbreviation b := (phase_base rows0 ph).
#[local] Abbreviation buf_of U := (concat (<[ku := U]> rows0)).

Hypothesis Hwin : ∀ s, 0 ≤ s < n →
  ∃ ws we, window dir (s + p1) = Some (ws, we)
           ∧ 0 ≤ ws ∧ ws ≤ zget lft s ∧ zget rgt s ≤ we
           ∧ we < Z.of_nat (length X).
Hypothesis Hseg : ∀ s, 0 ≤ s < n →
  zget lft s ≤ b s ∧ 0 ≤ zget A s ∧ b s + zget A s ≤ zget rgt s + 1.

Lemma rows_U (U : list Z) :
  Z.of_nat (length U) = n →
  Forall (λ r, length r = Z.to_nat n) (<[ku := U]> rows0)
  ∧ length (<[ku := U]> rows0) = 10%nat.
Proof.
  intros HU. split; [|by rewrite length_insert].
  apply Forall_insert; [done|lia].
Qed.

Lemma rd_fixed (U : list Z) (k s : Z) :
  Z.of_nat (length U) = n → 0 ≤ k < 10 → k ≠ 5 + 2 * ph → 0 ≤ s < n →
  rd (buf_of U) k n s = Some (zget (rows0 !!! Z.to_nat k) s).
Proof.
  intros HU Hk Hne Hs. destruct (rows_U U HU) as [HF HL].
  rewrite (rows_lookup n _ ltac:(lia) HF) by lia.
  by rewrite list_lookup_total_insert_ne by lia.
Qed.

Lemma rd_used (U : list Z) (s : Z) :
  Z.of_nat (length U) = n → 0 ≤ s < n →
  rd (buf_of U) (5 + 2 * ph) n s = Some (zget U s).
Proof.
  intros HU Hs. destruct (rows_U U HU) as [HF HL].
  rewrite (rows_lookup n _ ltac:(lia) HF) by lia.
  rewrite list_lookup_total_insert. by rewrite decide_True by lia.
Qed.

Lemma from_index_spec (U : list Z) (s : Z) :
  Z.of_nat (length U) = n → 0 ≤ s < n →
  from_index (buf_of U) n ph s = Some (b s + zget U s).
Proof.
  intros HU Hs. unfold from_index, phase_base.
  rewrite (rd_fixed U 0), rd_used by lia. cbn.
  destruct (Z.geb_spec ph 1); [rewrite (rd_fixed U 4) by lia|]; cbn;
    (destruct (Z.geb_spec ph 2); [rewrite (rd_fixed U 6) by lia|]); cbn;
    f_equal; lia.
Qed.

Lemma set_used (U : list Z) (s v : Z) :
  Z.of_nat (length U) = n → 0 ≤ s < n →
  vec_set (buf_of U) ((5 + 2 * ph) * n + s) v
  = Some (buf_of (<[Z.to_nat s := v]> U)).
Proof.
  intros HU Hs. destruct (rows_U U HU) as [HF HL].
  rewrite (rows_insert n _ ltac:(lia) HF) by lia.
  rewrite list_lookup_total_insert. rewrite decide_True by lia.
  by rewrite list_insert_insert_eq.
Qed.

Lemma send_loop_spec (fuel : nat) (sndr : Z) (U : list Z) (Y : list point)
    (have need rem : Z) (rest : list Z) (t : Z) :
  0 ≤ sndr → (Z.to_nat (n - sndr) < fuel)%nat →
  Z.of_nat (length U) = n →
  (∀ s, 0 ≤ s < n → 0 ≤ zget U s ≤ zget A s) →
  0 ≤ need → 0 ≤ have →
  zget lft recvr + have + need ≤ zget rgt recvr + 1 →
  length Y = length X →
  rest = unsent b A U n sndr →
  t = Z.min need (Z.of_nat (length rest)) →
  ∃ sndr' U' Y',
    send_loop dir fuel X p1 n ph recvr sndr (buf_of U, Y, have, need, rem)
    = Some (sndr', (buf_of U', Y', have + t, need - t, rem - t))
    ∧ Z.of_nat (length U') = n
    ∧ (∀ s, 0 ≤ s < n → 0 ≤ zget U' s ≤ zget A s)
    ∧ sndr ≤ sndr' ≤ Z.max sndr n
    ∧ (0 < need ≤ Z.of_nat (length rest) → sndr' < n)
    ∧ unsent b A U' n sndr' = drop (Z.to_nat t) rest
    ∧ placed X rest (zget lft recvr + have) t Y Y'.
Proof.
  revert sndr U Y have need rem rest t.
  induction fuel as [|fuel IH];
    intros sndr U Y have need rem rest t Hs Hfuel HU Hbound Hneed Hhave
      Hroom HY Hrest Ht; [lia|].
  cbn [send_loop]. destruct (Z.ltb_spec sndr n) as [Hlt|Hge].
  2:{ rewrite unsent_end in Hrest by lia. subst rest. cbn in Ht.
      assert (t = 0) as -> by lia.
      exists sndr, U, Y. rewrite !Z.add_0_r, !Z.sub_0_r.
      split_and!; try done; try lia.
      - cbn [length]. lia.
      - by rewrite unsent_end by lia.
      - apply placed_none. }
  rewrite (rd_fixed U (4 + 2 * ph)), rd_used by lia. cbn.
  rewrite (unsent_cons _ _ _ _ sndr) in Hrest by lia.
  pose proof (Hbound sndr ltac:(lia)) as Hu.
  set (a := zget A sndr) in *. set (u := zget U sndr) in *.
  set (rest1 := unsent b A U n (sndr + 1)) in *.
  destruct (Z.eqb_spec (a - u) 0) as [Hz|Hnz].
  { (* continue *)
    rewrite Hz, seqZ_nil in Hrest by lia. cbn in Hrest.
    destruct (IH (sndr + 1) U Y have need rem rest t)
      as (sndr' & U' & Y' & Hrun & HU' & Hb' & Hs' & Hbrk & Hun & Hpl);
      try done; try lia.
    exists sndr', U', Y'. split_and!; try done; lia. }
  set (take := if a - u >? need then need else a - u).
  assert (take = Z.min (a - u) need) as Htake.
  { unfold take. destruct (Z.gtb_spec (a - u) need); lia. }
  clearbody take.
  rewrite from_index_spec, (rd_fixed U 0) by lia. cbn.
  change (Z.to_nat 0) with 0%nat. fold u.
  destruct (Hwin sndr ltac:(lia)) as (ws & we & Hws & Hws0 & Hwsl & Hwer).
  destruct (Hwin recvr Hrecvr) as (rs & re & Hrs & Hrs0 & Hrsl & Hrer).
  destruct (Hseg sndr ltac:(lia)) as (Hb1 & Hb2 & Hb3). fold a in Hb2, Hb3.
  destruct (DoTransfer_spec dir X Y (sndr + p1) (recvr + p1) (b sndr + u)
              (zget lft recvr + have) take (a - u) rest1 ws we rs re)
    as (Y1 & -> & Hpl1); try done; try lia.
  cbn. rewrite set_used by lia. cbn.
  rewrite <-Hrest in Hpl1.
  assert (Z.of_nat (length rest) = (a - u) + Z.of_nat (length rest1)) as Hlrest.
  { rewrite Hrest, length_app, length_seqZ. lia. }
  assert (Z.of_nat (length (<[Z.to_nat sndr := u + take]> U)) = n) as HU1
    by by rewrite length_insert.
  assert (∀ s, 0 ≤ s < n →
            0 ≤ zget (<[Z.to_nat sndr := u + take]> U) s ≤ zget A s) as Hb1'.
  { intros s Hs1. rewrite zget_insert by lia.
    destruct (decide (s = sndr)) as [->|]; [fold a; lia|by apply Hbound]. }
  destruct (Z.eqb_spec (need - take) 0) as [Hdone|Hmore].
  - (* break *)
    assert (t = take) as -> by lia.
    exists sndr, (<[Z.to_nat sndr := u + take]> U), Y1.
    split_and!; try done; try lia.
    rewrite (unsent_cons _ _ _ _ sndr) by lia.
    rewrite unsent_insert by lia. rewrite zget_insert by lia.
    rewrite decide_True by done. fold a rest1.
    rewrite Hrest, drop_seqZ_app by lia. do 2 f_equal; lia.
  - assert (take = a - u) as Hall by lia.
    destruct (IH (sndr + 1) (<[Z.to_nat sndr := u + take]> U) Y1 (have + take)
                (need - take) (rem - take) rest1 (t - take))
      as (sndr' & U' & Y' & Hrun & HU' & Hb' & Hs' & Hbrk & Hun & Hpl);
      try done; try lia.
    + destruct Hpl1 as [-> _]. done.
    + by rewrite unsent_insert by lia.
    + exists sndr', U', Y'.
      replace (have + take + (t - take)) with (have + t) in Hrun by lia.
      replace (need - take - (t - take)) with (need - t) in Hrun by lia.
      replace (rem - take - (t - take)) with (rem - t) in Hrun by lia.
      split_and!; try done; try lia.
      * rewrite Hun. subst rest1.
        replace (Z.to_nat t) with (Z.to_nat take + Z.to_nat (t - take))%nat by lia.
        rewrite <-drop_drop. f_equal.
        rewrite Hrest, Hall, drop_seqZ_app by lia.
        rewrite Z.sub_diag, seqZ_nil by lia. done.
      * replace t with (take + (t - take)) by lia.
        eapply placed_app; [lia|lia|exact Hpl1|].
        replace (zget lft recvr + have + take)
          with (zget lft recvr + (have + take)) by lia.
        eapply placed_ext; [|exact Hpl].
        intros i Hi. rewrite zget_drop by lia.
        rewrite Hrest, Hall. unfold zget.
        rewrite lookup_total_app_r by (rewrite length_seqZ; lia).
        rewrite length_seqZ. f_equal. lia.
Qed.

Lemma next_proc_spec (U : list Z) (sndr : Z) :
  Z.of_nat (length U) = n → 0 ≤ sndr →
  (n ≤ sndr → (5 + 2 * ph) * n + sndr < 10 * n) →
  ∃ next, next_proc (buf_of U) n ph sndr = Some next
          ∧ sndr ≤ next ≤ sndr + 1
          ∧ unsent b A U n next = unsent b A U n sndr.
Proof.
  intros HU Hs Hspill. unfold next_proc.
  destruct (decide (sndr < n)) as [Hlt|Hge].
  - rewrite rd_used, (rd_fixed U (4 + 2 * ph)) by lia. cbn.
    eexists. split; [done|]. destruct (Z.eqb_spec (zget U sndr) (zget A sndr)) as [He|Hne].
    + split; [lia|]. rewrite (unsent_cons _ _ _ _ sndr) by lia.
      rewrite He, Z.sub_diag, seqZ_nil by lia. done.
    + split; [lia|done].
  - destruct (rows_U U HU) as [HF HL].
    destruct (rows_spill n _ ltac:(lia) HF (5 + 2 * ph) sndr) as [u ->];
      [lia|lia|rewrite HL; lia|].
    destruct (rows_spill n _ ltac:(lia) HF (4 + 2 * ph) sndr) as [a ->];
      [lia|lia|rewrite HL; lia|].
    cbn. eexists. split; [done|].
    split; [destruct (u =? a); lia|].
    rewrite !unsent_end; [done|lia|destruct (u =? a); lia].
Qed.

Lemma send_phase_spec (next : Z) (U : list Z) (Y : list point)
    (have need rem : Z) (rest : list Z) (t : Z) :
  0 ≤ next ≤ 2 * n →
  (ph = 2 → 0 < need ≤ Z.of_nat (length rest)) →
  Z.of_nat (length U) = n →
  (∀ s, 0 ≤ s < n → 0 ≤ zget U s ≤ zget A s) →
  0 ≤ need → 0 ≤ have →
  zget lft recvr + have + need ≤ zget rgt recvr + 1 →
  length Y = length X →
  rest = unsent b A U n next →
  t = Z.min need (Z.of_nat (length rest)) →
  ∃ next' U' Y',
    send_phase dir X p1 n ph recvr next (buf_of U, Y, have, need, rem)
    = Some (next', (buf_of U', Y', have + t, need - t, rem - t))
    ∧ Z.of_nat (length U') = n
    ∧ (∀ s, 0 ≤ s < n → 0 ≤ zget U' s ≤ zget A s)
    ∧ 0 ≤ next' ≤ Z.max next n + 1
    ∧ (ph = 2 → next' ≤ n)
    ∧ unsent b A U' n next' = drop (Z.to_nat t) rest
    ∧ length Y' = length X
    ∧ placed X rest (zget lft recvr + have) t Y Y'.
Proof.
  intros Hnext Hright HU Hbound Hneed Hhave Hroom HY Hrest Ht.
  unfold send_phase.
  destruct (send_loop_spec (Z.to_nat n + 1) next U Y have need rem rest t)
    as (sndr' & U' & Y' & -> & HU' & Hb' & Hs' & Hbrk & Hun & Hpl);
    try done; try lia.
  cbn.
  destruct (next_proc_spec U' sndr') as (next' & -> & Hn' & Hun'); try done; try lia.
  { intros Hge. destruct (decide (ph = 2)) as [Hp|Hp]; [|nia].
    specialize (Hbrk (Hright Hp)). lia. }
  cbn. exists next', U', Y'. split_and!; try done; try lia.
  - by rewrite Hun'.
  - destruct Hpl as [-> _]. done.
Qed.

End SendLoop.

(** *** A turn of the loop over the receivers *)

Lemma placed_prefix (X : list point) (S S' : list Z) (pos t : Z)
    (Y Y' : list point) :
  t ≤ Z.of_nat (length S) →
  placed X S pos t Y Y' → placed X (S ++ S') pos t Y Y'.
Proof.
  intros Ht. apply placed_ext. intros i Hi. unfold zget.
  by rewrite lookup_total_app_l by lia.
Qed.

Ltac row_index :=
  repeat match goal with
  | |- context [Z.to_nat (?a + 2 * ?p)] =>
      let v := eval vm_compute in (Z.to_nat (a + 2 * p)) in
      change (Z.to_nat (a + 2 * p)) with v
  end.

Ltac phase_cases ph :=
  let H := fresh in
  assert (ph = 0 ∨ ph = 1 ∨ ph = 2) as H by lia;
  destruct H as [-> | [-> | ->] ]; row_index.

(** Two phases one after the other: the second sends only when the first
    has sent everything. *)
Lemma two_phases (X : list point) (R1 R2 : list Z) (pos t1 t2 : Z)
    (Y1 Y2 Y3 : list point) :
  0 ≤ t1 ≤ Z.of_nat (length R1) → 0 ≤ t2 ≤ Z.of_nat (length R2) →
  (0 < t2 → t1 = Z.of_nat (length R1)) →
  placed X R1 pos t1 Y1 Y2 → placed X R2 (pos + t1) t2 Y2 Y3 →
  drop (Z.to_nat t1) R1 ++ drop (Z.to_nat t2) R2
  = drop (Z.to_nat (t1 + t2)) (R1 ++ R2)
  ∧ placed X (R1 ++ R2) pos (t1 + t2) Y1 Y3.
Proof.
  intros Ht1 Ht2 Hall Hp1 Hp2. split.
  - destruct (decide (0 < t2)) as [Hpos|Hz].
    + rewrite (Hall Hpos), Z2Nat.inj_add, Nat2Z.id by lia.
      by rewrite drop_all, drop_app_add.
    + assert (t2 = 0) as -> by lia. rewrite Z.add_0_r. cbn [Z.to_nat drop].
      by rewrite drop_app_le by lia.
  - eapply placed_app; [lia|lia|apply placed_prefix; [lia|done]|].
    eapply placed_ext; [|exact Hp2]. intros i Hi.
    rewrite (Hall ltac:(lia)), Nat2Z.id. by rewrite drop_app_length.
Qed.

Section Receive.

Variables (dir : Directory) (X Y0 : list point) (p1 n L : Z).
Variables (lft rgt Iv Jv A0 A1 A2 : list Z) (S0 : list Z).
Variable lo : Z → Z.

Hypothesis Hn : 0 < n.
Hypothesis Hfixed :
  Forall (λ r, length r = Z.to_nat n) [lft; rgt; Iv; Jv; A0; A1; A2].
Hypothesis Hwin : ∀ s, 0 ≤ s < n →
  ∃ ws we, window dir (s + p1) = Some (ws, we)
           ∧ 0 ≤ ws ∧ ws ≤ zget lft s ∧ zget rgt s ≤ we
           ∧ we < Z.of_nat (length X).
Hypothesis Hcounts : ∀ s, 0 ≤ s < n →
  zget A0 s = zget Iv s - zget lft s
  ∧ zget A1 s = zget Jv s - zget Iv s
  ∧ zget A2 s = zget rgt s - zget Jv s + 1
  ∧ 0 ≤ zget A0 s ∧ 0 ≤ zget A1 s ∧ 0 ≤ zget A2 s.
Hypothesis Hlo : ∀ s, 0 ≤ s < n →
  zget lft s = lo s ∧ zget rgt s = lo (s + 1) - 1.
Hypothesis Hlo_in : ∀ s, 0 ≤ s ≤ n → L ≤ lo s ≤ L + Z.of_nat (length S0).

#[local] Abbreviation mk := (sched_rows lft rgt Iv Jv A0 A1 A2).

Lemma sched_rows_ok (U0 U1 U2 : list Z) :
  Forall (λ U, length U = Z.to_nat n) [U0; U1; U2] →
  Forall (λ r, length r = Z.to_nat n) (mk U0 U1 U2)
  ∧ length (mk U0 U1 U2) = 10%nat.
Proof.
  intros HU. split; [|done].
  pose proof Hfixed as HF. rewrite !Forall_cons in HF. rewrite !Forall_cons in HU.
  destruct HF as (? & ? & ? & ? & ? & ? & ? & _). destruct HU as (? & ? & ? & _).
  unfold sched_rows. by repeat constructor.
Qed.

Lemma sched_seg (U0 U1 U2 : list Z) (ph s : Z) :
  0 ≤ ph ≤ 2 → 0 ≤ s < n →
  zget (mk U0 U1 U2 !!! 0%nat) s ≤ phase_base (mk U0 U1 U2) ph s
  ∧ 0 ≤ zget (mk U0 U1 U2 !!! Z.to_nat (4 + 2 * ph)) s
  ∧ phase_base (mk U0 U1 U2) ph s + zget (mk U0 U1 U2 !!! Z.to_nat (4 + 2 * ph)) s
    ≤ zget (mk U0 U1 U2 !!! 1%nat) s + 1.
Proof.
  intros Hph Hs. destruct (Hcounts s Hs) as (H0 & H1 & H2 & ? & ? & ?).
  phase_cases ph; unfold phase_base, sched_rows; cbn; lia.
Qed.

Lemma phase_spec (ph r : Z) (U0 U1 U2 U : list Z) (next : Z)
    (Y : list point) (have need rem : Z) (rest : list Z) (t : Z) :
  0 ≤ ph ≤ 2 → 0 ≤ r < n →
  Forall (λ U, length U = Z.to_nat n) [U0; U1; U2] →
  U = mk U0 U1 U2 !!! Z.to_nat (5 + 2 * ph) →
  0 ≤ next ≤ 2 * n →
  (ph = 2 → 0 < need ≤ Z.of_nat (length rest)) →
  (∀ s, 0 ≤ s < n →
     0 ≤ zget U s ≤ zget (mk U0 U1 U2 !!! Z.to_nat (4 + 2 * ph)) s) →
  0 ≤ need → 0 ≤ have →
  lo r + have + need ≤ lo (r + 1) →
  length Y = length X →
  rest = phase_unsent (mk U0 U1 U2) n ph next →
  t = Z.min need (Z.of_nat (length rest)) →
  ∃ next' U' Y',
    send_phase dir X p1 n ph r next (concat (mk U0 U1 U2), Y, have, need, rem)
    = Some (next', (concat (<[Z.to_nat (5 + 2 * ph) := U']> (mk U0 U1 U2)),
                    Y', have + t, need - t, rem - t))
    ∧ Z.of_nat (length U') = n
    ∧ (∀ s, 0 ≤ s < n →
         0 ≤ zget U' s ≤ zget (mk U0 U1 U2 !!! Z.to_nat (4 + 2 * ph)) s)
    ∧ 0 ≤ next' ≤ Z.max next n + 1
    ∧ (ph = 2 → next' ≤ n)
    ∧ phase_unsent (<[Z.to_nat (5 + 2 * ph) := U']> (mk U0 U1 U2)) n ph next'
      = drop (Z.to_nat t) rest
    ∧ length Y' = length X
    ∧ placed X rest (lo r + have) t Y Y'.
Proof.
  intros Hph Hr HU HUeq Hnext Hright Hbound Hneed Hhave Hroom HY Hrest Ht.
  destruct (sched_rows_ok U0 U1 U2 HU) as [HF HL].
  destruct (Hlo r Hr) as [Hl1 Hl2].
  assert (Z.of_nat (length U) = n) as HlU.
  { rewrite !Forall_cons in HU. destruct HU as (? & ? & ? & _).
    phase_cases ph; subst U; row_index; cbn; lia. }
  assert (<[Z.to_nat (5 + 2 * ph) := U]> (mk U0 U1 U2) = mk U0 U1 U2) as Hsame.
  { phase_cases ph; by subst U. }
  destruct (send_phase_spec dir X p1 n (mk U0 U1 U2) ph r Hn HF HL Hph Hr
              Hwin (λ s Hs, sched_seg U0 U1 U2 ph s Hph Hs)
              next U Y have need rem rest t)
    as (next' & U' & Y' & Hrun & HU' & Hb' & Hn' & Hr' & Hun & HY' & Hpl);
    try done.
  - change (mk U0 U1 U2 !!! 0%nat) with lft.
    change (mk U0 U1 U2 !!! 1%nat) with rgt. lia.
  - rewrite Hrest. unfold phase_unsent. by rewrite <-HUeq.
  - rewrite Hsame in Hrun. exists next', U', Y'.
    change (mk U0 U1 U2 !!! 0%nat) with lft in Hpl. rewrite Hl1 in Hpl.
    split_and!; try done; try lia.
    rewrite <-Hun. clear -Hph. phase_cases ph; reflexivity.
Qed.

Lemma receive_spec (r : Z) (s : Schedule) :
  0 ≤ r < n →
  scheduled X Y0 mk n L S0 r (lo r - L) s →
  ∃ s', receive dir X p1 n s r = Some s'
        ∧ scheduled X Y0 mk n L S0 (r + 1) (lo (r + 1) - L) s'.
Proof.
  intros Hr (U0 & U1 & U2 & Hbuf & HU & Hbnd & HnL & HnC & HnR & HlR & HcR
             & Hstream & HlY & Hpl).
  destruct s as [buf Y lR cR nL nC nR].
  cbn [SelectBuffer NextPtArray leftRemaining centerRemaining nextLeftProc
       nextCenterProc nextRightProc] in *.
  subst buf. destruct (sched_rows_ok U0 U1 U2 HU) as [HF HL].
  set (R0 := phase_unsent (mk U0 U1 U2) n 0 nL) in *.
  set (R1 := phase_unsent (mk U0 U1 U2) n 1 nC) in *.
  set (R2 := phase_unsent (mk U0 U1 U2) n 2 nR) in *.
  destruct (Hcounts r Hr) as (Ha0 & Ha1 & Ha2 & Hp0 & Hp1 & Hp2).
  destruct (Hlo r Hr) as [Hl1 Hl2].
  pose proof (Hlo_in r ltac:(lia)) as Hin. pose proof (Hlo_in (r + 1) ltac:(lia)) as Hin'.
  set (d := zget A0 r + zget A1 r + zget A2 r).
  assert (d = lo (r + 1) - lo r) as Hd by (unfold d; lia).
  assert (Z.of_nat (length (R0 ++ R1 ++ R2))
          = Z.of_nat (length S0) - (lo r - L)) as Hsupply.
  { rewrite Hstream, length_drop. lia. }
  rewrite !length_app in Hsupply.
  assert (∃ t0 t1 t2 U0' U1' U2' Y' nL' nC' nR',
    receive dir X p1 n
      {| SelectBuffer := concat (mk U0 U1 U2); NextPtArray := Y;
         leftRemaining := lR; centerRemaining := cR;
         nextLeftProc := nL; nextCenterProc := nC; nextRightProc := nR |} r
    = Some {| SelectBuffer := concat (mk U0' U1' U2'); NextPtArray := Y';
              leftRemaining := lR - t0; centerRemaining := cR - t1;
              nextLeftProc := nL'; nextCenterProc := nC'; nextRightProc := nR' |}
    ∧ t0 + t1 + t2 = d
    ∧ 0 ≤ t0 ≤ Z.of_nat (length R0) ∧ 0 ≤ t1 ≤ Z.of_nat (length R1)
    ∧ 0 ≤ t2 ≤ Z.of_nat (length R2)
    ∧ (0 < t1 + t2 → t0 = Z.of_nat (length R0))
    ∧ (0 < t2 → t1 = Z.of_nat (length R1))
    ∧ Forall (λ U, length U = Z.to_nat n) [U0'; U1'; U2']
    ∧ (∀ ph i, 0 ≤ ph ≤ 2 → 0 ≤ i < n →
         0 ≤ zget (mk U0' U1' U2' !!! Z.to_nat (5 + 2 * ph)) i
           ≤ zget (mk U0' U1' U2' !!! Z.to_nat (4 + 2 * ph)) i)
    ∧ 0 ≤ nL' ≤ n + (r + 1) ∧ 0 ≤ nC' ≤ n + (r + 1) ∧ 0 ≤ nR' ≤ n
    ∧ phase_unsent (mk U0' U1' U2') n 0 nL' = drop (Z.to_nat t0) R0
    ∧ phase_unsent (mk U0' U1' U2') n 1 nC' = drop (Z.to_nat t1) R1
    ∧ phase_unsent (mk U0' U1' U2') n 2 nR' = drop (Z.to_nat t2) R2
    ∧ length Y' = length X
    ∧ ∃ Y1 Y2, placed X R0 (lo r) t0 Y Y1
               ∧ placed X R1 (lo r + t0) t1 Y1 Y2
               ∧ placed X R2 (lo r + t0 + t1) t2 Y2 Y')
    as (t0 & t1 & t2 & U0' & U1' & U2' & Y' & nL' & nC' & nR' & Hrun & Hsum
        & Ht0 & Ht1 & Ht2 & Hall0 & Hall1 & HU' & Hbnd' & HnL' & HnC' & HnR'
        & HR0 & HR1 & HR2 & HlY' & Y1 & Y2 & Hpl0 & Hpl1 & Hpl2).
  2:{ rewrite Hrun. eexists. split; [done|].
      destruct (two_phases X R1 R2 (lo r + t0) t1 t2 Y1 Y2 Y' Ht1 Ht2 Hall1
                  Hpl1 Hpl2) as [Hs12 Hp12].
      destruct (two_phases X R0 (R1 ++ R2) (lo r) t0 (t1 + t2) Y Y1 Y')
        as [Hs012 Hp012]; try done.
      { rewrite length_app. lia. }
      exists U0', U1', U2'.
      cbn [SelectBuffer NextPtArray leftRemaining centerRemaining nextLeftProc
           nextCenterProc nextRightProc].
      split_and!; try done; try lia.
      - rewrite HR0, length_drop. lia.
      - rewrite HR1, length_drop. lia.
      - rewrite HR0, HR1, HR2, Hs12, Hs012, Hstream, drop_drop.
        f_equal. lia.
      - replace (lo (r + 1) - L) with ((lo r - L) + (t0 + (t1 + t2))) by lia.
        eapply placed_app; [lia|lia|exact Hpl|].
        rewrite <-Hstream. replace (L + (lo r - L)) with (lo r) by lia. done. }
  unfold receive.
  cbn [SelectBuffer NextPtArray leftRemaining centerRemaining nextLeftProc
       nextCenterProc nextRightProc].
  rewrite (rows_lookup n _ ltac:(lia) HF 4 r),
    (rows_lookup n _ ltac:(lia) HF 6 r),
    (rows_lookup n _ ltac:(lia) HF 8 r) by (rewrite ?HL; lia).
  change (mk U0 U1 U2 !!! Z.to_nat 4) with A0.
  change (mk U0 U1 U2 !!! Z.to_nat 6) with A1.
  change (mk U0 U1 U2 !!! Z.to_nat 8) with A2.
  cbn [mbind option_bind]. fold d.
  destruct (Z.geb_spec lR 0) as [_|?]; [|lia].
  destruct (phase_spec 0 r U0 U1 U2 U0 nL Y 0 d lR R0
              (Z.min d (Z.of_nat (length R0))))
    as (nL' & U0' & Y1 & -> & HU0' & Hb0' & HnL' & _ & HR0 & HY1 & Hpl0);
    try done; try lia.
  { intros s Hs. exact (Hbnd 0 s ltac:(lia) Hs). }
  set (t0 := Z.min d (Z.of_nat (length R0))) in *.
  change (<[Z.to_nat (5 + 2 * 0):=U0']> (mk U0 U1 U2)) with (mk U0' U1 U2) in *.
  rewrite !Forall_cons in HU. destruct HU as (HU0 & HU1 & HU2 & _).
  assert (∀ ph i, 0 ≤ ph ≤ 2 → 0 ≤ i < n →
            0 ≤ zget (mk U0' U1 U2 !!! Z.to_nat (5 + 2 * ph)) i
              ≤ zget (mk U0' U1 U2 !!! Z.to_nat (4 + 2 * ph)) i) as Hbnd0.
  { intros ph i Hph Hi. pose proof (Hbnd ph i Hph Hi) as Hold. revert Hold.
    phase_cases ph; [intros _; exact (Hb0' i Hi)|done|done]. }
  cbn [mbind option_bind].
  destruct (Z.eqb_spec (d - t0) 0) as [Hz0|Hnz0].
  { exists t0, 0, 0, U0', U1, U2, Y1, nL', nC, nR. rewrite Z.sub_0_r.
    split_and!; try done; try lia.
    - repeat constructor; (done || lia).
    - exists Y1, Y1. rewrite Z.add_0_r in Hpl0.
      split_and!; [done|apply placed_none|apply placed_none]. }
  destruct (Z.geb_spec cR 0) as [_|?]; [|lia].
  destruct (phase_spec 1 r U0' U1 U2 U1 nC Y1 (0 + t0) (d - t0) cR R1
              (Z.min (d - t0) (Z.of_nat (length R1))))
    as (nC' & U1' & Y2 & -> & HU1' & Hb1' & HnC' & _ & HR1 & HY2 & Hpl1);
    try done; try lia.
  { repeat constructor; (done || lia). }
  { intros s Hs. exact (Hbnd0 1 s ltac:(lia) Hs). }
  set (t1 := Z.min (d - t0) (Z.of_nat (length R1))) in *.
  change (<[Z.to_nat (5 + 2 * 1):=U1']> (mk U0' U1 U2)) with (mk U0' U1' U2) in *.
  assert (∀ ph i, 0 ≤ ph ≤ 2 → 0 ≤ i < n →
            0 ≤ zget (mk U0' U1' U2 !!! Z.to_nat (5 + 2 * ph)) i
              ≤ zget (mk U0' U1' U2 !!! Z.to_nat (4 + 2 * ph)) i) as Hbnd1.
  { intros ph i Hph Hi. pose proof (Hbnd0 ph i Hph Hi) as Hold. revert Hold.
    phase_cases ph; [done|intros _; exact (Hb1' i Hi)|done]. }
  cbn [mbind option_bind].
  rewrite Z.add_0_l in Hpl1. rewrite Z.add_0_r in Hpl0.
  destruct (Z.eqb_spec (d - t0 - t1) 0) as [Hz1|Hnz1].
  { exists t0, t1, 0, U0', U1', U2, Y2, nL', nC', nR.
    split_and!; try done; try lia.
    - repeat constructor; (done || lia).
    - exists Y1, Y2. split_and!; [done|done|apply placed_none]. }
  destruct (phase_spec 2 r U0' U1' U2 U2 nR Y2 (0 + t0 + t1) (d - t0 - t1) 0 R2
              (Z.min (d - t0 - t1) (Z.of_nat (length R2))))
    as (nR' & U2' & Y3 & -> & HU2' & Hb2' & HnR' & HnR'' & HR2 & HY3 & Hpl2);
    try done; try lia.
  { repeat constructor; (done || lia). }
  { intros s Hs. exact (Hbnd1 2 s ltac:(lia) Hs). }
  set (t2 := Z.min (d - t0 - t1) (Z.of_nat (length R2))) in *.
  change (<[Z.to_nat (5 + 2 * 2):=U2']> (mk U0' U1' U2)) with (mk U0' U1' U2') in *.
  cbn [mbind option_bind].
  exists t0, t1, t2, U0', U1', U2', Y3, nL', nC', nR'.
  split_and!; try done; try lia.
  - repeat constructor; (done || lia).
  - intros ph i Hph Hi. pose proof (Hbnd1 ph i Hph Hi) as Hold. revert Hold.
    phase_cases ph; [done|done|intros _; exact (Hb2' i Hi)].
  - exists Y1, Y2.
    replace (lo r + (0 + t0 + t1)) with (lo r + t0 + t1) in Hpl2 by lia. done.
Qed.

End Receive.

(** *** The loop over the receivers *)

Lemma receive_all (dir : Directory) (X Y0 : list point) (p1 n L : Z)
    (lft rgt Iv Jv A0 A1 A2 S0 : list Z) (lo : Z → Z) (s : Schedule) :
  0 < n →
  Forall (λ r, length r = Z.to_nat n) [lft; rgt; Iv; Jv; A0; A1; A2] →
  (∀ s, 0 ≤ s < n →
     ∃ ws we, window dir (s + p1) = Some (ws, we)
              ∧ 0 ≤ ws ∧ ws ≤ zget lft s ∧ zget rgt s ≤ we
              ∧ we < Z.of_nat (length X)) →
  (∀ s, 0 ≤ s < n →
     zget A0 s = zget Iv s - zget lft s
     ∧ zget A1 s = zget Jv s - zget Iv s
     ∧ zget A2 s = zget rgt s - zget Jv s + 1
     ∧ 0 ≤ zget A0 s ∧ 0 ≤ zget A1 s ∧ 0 ≤ zget A2 s) →
  (∀ s, 0 ≤ s < n → zget lft s = lo s ∧ zget rgt s = lo (s + 1) - 1) →
  (∀ s, 0 ≤ s ≤ n → L ≤ lo s ≤ L + Z.of_nat (length S0)) →
  scheduled X Y0 (sched_rows lft rgt Iv Jv A0 A1 A2) n L S0 0 (lo 0 - L) s →
  ∃ s', fold_opt (receive dir X p1 n) s (seqZ 0 n) = Some s'
        ∧ scheduled X Y0 (sched_rows lft rgt Iv Jv A0 A1 A2) n L S0 n
            (lo n - L) s'.
Proof.
  intros Hn Hfixed Hwin Hcounts Hlo Hlo_in.
  assert (∀ (m : nat) (r : Z) (s : Schedule),
            0 ≤ r → r + Z.of_nat m = n →
            scheduled X Y0 (sched_rows lft rgt Iv Jv A0 A1 A2) n L S0 r
              (lo r - L) s →
            ∃ s', fold_opt (receive dir X p1 n) s (seqZ r (Z.of_nat m)) = Some s'
                  ∧ scheduled X Y0 (sched_rows lft rgt Iv Jv A0 A1 A2) n L S0 n
                      (lo n - L) s') as Hgen.
  { induction m as [|m IH]; intros r s0 Hr Hm Hs.
    - assert (r = n) as -> by lia. exists s0. done.
    - rewrite seqZ_cons by lia. cbn [fold_opt].
      destruct (receive_spec dir X Y0 p1 n L lft rgt Iv Jv A0 A1 A2 S0 lo
                  Hn Hfixed Hwin Hcounts Hlo Hlo_in r s0 ltac:(lia) Hs)
        as (s1 & -> & Hs1).
      cbn. replace (Z.pred (Z.of_nat (S m))) with (Z.of_nat m) by lia.
      apply IH; [lia|lia|done]. }
  intros Hs.
  destruct (Hgen (Z.to_nat n) 0 s) as (s' & Hrun & Hs'); [lia|lia|done|].
  rewrite Z2Nat.id in Hrun by lia. eauto.
Qed.

(** *** The order of sending *)

Lemma zget_zeros (n s : Z) : 0 ≤ s < n → zget (zeros n) s = 0.
Proof. intros Hs. unfold zget, zeros. apply lookup_total_replicate_2. lia. Qed.

Lemma sum_list_drop (l : list Z) (k : Z) :
  0 ≤ k < Z.of_nat (length l) →
  sum_list_Z (drop (Z.to_nat k) l)
  = zget l k + sum_list_Z (drop (Z.to_nat (k + 1)) l).
Proof.
  intros Hk. unfold zget.
  rewrite (drop_S l (l !!! Z.to_nat k) (Z.to_nat k)).
  - cbn. by replace (Z.to_nat (k + 1)) with (S (Z.to_nat k)) by lia.
  - apply list_lookup_lookup_total_lt. lia.
Qed.

Lemma perm_interleave {A : Type} (s0 s1 s2 u0 u1 u2 : list A) :
  (s0 ++ u0) ++ (s1 ++ u1) ++ s2 ++ u2 ≡ₚ s0 ++ s1 ++ s2 ++ u0 ++ u1 ++ u2.
Proof.
  rewrite <-!app_assoc. apply Permutation_app_head.
  rewrite (Permutation_app_comm u0), <-!app_assoc. apply Permutation_app_head.
  rewrite (Permutation_app_comm u1), <-!app_assoc. apply Permutation_app_head.
  rewrite (Permutation_app_comm u2), <-!app_assoc. done.
Qed.

Section Streams.

Variables (n : Z) (lft rgt Iv Jv A0 A1 A2 : list Z) (lo : Z → Z).

Hypothesis Hn : 0 < n.
Hypothesis Hfixed :
  Forall (λ r, length r = Z.to_nat n) [lft; rgt; Iv; Jv; A0; A1; A2].
Hypothesis Hcounts : ∀ s, 0 ≤ s < n →
  zget A0 s = zget Iv s - zget lft s
  ∧ zget A1 s = zget Jv s - zget Iv s
  ∧ zget A2 s = zget rgt s - zget Jv s + 1
  ∧ 0 ≤ zget A0 s ∧ 0 ≤ zget A1 s ∧ 0 ≤ zget A2 s.
Hypothesis Hlo : ∀ s, 0 ≤ s < n →
  zget lft s = lo s ∧ zget rgt s = lo (s + 1) - 1.

#[local] Abbreviation rows0 :=
  (sched_rows lft rgt Iv Jv A0 A1 A2 (zeros n) (zeros n) (zeros n)).

Lemma first_unsent_cons (ph k : Z) :
  0 ≤ ph ≤ 2 → 0 ≤ k < n →
  phase_unsent rows0 n ph k
  = seqZ (phase_base rows0 ph k) (zget (rows0 !!! Z.to_nat (4 + 2 * ph)) k)
    ++ phase_unsent rows0 n ph (k + 1).
Proof.
  intros Hph Hk. unfold phase_unsent. rewrite (unsent_cons _ _ _ _ k) by lia.
  assert (zget (rows0 !!! Z.to_nat (5 + 2 * ph)) k = 0) as ->.
  { phase_cases ph; apply zget_zeros; lia. }
  by rewrite Z.add_0_r, Z.sub_0_r.
Qed.

Lemma first_unsent_perm (m : nat) (k : Z) :
  0 ≤ k → k + Z.of_nat m = n →
  lo k ≤ lo n
  ∧ phase_unsent rows0 n 0 k ++ phase_unsent rows0 n 1 k
      ++ phase_unsent rows0 n 2 k
    ≡ₚ seqZ (lo k) (lo n - lo k).
Proof.
  revert k. induction m as [|m IH]; intros k Hk Hm.
  - assert (k = n) as -> by lia. split; [lia|].
    unfold phase_unsent. rewrite !unsent_end by lia.
    by rewrite Z.sub_diag.
  - destruct (IH (k + 1)) as [Hle IHp]; [lia|lia|].
    destruct (Hcounts k ltac:(lia)) as (Ha0 & Ha1 & Ha2 & Hp0 & Hp1 & Hp2).
    destruct (Hlo k ltac:(lia)) as [Hl1 Hl2].
    split; [lia|].
    rewrite !(first_unsent_cons _ k) by lia.
    row_index. unfold phase_base.
    change (rows0 !!! 0%nat) with lft. change (rows0 !!! 4%nat) with A0.
    change (rows0 !!! 6%nat) with A1. change (rows0 !!! 8%nat) with A2.
    change (1 >=? 1) with true. change (1 >=? 2) with false.
    change (2 >=? 1) with true. change (2 >=? 2) with true. cbv iota.
    rewrite !Z.add_0_r, Hl1.
    assert (seqZ (lo k) (lo n - lo k)
            = seqZ (lo k) (zget A0 k) ++ seqZ (lo k + zget A0 k) (zget A1 k)
              ++ seqZ (lo k + zget A0 k + zget A1 k) (zget A2 k)
              ++ seqZ (lo (k + 1)) (lo n - lo (k + 1))) as ->.
    { replace (lo n - lo k)
        with (zget A0 k + (zget A1 k + (zget A2 k + (lo n - lo (k + 1)))))
        by lia.
      rewrite !seqZ_app by lia. do 4 f_equal. lia. }
    rewrite <-IHp.
    apply perm_interleave.
Qed.

Lemma first_unsent_length (ph : Z) (m : nat) (k : Z) :
  0 ≤ ph ≤ 2 → 0 ≤ k → k + Z.of_nat m = n →
  Z.of_nat (length (phase_unsent rows0 n ph k))
  = sum_list_Z (drop (Z.to_nat k) (rows0 !!! Z.to_nat (4 + 2 * ph))).
Proof.
  intros Hph. revert k. induction m as [|m IH]; intros k Hk Hm.
  - unfold phase_unsent. rewrite unsent_end by lia.
    rewrite drop_ge; [done|].
    pose proof Hfixed as HF. rewrite !Forall_cons in HF.
    destruct HF as (? & ? & ? & ? & ? & ? & ? & _).
    phase_cases ph; cbn; lia.
  - rewrite first_unsent_cons, length_app, length_seqZ by lia.
    rewrite sum_list_drop.
    + rewrite Nat2Z.inj_add, IH by lia.
      destruct (Hcounts k ltac:(lia)) as (_ & _ & _ & ? & ? & ?).
      phase_cases ph; cbn; lia.
    + pose proof Hfixed as HF. rewrite !Forall_cons in HF.
      destruct HF as (? & ? & ? & ? & ? & ? & ? & _).
      phase_cases ph; cbn; lia.
Qed.

Lemma first_unsent_elem (ph x : Z) :
  0 ≤ ph ≤ 2 →
  x ∈ phase_unsent rows0 n ph 0
  ↔ ∃ s, 0 ≤ s < n
         ∧ phase_base rows0 ph s ≤ x
           < phase_base rows0 ph s + zget (rows0 !!! Z.to_nat (4 + 2 * ph)) s.
Proof.
  intros Hph. unfold phase_unsent, unsent. rewrite list_elem_of_bind.
  assert (∀ s, 0 ≤ s < n → zget (rows0 !!! Z.to_nat (5 + 2 * ph)) s = 0) as Hz.
  { intros s Hs. phase_cases ph; by apply zget_zeros. }
  split.
  - intros (s & Hx & Hs). apply elem_of_seqZ in Hs.
    rewrite Hz in Hx by lia. apply elem_of_seqZ in Hx. exists s. lia.
  - intros (s & Hs & Hx). exists s. split; [|apply elem_of_seqZ; lia].
    rewrite Hz by lia. apply elem_of_seqZ. lia.
Qed.

End Streams.

(** *** The parts of the processes *)

(** *** Placing a permutation of a range *)

Lemma zget_fmap (f : Z * Z * Z * Z → Z) (parts : list (Z * Z * Z * Z)) (s : Z) :
  0 ≤ s < Z.of_nat (length parts) →
  zget (f <$> parts) s = f (parts !!! Z.to_nat s).
Proof. intros Hs. unfold zget. apply list_lookup_total_fmap. lia. Qed.

Lemma zget_elem (l : list Z) (i : Z) :
  0 ≤ i < Z.of_nat (length l) → zget l i ∈ l.
Proof.
  intros Hi. unfold zget. apply list_elem_of_lookup_2 with (Z.to_nat i).
  apply list_lookup_lookup_total_lt. lia.
Qed.

Lemma spliced (X2 X' : list point) (S0 : list Z) (L R : Z) :
  0 ≤ L → L ≤ R + 1 → R < Z.of_nat (length X2) →
  length X' = length X2 →
  Z.of_nat (length S0) = R + 1 - L →
  (∀ x, x ∈ S0 → L ≤ x ≤ R) →
  (∀ i : nat,
     X' !! i = if decide (L ≤ Z.of_nat i ≤ R)
               then X2 !! Z.to_nat (zget S0 (Z.of_nat i - L))
               else X2 !! i) →
  X' = take (Z.to_nat L) X2 ++ (pt X2 <$> S0) ++ drop (Z.to_nat (R + 1)) X2.
Proof.
  intros HL HLR HR Hlen HS Hin Hlk. apply list_eq. intros i. rewrite Hlk.
  destruct (decide (Z.of_nat i < L)) as [Hlt|Hge].
  { rewrite decide_False by lia.
    rewrite lookup_app_l by (rewrite length_take; lia).
    by rewrite lookup_take_lt by lia. }
  rewrite lookup_app_r by (rewrite length_take; lia).
  rewrite length_take, Nat.min_l by lia.
  destruct (decide (Z.of_nat i ≤ R)) as [Hle|Hgt].
  - rewrite decide_True by lia.
    rewrite lookup_app_l by (rewrite length_fmap; lia).
    rewrite list_lookup_fmap.
    assert (S0 !! (i - Z.to_nat L)%nat = Some (zget S0 (Z.of_nat i - L))) as ->.
    { unfold zget. replace (Z.to_nat (Z.of_nat i - L)) with (i - Z.to_nat L)%nat by lia.
      apply list_lookup_lookup_total_lt. lia. }
    cbn. apply pt_lookup.
    pose proof (Hin (zget S0 (Z.of_nat i - L)) ltac:(apply zget_elem; lia)). lia.
  - rewrite decide_False by lia.
    rewrite lookup_app_r by (rewrite length_fmap; lia).
    rewrite length_fmap, lookup_drop. f_equal. lia.
Qed.

Lemma permuted_range (X2 X' : list point) (S0 : list Z) (L R : Z) :
  0 ≤ L → L ≤ R + 1 → R < Z.of_nat (length X2) →
  length X' = length X2 →
  S0 ≡ₚ seqZ L (R + 1 - L) →
  (∀ i : nat,
     X' !! i = if decide (L ≤ Z.of_nat i ≤ R)
               then X2 !! Z.to_nat (zget S0 (Z.of_nat i - L))
               else X2 !! i) →
  rearranged L R X2 X'.
Proof.
  intros HL HLR HR Hlen HS Hlk. split.
  - rewrite (spliced X2 X' S0 L R); try done.
    + rewrite (spliced X2 X2 (seqZ L (R + 1 - L)) L R) at 4; try done.
      * by rewrite HS.
      * rewrite length_seqZ. lia.
      * intros x Hx%elem_of_seqZ. lia.
      * intros i. destruct (decide _); [|done].
        unfold zget. rewrite lookup_total_seqZ_lt by lia. f_equal. lia.
    + rewrite HS, length_seqZ. lia.
    + intros x Hx. rewrite HS in Hx. apply elem_of_seqZ in Hx. lia.
  - intros i Hi. rewrite Hlk. by rewrite decide_False.
Qed.

Section Redistribute.

Variable dir : Directory.
Hypothesis Hdir : dir_ok dir.
Variables (L R K dim p1 p2 : Z).
Hypothesis HL0 : 0 ≤ L.
Hypothesis HLK : L ≤ K ≤ R.
Hypothesis HRN : R < TotalNumCells dir.
Hypothesis Hp1 : WhoHas dir L = Some p1.
Hypothesis Hp2 : WhoHas dir R = Some p2.
Hypothesis Hne : p1 ≠ p2.

#[local] Abbreviation n := (p2 - p1 + 1).
#[local] Abbreviation lo := (part_start dir L R p1).
#[local] Abbreviation first_of i := (upper dir (Z.to_nat i)).

Lemma first_of_mono (i j : Z) : 0 ≤ i ≤ j → first_of i ≤ first_of j.
Proof. intros Hij. apply (upper_mono dir Hdir). lia. Qed.

Lemma first_of_bounds (i : Z) : 0 ≤ first_of i ≤ TotalNumCells dir.
Proof.
  split.
  - rewrite <-(upper_0 dir Hdir). apply (upper_mono dir Hdir). lia.
  - pose proof (dir_procs _ Hdir).
    rewrite <-(upper_ge dir Hdir (Z.to_nat (Z.max i (NumProcesses dir)))) by lia.
    apply (upper_mono dir Hdir). lia.
Qed.

Lemma owners :
  0 ≤ p1 ∧ p1 < p2 ∧ p2 < NumProcesses dir
  ∧ first_of p1 ≤ L ∧ L < first_of (p1 + 1) ∧ first_of p2 ≤ R ∧ R < first_of (p2 + 1).
Proof.
  destruct (WhoHas_spec dir Hdir L) as (q1 & Hq1 & Hr1 & Hw1); [lia|].
  destruct (WhoHas_spec dir Hdir R) as (q2 & Hq2 & Hr2 & Hw2); [lia|].
  pose proof (WhoHas_mono dir Hdir L R p1 p2 HL0 ltac:(lia) HRN Hp1 Hp2).
  simplify_eq.
  replace (Z.to_nat (p1 + 1)) with (S (Z.to_nat p1)) by lia.
  replace (Z.to_nat (p2 + 1)) with (S (Z.to_nat p2)) by lia. lia.
Qed.

Lemma part_start_0 : lo 0 = L.
Proof.
  destruct owners as (? & ? & ? & ? & ? & ? & ?). unfold part_start.
  rewrite Z.add_0_r. lia.
Qed.

Lemma part_start_n : lo n = R + 1.
Proof.
  destruct owners as (? & ? & ? & ? & ? & ? & ?). unfold part_start.
  replace (p1 + n) with (p2 + 1) by lia. lia.
Qed.

Lemma part_facts (s : Z) :
  0 ≤ s < n →
  window dir (p1 + s) = Some (first_of (p1 + s), first_of (p1 + s + 1) - 1)
  ∧ my_part L R (first_of (p1 + s)) (first_of (p1 + s + 1) - 1) = (lo s, lo (s + 1) - 1)
  ∧ 0 ≤ first_of (p1 + s) ∧ first_of (p1 + s) ≤ lo s ∧ lo s ≤ lo (s + 1)
  ∧ lo (s + 1) ≤ first_of (p1 + s + 1) ∧ first_of (p1 + s + 1) ≤ TotalNumCells dir
  ∧ L ≤ lo s ∧ lo (s + 1) ≤ R + 1.
Proof.
  intros Hs. destruct owners as (H0 & Hlt & HP & HA & HB & HC & HD).
  pose proof (first_of_mono (p1 + 1) (p1 + s + 1) ltac:(lia)) as HE.
  pose proof (first_of_mono (p1 + s) p2 ltac:(lia)) as HF.
  pose proof (first_of_mono (p1 + s) (p1 + s + 1) ltac:(lia)) as HH.
  pose proof (first_of_mono (p1 + s + 1) (p2 + 1) ltac:(lia)) as HI.
  pose proof (first_of_mono p1 (p1 + s) ltac:(lia)) as HJ.
  pose proof (first_of_bounds (p1 + s)) as HK1.
  pose proof (first_of_bounds (p1 + s + 1)) as HK2.
  assert (0 < s → first_of (p1 + 1) ≤ first_of (p1 + s)) as HG.
  { intros. apply first_of_mono. lia. }
  split.
  { rewrite (window_eq dir Hdir) by lia.
    by replace (Z.to_nat (p1 + s + 1)) with (S (Z.to_nat (p1 + s))) by lia. }
  unfold part_start, my_part.
  replace (p1 + (s + 1)) with (p1 + s + 1) by lia.
  split; [|lia].
  destruct (Z.ltb_spec (first_of (p1 + s)) L);
    destruct (Z.gtb_spec (first_of (p1 + s + 1) - 1) R); f_equal; lia.
Qed.

Lemma part_start_in (s : Z) : 0 ≤ s ≤ n → L ≤ lo s ≤ R + 1.
Proof. intros Hs. unfold part_start. lia. Qed.

Lemma part_start_mono (a c : Z) : 0 ≤ a ≤ c → lo a ≤ lo c.
Proof.
  intros Hac. unfold part_start.
  destruct owners as (? & _). pose proof (first_of_mono (p1 + a) (p1 + c)). lia.
Qed.

Lemma three_way_ext (T l r : Z) (X X' : list point) (I J : Z) :
  (∀ k, l ≤ k ≤ r → cv dim X' k = cv dim X k) →
  three_way dim T l r X I J → three_way dim T l r X' I J.
Proof.
  intros Heq (H1 & H2 & H3 & Hlt & Heq' & Hgt).
  split_and!; try done; intros k Hk; rewrite Heq by lia; auto.
Qed.

Lemma partition_parts_spec (X : list point) (hk : Z) :
  Z.of_nat (length X) = TotalNumCells dir →
  WhoHas dir K = Some hk →
  ∃ X2 parts,
    fold_opt (partition_part dir hk K (cv dim X K) L R dim) (X, [])
      (ranks p1 p2)
    = Some (X2, parts)
    ∧ exchanges L R X X2
    ∧ parts_ok dim (cv dim X K) lo (hk - p1) X2 n parts.
Proof.
  intros HX Hhk. destruct owners as (H0 & Hlt & HP & HA & HB & HC & HD).
  destruct (WhoHas_spec dir Hdir K) as (q & Hq & Hqr & Hqw); [lia|].
  rewrite Hhk in Hq. injection Hq as <-.
  set (T := cv dim X K).
  assert (∀ (m j : nat) Xj parts,
            Z.of_nat j + Z.of_nat m = n →
            exchanges L R X Xj →
            (∀ k : nat, lo (Z.of_nat j) ≤ Z.of_nat k → Xj !! k = X !! k) →
            parts_ok dim T lo (hk - p1) Xj (Z.of_nat j) parts →
            ∃ X2 parts',
              fold_opt (partition_part dir hk K T L R dim) (Xj, parts)
                (map (λ i, p1 + Z.of_nat i) (seq j m))
              = Some (X2, parts')
              ∧ exchanges L R X X2
              ∧ parts_ok dim T lo (hk - p1) X2 n parts') as Hgen.
  { induction m as [|m IH]; intros j Xj parts Hjm Hex Hframe [Hlen Hparts].
    { exists Xj, parts. replace n with (Z.of_nat j) by lia. done. }
    cbn [seq map fold_opt].
    destruct (part_facts (Z.of_nat j) ltac:(lia))
      as (Hw & Hmp & Hs0 & Hslo & Hlole & Hloe & HeN & HLlo & HloR).
    set (s := first_of (p1 + Z.of_nat j)) in *.
    set (e := first_of (p1 + Z.of_nat j + 1) - 1) in *.
    set (myL := lo (Z.of_nat j)) in *. set (myR := lo (Z.of_nat j + 1) - 1) in *.
    assert (window_ok e Xj) as Hwok.
    { unfold window_ok. rewrite (exchanges_length _ _ _ _ Hex). lia. }
    assert (∃ X' I J,
              partition_part dir hk K T L R dim (Xj, parts) (p1 + Z.of_nat j)
              = Some (X', parts ++ [(myL, myR, I, J)])
              ∧ exchanges myL myR Xj X'
              ∧ three_way dim T myL myR X' I J
              ∧ (Z.of_nat j = hk - p1 → I < J)) as (X' & I & J & -> & Hex' & H3 & HIJ).
    { unfold partition_part. rewrite Hw. cbn. unfold my_part in Hmp.
      injection Hmp as HmL HmR. rewrite HmL, HmR.
      destruct (Z.eqb_spec hk (p1 + Z.of_nat j)) as [Heq|Hneq].
      - assert (myL ≤ K ≤ myR) as HKin.
        { unfold myL, myR, part_start.
          replace (Z.to_nat (p1 + Z.of_nat j)) with (Z.to_nat hk) by lia.
          replace (Z.to_nat (p1 + (Z.of_nat j + 1))) with (S (Z.to_nat hk)) by lia.
          lia. }
        destruct (PartitionAboutMyValue_correct s e Hs0 Xj myL myR K dim)
          as (X' & I & J & -> & Hex' & HI1 & HI2 & HI3 & Hl & He & Hg);
          try done; try lia.
        assert (cv dim Xj K = T) as HT.
        { unfold T, cv, pt. rewrite !list_lookup_total_alt.
          rewrite (Hframe (Z.to_nat K)) by lia. done. }
        rewrite HT in Hl, He, Hg.
        exists X', I, J. cbn. split; [done|]. split; [done|].
        split; [|lia]. unfold three_way. split_and!; try done; lia.
      - destruct (PartitionAboutOtherValue_correct s e Hs0 Xj myL myR T dim)
          as (X' & I & J & -> & Hex' & H3); try done; try lia.
        exists X', I, J. cbn. split; [done|]. split; [done|].
        split; [done|lia]. }
    cbn [mbind option_bind].
    destruct (IH (S j) X' (parts ++ [(myL, myR, I, J)]))
      as (X2 & parts' & Hrun & Hex2 & Hok2); [lia| | | |].
    - eapply exchanges_trans; [exact Hex|].
      eapply exchanges_mono; [| |exact Hex']; lia.
    - intros k Hk. replace (Z.of_nat (S j)) with (Z.of_nat j + 1) in Hk by lia.
      rewrite (exchanges_frame _ _ _ _ k Hex') by lia.
      apply Hframe. lia.
    - split; [rewrite length_app; cbn; lia|].
      intros s' Hs'. destruct (decide (s' = Z.of_nat j)) as [->|Hlt'].
      + exists I, J. rewrite Nat2Z.id.
        rewrite lookup_app_r by lia.
        replace (j - length parts)%nat with 0%nat by lia. done.
      + destruct (Hparts s' ltac:(lia)) as (I' & J' & Hlk & H3' & HIJ').
        exists I', J'. rewrite lookup_app_l by lia.
        split; [done|]. split; [|done].
        eapply three_way_ext; [|exact H3'].
        intros k Hk.
        pose proof (part_start_mono (s' + 1) (Z.of_nat j) ltac:(lia)).
        pose proof (part_start_in s' ltac:(lia)).
        eapply exchanges_cv; [exact Hex'|lia|]. unfold myL. lia.
    - exists X2, parts'. done. }
  unfold ranks.
  destruct (Hgen (Z.to_nat n) 0%nat X []) as (X2 & parts & Hrun & Hex & Hok).
  - lia.
  - constructor.
  - done.
  - split; [done|]. intros s Hs. lia.
  - exists X2, parts. done.
Qed.

Lemma keep_outside_spec (X2 Y : list point) :
  Z.of_nat (length X2) = TotalNumCells dir → length Y = length X2 →
  ∃ Y1, fold_opt (keep_outside dir X2 L R) Y (ranks p1 p2) = Some Y1
        ∧ length Y1 = length X2
        ∧ ∀ i : nat, first_of p1 ≤ Z.of_nat i < first_of (p2 + 1) →
                     ¬ (L ≤ Z.of_nat i ≤ R) → Y1 !! i = X2 !! i.
Proof.
  intros HX HY.
  assert (∀ (m j : nat) Yj,
            Z.of_nat j + Z.of_nat m = n →
            length Yj = length X2 →
            (∀ i : nat, first_of p1 ≤ Z.of_nat i < first_of (p1 + Z.of_nat j) →
                        ¬ (L ≤ Z.of_nat i ≤ R) → Yj !! i = X2 !! i) →
            ∃ Y1, fold_opt (keep_outside dir X2 L R) Yj
                    (map (λ i, p1 + Z.of_nat i) (seq j m)) = Some Y1
                  ∧ length Y1 = length X2
                  ∧ ∀ i : nat, first_of p1 ≤ Z.of_nat i < first_of (p2 + 1) →
                               ¬ (L ≤ Z.of_nat i ≤ R) → Y1 !! i = X2 !! i)
    as Hgen.
  { induction m as [|m IH]; intros j Yj Hjm Hlen Hinv.
    { exists Yj. replace (p2 + 1) with (p1 + Z.of_nat j) by lia. done. }
    cbn [seq map fold_opt].
    destruct (part_facts (Z.of_nat j) ltac:(lia))
      as (Hw & Hmp & Hs0 & Hslo & Hlole & Hloe & HeN & HLlo & HloR).
    set (s := first_of (p1 + Z.of_nat j)) in *.
    set (e := first_of (p1 + Z.of_nat j + 1) - 1) in *.
    assert (∃ Y', keep_outside dir X2 L R Yj (p1 + Z.of_nat j) = Some Y'
                  ∧ length Y' = length X2
                  ∧ ∀ i : nat, first_of p1 ≤ Z.of_nat i < first_of (p1 + Z.of_nat (S j)) →
                               ¬ (L ≤ Z.of_nat i ≤ R) → Y' !! i = X2 !! i)
      as (Y' & -> & Hlen' & Hinv').
    { unfold keep_outside. rewrite Hw. cbn [mbind option_bind]. rewrite Hmp.
      replace (p1 + Z.of_nat (S j)) with (p1 + Z.of_nat j + 1) by lia.
      destruct (_ || _) eqn:Hcond.
      - destruct owners as (? & ? & ? & _).
        rewrite (NumCells_eq dir Hdir) by lia. cbn [mbind option_bind].
        replace (S (Z.to_nat (p1 + Z.of_nat j)))
          with (Z.to_nat (p1 + Z.of_nat j + 1)) by lia.
        fold s. replace (first_of (p1 + Z.of_nat j + 1) - s) with (e - s + 1)
          by (unfold e; lia).
        eexists. split; [done|]. split; [by rewrite memcpy_length by lia|].
        intros i Hi Hout. rewrite memcpy_lookup by lia.
        destruct (decide _); [f_equal; lia|]. apply Hinv; [|done].
        fold s. unfold e in *. lia.
      - apply orb_false_iff in Hcond as [H1 H2].
        rewrite Z.gtb_ltb in H1. apply Z.ltb_ge in H1. apply Z.ltb_ge in H2.
        exists Yj. split; [done|]. split; [done|].
        intros i Hi Hout. apply Hinv; [|done]. fold s. unfold e in *. lia. }
    cbn [mbind option_bind]. apply (IH (S j)); [lia|done|done]. }
  unfold ranks. apply (Hgen (Z.to_nat n) 0%nat); [destruct owners; lia|done|].
  intros i Hi. rewrite Z.add_0_r in Hi. lia.
Qed.

Lemma switch_spec (X2 Y2 : list point) :
  Z.of_nat (length X2) = TotalNumCells dir → length Y2 = length X2 →
  ∃ X' Y', fold_opt (SwitchDoubleBuffer dir) (X2, Y2) (ranks p1 p2)
           = Some (X', Y')
           ∧ length X' = length X2
           ∧ ∀ i : nat,
               X' !! i = if decide (first_of p1 ≤ Z.of_nat i < first_of (p2 + 1))
                         then Y2 !! i else X2 !! i.
Proof.
  intros HX HY.
  assert (∀ (m j : nat) Xj Yj,
            Z.of_nat j + Z.of_nat m = n →
            length Xj = length X2 → length Yj = length X2 →
            (∀ i : nat,
               Xj !! i = (if decide (first_of p1 ≤ Z.of_nat i < first_of (p1 + Z.of_nat j))
                          then Y2 !! i else X2 !! i)
               ∧ Yj !! i = (if decide (first_of p1 ≤ Z.of_nat i < first_of (p1 + Z.of_nat j))
                            then X2 !! i else Y2 !! i)) →
            ∃ X' Y', fold_opt (SwitchDoubleBuffer dir) (Xj, Yj)
                       (map (λ i, p1 + Z.of_nat i) (seq j m)) = Some (X', Y')
                     ∧ length X' = length X2
                     ∧ ∀ i : nat,
                         X' !! i = if decide (first_of p1 ≤ Z.of_nat i < first_of (p2 + 1))
                                   then Y2 !! i else X2 !! i) as Hgen.
  { induction m as [|m IH]; intros j Xj Yj Hjm HlX HlY Hinv.
    { exists Xj, Yj. replace (p2 + 1) with (p1 + Z.of_nat j) by lia.
      split; [done|]. split; [done|]. intros i. apply Hinv. }
    cbn [seq map fold_opt].
    destruct (part_facts (Z.of_nat j) ltac:(lia))
      as (Hw & Hmp & Hs0 & Hslo & Hlole & Hloe & HeN & HLlo & HloR).
    destruct owners as (H0 & _).
    pose proof (first_of_mono p1 (p1 + Z.of_nat j) ltac:(lia)) as Hmono.
    set (s := first_of (p1 + Z.of_nat j)) in *.
    set (e := first_of (p1 + Z.of_nat j + 1) - 1) in *.
    assert (SwitchDoubleBuffer dir (Xj, Yj) (p1 + Z.of_nat j)
            = Some (memcpy Yj Xj s s (e - s + 1), memcpy Xj Yj s s (e - s + 1)))
      as ->.
    { unfold SwitchDoubleBuffer. by rewrite Hw. }
    cbn [mbind option_bind].
    apply (IH (S j));
      [lia|by rewrite memcpy_length by lia|by rewrite memcpy_length by lia|].
    intros i. rewrite !memcpy_lookup by lia.
    replace (p1 + Z.of_nat (S j)) with (p1 + Z.of_nat j + 1) by lia.
    destruct (Hinv i) as [HXi HYi]. fold s in HXi, HYi.
    replace (s + (Z.of_nat i - s)) with (Z.of_nat i) by lia.
    rewrite Nat2Z.id, HXi, HYi.
    unfold e in *. split; repeat case_decide; (done || lia). }
  unfold ranks.
  apply (Hgen (Z.to_nat n) 0%nat X2 Y2); [destruct owners; lia|done|done|].
  intros i. rewrite Z.add_0_r. by rewrite !decide_False by lia.
Qed.

Lemma PartitionRedistribute_spec (X : list point) :
  Z.of_nat (length X) = TotalNumCells dir →
  ∃ X' I J,
    (∀ Y, length Y = length X →
       ∃ Y', PartitionRedistribute dir X Y L R K dim p1 p2
             = Some (X', Y', (I, J)))
    ∧ rearranged L R X X' ∧ I < J
    ∧ three_way dim (cv dim X K) L R X' I J.
Proof.
  intros HX. destruct owners as (H0 & Hlt & HP & HA & HB & HC & HD).
  destruct (WhoHas_spec dir Hdir K) as (hk & Hhk & Hhkr & Hhkw); [lia|].
  pose proof (WhoHas_mono dir Hdir L K p1 hk HL0 ltac:(lia) ltac:(lia) Hp1 Hhk).
  pose proof (WhoHas_mono dir Hdir K R hk p2 ltac:(lia) ltac:(lia) HRN Hhk Hp2).
  pose proof (upper_mono dir Hdir 0 (Z.to_nat hk) ltac:(lia)) as Hk0.
  rewrite (upper_0 dir Hdir) in Hk0.
  pose proof (first_of_bounds (hk + 1)) as HkN.
  replace (Z.to_nat (hk + 1)) with (S (Z.to_nat hk)) in HkN by lia.
  destruct (partition_parts_spec X hk HX Hhk)
    as (X2 & parts & Hfold & Hex & [Hplen Hparts]).
  set (T := cv dim X K) in *.
  pose proof (exchanges_length _ _ _ _ Hex) as HlX2.
  pose (lft := (λ p : Z * Z * Z * Z, p.1.1.1) <$> parts).
  pose (rgt := (λ p : Z * Z * Z * Z, p.1.1.2) <$> parts).
  pose (Iv := (λ p : Z * Z * Z * Z, p.1.2) <$> parts).
  pose (Jv := (λ p : Z * Z * Z * Z, p.2) <$> parts).
  pose (A0 := (λ p : Z * Z * Z * Z, p.1.2 - p.1.1.1) <$> parts).
  pose (A1 := (λ p : Z * Z * Z * Z, p.2 - p.1.2) <$> parts).
  pose (A2 := (λ p : Z * Z * Z * Z, p.1.1.2 - p.2 + 1) <$> parts).
  assert (∀ s, 0 ≤ s < n →
            zget lft s = lo s ∧ zget rgt s = lo (s + 1) - 1
            ∧ three_way dim T (lo s) (lo (s + 1) - 1) X2 (zget Iv s) (zget Jv s)
            ∧ (s = hk - p1 → zget Iv s < zget Jv s)
            ∧ zget A0 s = zget Iv s - zget lft s
            ∧ zget A1 s = zget Jv s - zget Iv s
            ∧ zget A2 s = zget rgt s - zget Jv s + 1) as Hpart.
  { intros s Hs. destruct (Hparts s Hs) as (I & J & Hlk & H3 & HIJ).
    unfold lft, rgt, Iv, Jv, A0, A1, A2.
    rewrite !zget_fmap by lia.
    pose proof (list_lookup_total_correct parts _ _ Hlk) as Hlkt.
    rewrite Hlkt. cbn. done. }
  assert (Forall (λ r, length r = Z.to_nat n) [lft; rgt; Iv; Jv; A0; A1; A2])
    as Hfixed.
  { unfold lft, rgt, Iv, Jv, A0, A1, A2.
    repeat constructor; rewrite length_fmap; lia. }
  assert (∀ s, 0 ≤ s < n →
            zget A0 s = zget Iv s - zget lft s
            ∧ zget A1 s = zget Jv s - zget Iv s
            ∧ zget A2 s = zget rgt s - zget Jv s + 1
            ∧ 0 ≤ zget A0 s ∧ 0 ≤ zget A1 s ∧ 0 ≤ zget A2 s) as Hcounts.
  { intros s Hs.
    destruct (Hpart s Hs) as (Hl & Hr & (? & ? & ? & _) & _ & Ha0 & Ha1 & Ha2).
    lia. }
  assert (∀ s, 0 ≤ s < n → zget lft s = lo s ∧ zget rgt s = lo (s + 1) - 1)
    as Hlo.
  { intros s Hs. destruct (Hpart s Hs) as (Hl & Hr & _). done. }
  assert (∀ s, 0 ≤ s < n →
            ∃ ws we, window dir (s + p1) = Some (ws, we)
                     ∧ 0 ≤ ws ∧ ws ≤ zget lft s ∧ zget rgt s ≤ we
                     ∧ we < Z.of_nat (length X2)) as Hwin.
  { intros s Hs. destruct (Hlo s Hs) as [-> ->].
    destruct (part_facts s Hs)
      as (Hw & _ & Hs0 & Hslo & Hlole & Hloe & HeN & HLlo & HloR).
    replace (s + p1) with (p1 + s) by lia. eexists _, _.
    split; [exact Hw|]. lia. }
  set (rows0 := sched_rows lft rgt Iv Jv A0 A1 A2 (zeros n) (zeros n) (zeros n)).
  set (S0 := phase_unsent rows0 n 0 0 ++ phase_unsent rows0 n 1 0
             ++ phase_unsent rows0 n 2 0).
  destruct (first_unsent_perm n lft rgt Iv Jv A0 A1 A2 lo Hcounts Hlo
              (Z.to_nat n) 0 ltac:(lia) ltac:(lia)) as [_ Hperm].
  fold rows0 in Hperm. fold S0 in Hperm.
  rewrite part_start_0, part_start_n in Hperm.
  assert (Z.of_nat (length S0) = R + 1 - L) as HlS0.
  { rewrite Hperm, length_seqZ. lia. }
  assert (∀ s, 0 ≤ s ≤ n → L ≤ lo s ≤ L + Z.of_nat (length S0)) as Hlo_in.
  { intros s Hs. pose proof (part_start_in s Hs). lia. }
  pose proof (first_unsent_length n lft rgt Iv Jv A0 A1 A2 ltac:(lia) Hfixed
                Hcounts 0 (Z.to_nat n) 0 ltac:(lia) ltac:(lia) ltac:(lia)) as Hlen0.
  pose proof (first_unsent_length n lft rgt Iv Jv A0 A1 A2 ltac:(lia) Hfixed
                Hcounts 1 (Z.to_nat n) 0 ltac:(lia) ltac:(lia) ltac:(lia)) as Hlen1.
  fold rows0 in Hlen0, Hlen1.
  change (drop (Z.to_nat 0) (rows0 !!! Z.to_nat (4 + 2 * 0))) with A0 in Hlen0.
  change (drop (Z.to_nat 0) (rows0 !!! Z.to_nat (4 + 2 * 1))) with A1 in Hlen1.
  set (PU0 := phase_unsent rows0 n 0 0) in *.
  set (PU1 := phase_unsent rows0 n 1 0) in *.
  set (PU2 := phase_unsent rows0 n 2 0) in *.
  assert (∀ Y, length Y = length X →
            ∃ X' Y',
              PartitionRedistribute dir X Y L R K dim p1 p2
              = Some (X', Y', (L + Z.of_nat (length PU0),
                               L + Z.of_nat (length PU0) + Z.of_nat (length PU1)))
              ∧ length X' = length X2
              ∧ ∀ i : nat,
                  X' !! i = if decide (L ≤ Z.of_nat i ≤ R)
                            then X2 !! Z.to_nat (zget S0 (Z.of_nat i - L))
                            else X2 !! i) as Hrun.
  { intros Y HY. unfold PartitionRedistribute.
    rewrite Hhk. cbn [mbind option_bind].
    rewrite (window_eq dir Hdir hk) by lia. cbn [mbind option_bind].
    rewrite GetLocalVal_in by lia. cbn [mbind option_bind].
    rewrite load_in by (unfold window_ok; lia). cbn [mbind option_bind].
    fold (cv dim X K). fold T. rewrite Hfold.
    cbn [mbind option_bind]. cbv zeta.
    change ((λ p : Z * Z * Z * Z, p.1.1.1) <$> parts) with lft.
    change ((λ p : Z * Z * Z * Z, p.1.1.2) <$> parts) with rgt.
    change ((λ p : Z * Z * Z * Z, p.1.2) <$> parts) with Iv.
    change ((λ p : Z * Z * Z * Z, p.2) <$> parts) with Jv.
    change ((λ p : Z * Z * Z * Z, p.1.2 - p.1.1.1) <$> parts) with A0.
    change ((λ p : Z * Z * Z * Z, p.2 - p.1.2) <$> parts) with A1.
    change ((λ p : Z * Z * Z * Z, p.1.1.2 - p.2 + 1) <$> parts) with A2.
    rewrite <-Hlen0, <-Hlen1.
    assert (lft ++ rgt ++ Iv ++ Jv ++ A0 ++ zeros n ++ A1 ++ zeros n ++ A2 ++ zeros n
            = concat rows0) as ->.
    { unfold rows0, sched_rows. cbn [concat]. by rewrite app_nil_r. }
    assert (Forall (λ U, length U = Z.to_nat n) [zeros n; zeros n; zeros n]) as HU0.
    { repeat constructor; unfold zeros; by rewrite length_replicate. }
    destruct (sched_rows_ok n lft rgt Iv Jv A0 A1 A2 Hfixed _ _ _ HU0) as [HF HLr].
    fold rows0 in HF, HLr.
    rewrite (rows_lookup n rows0 ltac:(lia) HF 0 0) by (rewrite ?HLr; lia).
    cbn [mbind option_bind].
    change (rows0 !!! Z.to_nat 0) with lft.
    destruct (Hlo 0 ltac:(lia)) as [Hl0 _]. rewrite Hl0, part_start_0.
    destruct (keep_outside_spec X2 Y) as (Y1 & -> & HlY1 & Hkeep); [lia|congruence|].
    cbn [mbind option_bind].
    destruct (receive_all dir X2 Y1 p1 n L lft rgt Iv Jv A0 A1 A2 S0 lo
                {| SelectBuffer := concat rows0; NextPtArray := Y1;
                   leftRemaining := Z.of_nat (length PU0);
                   centerRemaining := Z.of_nat (length PU1);
                   nextLeftProc := 0; nextCenterProc := 0; nextRightProc := 0 |})
      as (s' & -> & Hsched); try done; try lia.
    { exists (zeros n), (zeros n), (zeros n).
      cbn [SelectBuffer NextPtArray leftRemaining centerRemaining nextLeftProc
           nextCenterProc nextRightProc].
      fold rows0. rewrite part_start_0, Z.sub_diag.
      split_and!; try done; try lia.
      - intros ph i Hph Hi. destruct (Hcounts i Hi) as (_ & _ & _ & ? & ? & ?).
        phase_cases ph; unfold rows0, sched_rows; cbn;
          rewrite zget_zeros by lia; lia.
      - apply placed_none. }
    destruct Hsched as (U0 & U1 & U2 & _ & _ & _ & _ & _ & _ & _ & _ & _ & HlY2 & Hpl).
    rewrite part_start_n in Hpl.
    cbn [mbind option_bind].
    destruct (switch_spec X2 (NextPtArray s')) as (X' & Y' & -> & HlX' & Hsw);
      [lia|done|].
    cbn [mbind option_bind].
    assert (∀ i : nat,
              X' !! i = if decide (L ≤ Z.of_nat i ≤ R)
                        then X2 !! Z.to_nat (zget S0 (Z.of_nat i - L))
                        else X2 !! i) as Hfinal.
    { intros i. rewrite Hsw. destruct Hpl as [_ Hpl]. rewrite Hpl.
      destruct (decide (L ≤ Z.of_nat i ≤ R)).
      - rewrite decide_True by lia. by rewrite decide_True by lia.
      - destruct (decide (first_of p1 ≤ Z.of_nat i < first_of (p2 + 1))); [|done].
        rewrite decide_False by lia. by apply Hkeep. }
    exists X', Y'. done. }
  destruct (Hrun X eq_refl) as (X' & _ & _ & HlX' & Hfinal).
  assert (∀ k, L ≤ k ≤ R → cv dim X' k = cv dim X2 (zget S0 (k - L))) as Hcv.
  { intros k Hk. unfold cv, pt. rewrite !list_lookup_total_alt.
    rewrite Hfinal, Z2Nat.id by lia. by rewrite decide_True by lia. }
  assert (∀ ph x, 0 ≤ ph ≤ 2 → x ∈ phase_unsent rows0 n ph 0 →
            ∃ s, 0 ≤ s < n
                 ∧ phase_base rows0 ph s ≤ x
                   < phase_base rows0 ph s
                     + zget (rows0 !!! Z.to_nat (4 + 2 * ph)) s) as Helem.
  { intros ph x Hph Hx.
    by apply (first_unsent_elem n lft rgt Iv Jv A0 A1 A2 ph x Hph). }
  assert (Z.of_nat (length PU0) + Z.of_nat (length PU1) + Z.of_nat (length PU2)
          = R + 1 - L) as Hsum.
  { rewrite <-HlS0. unfold S0. rewrite !length_app. lia. }
  exists X', (L + Z.of_nat (length PU0)),
    (L + Z.of_nat (length PU0) + Z.of_nat (length PU1)).
  split.
  { intros Y HY. destruct (Hrun Y HY) as (X'' & Y' & Hr & HlX'' & Hfinal'').
    exists Y'. rewrite Hr.
    assert (X'' = X') as ->; [|reflexivity].
    apply list_eq. intros i. by rewrite Hfinal, Hfinal''. }
  split; [|split].
  - eapply rearranged_trans; [by apply exchanges_rearranged|].
    apply (permuted_range X2 X' S0); try done; lia.
  - assert (zget Iv (hk - p1) ∈ PU1) as Hin.
    { apply (first_unsent_elem n lft rgt Iv Jv A0 A1 A2 1); [lia|].
      exists (hk - p1). split; [lia|].
      destruct (Hpart (hk - p1) ltac:(lia)) as (Hl & Hr & _ & HIJ & Ha0 & Ha1 & _).
      unfold phase_base; row_index; unfold sched_rows; cbn. lia. }
    destruct PU1; [by apply elem_of_nil in Hin|]. cbn [length]. lia.
  - unfold three_way. split_and!; try lia.
    + intros k Hk. rewrite Hcv by lia.
      assert (zget S0 (k - L) = zget PU0 (k - L)) as ->.
      { unfold zget, S0. by rewrite lookup_total_app_l by lia. }
      destruct (Helem 0 (zget PU0 (k - L)) ltac:(lia)) as (s & Hs & Hx).
      { apply (zget_elem PU0). lia. }
      destruct (Hpart s Hs)
        as (Hl & Hr & (_ & _ & _ & Hlt' & _) & _ & Ha0 & Ha1 & Ha2).
      apply Hlt'. revert Hx. unfold phase_base; row_index.
      unfold rows0, sched_rows; cbn. lia.
    + intros k Hk. rewrite Hcv by lia.
      assert (zget S0 (k - L) = zget PU1 (k - L - Z.of_nat (length PU0))) as ->.
      { unfold zget, S0. rewrite lookup_total_app_r by lia.
        rewrite lookup_total_app_l by lia. f_equal. lia. }
      destruct (Helem 1 (zget PU1 (k - L - Z.of_nat (length PU0))) ltac:(lia))
        as (s & Hs & Hx).
      { apply (zget_elem PU1). lia. }
      destruct (Hpart s Hs)
        as (Hl & Hr & (_ & _ & _ & _ & Heq' & _) & _ & Ha0 & Ha1 & Ha2).
      apply Heq'. revert Hx. unfold phase_base; row_index.
      unfold rows0, sched_rows; cbn. lia.
    + intros k Hk. rewrite Hcv by lia.
      assert (zget S0 (k - L)
              = zget PU2 (k - L - Z.of_nat (length PU0) - Z.of_nat (length PU1)))
        as ->.
      { unfold zget, S0. rewrite lookup_total_app_r by lia.
        rewrite lookup_total_app_r by lia. f_equal. lia. }
      destruct (Helem 2 (zget PU2 (k - L - Z.of_nat (length PU0)
                                    - Z.of_nat (length PU1))) ltac:(lia))
        as (s & Hs & Hx).
      { apply (zget_elem PU2). lia. }
      destruct (Hpart s Hs)
        as (Hl & Hr & (_ & _ & _ & _ & _ & Hgt') & _ & Ha0 & Ha1 & Ha2).
      apply Hgt'. revert Hx. unfold phase_base; row_index.
      unfold rows0, sched_rows; cbn. lia.
Qed.

End Redistribute.

(** *** The redistribution branch of PartitionSubArray *)

(** When several processes hold [[L, R]], PartitionSubArray returns:
    every process partitions its part, the schedule sends every value of
    [[L, R]] to its place in the next buffers, and after the switch of the
    buffers the global array holds the same points, those outside [[L, R]]
    have not moved, and [[L, R]] is partitioned about the value at [K]
    into the values below it, a block [[I, J)] of values equal to it that
    is not empty, and the values above it, whatever the next buffers held
    before. *)
Theorem PartitionSubArray_redistributes (dir : Directory) (X Y : list point)
    (L R K dim p1 p2 : Z) :
  dir_ok dir →
  Z.of_nat (length X) = TotalNumCells dir → length Y = length X →
  0 ≤ L → L ≤ K ≤ R → R < TotalNumCells dir →
  WhoHas dir L = Some p1 → WhoHas dir R = Some p2 → p1 ≠ p2 →
  ∃ X' Y' I J,
    PartitionRedistribute dir X Y L R K dim p1 p2 = Some (X', Y', (I, J))
    ∧ rearranged L R X X' ∧ I < J
    ∧ three_way dim (cv dim X K) L R X' I J.
Proof.
  intros Hdir HX HY HL HK HR Hp1 Hp2 Hne.
  destruct (PartitionRedistribute_spec dir Hdir L R K dim p1 p2 HL HK HR Hp1
              Hp2 Hne X HX) as (X' & I & J & Hrun & Hre & HIJ & H3).
  destruct (Hrun Y HY) as (Y' & HY').
  exists X', Y', I, J. exact (conj HY' (conj Hre (conj HIJ H3))).
Qed.

(** What the next buffers hold before the call does not show in the
    result: with the same current buffers, two calls of the redistribution
    branch return the same array and the same two indices. *)
Theorem PartitionSubArray_next_buffers (dir : Directory) (X Y1 Y2 : list point)
    (L R K dim p1 p2 : Z) :
  dir_ok dir →
  Z.of_nat (length X) = TotalNumCells dir →
  length Y1 = length X → length Y2 = length X →
  0 ≤ L → L ≤ K ≤ R → R < TotalNumCells dir →
  WhoHas dir L = Some p1 → WhoHas dir R = Some p2 → p1 ≠ p2 →
  ∃ X' Y1' Y2' I J,
    PartitionRedistribute dir X Y1 L R K dim p1 p2 = Some (X', Y1', (I, J))
    ∧ PartitionRedistribute dir X Y2 L R K dim p1 p2 = Some (X', Y2', (I, J)).
Proof.
  intros Hdir HX HY1 HY2 HL HK HR Hp1 Hp2 Hne.
  destruct (PartitionRedistribute_spec dir Hdir L R K dim p1 p2 HL HK HR Hp1
              Hp2 Hne X HX) as (X' & I & J & Hrun & _).
  destruct (Hrun Y1 HY1) as (Y1' & H1). destruct (Hrun Y2 HY2) as (Y2' & H2).
  exists X', Y1', Y2', I, J. exact (conj H1 H2).
Qed.

(** Three processes with the values [5 1 | 3 3 | 0 4] along x, partitioned
    about the value at index 2: the block of the values equal to 3 is
    [[2, 4)]. *)
Lemma PartitionSubArray_redistributes_witness :
  ∃ X' Y' I J,
    PartitionRedistribute (BuildGlobalIndexLists [2; 2; 2]) six_points
      (replicate 6 (Point 0 0 0)) 0 5 2 0 0 2
    = Some (X', Y', (I, J))
    ∧ (I, J) = (2, 4)
    ∧ rearranged 0 5 six_points X' ∧ I < J
    ∧ three_way 0 (cv 0 six_points 2) 0 5 X' I J.
Proof.
  destruct (PartitionSubArray_redistributes (BuildGlobalIndexLists [2; 2; 2])
              six_points (replicate 6 (Point 0 0 0)) 0 5 2 0 0 2)
    as (X' & Y' & I & J & Hrun & Hre & HIJ & H3).
  - apply BuildGlobalIndexLists_ok; [cbn; lia|repeat constructor; lia].
  - reflexivity.
  - reflexivity.
  - lia.
  - lia.
  - cbn. lia.
  - reflexivity.
  - reflexivity.
  - lia.
  - exists X', Y', I, J. split; [exact Hrun|].
    split; [|exact (conj Hre (conj HIJ H3))].
    vm_compute in Hrun. injection Hrun as _ _ <- <-. reflexivity.
Defined.

(** The next buffers hold zeros in one call and the points in the other. *)
Lemma PartitionSubArray_next_buffers_witness :
  ∃ X' Y1' Y2' I J,
    PartitionRedistribute (BuildGlobalIndexLists [2; 2; 2]) six_points
      (replicate 6 (Point 0 0 0)) 0 5 2 0 0 2
    = Some (X', Y1', (I, J))
    ∧ PartitionRedistribute (BuildGlobalIndexLists [2; 2; 2]) six_points
        six_points 0 5 2 0 0 2
      = Some (X', Y2', (I, J)).
Proof.
  apply (PartitionSubArray_next_buffers (BuildGlobalIndexLists [2; 2; 2])
           six_points (replicate 6 (Point 0 0 0)) six_points 0 5 2 0 0 2).
  - apply BuildGlobalIndexLists_ok; [cbn; lia|repeat constructor; lia].
  - reflexivity.
  - reflexivity.
  - reflexivity.
  - lia.
  - lia.
  - cbn. lia.
  - reflexivity.
  - reflexivity.
  - lia.
Defined.

(** ** The sample of _select *)

Section Sample.

#[local] Open Scope R_scope.

Lemma Int_part_bounds (x : R) : IZR (Int_part x) <= x ∧ x < IZR (Int_part x) + 1.
Proof. destruct (base_Int_part x) as [H1 H2]. split; lra. Qed.

Lemma Int_part_mono (x y : R) : x <= y → (Int_part x ≤ Int_part y)%Z.
Proof.
  intros Hxy. destruct (Int_part_bounds x) as [Hx _].
  destruct (Int_part_bounds y) as [_ Hy].
  assert (IZR (Int_part x) < IZR (Int_part y + 1)) as Hlt.
  { rewrite plus_IZR. lra. }
  apply lt_IZR in Hlt. lia.
Qed.

Lemma Int_part_0 : Int_part 0 = 0%Z.
Proof.
  destruct (Int_part_bounds 0) as [H1 H2].
  assert (IZR (Int_part 0) < IZR 1) as Ha by lra.
  assert (IZR (-1) < IZR (Int_part 0)) as Hb by lra.
  apply lt_IZR in Ha, Hb. lia.
Qed.

Lemma to_int_nonneg (x : R) : 0 <= x → to_int x = Int_part x.
Proof. intros Hx. unfold to_int. by destruct (Rle_dec 0 x). Qed.

Lemma to_int_bounds (x : R) :
  0 <= x → (0 ≤ to_int x)%Z ∧ IZR (to_int x) <= x ∧ x < IZR (to_int x) + 1.
Proof.
  intros Hx. rewrite to_int_nonneg by done.
  destruct (Int_part_bounds x) as [H1 H2]. split; [|done].
  rewrite <-Int_part_0. by apply Int_part_mono.
Qed.

Lemma to_int_mono (x y : R) : 0 <= x → x <= y → (to_int x ≤ to_int y)%Z.
Proof.
  intros Hx Hxy. rewrite !to_int_nonneg by lra. by apply Int_part_mono.
Qed.

Lemma to_int_opp (x : R) : 0 <= x → to_int (x * -1) = (- to_int x)%Z.
Proof.
  intros Hx. destruct (Req_dec x 0) as [->|Hne].
  - rewrite Rmult_0_l, to_int_nonneg, Int_part_0 by lra. done.
  - unfold to_int at 1. destruct (Rle_dec 0 (x * -1)) as [Hle|_]; [lra|].
    rewrite to_int_nonneg by done. do 2 f_equal. lra.
Qed.

Lemma Rdiv_nonneg (x y : R) : 0 <= x → 0 < y → 0 <= x / y.
Proof.
  intros Hx Hy. unfold Rdiv. apply Rmult_le_pos; [done|].
  left. by apply Rinv_0_lt_compat.
Qed.

Lemma cube_root (N : Z) :
  (601 < N)%Z →
  ∃ t, 8 <= t ∧ t * t * t = IZR N
       ∧ exp (2 * sample_Z N / 3) = t * t
       ∧ 0 <= sample_Z N ∧ sample_Z N <= 3 * (t - 1).
Proof.
  intros HN. unfold sample_Z.
  assert (601 < IZR N) as Hn by (apply (IZR_lt 601); lia).
  set (n := IZR N) in *. set (a := ln n / 3).
  assert (0 < ln n) as Hln.
  { rewrite <-ln_1. apply ln_increasing; lra. }
  assert (0 < a) as Ha by (unfold a; lra).
  exists (exp a).
  assert (exp a * exp a * exp a = n) as Hcube.
  { rewrite <-!exp_plus. replace (a + a + a) with (ln n) by (unfold a; lra).
    apply exp_ln. lra. }
  pose proof (exp_pos a) as Hpos. assert (a ≠ 0) as Hane by lra. pose proof (exp_ineq1 a Hane) as Hineq.
  split_and!.
  - destruct (Rle_lt_dec 8 (exp a)) as [|Hlt]; [done|].
    assert (exp a * exp a < 64) by nra.
    assert (exp a * exp a * exp a < 512) by nra. lra.
  - done.
  - rewrite <-exp_plus. f_equal. unfold a. lra.
  - lra.
  - assert (ln n = 3 * a) as Hna by (unfold a; lra). lra.
Qed.

Lemma sample_S_bounds (N : Z) :
  (601 < N)%Z →
  ∃ t, 8 <= t ∧ t * t * t = IZR N
       ∧ 0 <= sample_Z N ∧ sample_Z N <= 3 * (t - 1)
       ∧ (0 ≤ sample_S N)%Z
       ∧ IZR (sample_S N) <= t * t / 2
       ∧ t * t / 2 - 1 < IZR (sample_S N).
Proof.
  intros HN. destruct (cube_root N HN) as (t & Ht & Hcube & Hsq & Hz0 & Hz).
  exists t. unfold sample_S. rewrite Hsq.
  destruct (to_int_bounds (1 / 2 * (t * t))) as (H0 & H1 & H2); [nra|].
  split_and!; try done; lra.
Qed.

(** The square root of [SD] is below the part of the sample on the side
    that holds half of the interval. *)
Lemma sample_half (N I : Z) :
  (601 < N)%Z → (0 ≤ I ≤ N)%Z → (N - 1 ≤ 2 * I)%Z →
  let S := sample_S N in
  0 <= 1 / 2 * sqrt (sample_Z N * IZR S * (IZR (N - S) / IZR N))
  ∧ 1 / 2 * sqrt (sample_Z N * IZR S * (IZR (N - S) / IZR N))
    <= IZR I * (IZR S / IZR N).
Proof.
  intros HN HI Hhalf S.
  destruct (sample_S_bounds N HN) as (t & Ht & Hcube & Hz0 & Hz & HS0 & HSle & HSlt).
  fold S in HS0, HSle, HSlt.
  assert (601 < IZR N) as Hn by (apply (IZR_lt 601); lia).
  assert (IZR N - 1 <= 2 * IZR I) as Hi.
  { replace (IZR N - 1) with (IZR (N - 1)) by (rewrite minus_IZR; lra).
    replace (2 * IZR I) with (IZR (2 * I)) by (rewrite mult_IZR; lra).
    by apply IZR_le. }
  assert (0 <= IZR I) as Hi0 by (apply (IZR_le 0); lia).
  rewrite minus_IZR.
  set (n := IZR N) in *. set (s := IZR S) in *. set (i := IZR I) in *.
  set (z := sample_Z N) in *.
  assert (0 <= s) as Hs0 by (apply (IZR_le 0); lia).
  assert (31 <= s) as Hs31 by nra.
  assert (s <= n) as Hsn by nra.
  split; [pose proof (sqrt_pos (z * s * ((n - s) / n))); lra|].
  set (B := 2 * i * (s / n)).
  assert (0 <= s / n) as Hq by (apply Rdiv_nonneg; lra).
  assert (0 <= B) as HB by (unfold B; nra).
  assert (sqrt (z * s * ((n - s) / n)) <= B); [|unfold B in *; lra].
  rewrite <-(sqrt_square B) by done.
  apply sqrt_le_1_alt.
  (* z * s * (n - s) / n <= 4 i^2 s^2 / n^2 *)
  assert (z * (n - s) * n <= (n - 1) * (n - 1) * s) as Hkey.
  { assert (0 <= n * n) as Hnn by nra.
    assert (z * (n - s) * n <= 3 * (t - 1) * n * n) as H1.
    { assert (0 <= z * s * n) as Ha.
      { apply Rmult_le_pos; [apply Rmult_le_pos|]; lra. }
      assert (0 <= (3 * (t - 1) - z) * (n * n)) as Hb.
      { apply Rmult_le_pos; lra. }
      lra. }
    assert ((4 * t - 1) <= s) as H2 by nra.
    assert (3 * (t - 1) * n * n <= (n - 1) * (n - 1) * (4 * t - 1)) as H3.
    { (* (4t - 1)(n - 1)^2 - 3(t - 1)n^2 = (t + 2) n^2 - 2(4t - 1) n + 4t - 1 *)
      assert (0 <= (t + 2) * n * n - 2 * (4 * t - 1) * n) as Hc.
      { assert (0 <= n * ((t + 2) * n - 2 * (4 * t - 1))) as Hd.
        { apply Rmult_le_pos; [lra|]. nra. }
        lra. }
      lra. }
    assert (0 <= (n - 1) * (n - 1) * (s - (4 * t - 1))) as H4.
    { apply Rmult_le_pos; [nra|lra]. }
    lra. }
  unfold B.
  assert ((n - 1) * (n - 1) <= 2 * i * (2 * i)) as Hsq by nra.
  assert (z * s * ((n - s) / n) = z * (n - s) * n * s / (n * n)) as ->.
  { field. lra. }
  assert (2 * i * (s / n) * (2 * i * (s / n))
          = 2 * i * (2 * i) * s * s / (n * n)) as ->.
  { field. lra. }
  apply Rmult_le_compat_r; [left; apply Rinv_0_lt_compat; nra|].
  nra.
Qed.

Lemma sample_bounds_ok : sample_ok sample_left sample_right sample_SD.
Proof.
  intros N I HN HI.
  destruct (sample_S_bounds N ltac:(lia))
    as (t & Ht & Hcube & Hz0 & Hz & HS0 & HSle & HSlt).
  assert (601 < IZR N) as Hn by (apply (IZR_lt 601); lia).
  assert (1 <= IZR I <= IZR N) as Hi by (split; apply IZR_le; lia).
  assert (0 <= IZR (N - I)) as Hni by (apply (IZR_le 0); lia).
  assert (0 <= IZR (sample_S N)) as Hs by (apply (IZR_le 0); lia).
  assert (0 <= IZR (sample_S N) / IZR N) as Hq by (apply Rdiv_nonneg; lra).
  assert (IZR (sample_S N) / IZR N * IZR N = IZR (sample_S N)) as Hqn
    by (field; lra).
  destruct (to_int_bounds (IZR I * (IZR (sample_S N) / IZR N)))
    as (Hl0 & Hl1 & _); [nra|].
  destruct (to_int_bounds (IZR (N - I) * (IZR (sample_S N) / IZR N)))
    as (Hr0 & Hr1 & _); [nra|].
  fold (sample_left N I) in Hl0, Hl1. fold (sample_right N I) in Hr0, Hr1.
  assert (sample_left N I + sample_right N I < N - 1)%Z as Hshrink.
  { apply lt_IZR. rewrite plus_IZR, !minus_IZR in *. 
    assert (IZR (sample_S N) < IZR N - 1) by nra. nra. }
  split; [|split; [|done]].
  - unfold sample_SD, sign. destruct (Z.ltb_spec (I - cdiv N 2) 0) as [Hlt|Hge].
    + destruct (sample_half N (N - I)) as [Hx0 _]; [lia|lia| |].
      { unfold cdiv in Hlt. pose proof (Z.quot_rem' N 2).
        pose proof (Z.rem_bound_pos N 2). lia. }
      rewrite to_int_opp by done.
      destruct (to_int_bounds _ Hx0) as (? & _). lia.
    + destruct (sample_half N I) as [Hx0 Hx]; [lia|lia| |].
      { unfold cdiv in Hge. pose proof (Z.quot_rem' N 2).
        pose proof (Z.rem_bound_pos N 2). lia. }
      rewrite Rmult_1_r. by apply to_int_mono.
  - unfold sample_SD, sign. destruct (Z.ltb_spec (I - cdiv N 2) 0) as [Hlt|Hge].
    + destruct (sample_half N (N - I)) as [Hx0 Hx]; [lia|lia| |].
      { unfold cdiv in Hlt. pose proof (Z.quot_rem' N 2).
        pose proof (Z.rem_bound_pos N 2). lia. }
      rewrite to_int_opp by done.
      pose proof (to_int_mono _ _ Hx0 Hx) as Hm.
      fold (sample_right N I) in Hm. lia.
    + destruct (sample_half N I) as [Hx0 _]; [lia|lia| |].
      { unfold cdiv in Hge. pose proof (Z.quot_rem' N 2).
        pose proof (Z.rem_bound_pos N 2). lia. }
      rewrite Rmult_1_r. destruct (to_int_bounds _ Hx0) as (? & _). lia.
Qed.

End Sample.

(** ** _select and Select on the code of the branch and of the sample *)

(** The branch of the code partitions as [distributed_ok] asks. *)
Lemma redistribution_ok (dir : Directory) (Y : list point) :
  dir_ok dir → Z.of_nat (length Y) = TotalNumCells dir →
  distributed_ok dir (redistribution dir Y).
Proof.
  intros Hdir HY X L R K dim p1 p2 HX HL HK HR Hp1 Hp2 Hne.
  destruct (PartitionRedistribute_spec dir Hdir L R K dim p1 p2 HL HK HR Hp1
              Hp2 Hne X HX) as (X' & I & J & Hrun & Hre & HIJ & H3).
  destruct (Hrun Y ltac:(lia)) as (Y' & HY').
  exists X', I, J. unfold redistribution. rewrite HY'.
  exact (conj eq_refl (conj Hre (conj HIJ H3))).
Qed.



(** C3: the selection loop [_select] of the code returns for every
    [L <= K <= R], given enough fuel, with the partition of the code on
    one process and on several and with the sample of the code: each
    partition returns [(I, J)] with [I < J], so the update either moves
    [L] to [J], above the old [L], or moves [R] to [I - 1], below the old
    [R], or ends the loop when [I <= K < J], and [R - L] decreases; [Y] is
    what the next buffers hold. *)
Theorem _select_terminates (dir : Directory) (X Y : list point)
    (L R K dim : Z) :
  dir_ok dir →
  Z.of_nat (length X) = TotalNumCells dir →
  Z.of_nat (length Y) = TotalNumCells dir →
  0 ≤ L → L ≤ K ≤ R → R < TotalNumCells dir →
  (∀ fuel : nat, (Z.to_nat (R - L) < fuel)%nat →
     ∃ X', _select dir (redistribution dir Y) sample_left sample_right
             sample_SD fuel X L R K dim = Some X')
  ∧ (L < R →
     ∀ p1 p2, WhoHas dir L = Some p1 → WhoHas dir R = Some p2 →
     ∃ X' I J L' R',
       PartitionSubArray dir (redistribution dir Y) X L R K dim p1 p2
       = Some (X', (I, J))
       ∧ L ≤ I ∧ I < J ∧ J ≤ R + 1
       ∧ select_update L R K I J = (L', R')
       ∧ ((J ≤ K ∧ L' = J ∧ R' = R ∧ L < L')
          ∨ (K < I ∧ L' = L ∧ R' = I - 1 ∧ R' < R)
          ∨ (I ≤ K < J ∧ L' = R ∧ R' = R))
       ∧ R' - L' < R - L).
Proof.
  intros Hdir Hlen HY HL HK HR.
  pose proof (redistribution_ok dir Y Hdir HY) as Hdist.
  pose proof sample_bounds_ok as Hfr. split.
  - intros fuel Hfuel.
    destruct (_select_loop dir Hdir (redistribution dir Y) sample_left
                sample_right sample_SD Hdist Hfr dim L R K fuel X L R)
      as (X' & HX' & _); try lia.
    { split; intros; lia. }
    by exists X'.
  - intros HLR p1 p2 Hp1 Hp2.
    destruct (PartitionSubArray_spec dir Hdir (redistribution dir Y) Hdist
                X L R K dim p1 p2)
      as (X' & I & J & HPS & _ & HIJ & HI & _ & HJ & _); try assumption; try lia.
    destruct (select_update_shrinks L R K I J)
      as (L' & R' & HU & U1 & U2 & U3 & U4 & _); try lia.
    exists X', I, J, L', R'. split; [exact HPS|].
    split; [lia|]. split; [lia|]. split; [lia|]. split; [exact HU|].
    split; [|lia].
    destruct (Z_le_gt_dec J K); [left; lia|].
    destruct (Z_lt_ge_dec K I); [right; left; lia|right; right; lia].
Qed.

(** Three processes with two points each: the loop meets the branch for
    several processes and leaves the values [1 0 3 3 5 4] along x. *)
Lemma _select_terminates_witness :
  ∃ X', _select (BuildGlobalIndexLists [2; 2; 2])
          (redistribution (BuildGlobalIndexLists [2; 2; 2])
             (replicate 6 (Point 0 0 0)))
          sample_left sample_right sample_SD 6 six_points 0 5 3 XDIM
        = Some X'
        ∧ px <$> X' = [1; 0; 3; 3; 5; 4].
Proof.
  destruct (proj1 (_select_terminates (BuildGlobalIndexLists [2; 2; 2])
                     six_points (replicate 6 (Point 0 0 0)) 0 5 3 XDIM
                     ltac:(apply BuildGlobalIndexLists_ok;
                           [cbn; lia|repeat constructor; lia])
                     eq_refl eq_refl ltac:(lia) ltac:(lia)
                     ltac:(cbn; lia)) 6%nat ltac:(lia)) as (X' & HX').
  exists X'. split; [exact HX'|].
  vm_compute in HX'. injection HX' as <-. reflexivity.
Defined.

(** C2: the index that [Select] returns is not the first index of the
    range from which the values equal the value at [K]: on [[2, 3]] of
    [four_points] along [YDIM], [K] is [3], the values of the range are
    both [5], and [Select] returns [0] and not [2]: the scan of the equal
    values runs from [K - 1] down to the first index of the process and
    not down to [L], and it ends at a value below the value at [K] only,
    so it passes the [5] at index [1] and the [7] at index [0], which is
    not the value at [K]. *)
Theorem Select_rolls_back_below_L :
  Select (BuildGlobalIndexLists [4])
    (redistribution (BuildGlobalIndexLists [4]) (replicate 4 (Point 0 0 0)))
    sample_left sample_right sample_SD four_points 0 0 YDIM 2 3
  = Some (four_points, 0)
  ∧ 2 ≤ 3 ∧ cdiv (3 + 2) 2 + 1 = 3
  ∧ cv YDIM four_points 2 = cv YDIM four_points 3
  ∧ ¬ (∀ i, 0 ≤ i ≤ 3 → cv YDIM four_points i = cv YDIM four_points 3).
Proof.
  split; [by vm_compute|]. split; [lia|]. split; [by vm_compute|].
  split; [by vm_compute|].
  intros H. specialize (H 0 ltac:(lia)). by vm_compute in H.
Qed.

(** For [0 <= L < R], [Select] of the code, with the target
    [K = (L + R) / 2 + 1], rearranges the points of [[L, R]] and leaves the
    others in place; the point at [K] then holds the [(K - L + 1)]-th
    smallest coordinate of the range, nothing left of [K] is above it and
    nothing right of [K] is below it; the index [K'] returned is at most
    [K], every point of [[L, K')] is strictly below the value at [K], and
    every point from [max L K'] to [K] holds that value. *)
Theorem Select_partitions (dir : Directory) (X Y : list point)
    (p1 p2 dim L R : Z) :
  dir_ok dir →
  Z.of_nat (length X) = TotalNumCells dir →
  Z.of_nat (length Y) = TotalNumCells dir →
  0 ≤ L → L < R → R < TotalNumCells dir →
  WhoHas dir L = Some p1 → WhoHas dir R = Some p2 →
  let K := cdiv (R + L) 2 + 1 in
  ∃ X' K',
    Select dir (redistribution dir Y) sample_left sample_right sample_SD
      X p1 p2 dim L R
    = Some (X', K')
    ∧ rearranged L R X X'
    ∧ L < K ≤ R
    ∧ kth_smallest (K - L + 1) (cv dim X' K) (coords dim L R X)
    ∧ (∀ i, L ≤ i < K → cv dim X' i ≤ cv dim X' K)
    ∧ (∀ j, K < j ≤ R → cv dim X' K ≤ cv dim X' j)
    ∧ K' ≤ K
    ∧ (∀ i, L ≤ i < K' → cv dim X' i < cv dim X' K)
    ∧ (∀ i, Z.max L K' ≤ i ≤ K → cv dim X' i = cv dim X' K).
Proof.
  intros Hdir Hlen HY HL HLR HR Hp1 Hp2 K.
  pose proof (redistribution_ok dir Y Hdir HY) as Hdist.
  destruct (Select_spec dir Hdir (redistribution dir Y) sample_left
              sample_right sample_SD Hdist sample_bounds_ok X p1 p2 dim L R)
    as (X' & K' & I & J & HS & Hre & HIK & HKJ & Htw & HK'I & HK');
    try assumption.
  fold K in HIK, HKJ, Htw.
  pose proof (target_in_range L R HL HLR) as HK. fold K in HK.
  pose proof (rearranged_length _ _ _ _ Hre) as Hlen'.
  pose proof Htw as (HI & _ & HJ & T1 & T2 & T3).
  exists X', K'. split; [exact HS|]. split; [exact Hre|]. split; [exact HK|].
  split.
  { eapply kth_smallest_Permutation;
      [|eapply (three_way_kth dim L R K I J X'); try assumption; lia].
    unfold coords. apply fmap_Permutation. apply rearranged_slice; [lia..|exact Hre]. }
  split_and!.
  - intros i Hi. destruct (Z_lt_ge_dec i I); [specialize (T1 i)|specialize (T2 i)]; lia.
  - intros j Hj. destruct (Z_lt_ge_dec j J); [specialize (T2 j)|specialize (T3 j)]; lia.
  - lia.
  - intros i Hi. apply T1. lia.
  - intros i Hi. apply T2.
    destruct (Z_lt_ge_dec L I); [rewrite HK' in Hi by assumption|]; lia.
Qed.

(** Three processes with two points each: [K] is [3], the values along x
    become [1 0 3 3 5 4], and [Select] returns [2], the first index of the
    values equal to [3]. *)
Lemma Select_partitions_witness :
  ∃ X' K',
    Select (BuildGlobalIndexLists [2; 2; 2])
      (redistribution (BuildGlobalIndexLists [2; 2; 2])
         (replicate 6 (Point 0 0 0)))
      sample_left sample_right sample_SD six_points 0 2 XDIM 0 5
    = Some (X', K')
    ∧ px <$> X' = [1; 0; 3; 3; 5; 4] ∧ K' = 2
    ∧ kth_smallest 4 (cv XDIM X' 3) (coords XDIM 0 5 six_points).
Proof.
  destruct (Select_partitions (BuildGlobalIndexLists [2; 2; 2]) six_points
              (replicate 6 (Point 0 0 0)) 0 2 XDIM 0 5)
    as (X' & K' & HS & _ & _ & Hkth & _).
  - apply BuildGlobalIndexLists_ok; [cbn; lia|repeat constructor; lia].
  - reflexivity.
  - reflexivity.
  - lia.
  - lia.
  - cbn. lia.
  - reflexivity.
  - reflexivity.
  - exists X', K'. split; [exact HS|].
    split; [|split; [|exact Hkth]];
      vm_compute in HS; injection HS as <- <-; reflexivity.
Defined.

(** ** The boundaries after CheckFixRegionBoundaries *)

(** C7: CheckFixRegionBoundaries returns the tree with its shape, with the
    dimension, the number of points and the data bounds of every node,
    with the region bounds of the top node and with the cut of every
    node, and in it every node that has children agrees with them: the
    left child's min and the right child's max are the node's in every
    dimension, the left child's max and the right child's min are the
    node's in every dimension but the split one, and along the split
    dimension the left child's max is the right child's min. *)
Theorem CheckFixRegionBoundaries_fixed (tree : KdTree) :
  boundaries_fixed (CheckFixRegionBoundaries tree)
  ∧ keeps_cuts tree (CheckFixRegionBoundaries tree)
  ∧ root_node (CheckFixRegionBoundaries tree) = root_node tree.
Proof.
  split; [apply CheckFix_from_fixed|].
  split; [|apply root_node_CheckFix_from].
  apply CheckFix_from_keeps, same_but_bounds_refl.
Qed.

(** On [drifted_tree] the left child gets the bounds
    [0, 4] x [0, 4] x [0, 2] and the right child [4, 8] x [0, 4] x [0, 2]. *)
Lemma CheckFixRegionBoundaries_fixed_witness :
  CheckFixRegionBoundaries drifted_tree
  = Split (SetDim 0 (SetBounds 0 8 0 4 0 2 new_node))
      (Leaf (SetBounds 0 4 0 4 0 2 new_node))
      (Leaf (SetBounds 4 8 0 4 0 2 new_node))
  ∧ boundaries_fixed (CheckFixRegionBoundaries drifted_tree)
  ∧ keeps_cuts drifted_tree (CheckFixRegionBoundaries drifted_tree)
  ∧ root_node (CheckFixRegionBoundaries drifted_tree) = root_node drifted_tree.
Proof.
  split; [reflexivity|]. apply (CheckFixRegionBoundaries_fixed drifted_tree).
Defined.
